(* ===== verification/_CoqProject ===== *)
-Q . S2P
Prelude.v
GoStd.v
GoNetIP.v
GoJSON.v
GoJSONProofs.v
GoHeap.v
DeepCopy.v
Types.v
Kube.v
Logic.v
ApiServer.v
Decode.v
Fixtures.v
ServiceManager.v
Actions.v
WaitRemote.v
RemoteCluster.v
Worlds.v
Watcher.v
WatcherProofs.v
Signaler.v
Netlink.v
NetlinkProofs.v
Agent.v
KillPayloads.v
KillProtocol.v
AgentProofs.v
Handshake.v
Controller.v
ControllerSpec.v
ControllerProofs.v
ControllerProps.v
WellFormed.v
ControllerProgress.v
ControllerGates.v
ControllerEvents.v
TwoClusters.v
Main.v
Ownership.v
