(* ===== verification/Prelude.v ===== *)
(** * k8s-failover-manager: a verification development

    The program keeps one service of a Kubernetes cluster pointed either at its
    primary or at its failover address.  Two clusters each run a manager; a
    FailoverService in each names the addresses, the wanted direction and the
    actions to run around a change of direction, and a change is carried out as a
    _transition_ through the phases ExecutingPreActions, UpdatingResources,
    FlushingConnections and ExecutingPostActions, whose progress is stored in the
    object's status.  A DaemonSet of agents kills the connections to the old
    address on every node.

    ** The parts, and the files that model them

    Foundations.
    - [Prelude]: machine integers.  [GoStd], [GoNetIP], [GoJSON]: what the code
      uses of Go's standard library (strings, formatting, hashing, [ParseIP],
      [encoding/json]); [GoJSONProofs] shows that decoding inverts encoding.
    - [Types]: the records of [src/api/v1alpha1].  [GoHeap], [DeepCopy]: Go's
      memory and the copy functions generated for these types
      (zz_generated.deepcopy.go); the other files work on the values alone.
    - [Kube]: the operations the program performs on its environment, the answers'
      types, and the monad [IO] every component is written in: a computation takes
      an environment [Env] (a function from the history so far and an operation to
      an answer) and a history, and gives an outcome (a value or a panic) and the
      events it caused.  Theorems quantify over the environment.
    - [Logic]: the program logic: [wp] (outcome and events of a computation),
      [rg] (rely-guarantee triples), [emits] (all events satisfy a predicate),
      projections of histories, the lemmas on client-go's retry loop, and the
      symbolic-execution tactics with the hint database [io].
    - [ApiServer]: the documented behaviour of the API server as a relation on
      stored objects, [served] (a triple on the stored objects), and an in-memory
      server [sim] that has this behaviour, on which the witnesses run the code.
    - [Decode]: what an object in memory holds after a successful update, whose
      answer is decoded over it, through its pointers and slices.
    - [Fixtures]: concrete third-party functions and environments for the
      witnesses.

    Components.
    - [ServiceManager] ([internal/service/manager.go]): builds the managed Service
      and EndpointSlice.  Specification: [routes].
    - [Actions] ([internal/action]: executor.go, http.go, job.go, scale.go,
      waitready.go) and [WaitRemote] (waitremote.go): the actions of a transition.
      A client uses them through the class [ActionExecutor].
    - [RemoteCluster] ([internal/remotecluster]: client.go, syncer.go) and
      [Watcher], [WatcherProofs] (watcher.go): the cached client of the other
      cluster, the resolution of conflicting directions, and the watch that
      enqueues reconciles.  [Worlds] is the store of a cluster beside its peer's,
      with the triple [shared] in which programs that act on both are proved.
    - [Signaler], [KillPayloads], [KillProtocol] ([internal/connkill/signaler.go]):
      the controller's side of the connection kill.  [Netlink], [NetlinkProofs]
      (netlink.go, namespace.go): dumping and destroying sockets.  [Agent],
      [AgentProofs] (agent.go and the environment variables of
      [cmd/connection-killer/main.go]): the node agents.  [Handshake] composes the
      two sides.
    - [Controller] ([internal/controller/failoverservice_controller.go]): every
      handler of the reconciler, and its configuration.  [ControllerSpec] is its
      abstract state machine ([edge]) with the conditions of its other effects
      ([ok_event]); [ControllerProofs] shows handler by handler that the code
      follows it; [ControllerProps] draws the consequences.  [ControllerProgress]
      (termination of transitions), [ControllerGates] (what must have happened
      before a phase is left), [ControllerEvents] (the outcomes of FailoverEvents)
      and [WellFormed] (the type of the stored transition) add to it.
    - [TwoClusters]: two managers, each reconciling its own cluster and
      synchronising with the other's, as a step relation on the two stores.
    - [Main] ([cmd/main.go], [SetupWithManager], the main of
      [cmd/connection-killer]): how the two processes start and end.
      [Ownership]: what [SetupWithManager] watches is what the reconciler creates.

    The controller calls the service manager, the action executors (which call
    the remote client), the syncer and the signaler; signaler and agents share
    one ConfigMap; the watcher shares the controller's queue and the client
    provider.  Collaborators that are interfaces in Go are functions or classes
    here ([RemoteClientProvider], [RemoteSyncer], [ActionExecutor]); the class
    [WellWired] states what the controller needs of them, and the configuration
    read from the environment is shown to satisfy it.

    ** What the theorems show

    - Refinement: every status a reconcile writes is an edge of the machine from
      the object as last observed, under arbitrary answers; no reconcile panics.
    - Order: traffic moves only in its phase; unless the operator forces an
      advance, which skips what is going on, the phase is left only when the
      stored Service routes to the new address, and the flush only when the kill
      is acknowledged or does not apply; side effects of actions happen only once
      the status records them; an event is created for stored transitions only.
    - Transitions, over the status writes of real reconciles: identity and
      direction of a transition are kept, phases never go back, the writes that
      move a transition on are bounded in number, a transition is ended only when
      complete and records its own direction, outcomes of events are never
      embellished.  When the remote cluster's state is adopted at the end of a
      transition, the update of the object decodes the stored status over the
      direction just recorded ([E_adopt]); [TwoClusters.remote_win_forgets_transition]
      shows the defect that follows, [TwoClusters.remote_win_adopts_old_generation]
      the same for the generation adopted in the steady state.
    - The stored state: the transition in the status is always well formed (phase,
      index, order of the actions, kill record); whatever a reconcile creates is
      owned by its FailoverService and of a kind the manager watches.
    - Two clusters: agreement on the direction survives any sequence of reconciles
      of either manager, an object whose deletion was requested being gone once
      its finalizers are removed; a disagreement at rest is resolved by the first
      reconcile that reaches the other side, the same way whichever comes first.
      [TwoClusters.unseen_edit_lost] is a defect: an edit that its own manager
      has not seen yet can be undone by the peer's.
    - Memory: a generated copy shares no pointer, slice or map with its original.
    - Processes: the manager starts only completely configured; a started
      connection killer ends only by its context.
    - Service manager: success means that the stored objects route to the address,
      whatever was there before; foreign objects are never written.
    - Actions: a job is created once, deadlines are exact (and overflow beyond the
      range of [time.Duration]), names fit their limits, a wait on the remote ends
      only on evidence that belongs to this transition.
    - Remote cluster: two clusters resolve a conflict the same way; a sync either
      changes nothing or pushes the local direction; clients come from the current
      version of the Secret; every remote change seen is enqueued; backoff bounds;
      watches are stopped; rotation is noticed.
    - Connection kill: signals round-trip, both sides compute the same keys, a kill
      counts as acknowledged exactly when every expected node has acknowledged this
      very kill, agents acknowledge only new signals for their node, what an agent has
      processed the controller finds acknowledged, a restarted agent
      does not kill again, exactly the sockets connected to the address are
      destroyed, every namespace is entered once and left again, descriptors are
      closed.  [AgentProofs.restarted_sequence_ignored] is a defect: numbering
      restarts after a cleanup, and a running agent ignores the next signal.

    ** Conventions and bounds

    - Integers are in [Z]; where the code's arithmetic can wrap, [i64] and [i32] are
      written out.  Times are nanoseconds; timestamps stored in objects lose their
      fraction of a second ([trunc]).
    - Loops over data are structural.  The receive loop of a netlink dump has
      fuel, and running out of it is a panic: [receive_dump_ends] shows that the
      number of datagrams the kernel sends is enough.  [ParseNetlinkMessage] and
      the JSON decoder use the length of their input, which every round consumes
      part of.  Loops that run until their context ends (the watcher, the agent)
      are observed for a number of rounds and answer [Running] or [Exit].
    - The reconciler threads the object [fs] through its handlers; the answer of an
      update replaces it.  Ranging over a Go map is an operation whose answer lists
      the entries in some order.  A retry loop of client-go makes some number of
      attempts ([on_error_attempts]).
    - State behind a mutex (the client cache, the watcher's clients) is passed
      explicitly, a critical section being one function; between the two of
      [GetRESTConfig] other goroutines may refresh the cache ([OtherCalls]), and
      each call's theorem starts from any coherent state.
    - The answer of a successful update is decoded over the object in memory
      ([Decode]): fields that the answer omits keep their value, what a pointer
      points to is overwritten, elements of slices are decoded over.  Metadata and
      specification are taken as answered.
    - Stored objects ([ApiServer.step_ok]): an update that removes the last
      finalizer of an object being deleted removes the object, and a delete of an
      object with finalizers only marks it.
    - Reads.  [cmd/main.go] passes the manager's client, whose reads come from a
      cache that may lag behind.  The theorems that quantify over every
      environment cover stale reads.  Those that speak of the stored objects
      ([serves]: the gate of the resources, agreement, convergence, the service
      manager, jobs, the signals and acknowledgments) take a local read to answer
      what is stored when it is made; the agents' client is not cached.
    - Functions of apimachinery and controller-runtime on plain data are the class
      [KubeLib], their documented behaviour [KubeLibLaws].

    ** Not modelled

    Logging; [flag.Parse] ([Main] starts from the parsed flags) and what
    controller-runtime does with the options it is given; the registration of the
    API types with apimachinery's scheme builder (groupversion_info.go); CRD
    validation (no theorem relies on it); which agent pods are ready, which only
    the log mentions; the capacity of slices (a slice in [GoHeap] is a whole
    array, and [Decode] takes elements beyond the length of a slice to be new); the
    interleaving of the operations of two reconciles ([TwoClusters]
    interleaves whole reconciles) and conflicts between them beyond the arbitrary
    answers of the environment; Helm charts and end-to-end tests. *)
From stdpp Require Import base gmap strings list fin_maps numbers pretty sorting.
From Stdlib Require Import ZArith Lia.

(** ** Machine integers

    Go's [int64]/[int] (64 bits on every platform the images are built for)
    and [int32] are integers in [Z] that wrap around at their width. *)

Definition wrap (w : Z) (z : Z) : Z := (z + 2 ^ (w - 1)) mod 2 ^ w - 2 ^ (w - 1).
Definition i64 (z : Z) : Z := wrap 64 z.
Definition i32 (z : Z) : Z := wrap 32 z.
Definition in_i64 (z : Z) : Prop := (- 2 ^ 63 <= z < 2 ^ 63)%Z.
Definition in_i32 (z : Z) : Prop := (- 2 ^ 31 <= z < 2 ^ 31)%Z.

Lemma i64_range z : in_i64 (i64 z).
Proof.
  unfold in_i64, i64, wrap. change (64 - 1)%Z with 63%Z.
  assert (2 ^ 64 = 2 * 2 ^ 63 ∧ 0 < 2 ^ 63)%Z as [-> ?] by done.
  pose proof (Z.mod_pos_bound (z + 2 ^ 63) (2 * 2 ^ 63)). lia.
Qed.

Lemma i64_id z : in_i64 z → i64 z = z.
Proof.
  unfold in_i64, i64, wrap. change (64 - 1)%Z with 63%Z. intros H.
  assert (2 ^ 64 = 2 * 2 ^ 63)%Z as -> by done. rewrite Z.mod_small; lia.
Qed.

Lemma i32_id z : in_i32 z → i32 z = z.
Proof.
  unfold in_i32, i32, wrap. change (32 - 1)%Z with 31%Z. intros H.
  assert (2 ^ 32 = 2 * 2 ^ 31)%Z as -> by done. rewrite Z.mod_small; lia.
Qed.
