(* ===== verification/GoStd.v ===== *)
(** * The parts of Go's standard library the program computes with

    [strings] (prefixes, suffixes, slicing), [strconv]/[fmt] (decimal
    integers and the [%q] verb), [encoding/hex], [sort.Strings] and
    [crypto/sha256].  Strings are byte strings ([string] of [ascii]), as in
    Go, so [len] is [String.length] and [s[:n]] is [str_take]. *)
From Stdlib Require Import NArith Ascii String.
From stdpp Require Import base strings list numbers pretty sorting.
From S2P Require Import Prelude.

(** ** Strings *)

Definition len (s : string) : nat := String.length s.

Fixpoint str_take (n : nat) (s : string) : string :=
  match n, s with
  | S n, String a s => String a (str_take n s)
  | _, _ => ""
  end.

Fixpoint str_drop (n : nat) (s : string) : string :=
  match n, s with
  | S n, String _ s => str_drop n s
  | _, _ => s
  end.

Fixpoint HasPrefix (s prefix : string) : bool :=
  match prefix, s with
  | "", _ => true
  | String a p, String b s => if decide (a = b) then HasPrefix s p else false
  | String _ _, "" => false
  end.

Definition TrimPrefix (s prefix : string) : string :=
  if HasPrefix s prefix then str_drop (len prefix) s else s.

Fixpoint HasSuffix (s suffix : string) : bool :=
  if decide (s = suffix) then true
  else match s with "" => false | String _ s => HasSuffix s suffix end.

Fixpoint Contains (s sub : string) : bool :=
  if HasPrefix s sub then true
  else match s with "" => false | String _ s => Contains s sub end.

Lemma len_app s t : len (s +:+ t) = len s + len t.
Proof. unfold len. induction s as [|a s IH]; [done|]. simpl. by rewrite IH. Qed.
Lemma len_take n s : len (str_take n s) = min n (len s).
Proof. unfold len. revert s. induction n; intros [|a s]; simpl; [done..|]. by rewrite IHn. Qed.
Lemma take_all n s : len s ≤ n → str_take n s = s.
Proof.
  unfold len. revert s. induction n; intros [|a s]; simpl; intros; [done|lia|done|].
  f_equal. apply IHn. lia.
Qed.

(** Go's [<] on strings, bytewise. *)
Definition str_ltb (s1 s2 : string) : bool := String.ltb s1 s2.

Definition itoa (z : Z) : string := pretty z.

(** [sort.Strings]. *)
Definition sort_Strings (l : list string) : list string := merge_sort String.le l.

Fixpoint str_join (sep : string) (l : list string) : string :=
  match l with
  | [] => ""
  | [s] => s
  | s :: l => s +:+ sep +:+ str_join sep l
  end.

(** [fmt.Sprintf("%v", l)] of a slice of strings. *)
Definition fmt_strings (l : list string) : string := "[" +:+ str_join " " l +:+ "]".

(** ** Hexadecimal *)

Definition hex_digit (n : N) : ascii :=
  if (n <? 10)%N then ascii_of_N (48 + n) else ascii_of_N (87 + n).

Fixpoint hex_EncodeToString (bs : list N) : string :=
  match bs with
  | [] => ""
  | b :: bs => String (hex_digit (b / 16)) (String (hex_digit (b mod 16)) (hex_EncodeToString bs))
  end.

Lemma len_hex bs : len (hex_EncodeToString bs) = 2 * length bs.
Proof. unfold len. induction bs as [|b bs IH]; simpl; [done|]. rewrite IH. simpl. lia. Qed.

(** ** [fmt]'s [%q] ([strconv.Quote])

    Bytes from 0x80 on (which the API's validated names do not contain) are
    copied, as [Quote] does for printable runes. *)

Definition quote_ascii (a : ascii) : string :=
  let n := N_of_ascii a in
  if (n =? 34)%N then "\" +:+ String a ""
  else if (n =? 92)%N then "\\"
  else if (n =? 7)%N then "\a"
  else if (n =? 8)%N then "\b"
  else if (n =? 12)%N then "\f"
  else if (n =? 10)%N then "\n"
  else if (n =? 13)%N then "\r"
  else if (n =? 9)%N then "\t"
  else if (n =? 11)%N then "\v"
  else if ((n <? 32) || (n =? 127))%N then "\x" +:+ hex_EncodeToString [n]
  else String a "".

Fixpoint quote_body (s : string) : string :=
  match s with
  | "" => ""
  | String a s => quote_ascii a +:+ quote_body s
  end.

Definition dquote : string := String (ascii_of_N 34) "".
Definition fmt_q (s : string) : string := dquote +:+ quote_body s +:+ dquote.

(** ** SHA-256 (FIPS 180-4), on 32-bit words in [N] *)
Module sha256.
Local Open Scope N_scope.

Definition add32 (x y : N) : N := (x + y) mod 2 ^ 32.
Definition rotr (n x : N) : N :=
  N.lor (N.shiftr x n) (N.shiftl x (32 - n) mod 2 ^ 32).
Definition Ch (x y z : N) : N := N.lxor (N.land x y) (N.land (N.lxor x (2 ^ 32 - 1)) z).
Definition Maj (x y z : N) : N :=
  N.lxor (N.land x y) (N.lxor (N.land x z) (N.land y z)).
Definition Sigma0 (x : N) : N := N.lxor (rotr 2 x) (N.lxor (rotr 13 x) (rotr 22 x)).
Definition Sigma1 (x : N) : N := N.lxor (rotr 6 x) (N.lxor (rotr 11 x) (rotr 25 x)).
Definition sigma0 (x : N) : N := N.lxor (rotr 7 x) (N.lxor (rotr 18 x) (N.shiftr x 3)).
Definition sigma1 (x : N) : N := N.lxor (rotr 17 x) (N.lxor (rotr 19 x) (N.shiftr x 10)).

(** The constants are the first 32 bits of the fractional parts of the cube
    (resp. square) roots of the first primes. *)
Fixpoint sieve (fuel : nat) (l : list N) : list N :=
  match fuel, l with
  | S fuel, p :: l => p :: sieve fuel (filter (λ n, n mod p ≠ 0) l)
  | _, _ => []
  end.
Definition primes : list N := sieve 64 (N.of_nat <$> seq 2 310).

(** The largest [r < x + 2 ^ n] with [r ^ 3 <= a], given [x ^ 3 <= a]. *)
Fixpoint cbrt_from (n : nat) (a x : N) : N :=
  match n with
  | O => x
  | S n => let y := x + 2 ^ N.of_nat n in cbrt_from n a (if y * y * y <=? a then y else x)
  end.

Definition K : list N :=
  Eval vm_compute in ((λ p, cbrt_from 36 (p * 2 ^ 96) 0 mod 2 ^ 32) <$> primes).

Definition H0 : list N :=
  Eval vm_compute in ((λ p, N.sqrt (p * 2 ^ 64) mod 2 ^ 32) <$> take 8 primes).

Fixpoint bytes_of_string (s : string) : list N :=
  match s with
  | "" => []
  | String a s => N_of_ascii a :: bytes_of_string s
  end.

(** [n] big-endian bytes of [x]. *)
Fixpoint be_bytes (n : nat) (x : N) : list N :=
  match n with
  | O => []
  | S n => be_bytes n (x / 256) ++ [x mod 256]
  end.

Definition pad (m : list N) : list N :=
  let n := length m in
  let zeros := ((119 - (n mod 64)) mod 64)%nat in
  m ++ [128] ++ replicate zeros 0 ++ be_bytes 8 (8 * N.of_nat n).

Fixpoint words (bs : list N) : list N :=
  match bs with
  | a :: b :: c :: d :: bs =>
      (((a * 256 + b) * 256 + c) * 256 + d) :: words bs
  | _ => []
  end.

(** The message schedule, most recent word first. *)
Fixpoint schedule (n : nat) (w : list N) : list N :=
  match n with
  | O => w
  | S n =>
      let at_ i := nth i w 0 in
      schedule n (add32 (add32 (sigma1 (at_ 1%nat)) (at_ 6%nat))
                        (add32 (sigma0 (at_ 14%nat)) (at_ 15%nat)) :: w)
  end.

Definition round (st : list N) (kw : N * N) : list N :=
  match st with
  | [a; b; c; d; e; f; g; h] =>
      let t1 := add32 (add32 (add32 h (Sigma1 e)) (Ch e f g)) (add32 kw.1 kw.2) in
      let t2 := add32 (Sigma0 a) (Maj a b c) in
      [add32 t1 t2; a; b; c; add32 d t1; e; f; g]
  | _ => st
  end.

Definition compress (st : list N) (block : list N) : list N :=
  let w := rev (schedule 48 (rev (words block))) in
  zip_with add32 st (foldl round st (zip K w)).

Fixpoint blocks (fuel : nat) (bs : list N) : list (list N) :=
  match fuel, bs with
  | S fuel, _ :: _ => take 64 bs :: blocks fuel (drop 64 bs)
  | _, _ => []
  end.

(** [sha256.Sum256]; the padded message has at most one block per byte. *)
Definition Sum256 (s : string) : list N :=
  let m := pad (bytes_of_string s) in
  mjoin (be_bytes 4 <$> foldl compress H0 (blocks (length m) m)).

Example Sum256_abc : hex_EncodeToString (Sum256 "abc") =
  "ba7816bf8f01cfea414140de5dae2223b00361a396177a9cb410ff61f20015ad".
Proof. vm_compute. reflexivity. Qed.
Example Sum256_empty : hex_EncodeToString (Sum256 "") =
  "e3b0c44298fc1c149afbf4c8996fb92427ae41e4649b934ca495991b7852b855".
Proof. vm_compute. reflexivity. Qed.
Example Sum256_two_blocks : hex_EncodeToString
  (Sum256 "abcdbcdecdefdefgefghfghighijhijkijkljklmklmnlmnomnopnopq") =
  "248d6a61d20638b8e5c026930c3e6039a33ce45964ff2167f6ecedd419db06c1".
Proof. vm_compute. reflexivity. Qed.
End sha256.
