(* ===== verification/GoNetIP.v ===== *)
(** * Go's [net.ParseIP] and [IP.To4]

    [net.ParseIP] decides which service type the manager builds, whether
    stale connections can be killed, and what the agent kills.  It is
    [netip.ParseAddr] without zones, with the result as 16 bytes. *)
From Stdlib Require Import NArith Ascii String.
From stdpp Require Import base strings list numbers option pretty.
From S2P Require Import Prelude GoStd.
Local Open Scope N_scope.

Definition byte_of (a : ascii) : N := N_of_ascii a.
Definition ch_dot : N := 46.
Definition ch_colon : N := 58.
Definition ch_percent : N := 37.

Definition dec_digit (c : N) : option N :=
  if (48 <=? c) && (c <=? 57) then Some (c - 48) else None.
Definition hex_val (c : N) : option N :=
  if (48 <=? c) && (c <=? 57) then Some (c - 48)
  else if (97 <=? c) && (c <=? 102) then Some (c - 97 + 10)
  else if (65 <=? c) && (c <=? 70) then Some (c - 65 + 10)
  else None.

(** [parseIPv4Fields]: [val] and [digLen] describe the current octet, [acc]
    holds the finished ones (latest first), [prev_dot] says whether the
    previous character is a dot or there is none. *)
Fixpoint parseIPv4Fields (s : list N) (val digLen : N) (prev_dot : bool)
    (acc : list N) : option (list N) :=
  match s with
  | [] => if (length acc <? 3)%nat then None else Some (rev (val :: acc))
  | c :: s' =>
      match dec_digit c with
      | Some d =>
          if (digLen =? 1) && (val =? 0) then None
          else
            let val := val * 10 + d in
            if 255 <? val then None
            else parseIPv4Fields s' val (digLen + 1) false acc
      | None =>
          if c =? ch_dot then
            if prev_dot || match s' with [] => true | _ => false end then None
            else if (length acc =? 3)%nat then None
            else parseIPv4Fields s' 0 0 true (val :: acc)
          else None
      end
  end.

Definition parseIPv4 (s : list N) : option (list N) := parseIPv4Fields s 0 0 true [].

(** One hexadecimal group of [parseIPv6]: its value, the number of digits read
    and the rest; [None] for a fifth digit. *)
Fixpoint parse_hex_group (s : list N) (off : nat) (acc : N) : option (N * nat * list N) :=
  match s with
  | [] => Some (acc, off, [])
  | c :: s' =>
      match hex_val c with
      | None => Some (acc, off, s)
      | Some d =>
          if (3 <? off)%nat then None
          else parse_hex_group s' (S off) (acc * 16 + d)
      end
  end.

(** Once the groups are read: everything consumed, the ellipsis expanded. *)
Definition finish_IPv6 (ip : list N) (ellipsis : option nat) (s : list N) : option (list N) :=
  match s with
  | _ :: _ => None
  | [] =>
      if (length ip <? 16)%nat then
        match ellipsis with
        | None => None
        | Some e => Some (take e ip ++ replicate (16 - length ip) 0 ++ drop e ip)
        end
      else match ellipsis with Some _ => None | None => Some ip end
  end.

(** The group loop ([ip] is what has been written so far); each round writes
    two bytes, so eight rounds suffice. *)
Fixpoint parseIPv6_loop (fuel : nat) (s : list N) (ip : list N) (ellipsis : option nat)
    : option (list N) :=
  match fuel with
  | O => finish_IPv6 ip ellipsis s
  | S fuel =>
      '(acc, off, rest) ← parse_hex_group s 0 0;
      if (off =? 0)%nat then None
      else match rest with
      | [] => finish_IPv6 (ip ++ [acc / 256; acc mod 256]) ellipsis []
      | c :: rest' =>
          if c =? ch_dot then
            if bool_decide (ellipsis = None) && negb (length ip =? 12)%nat then None
            else if (16 <? length ip + 4)%nat then None
            else fields ← parseIPv4 s; finish_IPv6 (ip ++ fields) ellipsis []
          else
            let ip := ip ++ [acc / 256; acc mod 256] in
            if negb (c =? ch_colon) then None
            else match rest' with
            | [] => None
            | c2 :: rest2 =>
                if c2 =? ch_colon then
                  match ellipsis with
                  | Some _ => None
                  | None =>
                      match rest2 with
                      | [] => finish_IPv6 ip (Some (length ip)) []
                      | _ => parseIPv6_loop fuel rest2 ip (Some (length ip))
                      end
                  end
                else parseIPv6_loop fuel rest' ip ellipsis
            end
      end
  end.

Definition parseIPv6 (s : list N) : option (list N) :=
  match s with
  | c1 :: c2 :: s' =>
      if (c1 =? ch_colon) && (c2 =? ch_colon) then
        match s' with
        | [] => Some (replicate 16 0)
        | _ => parseIPv6_loop 8 s' [] (Some O)
        end
      else parseIPv6_loop 8 s [] None
  | _ => parseIPv6_loop 8 s [] None
  end.

(** An IPv4 address as 16 bytes. *)
Definition v4InV6Prefix : list N := replicate 10 0 ++ [255; 255].

(** [netip.ParseAddr] dispatches on the first of [.], [:] and [%]; an address
    with a zone is refused by [net.ParseIP]. *)
Fixpoint first_sep (s : list N) : option N :=
  match s with
  | [] => None
  | c :: s =>
      if (c =? ch_dot) || (c =? ch_colon) || (c =? ch_percent) then Some c else first_sep s
  end.

Definition ParseIP (s : string) : option (list N) :=
  let bs := sha256.bytes_of_string s in
  match first_sep bs with
  | Some c =>
      if c =? ch_dot then (λ b, v4InV6Prefix ++ b) <$> parseIPv4 bs
      else if c =? ch_colon then
        if existsb (N.eqb ch_percent) bs then None else parseIPv6 bs
      else None
  | None => None
  end.

(** [IP.To4]. *)
Definition To4 (ip : list N) : option (list N) :=
  if bool_decide (length ip = 4%nat) then Some ip
  else if bool_decide (take 12 ip = v4InV6Prefix ∧ length ip = 16%nat) then Some (drop 12 ip) else None.

(** Dotted-decimal notation. *)
Definition fmt_IPv4 (a b c d : N) : string :=
  pretty a +:+ "." +:+ pretty b +:+ "." +:+ pretty c +:+ "." +:+ pretty d.

Example ParseIP_v4 : ParseIP "192.168.50.60" = Some (v4InV6Prefix ++ [192; 168; 50; 60]).
Proof. reflexivity. Qed.
Example ParseIP_leading_zero : ParseIP "10.0.0.01" = None.
Proof. reflexivity. Qed.
Example ParseIP_dns : ParseIP "mysql-primary.mysql.svc.cluster.local" = None.
Proof. reflexivity. Qed.
Example ParseIP_v6 : ParseIP "2001:db8::1" =
  Some [32; 1; 13; 184; 0; 0; 0; 0; 0; 0; 0; 0; 0; 0; 0; 1].
Proof. reflexivity. Qed.
Example ParseIP_mapped : ParseIP "::ffff:10.0.0.1" = Some (v4InV6Prefix ++ [10; 0; 0; 1]).
Proof. reflexivity. Qed.
Example ParseIP_v6_bad : ParseIP "1:2:3:4:5:6:7:8::" = None ∧ ParseIP "fe80::1%eth0" = None
  ∧ ParseIP "1::2::3" = None ∧ ParseIP "::" = Some (replicate 16 0) ∧ ParseIP "" = None
  ∧ ParseIP "1:2:3:4:5:6:1.2.3.4" = Some [0; 1; 0; 2; 0; 3; 0; 4; 0; 5; 0; 6; 1; 2; 3; 4].
Proof. repeat split; reflexivity. Qed.
