(* ===== verification/GoJSON.v ===== *)
(** * Go's [encoding/json], for flat structs of strings and integers

    Encoding of strings and integers, and the decoder: the JSON grammar, and
    the rules by which [json.Unmarshal] stores a document's members in struct
    fields (exact name first, then case-insensitive; unknown members ignored;
    [null] leaves a field alone; a value of the wrong type is an error).
    The decoder's limit of 10000 nested values is not modelled.
    Documents are lists of bytes in [N]. *)
From Stdlib Require Import NArith Ascii String.
From stdpp Require Import base strings list numbers option pretty.
From S2P Require Import Prelude GoStd.
Local Open Scope N_scope.

Abbreviation bytes := (list N).
Definition bytes_of (s : string) : bytes := sha256.bytes_of_string s.
Fixpoint string_of (b : bytes) : string :=
  match b with
  | [] => ""
  | c :: b => String (ascii_of_N c) (string_of b)
  end.

Definition c_quote : N := 34.
Definition c_bslash : N := 92.
Definition c_comma : N := 44.
Definition c_colon : N := 58.
Definition c_lbrace : N := 123.
Definition c_rbrace : N := 125.
Definition c_lbrack : N := 91.
Definition c_rbrack : N := 93.
Definition c_minus : N := 45.

Definition between (lo hi c : N) : bool := (lo <=? c) && (c <=? hi).
Definition is_digit (c : N) : bool := between 48 57 c.

(** ** UTF-8

    The length of the valid sequence at the head of [s]; 0 when there is none
    ([utf8.DecodeRune] then answers the replacement character and one byte). *)
Definition cont (c : N) : bool := between 128 191 c.
Definition rune_len (s : bytes) : nat :=
  match s with
  | [] => 0%nat
  | a :: s =>
      if a <? 128 then 1%nat
      else match s with
      | [] => 0%nat
      | b :: s =>
          if between 194 223 a then (if cont b then 2%nat else 0%nat)
          else match s with
          | [] => 0%nat
          | c :: s =>
              let ok2 := if a =? 224 then between 160 191 b
                         else if a =? 237 then between 128 159 b else cont b in
              if between 224 239 a then (if ok2 && cont c then 3%nat else 0%nat)
              else match s with
              | [] => 0%nat
              | d :: _ =>
                  let ok2 := if a =? 240 then between 144 191 b
                             else if a =? 244 then between 128 143 b else cont b in
                  if between 240 244 a && ok2 && cont c && cont d then 4%nat else 0%nat
              end
          end
      end
  end.

Definition replacement : bytes := [239; 191; 189].

(** [utf8.EncodeRune]. *)
Definition encode_rune (r : N) : bytes :=
  if r <? 128 then [r]
  else if r <? 2048 then [192 + r / 64; 128 + r mod 64]
  else if between 55296 57343 r || (1114111 <? r) then replacement
  else if r <? 65536 then [224 + r / 4096; 128 + (r / 64) mod 64; 128 + r mod 64]
  else [240 + r / 262144; 128 + (r / 4096) mod 64; 128 + (r / 64) mod 64; 128 + r mod 64].

(** ** Encoding *)

Definition hex_N (n : N) : N := if n <? 10 then 48 + n else 87 + n.
Definition u00 (c : N) : bytes := [c_bslash; 117; 48; 48; hex_N (c / 16); hex_N (c mod 16)].

(** One ASCII byte of a string, with HTML-safe escapes as [json.Marshal]. *)
Definition escape_byte (c : N) : bytes :=
  if (c =? c_quote) || (c =? c_bslash) then [c_bslash; c]
  else if c =? 8 then [c_bslash; 98]
  else if c =? 12 then [c_bslash; 102]
  else if c =? 10 then [c_bslash; 110]
  else if c =? 13 then [c_bslash; 114]
  else if c =? 9 then [c_bslash; 116]
  else if (c <? 32) || (c =? 60) || (c =? 62) || (c =? 38) then u00 c
  else [c].

(** [fuel] is at least the length of [s]: each round consumes a byte. *)
Fixpoint escape_bytes (fuel : nat) (s : bytes) : bytes :=
  match fuel, s with
  | S fuel, c :: s' =>
      if c <? 128 then escape_byte c ++ escape_bytes fuel s'
      else match rune_len s with
      | O => [c_bslash; 117; 102; 102; 102; 100] ++ escape_bytes fuel s'
      | n =>
          let r := take n s in
          (if bool_decide (r = [226; 128; 168]) then [c_bslash; 117; 50; 48; 50; 56]
           else if bool_decide (r = [226; 128; 169]) then [c_bslash; 117; 50; 48; 50; 57]
           else r) ++ escape_bytes fuel (drop n s)
      end
  | _, _ => []
  end.

Definition marshal_string (s : string) : bytes :=
  c_quote :: escape_bytes (len s) (bytes_of s) ++ [c_quote].
Definition marshal_int (z : Z) : bytes := bytes_of (itoa z).

(** A member of the object under construction: [None] for a field that
    [omitempty] leaves out. *)
Definition member (key : string) (v : bytes) : option bytes :=
  Some (marshal_string key ++ c_colon :: v).
Definition member_string_omitempty (key v : string) : option bytes :=
  if decide (v = "") then None else member key (marshal_string v).

Fixpoint join_members (ms : list bytes) : bytes :=
  match ms with
  | [] => []
  | [m] => m
  | m :: ms => m ++ c_comma :: join_members ms
  end.
Definition marshal_object (ms : list (option bytes)) : string :=
  string_of (c_lbrace :: join_members (omap id ms) ++ [c_rbrace]).

(** ** Parsing *)

#[warnings="-register-all"]
Inductive json :=
  | JNull
  | JBool (b : bool)
  | JNum (literal : bytes)
  | JStr (s : bytes)
  | JArr (l : list json)
  | JObj (members : list (bytes * json)).

Definition is_ws (c : N) : bool := (c =? 32) || (c =? 9) || (c =? 10) || (c =? 13).
Fixpoint skip_ws (s : bytes) : bytes :=
  match s with
  | c :: s' => if is_ws c then skip_ws s' else s
  | [] => []
  end.

Definition hex_digit_val (c : N) : option N :=
  if between 48 57 c then Some (c - 48)
  else if between 97 102 c then Some (c - 87)
  else if between 65 70 c then Some (c - 55)
  else None.
Definition hex4 (s : bytes) : option (N * bytes) :=
  match s with
  | a :: b :: c :: d :: s =>
      a ← hex_digit_val a; b ← hex_digit_val b; c ← hex_digit_val c; d ← hex_digit_val d;
      Some (((a * 16 + b) * 16 + c) * 16 + d, s)
  | _ => None
  end.

Definition simple_escape (c : N) : option N :=
  if (c =? c_quote) || (c =? c_bslash) || (c =? 47) then Some c
  else if c =? 98 then Some 8
  else if c =? 102 then Some 12
  else if c =? 110 then Some 10
  else if c =? 114 then Some 13
  else if c =? 116 then Some 9
  else None.

(** The rest of a string literal after its opening quote. *)
Fixpoint parse_str (fuel : nat) (s : bytes) : option (bytes * bytes) :=
  match fuel, s with
  | S fuel, c :: s' =>
      if c =? c_quote then Some ([], s')
      else if c <? 32 then None
      else if c =? c_bslash then
        match s' with
        | [] => None
        | e :: s'' =>
            if e =? 117 then
              '(r, rest) ← hex4 s'';
              if between 55296 57343 r then
                match (if r <? 56320 then
                         match rest with
                         | 92 :: 117 :: rest2 =>
                             '(r2, rest3) ← hex4 rest2;
                             if between 56320 57343 r2 then Some (r2, rest3) else None
                         | _ => None
                         end else None) with
                | Some (r2, rest3) =>
                    '(v, out) ← parse_str fuel rest3;
                    Some (encode_rune ((r - 55296) * 1024 + (r2 - 56320) + 65536) ++ v, out)
                | None => '(v, out) ← parse_str fuel rest; Some (replacement ++ v, out)
                end
              else '(v, out) ← parse_str fuel rest; Some (encode_rune r ++ v, out)
            else
              x ← simple_escape e;
              '(v, out) ← parse_str fuel s''; Some (x :: v, out)
        end
      else if c <? 128 then '(v, out) ← parse_str fuel s'; Some (c :: v, out)
      else match rune_len s with
      | O => '(v, out) ← parse_str fuel s'; Some (replacement ++ v, out)
      | n => '(v, out) ← parse_str fuel (drop n s); Some (take n s ++ v, out)
      end
  | _, _ => None
  end.

Fixpoint span_digits (s : bytes) : bytes * bytes :=
  match s with
  | c :: s' => if is_digit c then let '(d, r) := span_digits s' in (c :: d, r) else ([], s)
  | [] => ([], [])
  end.

(** A number literal: sign, integer part without leading zeros, fraction,
    exponent. *)
Definition parse_int_part (s : bytes) : option (bytes * bytes) :=
  match s with
  | 48 :: s' => Some ([48], s')
  | c :: _ => if between 49 57 c then Some (span_digits s) else None
  | [] => None
  end.
Definition parse_frac (s : bytes) : option (bytes * bytes) :=
  match s with
  | 46 :: s' =>
      let '(d, r) := span_digits s' in
      match d with [] => None | _ => Some (46 :: d, r) end
  | _ => Some ([], s)
  end.
Definition parse_exp (s : bytes) : option (bytes * bytes) :=
  match s with
  | c :: s' =>
      if (c =? 101) || (c =? 69) then
        let '(sign, s2) := match s' with
                           | x :: s2 => if (x =? 43) || (x =? 45) then ([x], s2) else ([], s')
                           | [] => ([], s')
                           end in
        let '(d, r) := span_digits s2 in
        match d with [] => None | _ => Some (c :: sign ++ d, r) end
      else Some ([], s)
  | [] => Some ([], [])
  end.
Definition parse_num (s : bytes) : option (bytes * bytes) :=
  let '(sign, s1) := match s with 45 :: s' => ([45], s') | _ => ([], s) end in
  '(i, s2) ← parse_int_part s1;
  '(f, s3) ← parse_frac s2;
  '(e, s4) ← parse_exp s3;
  Some (sign ++ i ++ f ++ e, s4).

Fixpoint strip (lit s : bytes) : option bytes :=
  match lit, s with
  | [], _ => Some s
  | a :: lit, b :: s => if a =? b then strip lit s else None
  | _ :: _, [] => None
  end.

(** Values, array elements and object members; every call consumes fuel and a
    document of [n] bytes needs at most [2 n] nested calls. *)
Fixpoint parse_value (fuel : nat) (s : bytes) : option (json * bytes) :=
  match fuel with
  | O => None
  | S fuel =>
      match s with
      | [] => None
      | c :: s' =>
          if c =? c_quote then '(v, r) ← parse_str fuel s'; Some (JStr v, r)
          else if c =? c_lbrace then
            match skip_ws s' with
            | 125 :: r => Some (JObj [], r)
            | s2 => '(ms, r) ← parse_members fuel s2; Some (JObj ms, r)
            end
          else if c =? c_lbrack then
            match skip_ws s' with
            | 93 :: r => Some (JArr [], r)
            | s2 => '(vs, r) ← parse_elems fuel s2; Some (JArr vs, r)
            end
          else if c =? 116 then r ← strip [114; 117; 101] s'; Some (JBool true, r)
          else if c =? 102 then r ← strip [97; 108; 115; 101] s'; Some (JBool false, r)
          else if c =? 110 then r ← strip [117; 108; 108] s'; Some (JNull, r)
          else '(l, r) ← parse_num s; Some (JNum l, r)
      end
  end
with parse_members (fuel : nat) (s : bytes) : option (list (bytes * json) * bytes) :=
  match fuel with
  | O => None
  | S fuel =>
      match s with
      | 34 :: s1 =>
          '(k, s2) ← parse_str fuel s1;
          match skip_ws s2 with
          | 58 :: s3 =>
              '(v, s4) ← parse_value fuel (skip_ws s3);
              match skip_ws s4 with
              | 44 :: s5 => '(ms, r) ← parse_members fuel (skip_ws s5); Some ((k, v) :: ms, r)
              | 125 :: r => Some ([(k, v)], r)
              | _ => None
              end
          | _ => None
          end
      | _ => None
      end
  end
with parse_elems (fuel : nat) (s : bytes) : option (list json * bytes) :=
  match fuel with
  | O => None
  | S fuel =>
      '(v, s1) ← parse_value fuel s;
      match skip_ws s1 with
      | 44 :: s2 => '(vs, r) ← parse_elems fuel (skip_ws s2); Some (v :: vs, r)
      | 93 :: r => Some ([v], r)
      | _ => None
      end
  end.

Definition parse_json (doc : string) : option json :=
  let s := skip_ws (bytes_of doc) in
  '(v, r) ← parse_value (S (S (2 * len doc))) s;
  match skip_ws r with [] => Some v | _ => None end.

(** ** Storing in struct fields *)

(** [strconv.ParseInt(_, 10, 64)] of a JSON number literal. *)
Fixpoint parse_digits (acc : N) (s : bytes) : option N :=
  match s with
  | [] => Some acc
  | c :: s => if is_digit c then parse_digits (acc * 10 + (c - 48)) s else None
  end.
Definition ParseInt (s : bytes) : option Z :=
  z ← match s with
      | 45 :: s => n ← parse_digits 0 s; Some (- Z.of_N n)%Z
      | s => n ← parse_digits 0 s; Some (Z.of_N n)
      end;
  if decide (- 2 ^ 63 <= z < 2 ^ 63)%Z then Some z else None.

Definition decode_string (v : json) (old : string) : option string :=
  match v with JStr s => Some (string_of s) | JNull => Some old | _ => None end.
Definition decode_int (v : json) (old : Z) : option Z :=
  match v with JNum l => ParseInt l | JNull => Some old | _ => None end.

(** [foldName]: upper-case ASCII; the Kelvin sign folds to K, the long s to S. *)
Fixpoint fold_name (s : bytes) : bytes :=
  match s with
  | 226 :: 132 :: 170 :: s => 75 :: fold_name s
  | 197 :: 191 :: s => 83 :: fold_name s
  | c :: s => (if between 97 122 c then c - 32 else c) :: fold_name s
  | [] => []
  end.

Definition find_field (names : list string) (key : bytes) : option string :=
  match list_find (λ n, bytes_of n = key) names with
  | Some (_, n) => Some n
  | None => snd <$> list_find (λ n, fold_name (bytes_of n) = fold_name key) names
  end.

(** [json.Unmarshal] into a struct whose fields are [names], [set] storing a
    decoded value; [None] is an error (the caller then ignores the struct). *)
Definition unmarshal_struct {A} (names : list string)
    (set : string → json → A → option A) (zero : A) (doc : string) : option A :=
  v ← parse_json doc;
  match v with
  | JNull => Some zero
  | JObj ms =>
      foldl (λ (st : option A) '(k, v),
               a ← st;
               match find_field names k with Some n => set n v a | None => Some a end)
            (Some zero) ms
  | _ => None
  end.
