(* ===== verification/GoJSONProofs.v ===== *)
(** * The JSON decoder inverts the encoder

    For flat objects whose strings are ASCII (node names, namespaces, addresses
    and tokens are) and whose integers have 64 bits. *)
From Stdlib Require Import NArith Ascii String.
From stdpp Require Import base strings list numbers option pretty.
From S2P Require Import Prelude GoStd GoJSON.
Local Open Scope N_scope.

(** ** Bytes *)

Definition is_byte (c : N) : Prop := c < 256.
Definition ascii_bytes (s : string) : Prop := Forall (λ c, c < 128) (bytes_of s).

Lemma bytes_of_app s t : bytes_of (s +:+ t) = bytes_of s ++ bytes_of t.
Proof. unfold bytes_of. induction s as [|a s IH]; [done|]. simpl. by rewrite IH. Qed.
Lemma length_bytes_of s : length (bytes_of s) = len s.
Proof. unfold bytes_of, len. induction s as [|a s IH]; [done|]. simpl. by rewrite IH. Qed.
Lemma string_of_bytes_of s : string_of (bytes_of s) = s.
Proof.
  unfold bytes_of. induction s as [|a s IH]; [done|]. simpl. by rewrite IH, ascii_N_embedding.
Qed.
Lemma bytes_of_string_of bs : Forall is_byte bs → bytes_of (string_of bs) = bs.
Proof.
  unfold bytes_of. induction 1 as [|c bs Hc _ IH]; [done|]. simpl. by rewrite IH, N_ascii_embedding.
Qed.

(** Every property of a 7-bit byte that computes is checked case by case. *)
Lemma below_cases n (P : N → Prop) :
  Forall (λ i, P (N.of_nat i)) (seq 0 n) → ∀ c, c < N.of_nat n → P c.
Proof.
  rewrite Forall_forall. intros H c Hc. rewrite <- (N2Nat.id c). apply H, elem_of_seq. lia.
Qed.
Lemma ascii_cases (P : N → Prop) : Forall (λ i, P (N.of_nat i)) (seq 0 128) → ∀ c, c < 128 → P c.
Proof. apply (below_cases 128). Qed.

(** ** Strings *)

Lemma parse_str_byte c fuel rest :
  c < 128 →
  parse_str (S fuel) (escape_byte c ++ rest)
  = '(v, out) ← parse_str fuel rest; Some (c :: v, out).
Proof.
  revert c. apply (ascii_cases (λ c, parse_str (S fuel) (escape_byte c ++ rest)
    = '(v, out) ← parse_str fuel rest; Some (c :: v, out))).
  repeat (apply Forall_cons; split; [reflexivity|]). constructor.
Qed.

Lemma escape_byte_bytes c : c < 128 → Forall is_byte (escape_byte c).
Proof.
  revert c. apply ascii_cases.
  repeat (apply Forall_cons; split; [repeat constructor; reflexivity|]). constructor.
Qed.
Lemma escape_byte_nonempty c : (1 <= length (escape_byte c))%nat.
Proof. unfold escape_byte. repeat case_match; simpl; lia. Qed.

Lemma escape_bytes_cons n c s :
  c < 128 → escape_bytes (S n) (c :: s) = escape_byte c ++ escape_bytes n s.
Proof. intros Hc. simpl. by rewrite (proj2 (N.ltb_lt c 128) Hc). Qed.

Section strings.
Implicit Types (s rest : bytes).

Lemma parse_escape s n rest fuel :
  Forall (λ c, c < 128) s → (length s <= n)%nat → (length s < fuel)%nat →
  parse_str fuel (escape_bytes n s ++ c_quote :: rest) = Some (s, rest).
Proof.
  intros Hs. revert n fuel. induction Hs as [|c s Hc _ IH]; intros n fuel Hn Hf.
  - destruct fuel; simpl in Hf; [lia|]. by destruct n.
  - destruct n as [|n], fuel as [|fuel]; simpl in Hn, Hf; try lia.
    rewrite escape_bytes_cons, <- app_assoc, parse_str_byte by done.
    rewrite (IH n fuel) by lia. done.
Qed.

Lemma escape_bytes_bytes s n : Forall (λ c, c < 128) s → Forall is_byte (escape_bytes n s).
Proof.
  intros Hs. revert n. induction Hs as [|c s Hc _ IH]; intros [|n]; try constructor.
  rewrite escape_bytes_cons by done. apply Forall_app; auto using escape_byte_bytes.
Qed.
Lemma escape_bytes_length s n :
  Forall (λ c, c < 128) s → (length s <= n)%nat → (length s <= length (escape_bytes n s))%nat.
Proof.
  intros Hs. revert n. induction Hs as [|c s Hc _ IH]; intros [|n] Hn; simpl in Hn; try (simpl; lia).
  rewrite escape_bytes_cons, length_app by done.
  pose proof (escape_byte_nonempty c). specialize (IH n). simpl. lia.
Qed.
End strings.

(** ** Integers *)

Lemma digit_char x : x < 10 → N_of_ascii (pretty_N_char x) = 48 + x.
Proof.
  revert x. apply (below_cases 10).
  repeat (apply Forall_cons; split; [reflexivity|]). constructor.
Qed.

(** The decimal digits [d :: ds] of a positive number. *)
Definition digits_of (x d : N) (ds : bytes) : Prop :=
  between 49 57 d = true ∧ Forall (λ c, is_digit c = true) ds
  ∧ ∀ r, parse_digits 0 (d :: ds ++ r) = parse_digits x r.

Lemma is_digit_char x : x < 10 → is_digit (48 + x) = true.
Proof. intros. unfold is_digit, between. apply andb_true_intro; split; apply N.leb_le; lia. Qed.

Lemma parse_digits_step acc x r :
  x < 10 → parse_digits acc (48 + x :: r) = parse_digits (acc * 10 + x) r.
Proof. intros Hx. simpl. rewrite is_digit_char by done. f_equal. lia. Qed.

Lemma pretty_go_digits x s :
  0 < x → ∃ d ds, bytes_of (pretty_N_go x s) = d :: ds ++ bytes_of s ∧ digits_of x d ds.
Proof.
  revert s. induction (N.lt_wf_0 x) as [x _ IH]; intros s Hx. rewrite pretty_N_go_step by done.
  assert (Hm : x `mod` 10 < 10) by (by apply N.mod_lt).
  pose proof (N.div_mod' x 10) as Hdm.
  assert (x `div` 10 = 0 ∨ 0 < x `div` 10) as [H0|Hpos] by lia.
  - rewrite H0, pretty_N_go_0. exists (48 + x `mod` 10), []. unfold bytes_of. simpl.
    rewrite digit_char by done. split; [done|]. repeat split; [|done|].
    + unfold between. apply andb_true_intro; split; apply N.leb_le; lia.
    + intros r. simpl app. rewrite parse_digits_step by done. f_equal. lia.
  - destruct (IH (x `div` 10) ltac:(apply N.div_lt; lia) (String (pretty_N_char (x `mod` 10)) s) Hpos)
      as (d & ds & Hbs & Hd & Hds & Hp).
    exists d, (ds ++ [48 + x `mod` 10]). split.
    + rewrite Hbs, <- app_assoc. unfold bytes_of. simpl. by rewrite digit_char.
    + repeat split; [done| |].
      * apply Forall_app; split; [done|]. repeat constructor. by apply is_digit_char.
      * intros r. rewrite <- app_assoc, Hp. simpl app. rewrite parse_digits_step by done.
        f_equal. lia.
Qed.

(** What may follow a value: a comma or a closing brace. *)
Definition closed (rest : bytes) : Prop :=
  match rest with c :: _ => c = c_comma ∨ c = c_rbrace | [] => False end.

Lemma span_digits_app ds rest :
  Forall (λ c, is_digit c = true) ds → closed rest → span_digits (ds ++ rest) = (ds, rest).
Proof.
  intros Hds Hr. induction Hds as [|c ds Hc _ IH]; simpl.
  - destruct rest as [|c rest]; [done|]. by destruct Hr as [->| ->].
  - by rewrite Hc, IH.
Qed.

Lemma parse_int_digits x d ds rest :
  digits_of x d ds → closed rest → parse_int_part (d :: ds ++ rest) = Some (d :: ds, rest).
Proof.
  intros (Hd & Hds & _) Hr. unfold parse_int_part.
  assert (is_digit d = true) as Hdig.
  { unfold is_digit, between in *. apply andb_prop in Hd as [?%N.leb_le ?%N.leb_le].
    apply andb_true_intro; split; apply N.leb_le; lia. }
  assert (span_digits (d :: ds ++ rest) = (d :: ds, rest)) as Hspan.
  { simpl. by rewrite Hdig, span_digits_app. }
  destruct (decide (d = 48)) as [->|Hne]; [done|].
  rewrite Hd, Hspan. repeat (case_match; try done).
Qed.

Lemma parse_frac_closed rest : closed rest → parse_frac rest = Some ([], rest).
Proof. destruct rest as [|c rest]; [done|]. by intros [->| ->]. Qed.
Lemma parse_exp_closed rest : closed rest → parse_exp rest = Some ([], rest).
Proof. destruct rest as [|c rest]; [done|]. by intros [->| ->]. Qed.

(** The literal [lit] of the integer [z]. *)
Definition int_literal (z : Z) (lit : bytes) : Prop :=
  (∃ c l, lit = c :: l ∧ (c = 45 ∨ is_digit c = true)) ∧ Forall is_byte lit
  ∧ (∀ rest, closed rest → parse_num (lit ++ rest) = Some (lit, rest))
  ∧ (in_i64 z → ParseInt lit = Some z).

(** Numbers without a sign. *)
Ltac not_minus c :=
  destruct c as [|p]; [|do 6 (try (destruct p as [p|p|]))]; try congruence.
Lemma ParseInt_unsigned c l :
  c ≠ 45 → ParseInt (c :: l) = n ← parse_digits 0 (c :: l);
    if decide (- 2 ^ 63 <= Z.of_N n < 2 ^ 63)%Z then Some (Z.of_N n) else None.
Proof.
  intros Hc. unfold ParseInt. not_minus c; cbn -[parse_digits Z.pow];
    destruct (parse_digits 0 (_ :: l)); reflexivity.
Qed.
Lemma parse_num_unsigned c l :
  c ≠ 45 → parse_num (c :: l) = '(i, s2) ← parse_int_part (c :: l);
    '(f, s3) ← parse_frac s2; '(e, s4) ← parse_exp s3; Some (i ++ f ++ e, s4).
Proof. intros Hc. unfold parse_num. not_minus c; reflexivity. Qed.

Lemma digits_literal x d ds :
  0 < x → digits_of x d ds → int_literal (Z.of_N x) (d :: ds) ∧ int_literal (- Z.of_N x) (45 :: d :: ds).
Proof.
  intros Hx Hd. pose proof Hd as (Hd1 & Hds & Hp). specialize (Hp []). rewrite app_nil_r in Hp.
  unfold between in Hd1. apply andb_prop in Hd1 as [H1%N.leb_le H2%N.leb_le].
  assert (Hb : Forall is_byte (d :: ds)).
  { constructor; [unfold is_byte; lia|]. eapply Forall_impl; [exact Hds|]. intros c.
    unfold is_digit, between, is_byte. intros [?%N.leb_le ?%N.leb_le]%andb_prop. lia. }
  assert (Hdig : is_digit d = true).
  { unfold is_digit, between. apply andb_true_intro; split; apply N.leb_le; lia. }
  assert (Hne : d ≠ 45) by lia.
  split; (split; [|split; [|split]]).
  - eauto.
  - done.
  - intros rest Hr. change ((d :: ds) ++ rest) with (d :: ds ++ rest).
    rewrite parse_num_unsigned by done.
    rewrite (parse_int_digits x) by done. cbn [mbind option_bind].
    rewrite parse_frac_closed by done. cbn. rewrite parse_exp_closed by done. cbn.
    by rewrite app_nil_r.
  - intros Hi. rewrite ParseInt_unsigned, Hp by done. cbn. by rewrite decide_True.
  - eauto.
  - by constructor.
  - intros rest Hr. unfold parse_num. cbn [app].
    change (d :: ds ++ rest) with ((d :: ds) ++ rest). simpl app.
    rewrite (parse_int_digits x) by done. cbn [mbind option_bind].
    rewrite parse_frac_closed by done. cbn. rewrite parse_exp_closed by done. cbn.
    by rewrite app_nil_r.
  - intros Hi. unfold ParseInt. rewrite Hp. cbn. by rewrite decide_True.
Qed.

Lemma itoa_literal z : int_literal z (marshal_int z).
Proof.
  unfold marshal_int, itoa.
  assert (∀ p, ∃ d ds, bytes_of (pretty (N.pos p)) = d :: ds ∧ digits_of (N.pos p) d ds) as Hpos.
  { intros p. destruct (pretty_go_digits (N.pos p) "" eq_refl) as (d & ds & Hb & Hd).
    exists d, ds. split; [|done]. by rewrite app_nil_r in Hb. }
  destruct z as [|p|p].
  - change (bytes_of (pretty 0%Z)) with [48]. split; [|split; [|split]].
    + eauto.
    + by repeat constructor.
    + intros rest Hr. unfold parse_num. cbn -[parse_frac parse_exp].
      rewrite parse_frac_closed by done. cbn -[parse_exp]. by rewrite parse_exp_closed.
    + done.
  - destruct (Hpos p) as (d & ds & Hb & Hd). change (pretty (Z.pos p)) with (pretty (N.pos p)).
    rewrite Hb. by apply (digits_literal (N.pos p)).
  - destruct (Hpos p) as (d & ds & Hb & Hd).
    change (pretty (Z.neg p)) with ("-" +:+ pretty (N.pos p)).
    rewrite bytes_of_app, Hb. by apply (digits_literal (N.pos p)).
Qed.

(** ** Values *)

(** [bs] encodes [v]: it is read back wherever a value may stand. *)
Definition encodes (bs : bytes) (v : json) : Prop :=
  (∃ c l, bs = c :: l ∧ is_ws c = false) ∧ Forall is_byte bs
  ∧ ∀ rest fuel, closed rest → (length bs < fuel)%nat → parse_value fuel (bs ++ rest) = Some (v, rest).

Lemma encodes_string s : ascii_bytes s → encodes (marshal_string s) (JStr (bytes_of s)).
Proof.
  intros Hs. unfold marshal_string. split; [|split].
  - eauto.
  - constructor; [done|]. apply Forall_app; split; [by apply escape_bytes_bytes|].
    by repeat constructor.
  - intros rest [|fuel] Hr Hf; [lia|]. simpl. rewrite <- app_assoc. simpl app.
    pose proof (escape_bytes_length (bytes_of s) (len s) Hs) as Hl.
    rewrite length_bytes_of in Hl. simpl in Hf. rewrite length_app in Hf.
    by rewrite (parse_escape (bytes_of s)) by (rewrite ?length_bytes_of; done || lia).
Qed.

Lemma encodes_int z : encodes (marshal_int z) (JNum (marshal_int z)).
Proof.
  destruct (itoa_literal z) as ((c & l & Hc & Hcc) & Hb & Hp & _).
  assert (Hcl : 45 <= c <= 57).
  { destruct Hcc as [->|Hd]; [lia|]. unfold is_digit, between in Hd.
    apply andb_prop in Hd as [?%N.leb_le ?%N.leb_le]. lia. }
  split; [|split; [done|]].
  - exists c, l. split; [done|]. unfold is_ws.
    by repeat (rewrite (proj2 (N.eqb_neq _ _)); [|lia]).
  - intros rest [|fuel] Hr Hf; [lia|]. specialize (Hp rest Hr). rewrite Hc in Hp |- *.
    simpl app in *. cbn [parse_value]. unfold c_quote, c_lbrace, c_lbrack.
    repeat (rewrite (proj2 (N.eqb_neq c _)); [|lia]). by rewrite Hp.
Qed.

(** ** Objects *)

(** The members of an object: name, encoded value, value. *)
Implicit Types (m : string * (bytes * json)) (ms : list (string * (bytes * json))).
Definition member_bytes m : bytes := marshal_string m.1 ++ c_colon :: m.2.1.
Definition member_ok m : Prop := ascii_bytes m.1 ∧ encodes m.2.1 m.2.2.
Definition member_json m : bytes * json := (bytes_of m.1, m.2.2).

Lemma skip_ws_cons c l : is_ws c = false → skip_ws (c :: l) = c :: l.
Proof. simpl. by intros ->. Qed.

Lemma member_head m : ∃ l, member_bytes m = c_quote :: l.
Proof. unfold member_bytes, marshal_string. simpl. eauto. Qed.
Lemma join_head m ms : ∃ l, join_members (member_bytes <$> m :: ms) = c_quote :: l.
Proof.
  destruct (member_head m) as [l Hl].
  destruct ms; cbn [fmap list_fmap join_members]; rewrite Hl; simpl; eauto.
Qed.

(** The members loop on one member: key, colon, value. *)
Lemma parse_member m rest fuel :
  member_ok m → closed rest → (length (member_bytes m) < fuel)%nat →
  ∃ s1 s2 s3, member_bytes m ++ rest = c_quote :: s1
    ∧ parse_str fuel s1 = Some (bytes_of m.1, s2) ∧ skip_ws s2 = c_colon :: s3
    ∧ parse_value fuel (skip_ws s3) = Some (m.2.2, rest).
Proof.
  destruct m as [k [vb v]]. intros [Hk He] Hr Hf. simpl in *.
  destruct He as ((c & l & -> & Hws) & _ & Hv).
  unfold member_bytes, marshal_string in *. simpl in *. rewrite !length_app in Hf. simpl in Hf.
  pose proof (escape_bytes_length (bytes_of k) (len k) Hk) as Hl. rewrite length_bytes_of in Hl.
  do 3 eexists. split; [by rewrite <- !app_assoc|]. split.
  - apply parse_escape; rewrite ?length_bytes_of; [done|lia..].
  - split; [reflexivity|]. cbn [app]. rewrite skip_ws_cons by done.
    apply (Hv rest fuel); [done|simpl; lia].
Qed.

Lemma parse_members_join m ms rest fuel :
  Forall member_ok (m :: ms) →
  (length (join_members (member_bytes <$> m :: ms)) + 1 < fuel)%nat →
  parse_members fuel (join_members (member_bytes <$> m :: ms) ++ c_rbrace :: rest)
  = Some (member_json <$> m :: ms, rest).
Proof.
  intros Hms. revert m fuel Hms. induction ms as [|m2 ms IH]; intros m [|fuel] Hms Hf; try lia;
    apply Forall_cons in Hms as [Hm Hms].
  - simpl fmap in *. simpl join_members in *.
    destruct (parse_member m (c_rbrace :: rest) fuel Hm ltac:(by right) ltac:(lia))
      as (s1 & s2 & s3 & -> & H1 & H2 & H3).
    cbn. rewrite H1. cbn. rewrite H2. cbn. rewrite H3. done.
  - change (join_members (member_bytes <$> m :: m2 :: ms))
      with (member_bytes m ++ c_comma :: join_members (member_bytes <$> m2 :: ms)) in *.
    rewrite length_app in Hf. cbn [length] in Hf. rewrite <- app_assoc. cbn [app].
    destruct (parse_member m (c_comma :: join_members (member_bytes <$> m2 :: ms) ++ c_rbrace :: rest)
      fuel Hm ltac:(by left) ltac:(lia)) as (s1 & s2 & s3 & -> & H1 & H2 & H3).
    cbn [parse_members]. rewrite H1. cbn. rewrite H2. cbn. rewrite H3. cbn.
    destruct (join_head m2 ms) as [l Hl].
    assert (skip_ws (join_members (member_bytes <$> m2 :: ms) ++ c_rbrace :: rest)
      = join_members (member_bytes <$> m2 :: ms) ++ c_rbrace :: rest) as Hskip by (by rewrite Hl).
    cbn in Hskip, IH |- *. rewrite Hskip, (IH m2 fuel Hms) by (cbn in *; lia). done.
Qed.

Lemma member_bytes_ok m : member_ok m → Forall is_byte (member_bytes m).
Proof.
  intros [Hk (_ & Hb & _)]. destruct (encodes_string _ Hk) as (_ & Hkb & _).
  unfold member_bytes. apply Forall_app; split; [done|]. by constructor.
Qed.
Lemma join_bytes ms : Forall member_ok ms → Forall is_byte (join_members (member_bytes <$> ms)).
Proof.
  induction 1 as [|m ms Hm Hms IH]; [constructor|]. apply member_bytes_ok in Hm.
  destruct ms as [|m2 ms]; [done|].
  change (join_members (member_bytes <$> m :: m2 :: ms))
    with (member_bytes m ++ c_comma :: join_members (member_bytes <$> m2 :: ms)).
  apply Forall_app; split; [done|]. by constructor.
Qed.

Lemma parse_object fields m ms :
  omap id fields = member_bytes <$> m :: ms → Forall member_ok (m :: ms) →
  parse_json (marshal_object fields) = Some (JObj (member_json <$> m :: ms)).
Proof.
  intros Hf Hms. unfold marshal_object, parse_json. rewrite Hf.
  set (text := join_members (member_bytes <$> m :: ms)).
  assert (Hb : Forall is_byte (c_lbrace :: text ++ [c_rbrace])).
  { constructor; [done|]. apply Forall_app; split; [by apply join_bytes|]. by repeat constructor. }
  rewrite <- (length_bytes_of (string_of _)), bytes_of_string_of by done. clear Hb.
  destruct (join_head m ms) as [l Hl]. fold text in Hl.
  pose proof (parse_members_join m ms [] (S (2 * length (c_lbrace :: text ++ [c_rbrace]))) Hms) as Hp.
  fold text in Hp. rewrite Hl in *. cbn -[parse_members Nat.mul length member_json] in Hp |- *.
  change 34 with c_quote. rewrite Hp; [done|]. cbn [length]. rewrite length_app. simpl. lia.
Qed.

(** Decoding the values an encoder wrote. *)
Lemma decode_string_bytes s old : decode_string (JStr (bytes_of s)) old = Some s.
Proof. simpl. by rewrite string_of_bytes_of. Qed.
Lemma decode_int_bytes z old : in_i64 z → decode_int (JNum (marshal_int z)) old = Some z.
Proof. destruct (itoa_literal z) as (_ & _ & _ & Hp). apply Hp. Qed.
