(* ===== verification/GoHeap.v ===== *)
(** * Go's memory, as far as copying needs it

    Values of Go's types with the pointers, slices and maps in them as references
    to cells of a heap; allocation; and what it means for a function to copy
    deeply: its result has the contents of the original and none of its cells. *)
From stdpp Require Import base gmap strings list numbers fin_maps.
From S2P Require Import Prelude.

(** ** Values and cells *)

Abbreviation addr := positive.
Inductive basic := BString (s : string) | BInt (z : Z) | BBool (b : bool).
(** [GRef] is a pointer, a slice or a map, [None] its nil. *)
Inductive gval :=
  | GBasic (b : basic)
  | GRef (r : option addr)
  | GStruct (fields : list (string * gval)).
(** A variable, the array of a slice, the entries of a map of strings. *)
Inductive cell := CVar (v : gval) | CArray (vs : list gval) | CMap (m : gmap string string).
Abbreviation heap := (gmap addr cell).

(** The types: basic ones (strings, numbers, booleans), pointers, slices, maps of
    strings to strings, structs. *)
Inductive ty :=
  | TBasic
  | TPtr (T : ty)
  | TSlice (T : ty)
  | TMap
  | TStruct (fields : list (string * ty)).

(** ** Computations on the heap: [None] is a fault. *)

Definition M (A : Type) : Type := heap → option (A * heap).
#[export] Instance M_ret : MRet M := λ A a h, Some (a, h).
#[export] Instance M_bind : MBind M := λ A B f m h,
  match m h with Some (a, h') => f a h' | None => None end.
Definition fault {A} : M A := λ h, None.
Definition load (a : addr) : M cell := λ h, c ← h !! a; Some (c, h).
(** A new cell with its contents. *)
Definition new (c : cell) : M gval := λ h, let a := fresh (dom h) in
  Some (GRef (Some a), <[a := c]> h).

Definition copier : Type := gval → M gval.

(** ** Structs *)

Fixpoint get_field (n : string) (fs : list (string * gval)) : option gval :=
  match fs with
  | [] => None
  | (m, x) :: fs => if decide (m = n) then Some x else get_field n fs
  end.
Fixpoint set_field (n : string) (y : gval) (fs : list (string * gval)) : list (string * gval) :=
  match fs with
  | [] => []
  | (m, x) :: fs => if decide (m = n) then (m, y) :: fs else (m, x) :: set_field n y fs
  end.

(** [*out = *in] followed by assignments to fields of [out], each computed from
    the field of [in] by a copier. *)
Fixpoint assign_fields (steps : list (string * copier)) (in_ out : list (string * gval))
    : M (list (string * gval)) :=
  match steps with
  | [] => mret out
  | (n, copy) :: steps =>
      match get_field n in_ with
      | None => fault
      | Some x => y ← copy x; assign_fields steps in_ (set_field n y out)
      end
  end.
Definition copy_struct (steps : list (string * copier)) : copier := λ v,
  match v with
  | GStruct fs => out ← assign_fields steps fs fs; mret (GStruct out)
  | _ => fault
  end.

(** ** The ways a field is copied *)

(** [out.F = in.F] *)
Definition assign : copier := λ x, mret x.
(** [if in.F != nil { ... }] *)
Definition if_set (copy : copier) : copier := λ x,
  match x with GRef None => mret x | _ => copy x end.
(** [*out = new(T); ( *in).DeepCopyInto( *out)] *)
Definition new_into (into : copier) : copier := λ x,
  match x with
  | GRef (Some a) =>
      c ← load a;
      match c with CVar v => v' ← into v; new (CVar v') | _ => fault end
  | _ => fault
  end.
(** [*out = new(T); **out = **in] *)
Definition new_copy : copier := new_into assign.
(** [*out = make([]T, len( *in)); for i := range *in { ( *in)[i].DeepCopyInto(&( *out)[i]) }] *)
Fixpoint each (into : copier) (vs : list gval) : M (list gval) :=
  match vs with
  | [] => mret []
  | v :: vs => v' ← into v; vs' ← each into vs; mret (v' :: vs')
  end.
Definition make_into (into : copier) : copier := λ x,
  match x with
  | GRef (Some a) =>
      c ← load a;
      match c with CArray vs => vs' ← each into vs; new (CArray vs') | _ => fault end
  | _ => fault
  end.
(** [*out = make([]T, len( *in)); copy( *out, *in)] *)
Definition make_copy : copier := make_into assign.

Section maps.
(** The order in which a [range] visits the entries of a map. *)
Context (range : gmap string string → list (string * string)).
(** [*out = make(map[string]string, len( *in)); for key, val := range *in { ( *out)[key] = val }] *)
Definition make_map : copier := λ x,
  match x with
  | GRef (Some a) =>
      c ← load a;
      match c with
      | CMap m => new (CMap (foldl (λ out '(key, val), <[key := val]> out) ∅ (range m)))
      | _ => fault
      end
  | _ => fault
  end.
End maps.

(** [if in == nil { return nil }; out := new(T); in.DeepCopyInto(out); return out] *)
Definition deep_copy (into : copier) : copier := if_set (new_into into).
(** [if c := in.DeepCopy(); c != nil { return c }; return nil]: the interface
    value, [None] for a nil one. *)
Definition deep_copy_object (copy : copier) (x : gval) : M (option gval) :=
  c ← copy x; mret (match c with GRef None => None | _ => Some c end).

(** ** Deep copies *)

(** The fields of a struct have the names of its type, and each satisfies [P]. *)
Section fields.
Context (P : ty → gval → Prop) (P2 : string → ty → gval → gval → Prop).
Definition all_fields : list (string * ty) → list (string * gval) → Prop :=
  fix go fts fs :=
    match fts, fs with
    | [], [] => True
    | (n, T) :: fts, (m, x) :: fs => m = n ∧ P T x ∧ go fts fs
    | _, _ => False
    end.
Definition all_fields2
    : list (string * ty) → list (string * gval) → list (string * gval) → Prop :=
  fix go fts fs fs' :=
    match fts, fs, fs' with
    | [], [], [] => True
    | (n, T) :: fts, (m, x) :: fs, (m', x') :: fs' => m = n ∧ m' = n ∧ P2 n T x x' ∧ go fts fs fs'
    | _, _, _ => False
    end.
End fields.

(** [v] is a value of type [T] all of whose references are in the heap. *)
Fixpoint well_typed (h : heap) (T : ty) (v : gval) : Prop :=
  match T with
  | TBasic => ∃ b, v = GBasic b
  | TPtr T => v = GRef None
      ∨ ∃ a x, v = GRef (Some a) ∧ h !! a = Some (CVar x) ∧ well_typed h T x
  | TSlice T => v = GRef None
      ∨ ∃ a xs, v = GRef (Some a) ∧ h !! a = Some (CArray xs) ∧ Forall (well_typed h T) xs
  | TMap => v = GRef None ∨ ∃ a m, v = GRef (Some a) ∧ h !! a = Some (CMap m)
  | TStruct fts => ∃ fs, v = GStruct fs ∧ all_fields (well_typed h) fts fs
  end.

(** [v'] in the heap [h'] is a copy of [v] in [h]: the same contents, in cells
    that [h] does not have. *)
Fixpoint copied (h h' : heap) (T : ty) (v v' : gval) : Prop :=
  match T with
  | TBasic => ∃ b, v = GBasic b ∧ v' = GBasic b
  | TPtr T => v = GRef None ∧ v' = GRef None
      ∨ ∃ a a' x x', v = GRef (Some a) ∧ v' = GRef (Some a') ∧ h !! a' = None
          ∧ h !! a = Some (CVar x) ∧ h' !! a' = Some (CVar x') ∧ copied h h' T x x'
  | TSlice T => v = GRef None ∧ v' = GRef None
      ∨ ∃ a a' xs xs', v = GRef (Some a) ∧ v' = GRef (Some a') ∧ h !! a' = None
          ∧ h !! a = Some (CArray xs) ∧ h' !! a' = Some (CArray xs')
          ∧ Forall2 (copied h h' T) xs xs'
  | TMap => v = GRef None ∧ v' = GRef None
      ∨ ∃ a a' m, v = GRef (Some a) ∧ v' = GRef (Some a') ∧ h !! a' = None
          ∧ h !! a = Some (CMap m) ∧ h' !! a' = Some (CMap m)
  | TStruct fts => ∃ fs fs', v = GStruct fs ∧ v' = GStruct fs'
      ∧ all_fields2 (λ _, copied h h') fts fs fs'
  end.

(** The copier always succeeds, changes no cell, and its result is a copy. *)
Definition deep (T : ty) (copy : copier) : Prop :=
  ∀ h v, well_typed h T v → ∃ v' h', copy v h = Some (v', h') ∧ h ⊆ h' ∧ copied h h' T v v'.

(** Types without references. *)
Fixpoint flat (T : ty) : bool :=
  match T with
  | TBasic => true
  | TStruct fts => forallb (λ '(_, T), flat T) fts
  | _ => false
  end.

(** ** Induction on types *)

Section ty_ind.
Context (P : ty → Prop) (Hb : P TBasic) (Hp : ∀ T, P T → P (TPtr T))
  (Hs : ∀ T, P T → P (TSlice T)) (Hm : P TMap)
  (Hf : ∀ fts, Forall (λ x : string * ty, P x.2) fts → P (TStruct fts)).
Fixpoint ty_fields_ind (T : ty) : P T :=
  match T with
  | TBasic => Hb
  | TPtr T => Hp T (ty_fields_ind T)
  | TSlice T => Hs T (ty_fields_ind T)
  | TMap => Hm
  | TStruct fts => Hf fts
      ((fix go fts : Forall (λ x : string * ty, P x.2) fts :=
          match fts with
          | [] => List.Forall_nil _
          | x :: fts => List.Forall_cons _ x fts (ty_fields_ind x.2) (go fts)
          end) fts)
  end.
End ty_ind.

Lemma all_fields_impl (P Q : ty → gval → Prop) fts fs :
  Forall (λ x : string * ty, ∀ v, P x.2 v → Q x.2 v) fts →
  all_fields P fts fs → all_fields Q fts fs.
Proof.
  revert fs. induction fts as [|[n T] fts IH]; intros [|[m x] fs]; simpl; try done.
  intros [H1 H2]%Forall_cons_1 (-> & Hx & Hfs). auto.
Qed.

(** More cells do not matter. *)
Lemma well_typed_mono h h' T : h ⊆ h' → ∀ v, well_typed h T v → well_typed h' T v.
Proof.
  intros Hh. induction T as [|T IH|T IH| |fts IH] using ty_fields_ind; intros v; simpl.
  - done.
  - intros [->|(a & x & -> & Ha & Hx)]; [by left|right]. exists a, x.
    split_and!; [done|by eapply lookup_weaken|auto].
  - intros [->|(a & xs & -> & Ha & Hxs)]; [by left|right]. exists a, xs.
    split_and!; [done|by eapply lookup_weaken|]. by eapply Forall_impl.
  - intros [->|(a & m & -> & Ha)]; [by left|right]. exists a, m.
    split; [done|by eapply lookup_weaken].
  - intros (fs & -> & Hfs). exists fs. split; [done|]. by eapply all_fields_impl.
Qed.

Lemma all_fields2_impl (P : ty → gval → Prop) (Q R : string → ty → gval → gval → Prop) fts fs fs' :
  Forall (λ x : string * ty, ∀ v v', P x.2 v → Q x.1 x.2 v v' → R x.1 x.2 v v') fts →
  all_fields P fts fs → all_fields2 Q fts fs fs' → all_fields2 R fts fs fs'.
Proof.
  revert fs fs'. induction fts as [|[n T] fts IH]; intros [|[m x] fs] [|[m' x'] fs']; simpl; try done.
  intros [H1 H2]%Forall_cons_1 (-> & Hx & Hfs) (_ & -> & Hx' & Hfs').
  split_and!; try done; eauto.
Qed.

Lemma copied_list (P : gval → Prop) (Q R : gval → gval → Prop) xs xs' :
  (∀ v v', P v → Q v v' → R v v') → Forall P xs → Forall2 Q xs xs' → Forall2 R xs xs'.
Proof.
  intros HR Hx Hc. induction Hc as [|y y' ys ys' Hy Hys IHys]; [constructor|].
  apply Forall_cons_1 in Hx as [? ?]. constructor; auto.
Qed.

(** A copy made later, seen from an earlier heap and in a later one. *)
Lemma copied_weaken h h1 h2 h3 T : h ⊆ h1 → h2 ⊆ h3 →
  ∀ v v', well_typed h T v → copied h1 h2 T v v' → copied h h3 T v v'.
Proof.
  intros H1 H2. induction T as [|T IH|T IH| |fts IH] using ty_fields_ind; intros v v'; simpl.
  - done.
  - intros [->|(a & x & -> & Ha & Hx)] [[? ->]|(a1 & a' & x1 & x' & ? & -> & Hn & Ha1 & Ha' & Hc)];
      simplify_eq; [by left|right].
    rewrite (lookup_weaken _ _ _ _ Ha H1) in Ha1. injection Ha1 as <-.
    exists a1, a', x, x'. split_and!; try done; [by eapply lookup_weaken_None|by eapply lookup_weaken|auto].
  - intros [->|(a & x & -> & Ha & Hx)] [[? ->]|(a1 & a' & x1 & x' & ? & -> & Hn & Ha1 & Ha' & Hc)];
      simplify_eq; [by left|right].
    rewrite (lookup_weaken _ _ _ _ Ha H1) in Ha1. injection Ha1 as <-.
    exists a1, a', x, x'. split_and!; try done; [by eapply lookup_weaken_None|by eapply lookup_weaken|].
    by eapply copied_list.
  - intros [->|(a & m & -> & Ha)] [[? ->]|(a1 & a' & m1 & ? & -> & Hn & Ha1 & Ha')];
      simplify_eq; [by left|right].
    rewrite (lookup_weaken _ _ _ _ Ha H1) in Ha1. injection Ha1 as <-.
    exists a1, a', m. split_and!; try done; [by eapply lookup_weaken_None|by eapply lookup_weaken].
  - intros (fs & -> & Hfs) (? & fs' & [= <-] & -> & Hfs'). exists fs, fs'. split_and!; try done.
    exact (all_fields2_impl (well_typed h) (λ _, copied h1 h2) (λ _, copied h h3) _ _ _ IH Hfs Hfs').
Qed.

(** Without references a value is its own copy. *)
Lemma all_fields_flat h h' fts fs :
  Forall (λ x : string * ty, flat x.2 = true → ∀ v, well_typed h x.2 v → copied h h' x.2 v v) fts →
  forallb (λ '(_, T), flat T) fts = true → all_fields (well_typed h) fts fs →
  all_fields2 (λ _, copied h h') fts fs fs.
Proof.
  revert fs. induction fts as [|[n T] fts IH]; intros [|[m x] fs]; simpl; try done.
  intros [Hx H2]%Forall_cons_1 [H3 H4]%andb_prop (-> & Hw & Hfs).
  split_and!; try done; auto.
Qed.
Lemma flat_copied h h' T : flat T = true → ∀ v, well_typed h T v → copied h h' T v v.
Proof.
  induction T as [|T IH|T IH| |fts IH] using ty_fields_ind; simpl; try done.
  - by intros _ v [b ->]; exists b.
  - intros Hf v (fs & -> & Hfs). exists fs, fs. split_and!; try done. by apply all_fields_flat.
Qed.

(** ** The copiers are deep *)

Create HintDb deep discriminated.
#[export] Hint Constants Opaque : deep.

Lemma deep_assign T : flat T = true → deep T assign.
Proof.
  intros Hf h v Hv. exists v, h. split_and!; [done..|]. by apply flat_copied.
Qed.

Lemma new_spec c h : ∃ a h', new c h = Some (GRef (Some a), h')
  ∧ h ⊆ h' ∧ h !! a = None ∧ h' !! a = Some c.
Proof.
  unfold new. eexists _, _. split; [done|].
  assert (h !! fresh (dom h) = None) by (apply not_elem_of_dom, is_fresh).
  split_and!; [by apply insert_subseteq|done|apply lookup_insert_eq].
Qed.

Lemma deep_ptr T into : deep T into → deep (TPtr T) (if_set (new_into into)).
Proof.
  intros Hd h v [->|(a & x & -> & Ha & Hx)].
  { exists (GRef None), h. split_and!; [done..|]. by left. }
  destruct (Hd h x Hx) as (x' & h1 & Hinto & H1 & Hc).
  destruct (new_spec (CVar x') h1) as (a' & h2 & Hnew & H2 & Hfresh & Ha').
  exists (GRef (Some a')), h2. split_and!; [|by etrans|].
  - unfold if_set, new_into, mbind, M_bind, load. simpl. rewrite Ha. simpl. by rewrite Hinto.
  - right. exists a, a', x, x'. split_and!; try done; [by eapply lookup_weaken_None|].
    by eapply (copied_weaken h h h1 h2).
Qed.

Lemma each_deep T into : deep T into → ∀ vs h, Forall (well_typed h T) vs →
  ∃ vs' h', each into vs h = Some (vs', h') ∧ h ⊆ h' ∧ Forall2 (copied h h' T) vs vs'.
Proof.
  intros Hd. induction vs as [|v vs IH]; intros h Hvs.
  { exists [], h. split_and!; [done..|constructor]. }
  apply Forall_cons_1 in Hvs as [Hv Hvs].
  destruct (Hd h v Hv) as (v' & h1 & Hinto & H1 & Hc).
  destruct (IH h1) as (vs' & h2 & Heach & H2 & Hcs).
  { eapply Forall_impl; [exact Hvs|by apply well_typed_mono]. }
  exists (v' :: vs'), h2. split_and!; [|by etrans|].
  - simpl. unfold mbind, M_bind. by rewrite Hinto, Heach.
  - constructor; [by eapply (copied_weaken h h h1 h2)|].
    eapply copied_list; [|exact Hvs|exact Hcs]. intros ??. by eapply (copied_weaken h h1 h2 h2).
Qed.

Lemma deep_slice T into : deep T into → deep (TSlice T) (if_set (make_into into)).
Proof.
  intros Hd h v [->|(a & xs & -> & Ha & Hxs)].
  { exists (GRef None), h. split_and!; [done..|]. by left. }
  destruct (each_deep T into Hd xs h Hxs) as (xs' & h1 & Heach & H1 & Hc).
  destruct (new_spec (CArray xs') h1) as (a' & h2 & Hnew & H2 & Hfresh & Ha').
  exists (GRef (Some a')), h2. split_and!; [|by etrans|].
  - unfold if_set, make_into, mbind, M_bind, load. simpl. rewrite Ha. simpl. by rewrite Heach.
  - right. exists a, a', xs, xs'. split_and!; try done; [by eapply lookup_weaken_None|].
    eapply copied_list; [|exact Hxs|exact Hc]. intros ??. by eapply (copied_weaken h h h1 h2).
Qed.

(** A map copied entry by entry, in any order. *)
Lemma foldl_insert (l : list (string * string)) (out : gmap string string) :
  NoDup l.*1 → (∀ k, k ∈ l.*1 → out !! k = None) →
  foldl (λ out '(key, val), <[key := val]> out) out l = list_to_map l ∪ out.
Proof.
  revert out. induction l as [|[k x] l IH]; intros out; simpl; [by rewrite (left_id_L ∅ _)|].
  intros [Hk Hl]%NoDup_cons Hout. rewrite IH; [|done|].
  - rewrite <- insert_union_r; [by rewrite insert_union_l|]. by apply not_elem_of_list_to_map.
  - intros k' Hk'. rewrite lookup_insert_ne by (intros ->; done). apply Hout. by right.
Qed.
Lemma deep_map range :
  (∀ m : gmap string string, range m ≡ₚ map_to_list m) → deep TMap (if_set (make_map range)).
Proof.
  intros Hrange h v [->|(a & m & -> & Ha)].
  { exists (GRef None), h. split_and!; [done..|]. by left. }
  assert (Hm : foldl (λ out '(key, val), <[key := val]> out) ∅ (range m) = m).
  { rewrite foldl_insert.
    - rewrite (right_id_L ∅ _), (list_to_map_proper (range m) (map_to_list m)); [|by rewrite Hrange; apply NoDup_fst_map_to_list|done].
      apply list_to_map_to_list.
    - rewrite Hrange. apply NoDup_fst_map_to_list.
    - intros; apply lookup_empty. }
  destruct (new_spec (CMap m) h) as (a' & h2 & Hnew & H2 & Hfresh & Ha').
  exists (GRef (Some a')), h2. split_and!; [|done|].
  - unfold if_set, make_map, mbind, M_bind, load. simpl. rewrite Ha. simpl. by rewrite Hm.
  - right. by exists a, a', m.
Qed.

(** *** Structs

    The fields of the copy of a struct, when those of [done] have been assigned:
    copies of the original's fields, or still the original's. *)
Definition field_state (h h' : heap) (done : list string) (n : string) (T : ty) (x y : gval)
    : Prop :=
  if decide (n ∈ done) then copied h h' T x y else y = x.

Lemma get_field_typed (P : ty → gval → Prop) n T fts fs :
  NoDup fts.*1 → (n, T) ∈ fts → all_fields P fts fs → ∃ x, get_field n fs = Some x ∧ P T x.
Proof.
  revert fs. induction fts as [|[n' T'] fts IH]; intros [|[m x] fs]; simpl; try done.
  - by intros _ ?%not_elem_of_nil.
  - intros [Hn Hnd]%NoDup_cons Hin (-> & Hx & Hfs).
    apply elem_of_cons in Hin as [[= <- <-]|Hin].
    + exists x. by rewrite decide_True.
    + rewrite decide_False; [by eapply IH|]. intros ->. apply Hn.
      apply (list_elem_of_fmap_2 fst _ (n, T) Hin).
Qed.

Lemma set_field_state h h' done n x y fts fs out : ∀ T,
  NoDup fts.*1 → (n, T) ∈ fts → get_field n fs = Some x → copied h h' T x y →
  all_fields2 (field_state h h' done) fts fs out →
  all_fields2 (field_state h h' (n :: done)) fts fs (set_field n y out).
Proof.
  revert fs out. induction fts as [|[n' T'] fts IH]; intros [|[m x0] fs] [|[m' y0] out] T;
    simpl; try done.
  intros [Hn Hnd]%NoDup_cons Hin Hget Hc (-> & -> & Hst & Hfs).
  destruct (decide (n' = n)) as [->|Hne].
  - injection Hget as ->. apply elem_of_cons in Hin as [[= ->]|Hin].
    2:{ destruct Hn. apply (list_elem_of_fmap_2 fst _ (n, T) Hin). }
    split_and!; [done..|unfold field_state; by rewrite decide_True by left|].
    clear -Hn Hfs. revert fs out Hfs. induction fts as [|[n' T'] fts IH];
      intros [|[m x] fs] [|[m' y] out]; simpl; try done.
    intros (-> & -> & Hst & Hfs). simpl in Hn. apply not_elem_of_cons in Hn as [Hn1 Hn2].
    split_and!; [done..| |by apply IH]. unfold field_state in *.
    destruct (decide (n' ∈ done)); [by rewrite decide_True by (by right)|].
    rewrite decide_False; [done|]. by apply not_elem_of_cons.
  - apply elem_of_cons in Hin as [[= ? ?]|Hin]; [done|].
    simpl. split_and!; [done..| |by eapply IH].
    unfold field_state in *. destruct (decide (n' ∈ done)); [by rewrite decide_True by (by right)|].
    rewrite decide_False; [done|]. by apply not_elem_of_cons.
Qed.

(** What a list of assignments must have to copy a struct deeply: each is a deep
    copy at the type of its field, and every field without one has no
    references. *)
Fixpoint field_type (n : string) (fts : list (string * ty)) : option ty :=
  match fts with
  | [] => None
  | (m, T) :: fts => if String.eqb m n then Some T else field_type n fts
  end.
Fixpoint steps_deep (fts : list (string * ty)) (steps : list (string * copier)) : Prop :=
  match steps with
  | [] => True
  | (n, copy) :: steps =>
      match field_type n fts with Some T => deep T copy | None => False end
      ∧ steps_deep fts steps
  end.
Definition covered (fts : list (string * ty)) (names : list string) : bool :=
  forallb (λ '(n, T), bool_decide (n ∈ names) || flat T) fts.

Lemma field_type_elem n fts T : field_type n fts = Some T → (n, T) ∈ fts.
Proof.
  induction fts as [|[m U] fts IH]; simpl; [done|]. destruct (String.eqb_spec m n) as [->|].
  - intros [= ->]. by left.
  - intros ?. right. auto.
Qed.

Lemma field_state_mono h0 h h' done fts fs out :
  h ⊆ h' → all_fields (well_typed h0) fts fs →
  all_fields2 (field_state h0 h done) fts fs out → all_fields2 (field_state h0 h' done) fts fs out.
Proof.
  intros Hh Hw. apply (all_fields2_impl (well_typed h0)); [|done].
  apply Forall_forall. intros [n T] _ v v' Hv. unfold field_state. simpl.
  destruct (decide _); [|done]. by apply (copied_weaken h0 h0 h h').
Qed.

Lemma assign_fields_deep h0 fts fs steps : NoDup fts.*1 → all_fields (well_typed h0) fts fs →
  steps_deep fts steps → ∀ done out h, h0 ⊆ h →
  all_fields2 (field_state h0 h done) fts fs out →
  ∃ out' h' done', assign_fields steps fs out h = Some (out', h') ∧ h ⊆ h'
    ∧ all_fields2 (field_state h0 h' done') fts fs out' ∧ (∀ n, n ∈ steps.*1 → n ∈ done')
    ∧ (∀ n, n ∈ done → n ∈ done').
Proof.
  intros Hnd Hw. induction steps as [|[n copy] steps IH]; intros Hsteps done out h Hh Hout.
  { exists out, h, done. split_and!; try done. by intros n ?%not_elem_of_nil. }
  destruct Hsteps as [Hdeep Hsteps]. destruct (field_type n fts) as [T|] eqn:HT; [|done].
  apply field_type_elem in HT.
  destruct (get_field_typed _ _ _ _ _ Hnd HT Hw) as (x & Hget & Hx).
  destruct (Hdeep h x) as (y & h1 & Hcopy & H1 & Hc); [by eapply well_typed_mono|].
  destruct (IH Hsteps (n :: done) (set_field n y out) h1) as (out' & h' & done' & He & H2 & Hs & Hn & Hd).
  { by etrans. }
  { eapply set_field_state; [done|done|done|by apply (copied_weaken h0 h h1 h1)|].
    by eapply field_state_mono. }
  exists out', h', done'. split_and!; [| by etrans|done| |].
  - simpl. rewrite Hget. unfold mbind, M_bind. by rewrite Hcopy.
  - intros n' [->|?]%elem_of_cons; [|by apply Hn]. apply Hd. by left.
  - intros n' ?. apply Hd. by right.
Qed.

Lemma all_fields2_same (P : ty → gval → Prop) h0 h fts fs :
  all_fields P fts fs → all_fields2 (field_state h0 h []) fts fs fs.
Proof.
  revert fs. induction fts as [|[n T] fts IH]; intros [|[m x] fs]; simpl; try done.
  intros (-> & _ & Hfs). split_and!; try done. by apply IH.
Qed.

Lemma deep_struct fts steps :
  bool_decide (NoDup fts.*1) = true → covered fts steps.*1 = true → steps_deep fts steps →
  deep (TStruct fts) (copy_struct steps).
Proof.
  intros Hnd%bool_decide_eq_true Hcov Hsteps h v (fs & -> & Hw).
  destruct (assign_fields_deep h fts fs steps Hnd Hw Hsteps [] fs h) as (out & h' & assigned & He & Hh & Hs & Hn & _);
    [done|by eapply all_fields2_same|].
  exists (GStruct out), h'. split_and!; [|done|].
  - unfold copy_struct, mbind, M_bind. by rewrite He.
  - exists fs, out. split_and!; [done..|]. revert Hs. apply (all_fields2_impl (well_typed h)); [|done].
    apply Forall_forall. intros [n T] Hin x y Hx. unfold field_state. simpl.
    destruct (decide (n ∈ assigned)) as [|Hnot]; [done|]. intros ->. apply flat_copied; [|done].
    unfold covered in Hcov. rewrite forallb_forall in Hcov.
    specialize (Hcov (n, T)). simpl in Hcov.
    destruct (bool_decide_reflect (n ∈ steps.*1)) as [Hs|_]; [by destruct Hnot; apply Hn|].
    apply Hcov. by apply list_elem_of_In.
Qed.

Lemma deep_if_set T copy : deep (TPtr T) copy → deep (TPtr T) (if_set copy).
Proof.
  intros Hd h v Hv. pose proof Hv as [->|(a & x & -> & _)]; [|by apply Hd].
  exists (GRef None), h. split_and!; [done..|]. by left.
Qed.

(** [DeepCopy] on a possibly nil receiver, and [DeepCopyObject]. *)
Lemma deep_deep_copy T into : deep T into → deep (TPtr T) (deep_copy into).
Proof. apply deep_ptr. Qed.

Lemma deep_object T copy h x : deep (TPtr T) copy → well_typed h (TPtr T) x →
  ∃ r h', deep_copy_object copy x h = Some (r, h') ∧ h ⊆ h'
    ∧ match r with
      | None => x = GRef None
      | Some y => x ≠ GRef None ∧ copied h h' (TPtr T) x y
      end.
Proof.
  intros Hd Hx. destruct (Hd h x Hx) as (y & h' & He & Hh & Hc).
  unfold deep_copy_object, mbind, M_bind. rewrite He. do 2 eexists. split; [done|]. split; [done|].
  destruct Hc as [[-> ->]|(a & a' & z & z' & -> & -> & ?)]; [done|]. split; [done|].
  right. by exists a, a', z, z'.
Qed.

#[export] Hint Resolve deep_ptr deep_slice deep_map deep_if_set : deep.
#[export] Hint Extern 1 (deep _ assign) => apply deep_assign; first [reflexivity|assumption] : deep.
#[export] Hint Extern 1 (deep _ (if_set new_copy)) => apply deep_ptr : deep.
#[export] Hint Extern 1 (deep _ (if_set make_copy)) => apply deep_slice : deep.
#[export] Hint Extern 1 (deep (TPtr _) (deep_copy _)) => apply deep_deep_copy : deep.

(** The copy of a struct is deep: field by field. *)
Ltac field_deep :=
  lazymatch goal with
  | |- match ?x with _ => _ end => let y := eval hnf in x in change x with y
  end; cbv iota; auto with deep.
Ltac solve_deep :=
  apply deep_struct; [vm_compute; reflexivity|vm_compute; reflexivity|];
  repeat (split; [field_deep|]); exact I.
