(* ===== verification/DeepCopy.v ===== *)
(** * The generated deep copies ([src/api/v1alpha1/zz_generated.deepcopy.go])

    The memory layout of the API types, the copy functions generated for them,
    and the proof that every one copies deeply.  The types of apimachinery and
    their copy functions are parameters. *)
From stdpp Require Import base gmap strings list numbers fin_maps.
From S2P Require Import Prelude GoHeap.

Section copies.
(** [metav1.TypeMeta], [ObjectMeta], [ListMeta], [Time] and [Condition], their
    copy functions, and the order of a [range] over a map. *)
Context (T_TypeMeta T_ObjectMeta T_ListMeta T_Time T_Condition : ty).
Context (ObjectMeta_DeepCopyInto ListMeta_DeepCopyInto Time_DeepCopy Condition_DeepCopyInto : copier).
Context (range : gmap string string → list (string * string)).

(** ** Layouts *)

Definition T_EnvVar : list (string * ty) := [("Name", TBasic); ("Value", TBasic)].
Definition T_HTTPAction : list (string * ty) :=
  [("URL", TBasic); ("Method", TBasic); ("Headers", TMap); ("Body", TPtr TBasic);
   ("TimeoutSeconds", TPtr TBasic)].
Definition T_JobAction : list (string * ty) :=
  [("Image", TBasic); ("Command", TSlice TBasic); ("Script", TPtr TBasic);
   ("Env", TSlice (TStruct T_EnvVar)); ("ServiceAccountName", TBasic);
   ("ActiveDeadlineSeconds", TPtr TBasic); ("MaxRetries", TPtr TBasic)].
Definition T_ScaleAction : list (string * ty) :=
  [("Kind", TBasic); ("Name", TBasic); ("Replicas", TBasic); ("WaitReady", TBasic);
   ("TimeoutSeconds", TPtr TBasic)].
Definition T_WaitReadyAction : list (string * ty) :=
  [("Kind", TBasic); ("Name", TBasic); ("TimeoutSeconds", TPtr TBasic)].
Definition T_WaitRemoteAction : list (string * ty) :=
  [("Phase", TPtr TBasic); ("ActionName", TPtr TBasic);
   ("ConnectTimeoutSeconds", TPtr TBasic); ("ActionTimeoutSeconds", TPtr TBasic)].
Definition T_FailoverAction : list (string * ty) :=
  [("Name", TBasic); ("HTTP", TPtr (TStruct T_HTTPAction)); ("Job", TPtr (TStruct T_JobAction));
   ("Scale", TPtr (TStruct T_ScaleAction)); ("WaitReady", TPtr (TStruct T_WaitReadyAction));
   ("WaitRemote", TPtr (TStruct T_WaitRemoteAction)); ("IgnoreFailure", TBasic);
   ("MaxRetries", TPtr TBasic); ("RetryIntervalSeconds", TPtr TBasic)].
Definition T_TransitionActions : list (string * ty) :=
  [("PreActions", TSlice (TStruct T_FailoverAction));
   ("PostActions", TSlice (TStruct T_FailoverAction))].
Definition T_ClusterTarget : list (string * ty) :=
  [("PrimaryModeAddress", TBasic); ("FailoverModeAddress", TBasic);
   ("OnFailover", TPtr (TStruct T_TransitionActions));
   ("OnFailback", TPtr (TStruct T_TransitionActions))].
Definition T_Port : list (string * ty) :=
  [("Name", TBasic); ("Port", TBasic); ("Protocol", TBasic)].
Definition T_RemoteState : list (string * ty) :=
  [("FailoverActive", TBasic); ("ActiveCluster", TBasic); ("ActiveGeneration", TBasic);
   ("LastSyncTime", TPtr T_Time); ("ClusterID", TBasic); ("SpecChangeTime", TPtr T_Time)].
Definition T_ActionResult : list (string * ty) :=
  [("Name", TBasic); ("Status", TBasic); ("Message", TBasic); ("StartedAt", TPtr T_Time);
   ("CompletedAt", TPtr T_Time); ("JobName", TBasic); ("RetryCount", TBasic)].
Definition T_ConnectionKillStatus : list (string * ty) :=
  [("SignalSent", TBasic); ("KillToken", TBasic); ("ExpectedNodes", TSlice TBasic);
   ("AckedNodes", TSlice TBasic); ("SignaledAt", TPtr T_Time)].
Definition T_TransitionStatus : list (string * ty) :=
  [("Phase", TBasic); ("TargetDirection", TBasic); ("OldAddressSnapshot", TBasic);
   ("NewAddressSnapshot", TBasic); ("TransitionID", TBasic); ("CurrentActionIndex", TBasic);
   ("PreActionResults", TSlice (TStruct T_ActionResult));
   ("PostActionResults", TSlice (TStruct T_ActionResult)); ("StartedAt", TPtr T_Time);
   ("ConnectionKill", TPtr (TStruct T_ConnectionKillStatus)); ("EventName", TBasic)].
Definition T_FailoverServiceSpec : list (string * ty) :=
  [("ServiceName", TBasic); ("Ports", TSlice (TStruct T_Port)); ("FailoverActive", TBasic);
   ("PrimaryCluster", TStruct T_ClusterTarget); ("FailoverCluster", TStruct T_ClusterTarget)].
Definition T_ClusterStatus : list (string * ty) :=
  [("ClusterID", TBasic); ("AppliedGeneration", TBasic); ("LastAppliedTime", TPtr T_Time);
   ("Phase", TBasic)].
Definition T_FailoverServiceStatus : list (string * ty) :=
  [("ObservedGeneration", TBasic); ("ActiveCluster", TBasic); ("ActiveGeneration", TBasic);
   ("LastTransitionTime", TPtr T_Time); ("LastKnownFailoverActive", TPtr TBasic);
   ("SpecChangeTime", TPtr T_Time); ("Clusters", TSlice (TStruct T_ClusterStatus));
   ("RemoteState", TPtr (TStruct T_RemoteState));
   ("Transition", TPtr (TStruct T_TransitionStatus)); ("Conditions", TSlice T_Condition)].
Definition T_FailoverService : list (string * ty) :=
  [("TypeMeta", T_TypeMeta); ("ObjectMeta", T_ObjectMeta);
   ("Spec", TStruct T_FailoverServiceSpec); ("Status", TStruct T_FailoverServiceStatus)].
Definition T_FailoverServiceList : list (string * ty) :=
  [("TypeMeta", T_TypeMeta); ("ListMeta", T_ListMeta);
   ("Items", TSlice (TStruct T_FailoverService))].
Definition T_FailoverEventSpec : list (string * ty) :=
  [("FailoverServiceRef", TBasic); ("Direction", TBasic); ("TriggeredBy", TBasic)].
Definition T_FailoverEventStatus : list (string * ty) :=
  [("StartedAt", TPtr T_Time); ("CompletedAt", TPtr T_Time); ("Outcome", TBasic);
   ("PreActionResults", TSlice (TStruct T_ActionResult));
   ("PostActionResults", TSlice (TStruct T_ActionResult));
   ("ConnectionKillResult", TPtr (TStruct T_ConnectionKillStatus));
   ("ActiveGenerationBefore", TBasic); ("ActiveGenerationAfter", TBasic)].
Definition T_FailoverEvent : list (string * ty) :=
  [("TypeMeta", T_TypeMeta); ("ObjectMeta", T_ObjectMeta);
   ("Spec", TStruct T_FailoverEventSpec); ("Status", TStruct T_FailoverEventStatus)].
Definition T_FailoverEventList : list (string * ty) :=
  [("TypeMeta", T_TypeMeta); ("ListMeta", T_ListMeta);
   ("Items", TSlice (TStruct T_FailoverEvent))].

(** ** The copy functions *)

Definition EnvVar_DeepCopyInto : copier := copy_struct [].
Definition EnvVar_DeepCopy : copier := deep_copy EnvVar_DeepCopyInto.

Definition HTTPAction_DeepCopyInto : copier := copy_struct [
  ("Headers", if_set (make_map range));
  ("Body", if_set new_copy);
  ("TimeoutSeconds", if_set new_copy)].
Definition HTTPAction_DeepCopy : copier := deep_copy HTTPAction_DeepCopyInto.

Definition JobAction_DeepCopyInto : copier := copy_struct [
  ("Command", if_set make_copy);
  ("Script", if_set new_copy);
  ("Env", if_set make_copy);
  ("ActiveDeadlineSeconds", if_set new_copy);
  ("MaxRetries", if_set new_copy)].
Definition JobAction_DeepCopy : copier := deep_copy JobAction_DeepCopyInto.

Definition ScaleAction_DeepCopyInto : copier := copy_struct [
  ("TimeoutSeconds", if_set new_copy)].
Definition ScaleAction_DeepCopy : copier := deep_copy ScaleAction_DeepCopyInto.

Definition WaitReadyAction_DeepCopyInto : copier := copy_struct [
  ("TimeoutSeconds", if_set new_copy)].
Definition WaitReadyAction_DeepCopy : copier := deep_copy WaitReadyAction_DeepCopyInto.

Definition WaitRemoteAction_DeepCopyInto : copier := copy_struct [
  ("Phase", if_set new_copy);
  ("ActionName", if_set new_copy);
  ("ConnectTimeoutSeconds", if_set new_copy);
  ("ActionTimeoutSeconds", if_set new_copy)].
Definition WaitRemoteAction_DeepCopy : copier := deep_copy WaitRemoteAction_DeepCopyInto.

Definition FailoverAction_DeepCopyInto : copier := copy_struct [
  ("HTTP", if_set (new_into HTTPAction_DeepCopyInto));
  ("Job", if_set (new_into JobAction_DeepCopyInto));
  ("Scale", if_set (new_into ScaleAction_DeepCopyInto));
  ("WaitReady", if_set (new_into WaitReadyAction_DeepCopyInto));
  ("WaitRemote", if_set (new_into WaitRemoteAction_DeepCopyInto));
  ("MaxRetries", if_set new_copy);
  ("RetryIntervalSeconds", if_set new_copy)].
Definition FailoverAction_DeepCopy : copier := deep_copy FailoverAction_DeepCopyInto.

Definition TransitionActions_DeepCopyInto : copier := copy_struct [
  ("PreActions", if_set (make_into FailoverAction_DeepCopyInto));
  ("PostActions", if_set (make_into FailoverAction_DeepCopyInto))].
Definition TransitionActions_DeepCopy : copier := deep_copy TransitionActions_DeepCopyInto.

Definition ClusterTarget_DeepCopyInto : copier := copy_struct [
  ("OnFailover", if_set (new_into TransitionActions_DeepCopyInto));
  ("OnFailback", if_set (new_into TransitionActions_DeepCopyInto))].
Definition ClusterTarget_DeepCopy : copier := deep_copy ClusterTarget_DeepCopyInto.

Definition Port_DeepCopyInto : copier := copy_struct [].
Definition Port_DeepCopy : copier := deep_copy Port_DeepCopyInto.

Definition RemoteState_DeepCopyInto : copier := copy_struct [
  ("LastSyncTime", if_set Time_DeepCopy);
  ("SpecChangeTime", if_set Time_DeepCopy)].
Definition RemoteState_DeepCopy : copier := deep_copy RemoteState_DeepCopyInto.

Definition ActionResult_DeepCopyInto : copier := copy_struct [
  ("StartedAt", if_set Time_DeepCopy);
  ("CompletedAt", if_set Time_DeepCopy)].
Definition ActionResult_DeepCopy : copier := deep_copy ActionResult_DeepCopyInto.

Definition ConnectionKillStatus_DeepCopyInto : copier := copy_struct [
  ("ExpectedNodes", if_set make_copy);
  ("AckedNodes", if_set make_copy);
  ("SignaledAt", if_set Time_DeepCopy)].
Definition ConnectionKillStatus_DeepCopy : copier := deep_copy ConnectionKillStatus_DeepCopyInto.

Definition TransitionStatus_DeepCopyInto : copier := copy_struct [
  ("PreActionResults", if_set (make_into ActionResult_DeepCopyInto));
  ("PostActionResults", if_set (make_into ActionResult_DeepCopyInto));
  ("StartedAt", if_set Time_DeepCopy);
  ("ConnectionKill", if_set (new_into ConnectionKillStatus_DeepCopyInto))].
Definition TransitionStatus_DeepCopy : copier := deep_copy TransitionStatus_DeepCopyInto.

Definition FailoverServiceSpec_DeepCopyInto : copier := copy_struct [
  ("Ports", if_set make_copy);
  ("PrimaryCluster", ClusterTarget_DeepCopyInto);
  ("FailoverCluster", ClusterTarget_DeepCopyInto)].
Definition FailoverServiceSpec_DeepCopy : copier := deep_copy FailoverServiceSpec_DeepCopyInto.

Definition ClusterStatus_DeepCopyInto : copier := copy_struct [
  ("LastAppliedTime", if_set Time_DeepCopy)].
Definition ClusterStatus_DeepCopy : copier := deep_copy ClusterStatus_DeepCopyInto.

Definition FailoverServiceStatus_DeepCopyInto : copier := copy_struct [
  ("LastTransitionTime", if_set Time_DeepCopy);
  ("LastKnownFailoverActive", if_set new_copy);
  ("SpecChangeTime", if_set Time_DeepCopy);
  ("Clusters", if_set (make_into ClusterStatus_DeepCopyInto));
  ("RemoteState", if_set (new_into RemoteState_DeepCopyInto));
  ("Transition", if_set (new_into TransitionStatus_DeepCopyInto));
  ("Conditions", if_set (make_into Condition_DeepCopyInto))].
Definition FailoverServiceStatus_DeepCopy : copier := deep_copy FailoverServiceStatus_DeepCopyInto.

Definition FailoverService_DeepCopyInto : copier := copy_struct [
  ("TypeMeta", assign);
  ("ObjectMeta", ObjectMeta_DeepCopyInto);
  ("Spec", FailoverServiceSpec_DeepCopyInto);
  ("Status", FailoverServiceStatus_DeepCopyInto)].
Definition FailoverService_DeepCopy : copier := deep_copy FailoverService_DeepCopyInto.
Definition FailoverService_DeepCopyObject : gval → M (option gval) :=
  deep_copy_object FailoverService_DeepCopy.

Definition FailoverServiceList_DeepCopyInto : copier := copy_struct [
  ("TypeMeta", assign);
  ("ListMeta", ListMeta_DeepCopyInto);
  ("Items", if_set (make_into FailoverService_DeepCopyInto))].
Definition FailoverServiceList_DeepCopy : copier := deep_copy FailoverServiceList_DeepCopyInto.
Definition FailoverServiceList_DeepCopyObject : gval → M (option gval) :=
  deep_copy_object FailoverServiceList_DeepCopy.

Definition FailoverEventSpec_DeepCopyInto : copier := copy_struct [].
Definition FailoverEventSpec_DeepCopy : copier := deep_copy FailoverEventSpec_DeepCopyInto.

Definition FailoverEventStatus_DeepCopyInto : copier := copy_struct [
  ("StartedAt", if_set Time_DeepCopy);
  ("CompletedAt", if_set Time_DeepCopy);
  ("PreActionResults", if_set (make_into ActionResult_DeepCopyInto));
  ("PostActionResults", if_set (make_into ActionResult_DeepCopyInto));
  ("ConnectionKillResult", if_set (new_into ConnectionKillStatus_DeepCopyInto))].
Definition FailoverEventStatus_DeepCopy : copier := deep_copy FailoverEventStatus_DeepCopyInto.

Definition FailoverEvent_DeepCopyInto : copier := copy_struct [
  ("TypeMeta", assign);
  ("ObjectMeta", ObjectMeta_DeepCopyInto);
  ("Spec", assign);
  ("Status", FailoverEventStatus_DeepCopyInto)].
Definition FailoverEvent_DeepCopy : copier := deep_copy FailoverEvent_DeepCopyInto.
Definition FailoverEvent_DeepCopyObject : gval → M (option gval) :=
  deep_copy_object FailoverEvent_DeepCopy.

Definition FailoverEventList_DeepCopyInto : copier := copy_struct [
  ("TypeMeta", assign);
  ("ListMeta", ListMeta_DeepCopyInto);
  ("Items", if_set (make_into FailoverEvent_DeepCopyInto))].
Definition FailoverEventList_DeepCopy : copier := deep_copy FailoverEventList_DeepCopyInto.
Definition FailoverEventList_DeepCopyObject : gval → M (option gval) :=
  deep_copy_object FailoverEventList_DeepCopy.

(** ** Every copy is deep *)

Context (TypeMeta_flat : flat T_TypeMeta = true)
  (ObjectMeta_deep : deep T_ObjectMeta ObjectMeta_DeepCopyInto)
  (ListMeta_deep : deep T_ListMeta ListMeta_DeepCopyInto)
  (Time_deep : deep (TPtr T_Time) Time_DeepCopy)
  (Condition_deep : deep T_Condition Condition_DeepCopyInto)
  (range_entries : ∀ m, range m ≡ₚ map_to_list m).
#[local] Hint Resolve ObjectMeta_deep ListMeta_deep Time_deep Condition_deep range_entries : deep.

Lemma EnvVar_deep : deep (TStruct T_EnvVar) EnvVar_DeepCopyInto.
Proof. solve_deep. Qed.
#[local] Hint Resolve EnvVar_deep : deep.
Lemma HTTPAction_deep : deep (TStruct T_HTTPAction) HTTPAction_DeepCopyInto.
Proof. solve_deep. Qed.
#[local] Hint Resolve HTTPAction_deep : deep.
Lemma JobAction_deep : deep (TStruct T_JobAction) JobAction_DeepCopyInto.
Proof. solve_deep. Qed.
#[local] Hint Resolve JobAction_deep : deep.
Lemma ScaleAction_deep : deep (TStruct T_ScaleAction) ScaleAction_DeepCopyInto.
Proof. solve_deep. Qed.
#[local] Hint Resolve ScaleAction_deep : deep.
Lemma WaitReadyAction_deep : deep (TStruct T_WaitReadyAction) WaitReadyAction_DeepCopyInto.
Proof. solve_deep. Qed.
#[local] Hint Resolve WaitReadyAction_deep : deep.
Lemma WaitRemoteAction_deep : deep (TStruct T_WaitRemoteAction) WaitRemoteAction_DeepCopyInto.
Proof. solve_deep. Qed.
#[local] Hint Resolve WaitRemoteAction_deep : deep.
Lemma FailoverAction_deep : deep (TStruct T_FailoverAction) FailoverAction_DeepCopyInto.
Proof. solve_deep. Qed.
#[local] Hint Resolve FailoverAction_deep : deep.
Lemma TransitionActions_deep : deep (TStruct T_TransitionActions) TransitionActions_DeepCopyInto.
Proof. solve_deep. Qed.
#[local] Hint Resolve TransitionActions_deep : deep.
Lemma ClusterTarget_deep : deep (TStruct T_ClusterTarget) ClusterTarget_DeepCopyInto.
Proof. solve_deep. Qed.
#[local] Hint Resolve ClusterTarget_deep : deep.
Lemma Port_deep : deep (TStruct T_Port) Port_DeepCopyInto.
Proof. solve_deep. Qed.
#[local] Hint Resolve Port_deep : deep.
Lemma RemoteState_deep : deep (TStruct T_RemoteState) RemoteState_DeepCopyInto.
Proof. solve_deep. Qed.
#[local] Hint Resolve RemoteState_deep : deep.
Lemma ActionResult_deep : deep (TStruct T_ActionResult) ActionResult_DeepCopyInto.
Proof. solve_deep. Qed.
#[local] Hint Resolve ActionResult_deep : deep.
Lemma ConnectionKillStatus_deep : deep (TStruct T_ConnectionKillStatus) ConnectionKillStatus_DeepCopyInto.
Proof. solve_deep. Qed.
#[local] Hint Resolve ConnectionKillStatus_deep : deep.
Lemma TransitionStatus_deep : deep (TStruct T_TransitionStatus) TransitionStatus_DeepCopyInto.
Proof. solve_deep. Qed.
#[local] Hint Resolve TransitionStatus_deep : deep.
Lemma FailoverServiceSpec_deep : deep (TStruct T_FailoverServiceSpec) FailoverServiceSpec_DeepCopyInto.
Proof. solve_deep. Qed.
#[local] Hint Resolve FailoverServiceSpec_deep : deep.
Lemma ClusterStatus_deep : deep (TStruct T_ClusterStatus) ClusterStatus_DeepCopyInto.
Proof. solve_deep. Qed.
#[local] Hint Resolve ClusterStatus_deep : deep.
Lemma FailoverServiceStatus_deep : deep (TStruct T_FailoverServiceStatus) FailoverServiceStatus_DeepCopyInto.
Proof. solve_deep. Qed.
#[local] Hint Resolve FailoverServiceStatus_deep : deep.
Lemma FailoverService_deep : deep (TStruct T_FailoverService) FailoverService_DeepCopyInto.
Proof. solve_deep. Qed.
#[local] Hint Resolve FailoverService_deep : deep.
Lemma FailoverServiceList_deep : deep (TStruct T_FailoverServiceList) FailoverServiceList_DeepCopyInto.
Proof. solve_deep. Qed.
#[local] Hint Resolve FailoverServiceList_deep : deep.
Lemma FailoverEventSpec_deep : deep (TStruct T_FailoverEventSpec) FailoverEventSpec_DeepCopyInto.
Proof. solve_deep. Qed.
#[local] Hint Resolve FailoverEventSpec_deep : deep.
Lemma FailoverEventStatus_deep : deep (TStruct T_FailoverEventStatus) FailoverEventStatus_DeepCopyInto.
Proof. solve_deep. Qed.
#[local] Hint Resolve FailoverEventStatus_deep : deep.
Lemma FailoverEvent_deep : deep (TStruct T_FailoverEvent) FailoverEvent_DeepCopyInto.
Proof. solve_deep. Qed.
#[local] Hint Resolve FailoverEvent_deep : deep.
Lemma FailoverEventList_deep : deep (TStruct T_FailoverEventList) FailoverEventList_DeepCopyInto.
Proof. solve_deep. Qed.
#[local] Hint Resolve FailoverEventList_deep : deep.

(** The generated functions: layout, [DeepCopyInto] and [DeepCopy] of each type. *)
Definition generated : list (list (string * ty) * copier * copier) := [
  (T_EnvVar, EnvVar_DeepCopyInto, EnvVar_DeepCopy);
  (T_HTTPAction, HTTPAction_DeepCopyInto, HTTPAction_DeepCopy);
  (T_JobAction, JobAction_DeepCopyInto, JobAction_DeepCopy);
  (T_ScaleAction, ScaleAction_DeepCopyInto, ScaleAction_DeepCopy);
  (T_WaitReadyAction, WaitReadyAction_DeepCopyInto, WaitReadyAction_DeepCopy);
  (T_WaitRemoteAction, WaitRemoteAction_DeepCopyInto, WaitRemoteAction_DeepCopy);
  (T_FailoverAction, FailoverAction_DeepCopyInto, FailoverAction_DeepCopy);
  (T_TransitionActions, TransitionActions_DeepCopyInto, TransitionActions_DeepCopy);
  (T_ClusterTarget, ClusterTarget_DeepCopyInto, ClusterTarget_DeepCopy);
  (T_Port, Port_DeepCopyInto, Port_DeepCopy);
  (T_RemoteState, RemoteState_DeepCopyInto, RemoteState_DeepCopy);
  (T_ActionResult, ActionResult_DeepCopyInto, ActionResult_DeepCopy);
  (T_ConnectionKillStatus, ConnectionKillStatus_DeepCopyInto, ConnectionKillStatus_DeepCopy);
  (T_TransitionStatus, TransitionStatus_DeepCopyInto, TransitionStatus_DeepCopy);
  (T_FailoverServiceSpec, FailoverServiceSpec_DeepCopyInto, FailoverServiceSpec_DeepCopy);
  (T_ClusterStatus, ClusterStatus_DeepCopyInto, ClusterStatus_DeepCopy);
  (T_FailoverServiceStatus, FailoverServiceStatus_DeepCopyInto, FailoverServiceStatus_DeepCopy);
  (T_FailoverService, FailoverService_DeepCopyInto, FailoverService_DeepCopy);
  (T_FailoverServiceList, FailoverServiceList_DeepCopyInto, FailoverServiceList_DeepCopy);
  (T_FailoverEventSpec, FailoverEventSpec_DeepCopyInto, FailoverEventSpec_DeepCopy);
  (T_FailoverEventStatus, FailoverEventStatus_DeepCopyInto, FailoverEventStatus_DeepCopy);
  (T_FailoverEvent, FailoverEvent_DeepCopyInto, FailoverEvent_DeepCopy);
  (T_FailoverEventList, FailoverEventList_DeepCopyInto, FailoverEventList_DeepCopy)].
Definition generated_objects : list (list (string * ty) * (gval → M (option gval))) := [
  (T_FailoverService, FailoverService_DeepCopyObject);
  (T_FailoverServiceList, FailoverServiceList_DeepCopyObject);
  (T_FailoverEvent, FailoverEvent_DeepCopyObject);
  (T_FailoverEventList, FailoverEventList_DeepCopyObject)].

(** C16: every generated [DeepCopyInto] and [DeepCopy] copies deeply: on every
    well-formed value it succeeds, changes no existing memory, and its result has
    the same contents in memory that did not exist before, down to the last
    pointer, slice and map; and [DeepCopyObject] answers such a copy of a non-nil
    receiver and no object for a nil one. *)
Theorem generated_copies_deep :
  Forall (λ '(T, into, copy), deep (TStruct T) into ∧ deep (TPtr (TStruct T)) copy) generated
  ∧ Forall (λ '(T, copy_object), ∀ h x, well_typed h (TPtr (TStruct T)) x →
      ∃ r h', copy_object x h = Some (r, h') ∧ h ⊆ h'
        ∧ match r with
          | None => x = GRef None
          | Some y => x ≠ GRef None ∧ copied h h' (TPtr (TStruct T)) x y
          end) generated_objects.
Proof.
  split; repeat (apply List.Forall_cons || apply List.Forall_nil).
  all: lazymatch goal with
       | |- _ ∧ _ => split; [|apply deep_deep_copy]; auto with deep
       | |- _ => intros h x Hx; apply deep_object; [apply deep_deep_copy|]; auto with deep
       end.
Qed.
End copies.

(** ** Witness: metadata with a map of annotations, times without pointers *)

Definition demo_TypeMeta : ty := TStruct [("Kind", TBasic); ("APIVersion", TBasic)].
Definition demo_ObjectMeta : list (string * ty) :=
  [("Name", TBasic); ("Namespace", TBasic); ("Annotations", TMap); ("Finalizers", TSlice TBasic)].
Definition demo_range (m : gmap string string) : list (string * string) := map_to_list m.
Definition demo_ObjectMeta_copy : copier := copy_struct [
  ("Annotations", if_set (make_map demo_range)); ("Finalizers", if_set make_copy)].
Definition demo_ListMeta : ty := TStruct [("ResourceVersion", TBasic)].
Definition demo_Time_copy : copier := deep_copy assign.

(** A FailoverEvent in memory: its annotations and its start time are in cells of
    their own. *)
Definition demo_event_value : gval := GStruct [
  ("TypeMeta", GStruct [("Kind", GBasic (BString "FailoverEvent")); ("APIVersion", GBasic (BString "v1alpha1"))]);
  ("ObjectMeta", GStruct [("Name", GBasic (BString "ev-1")); ("Namespace", GBasic (BString "default"));
     ("Annotations", GRef (Some 1%positive)); ("Finalizers", GRef None)]);
  ("Spec", GStruct [("FailoverServiceRef", GBasic (BString "mysql-failover"));
     ("Direction", GBasic (BString "failover")); ("TriggeredBy", GBasic (BString "manual"))]);
  ("Status", GStruct [("StartedAt", GRef (Some 2%positive)); ("CompletedAt", GRef None);
     ("Outcome", GBasic (BString "InProgress")); ("PreActionResults", GRef None);
     ("PostActionResults", GRef None); ("ConnectionKillResult", GRef None);
     ("ActiveGenerationBefore", GBasic (BInt 1)); ("ActiveGenerationAfter", GBasic (BInt 0))])].
Definition demo_heap : heap :=
  <[1%positive := CMap {[ "a" := "b" ]}]> (<[2%positive := CVar (GBasic (BInt 7))]>
    (<[3%positive := CVar demo_event_value]> ∅)).

Lemma generated_copies_deep_witness :
  ∃ y h', FailoverEvent_DeepCopyObject demo_ObjectMeta_copy demo_Time_copy
      (GRef (Some 3%positive)) demo_heap = Some (Some y, h')
    ∧ copied demo_heap h' (TPtr (TStruct (T_FailoverEvent demo_TypeMeta (TStruct demo_ObjectMeta) TBasic)))
        (GRef (Some 3%positive)) y.
Proof.
  destruct (generated_copies_deep demo_TypeMeta (TStruct demo_ObjectMeta) demo_ListMeta TBasic TBasic
    demo_ObjectMeta_copy assign demo_Time_copy assign demo_range) as [_ Hobj].
  - reflexivity.
  - solve_deep.
  - apply deep_assign. reflexivity.
  - apply deep_deep_copy, deep_assign. reflexivity.
  - apply deep_assign. reflexivity.
  - reflexivity.
  - unfold generated_objects in Hobj. do 2 apply Forall_cons_1 in Hobj as [_ Hobj].
    apply Forall_cons_1 in Hobj as [Hev _].
    destruct (Hev demo_heap (GRef (Some 3%positive))) as (r & h' & He & _ & Hr).
    + right. exists 3%positive, demo_event_value. split; [reflexivity|]. split; [reflexivity|].
      simpl. repeat first [split; [reflexivity|] | eexists; split; [reflexivity|] | left; reflexivity
        | eexists; reflexivity | split | exact I | right; do 2 eexists; split; [reflexivity|]].
    + destruct r as [y|]; [|discriminate]. exists y, h'. split; [exact He|apply Hr].
Defined.
