(* ===== verification/Types.v ===== *)
(** * The API types ([src/api/v1alpha1])

    One record per Go struct, with the struct's fields in order; pointers to
    scalars and structs are [option]s, [metav1.Time] pointers [option]s of
    nanoseconds since the Unix epoch, a Go map that may be [nil] is an [option]
    of a finite map. *)
From stdpp Require Import base gmap strings list numbers.
From S2P Require Import Prelude GoStd.

(** ** Times *)

Abbreviation time := Z.
Definition zero_time : time := (-62135596800 * 10 ^ 9)%Z.
Definition Second : Z := (10 ^ 9)%Z.
Definition time_IsZero (t : time) : bool := bool_decide (t = zero_time).
Definition Before (t u : time) : bool := bool_decide (t < u)%Z.
Definition After (t u : time) : bool := bool_decide (u < t)%Z.
(** [IsZero] of a [metav1.Time] pointer. *)
Definition time_ptr_IsZero (t : option time) : bool :=
  match t with None => true | Some t => time_IsZero t end.

(** ** Maps that may be [nil] *)

Abbreviation gomap := (option (gmap string string)).
(** [m[k]] with its [ok] flag, and without. *)
Definition mget (m : gomap) (k : string) : option string := m ≫= λ m, m !! k.
Definition mget0 (m : gomap) (k : string) : string := default "" (mget m k).

(** ** Object metadata ([metav1]) *)

Record OwnerReference := {
  or_APIVersion : string; or_Kind : string; or_Name : string; or_UID : string;
  or_Controller : option bool; or_BlockOwnerDeletion : option bool }.

Record ObjectMeta := {
  om_Name : string; om_Namespace : string; om_UID : string;
  om_ResourceVersion : string; om_Generation : Z;
  om_CreationTimestamp : time; om_DeletionTimestamp : option time;
  om_Labels : gomap; om_Annotations : gomap;
  om_OwnerReferences : list OwnerReference; om_Finalizers : list string }.

Definition new_meta (name namespace : string) : ObjectMeta := {|
  om_Name := name; om_Namespace := namespace; om_UID := ""; om_ResourceVersion := "";
  om_Generation := 0; om_CreationTimestamp := zero_time; om_DeletionTimestamp := None;
  om_Labels := None; om_Annotations := None; om_OwnerReferences := []; om_Finalizers := [] |}.

Record Condition := {
  c_Type : string; c_Status : string; c_ObservedGeneration : Z;
  c_LastTransitionTime : time; c_Reason : string; c_Message : string }.
Definition ConditionTrue := "True".
Definition ConditionFalse := "False".

(** ** failoverservice_types.go *)

Record HTTPAction := {
  ha_URL : string; ha_Method : string; ha_Headers : gmap string string;
  ha_Body : option string; ha_TimeoutSeconds : option Z }.

Record EnvVar := { ev_Name : string; ev_Value : string }.

Record JobAction := {
  ja_Image : string; ja_Command : list string; ja_Script : option string;
  ja_Env : list EnvVar; ja_ServiceAccountName : string;
  ja_ActiveDeadlineSeconds : option Z; ja_MaxRetries : option Z }.

Record ScaleAction := {
  sa_Kind : string; sa_Name : string; sa_Replicas : Z; sa_WaitReady : bool;
  sa_TimeoutSeconds : option Z }.

Record WaitReadyAction := {
  wr_Kind : string; wr_Name : string; wr_TimeoutSeconds : option Z }.

(** [FailoverPhase]; [PhaseOther] is any string outside the enum. *)
Inductive FailoverPhase :=
  | PhaseIdle
  | PhaseExecutingPreActions
  | PhaseUpdatingResources
  | PhaseFlushingConnections
  | PhaseExecutingPostActions
  | PhaseOther (s : string).
#[export] Instance FailoverPhase_eq_dec : EqDecision FailoverPhase.
Proof. solve_decision. Defined.

Definition phase_string (p : FailoverPhase) : string :=
  match p with
  | PhaseIdle => ""
  | PhaseExecutingPreActions => "ExecutingPreActions"
  | PhaseUpdatingResources => "UpdatingResources"
  | PhaseFlushingConnections => "FlushingConnections"
  | PhaseExecutingPostActions => "ExecutingPostActions"
  | PhaseOther s => s
  end.

Definition PhaseOrder (p : FailoverPhase) : Z :=
  match p with
  | PhaseIdle => 0
  | PhaseExecutingPreActions => 1
  | PhaseUpdatingResources => 2
  | PhaseFlushingConnections => 3
  | PhaseExecutingPostActions => 4
  | PhaseOther _ => -1
  end%Z.

Record WaitRemoteAction := {
  wm_Phase : option FailoverPhase; wm_ActionName : option string;
  wm_ConnectTimeoutSeconds : option Z; wm_ActionTimeoutSeconds : option Z }.

Record FailoverAction := {
  fa_Name : string;
  fa_HTTP : option HTTPAction; fa_Job : option JobAction; fa_Scale : option ScaleAction;
  fa_WaitReady : option WaitReadyAction; fa_WaitRemote : option WaitRemoteAction;
  fa_IgnoreFailure : bool;
  fa_MaxRetries : option Z; fa_RetryIntervalSeconds : option Z }.

Record TransitionActions := {
  ta_PreActions : list FailoverAction; ta_PostActions : list FailoverAction }.

Record ClusterTarget := {
  ct_PrimaryModeAddress : string; ct_FailoverModeAddress : string;
  ct_OnFailover : option TransitionActions; ct_OnFailback : option TransitionActions }.

Record Port := { p_Name : string; p_Port : Z; p_Protocol : string }.

Record RemoteState := {
  rs_FailoverActive : bool; rs_ActiveCluster : string; rs_ActiveGeneration : Z;
  rs_LastSyncTime : option time; rs_ClusterID : string; rs_SpecChangeTime : option time }.

(** The action statuses; [StatusOther] is any other string. *)
Inductive ActionStatus :=
  | ActionStatusPending
  | ActionStatusRunning
  | ActionStatusSucceeded
  | ActionStatusFailed
  | ActionStatusSkipped
  | StatusOther (s : string).
#[export] Instance ActionStatus_eq_dec : EqDecision ActionStatus.
Proof. solve_decision. Defined.

Definition status_string (s : ActionStatus) : string :=
  match s with
  | ActionStatusPending => "Pending"
  | ActionStatusRunning => "Running"
  | ActionStatusSucceeded => "Succeeded"
  | ActionStatusFailed => "Failed"
  | ActionStatusSkipped => "Skipped"
  | StatusOther s => s
  end.

Record ActionResult := {
  ar_Name : string; ar_Status : ActionStatus; ar_Message : string;
  ar_StartedAt : option time; ar_CompletedAt : option time;
  ar_JobName : string; ar_RetryCount : Z }.

Record ConnectionKillStatus := {
  ck_SignalSent : bool; ck_KillToken : string; ck_ExpectedNodes : list string;
  ck_AckedNodes : list string; ck_SignaledAt : option time }.

Record TransitionStatus := {
  ts_Phase : FailoverPhase; ts_TargetDirection : string;
  ts_OldAddressSnapshot : string; ts_NewAddressSnapshot : string;
  ts_TransitionID : string; ts_CurrentActionIndex : Z;
  ts_PreActionResults : list ActionResult; ts_PostActionResults : list ActionResult;
  ts_StartedAt : option time; ts_ConnectionKill : option ConnectionKillStatus;
  ts_EventName : string }.

Record FailoverServiceSpec := {
  sp_ServiceName : string; sp_Ports : list Port; sp_FailoverActive : bool;
  sp_PrimaryCluster : ClusterTarget; sp_FailoverCluster : ClusterTarget }.

Record ClusterStatus := {
  cs_ClusterID : string; cs_AppliedGeneration : Z;
  cs_LastAppliedTime : option time; cs_Phase : FailoverPhase }.

Record FailoverServiceStatus := {
  st_ObservedGeneration : Z; st_ActiveCluster : string; st_ActiveGeneration : Z;
  st_LastTransitionTime : option time; st_LastKnownFailoverActive : option bool;
  st_SpecChangeTime : option time; st_Clusters : list ClusterStatus;
  st_RemoteState : option RemoteState; st_Transition : option TransitionStatus;
  st_Conditions : list Condition }.

Definition ConditionServiceReady := "ServiceReady".
Definition ConditionRemoteSynced := "RemoteSynced".
Definition ConditionConnectionsKilled := "ConnectionsKilled".
Definition ConditionTransitionInProgress := "TransitionInProgress".
Definition ConditionActionFailed := "ActionFailed".

Record FailoverService := {
  fs_meta : ObjectMeta; fs_spec : FailoverServiceSpec; fs_status : FailoverServiceStatus }.

(** ** failoverevent_types.go *)

Record FailoverEventSpec := {
  es_FailoverServiceRef : string; es_Direction : string; es_TriggeredBy : string }.

(** The event outcomes; [OutcomeUnset] is the empty string of a fresh event. *)
Inductive EventOutcome :=
  | EventOutcomeSucceeded
  | EventOutcomeFailed
  | EventOutcomeForceAdvanced
  | EventOutcomeInProgress
  | OutcomeUnset
  | OutcomeOther (s : string).
#[export] Instance EventOutcome_eq_dec : EqDecision EventOutcome.
Proof. solve_decision. Defined.

Record FailoverEventStatus := {
  ev_StartedAt : option time; ev_CompletedAt : option time; ev_Outcome : EventOutcome;
  ev_PreActionResults : list ActionResult; ev_PostActionResults : list ActionResult;
  ev_ConnectionKillResult : option ConnectionKillStatus;
  ev_ActiveGenerationBefore : Z; ev_ActiveGenerationAfter : Z }.

Record FailoverEvent := {
  fe_meta : ObjectMeta; fe_spec : FailoverEventSpec; fe_status : FailoverEventStatus }.

Definition empty_event_status : FailoverEventStatus := {|
  ev_StartedAt := None; ev_CompletedAt := None; ev_Outcome := OutcomeUnset;
  ev_PreActionResults := []; ev_PostActionResults := []; ev_ConnectionKillResult := None;
  ev_ActiveGenerationBefore := 0; ev_ActiveGenerationAfter := 0 |}.

(** ** Field assignments

    [fs.Status.F = v] and [fs.Spec.F = v], written as functions so that nested
    assignments stay readable. *)
Section setters.
Implicit Types (fs : FailoverService) (t : TransitionStatus).

Definition set_meta (m : ObjectMeta) fs : FailoverService := {| fs with fs_meta := m |}.
Definition set_status (st : FailoverServiceStatus) fs : FailoverService :=
  {| fs with fs_status := st |}.
Definition set_FailoverActive (b : bool) fs : FailoverService :=
  {| fs with fs_spec := {| (fs_spec fs) with sp_FailoverActive := b |} |}.
Definition set_ObservedGeneration (g : Z) fs : FailoverService :=
  set_status {| (fs_status fs) with st_ObservedGeneration := g |} fs.
Definition set_ActiveCluster (c : string) fs : FailoverService :=
  set_status {| (fs_status fs) with st_ActiveCluster := c |} fs.
Definition set_ActiveGeneration (g : Z) fs : FailoverService :=
  set_status {| (fs_status fs) with st_ActiveGeneration := g |} fs.
Definition set_LastTransitionTime (x : option time) fs : FailoverService :=
  set_status {| (fs_status fs) with st_LastTransitionTime := x |} fs.
Definition set_LastKnown (b : option bool) fs : FailoverService :=
  set_status {| (fs_status fs) with st_LastKnownFailoverActive := b |} fs.
Definition set_SpecChangeTime (x : option time) fs : FailoverService :=
  set_status {| (fs_status fs) with st_SpecChangeTime := x |} fs.
Definition set_Clusters (cs : list ClusterStatus) fs : FailoverService :=
  set_status {| (fs_status fs) with st_Clusters := cs |} fs.
Definition set_RemoteState (x : option RemoteState) fs : FailoverService :=
  set_status {| (fs_status fs) with st_RemoteState := x |} fs.
Definition set_Transition (x : option TransitionStatus) fs : FailoverService :=
  set_status {| (fs_status fs) with st_Transition := x |} fs.
Definition set_Conditions (cs : list Condition) fs : FailoverService :=
  set_status {| (fs_status fs) with st_Conditions := cs |} fs.

Definition set_Phase (p : FailoverPhase) t : TransitionStatus := {| t with ts_Phase := p |}.
Definition set_ActionIndex (i : Z) t : TransitionStatus :=
  {| t with ts_CurrentActionIndex := i |}.
Definition set_ConnectionKill (c : option ConnectionKillStatus) t : TransitionStatus :=
  {| t with ts_ConnectionKill := c |}.
End setters.

(** The transition of a service, and an update of it when there is one (the
    code's [transition] pointer into the status). *)
Definition fs_transition (fs : FailoverService) : option TransitionStatus :=
  st_Transition (fs_status fs).
Definition upd_Transition (f : TransitionStatus → TransitionStatus) (fs : FailoverService)
    : FailoverService :=
  set_Transition (f <$> fs_transition fs) fs.

(** [PhaseOrder] is injective on the enum, so comparing orders compares
    phases. *)
Lemma PhaseOrder_inj p q :
  (0 <= PhaseOrder p)%Z → PhaseOrder p = PhaseOrder q → p = q.
Proof. destruct p, q; simpl; intros; done || lia. Qed.

(** ** Decidable equality *)

#[export] Instance OwnerReference_eq_dec : EqDecision OwnerReference.
Proof. solve_decision. Defined.
#[export] Instance Condition_eq_dec : EqDecision Condition.
Proof. solve_decision. Defined.
#[export] Instance HTTPAction_eq_dec : EqDecision HTTPAction.
Proof. solve_decision. Defined.
#[export] Instance EnvVar_eq_dec : EqDecision EnvVar.
Proof. solve_decision. Defined.
#[export] Instance JobAction_eq_dec : EqDecision JobAction.
Proof. solve_decision. Defined.
#[export] Instance ScaleAction_eq_dec : EqDecision ScaleAction.
Proof. solve_decision. Defined.
#[export] Instance WaitReadyAction_eq_dec : EqDecision WaitReadyAction.
Proof. solve_decision. Defined.
#[export] Instance WaitRemoteAction_eq_dec : EqDecision WaitRemoteAction.
Proof. solve_decision. Defined.
#[export] Instance FailoverAction_eq_dec : EqDecision FailoverAction.
Proof. solve_decision. Defined.
#[export] Instance TransitionActions_eq_dec : EqDecision TransitionActions.
Proof. solve_decision. Defined.
#[export] Instance ClusterTarget_eq_dec : EqDecision ClusterTarget.
Proof. solve_decision. Defined.
#[export] Instance Port_eq_dec : EqDecision Port.
Proof. solve_decision. Defined.
#[export] Instance RemoteState_eq_dec : EqDecision RemoteState.
Proof. solve_decision. Defined.
#[export] Instance ActionResult_eq_dec : EqDecision ActionResult.
Proof. solve_decision. Defined.
#[export] Instance ConnectionKillStatus_eq_dec : EqDecision ConnectionKillStatus.
Proof. solve_decision. Defined.
#[export] Instance TransitionStatus_eq_dec : EqDecision TransitionStatus.
Proof. solve_decision. Defined.
#[export] Instance FailoverServiceSpec_eq_dec : EqDecision FailoverServiceSpec.
Proof. solve_decision. Defined.
#[export] Instance ClusterStatus_eq_dec : EqDecision ClusterStatus.
Proof. solve_decision. Defined.
#[export] Instance FailoverServiceStatus_eq_dec : EqDecision FailoverServiceStatus.
Proof. solve_decision. Defined.
#[export] Instance ObjectMeta_eq_dec : EqDecision ObjectMeta.
Proof. solve_decision. Defined.
#[export] Instance FailoverService_eq_dec : EqDecision FailoverService.
Proof. solve_decision. Defined.
#[export] Instance FailoverEventSpec_eq_dec : EqDecision FailoverEventSpec.
Proof. solve_decision. Defined.
#[export] Instance FailoverEventStatus_eq_dec : EqDecision FailoverEventStatus.
Proof. solve_decision. Defined.
#[export] Instance FailoverEvent_eq_dec : EqDecision FailoverEvent.
Proof. solve_decision. Defined.
