(* ===== verification/Kube.v ===== *)
(** * The program's environment

    What the program talks to: the objects of the Kubernetes API it reads and
    writes (only the fields the sources use), the operations it performs on its
    environment and the type of each answer, and the monad [IO] the other files
    are written in.  The environment itself (API servers, HTTP endpoints,
    clocks, kernels) is not under [src/]: it is a parameter [Env], a function
    that answers every operation given everything that happened before, and the
    theorems quantify over it. *)
From Stdlib Require Import NArith.
From stdpp Require Import base gmap strings list numbers fin_maps.
From S2P Require Import Prelude GoStd Types.

(** ** Errors *)

Inductive StatusReason := ReasonNotFound | ReasonConflict | ReasonAlreadyExists | ReasonUnknown.
#[export] Instance StatusReason_eq_dec : EqDecision StatusReason.
Proof. solve_decision. Defined.

Record goerr := { err_reason : StatusReason; err_msg : string }.
Definition IsNotFound (e : goerr) : bool := bool_decide (err_reason e = ReasonNotFound).
Definition IsConflict (e : goerr) : bool := bool_decide (err_reason e = ReasonConflict).
Definition IsAlreadyExists (e : goerr) : bool := bool_decide (err_reason e = ReasonAlreadyExists).

(** [fmt.Errorf("...")] and [fmt.Errorf("pre: %w", err)]; the reason of a
    wrapped error stays visible to [errors.IsNotFound] and the like. *)
Definition Errorf (msg : string) : goerr := {| err_reason := ReasonUnknown; err_msg := msg |}.
Definition wrapf (pre : string) (e : goerr) : goerr :=
  {| err_reason := err_reason e; err_msg := pre +:+ ": " +:+ err_msg e |}.

(** ** API objects *)

Record NamespacedName := { nn_Name : string; nn_Namespace : string }.

Inductive IntOrString := FromInt32 (z : Z) | FromString (s : string).

Record ServicePort := {
  svp_Name : string; svp_Port : Z; svp_TargetPort : IntOrString; svp_Protocol : string }.
Record Service := {
  svc_meta : ObjectMeta; svc_Type : string; svc_ExternalName : string;
  svc_ClusterIP : string; svc_Ports : list ServicePort }.
Definition ServiceTypeExternalName := "ExternalName".
Definition ServiceTypeClusterIP := "ClusterIP".
Definition ProtocolTCP := "TCP".

Record EndpointPort := {
  ep_Name : option string; ep_Port : option Z; ep_Protocol : option string }.
Record Endpoint := { e_Addresses : list string; e_Ready : option bool }.
Record EndpointSlice := {
  eps_meta : ObjectMeta; eps_AddressType : string;
  eps_Endpoints : list Endpoint; eps_Ports : list EndpointPort }.
Definition AddressTypeIPv4 := "IPv4".
Definition AddressTypeIPv6 := "IPv6".
Definition LabelServiceName := "kubernetes.io/service-name".

Record ConfigMap := { cm_meta : ObjectMeta; cm_Data : gomap }.
Record Secret := { sec_meta : ObjectMeta; sec_Data : gmap string string }.

Record JobCondition := { jc_Type : string; jc_Status : string; jc_Message : string }.
Record Container := {
  co_Name : string; co_Image : string; co_Command : list string; co_Env : list EnvVar }.
Record Job := {
  job_meta : ObjectMeta; job_ActiveDeadlineSeconds : option Z; job_BackoffLimit : option Z;
  job_RestartPolicy : string; job_ServiceAccountName : string;
  job_Containers : list Container; job_Conditions : list JobCondition }.

(** Deployments and StatefulSets: the fields readiness depends on. *)
Record Workload := {
  w_meta : ObjectMeta; w_Replicas : option Z; w_ReadyReplicas : Z;
  w_UpdatedReplicas : Z; w_AvailableReplicas : Z; w_ObservedGeneration : Z }.
(** The [scale] subresource. *)
Record Scale := { sc_meta : ObjectMeta; sc_Replicas : Z }.

Record PodCondition := { pc_Type : string; pc_Status : string }.
Record Pod := {
  pod_NodeName : string; pod_DeletionTimestamp : option time; pod_Phase : string;
  pod_Conditions : list PodCondition }.
Record Node := {
  node_Name : string; node_DeletionTimestamp : option time; node_Unschedulable : bool;
  node_Labels : gomap; node_Conditions : list PodCondition }.

Inductive kind :=
  KFailoverService | KFailoverEvent | KService | KEndpointSlice | KConfigMap | KSecret
  | KJob | KDeployment | KStatefulSet.
#[export] Instance kind_eq_dec : EqDecision kind.
Proof. solve_decision. Defined.

Definition kobj (k : kind) : Type :=
  match k with
  | KFailoverService => FailoverService
  | KFailoverEvent => FailoverEvent
  | KService => Service
  | KEndpointSlice => EndpointSlice
  | KConfigMap => ConfigMap
  | KSecret => Secret
  | KJob => Job
  | KDeployment | KStatefulSet => Workload
  end.

(** ** Operations

    A client is the local one or a handle to a remote cluster; [timeout] is the
    deadline (nanoseconds) of the context the call runs under, if it has one. *)

Abbreviation client_id := nat.
Inductive site := Local | Remote (c : client_id).
#[export] Instance site_eq_dec : EqDecision site.
Proof. solve_decision. Defined.
Record target := { t_site : site; t_timeout : option Z }.
Definition local : target := {| t_site := Local; t_timeout := None |}.

Record HTTPRequest := {
  rq_Method : string; rq_URL : string; rq_Body : option string;
  rq_Headers : list (string * string) }.

(** The metrics and the samples the code records (durations in nanoseconds). *)
Inductive metric :=
  | FailoverTransitionsTotal (name namespace direction : string)
  | ReconcileErrorsTotal (name namespace phase : string)
  | RemoteSyncDuration (d : Z)
  | ConnectionsKilledTotal
  | FailoverActive (name namespace : string) (v : Z)
  | ActionExecutionDuration (name namespace action type : string) (d : Z)
  | ActionExecutionsTotal (name namespace action type result : string)
  | TransitionDuration (name namespace direction : string) (d : Z).

(** A REST configuration: where its bytes came from and its request timeout. *)
Record restConfig := { rc_data : string; rc_Timeout : Z; rc_DialTimeout : option Z }.

(** An event of a watch: its type, and the identity of its object if it has
    one. *)
Record WatchEvent := { we_Type : string; we_Object : option NamespacedName }.

(** What a [select] on [ctx.Done()] and a watcher's channel answers: the context
    is done, the channel was closed, or an event arrived. *)
Inductive woken := CtxDone | Closed | Received (e : WatchEvent).

Inductive op :=
  | Now
  | Range (m : gmap string string)
  | Get (t : target) (k : kind) (key : NamespacedName)
  | Create (k : kind) (o : kobj k)
  | Update (t : target) (k : kind) (o : kobj k)
  | UpdateStatus (k : kind) (o : kobj k)
  | Delete (k : kind) (o : kobj k) (propagation : option string)
  | ListEvents (t : target) (namespace : string)
  | ListPods (namespace : string) (label : string * string)
  | ListNodes (label : string * string)
  | ScaleGet (k : kind) (o : kobj k)
  | ScaleUpdate (k : kind) (o : kobj k) (body : Scale)
  | NewRequest (method url : string)
  | HTTPDo (timeout : Z) (rq : HTTPRequest)
  | RESTConfigFromKubeConfig (data : string)
  | NewClient (cfg : restConfig)
  | NewDynamic (cfg : restConfig)
  | Metric (m : metric)
  (* contexts, watches and queues: [CtxErr] is ctx.Err(); [Sleep d] a select on
     ctx.Done() and a timer of [d], [Wait] on ctx.Done() and a watcher,
     [WaitOrTick] on both and a ticker *)
  | CtxErr
  | Sleep (d : Z)
  | Wait (watcher : nat)
  | WaitOrTick (watcher : nat) (interval : Z)
  | WatchConfigMap (namespace name : string)
  | ListRemote (c : client_id) (timeout : option Z)
  | NewRetryWatcher (c : client_id) (resourceVersion : string)
  | StopWatch (watcher : nat)
  (* the calls of [GetClient] other goroutines make on the shared provider while
     its mutex is free, by their deadlines *)
  | OtherCalls
  | QueueAdd (key : NamespacedName)
  (* the connection killer's system calls *)
  | ReadDirProc
  | StatInode (path : string)
  | Open (path : string)
  | Close (fd : Z)
  | Setns (fd : Z)
  | NetlinkSocket
  | Bind (fd : Z)
  | Write (fd : Z) (buf : list N)
  | SetRecvTimeout (fd : Z) (seconds : Z)
  | Recvfrom (fd size : Z).

(** [None] for an [error] result that is nil. *)
Abbreviation error := (option goerr).

Definition resp (o : op) : Type :=
  match o with
  | Now => time
  | Range _ => list (string * string)
  | Get _ k _ | Create k _ | Update _ k _ | UpdateStatus k _ => goerr + kobj k
  | Delete _ _ _ | ScaleUpdate _ _ _ | NewRequest _ _ => error
  | ListEvents _ _ => goerr + list FailoverEvent
  | ListPods _ _ => goerr + list Pod
  | ListNodes _ => goerr + list Node
  | ScaleGet _ _ => goerr + Scale
  | HTTPDo _ _ => goerr + Z
  | RESTConfigFromKubeConfig _ => goerr + restConfig
  | NewClient _ | NewDynamic _ => goerr + client_id
  | Metric _ | Close _ | StopWatch _ | QueueAdd _ => unit
  | CtxErr => error
  (* whether the context is done *)
  | Sleep _ => bool
  | Wait _ => woken
  | OtherCalls => list (option Z)
  (* [None] for a tick *)
  | WaitOrTick _ _ => option woken
  | WatchConfigMap _ _ | NewRetryWatcher _ _ => goerr + nat
  (* the resource version of the list and its items *)
  | ListRemote _ _ => goerr + string * list NamespacedName
  | ReadDirProc => goerr + list (string * bool)
  | StatInode _ => goerr + N
  | Open _ | NetlinkSocket => goerr + Z
  | Setns _ | Bind _ | Write _ _ | SetRecvTimeout _ _ => error
  | Recvfrom _ _ => goerr + list N
  end.

(** ** Decidable equality of answers *)

#[export] Instance NamespacedName_eq_dec : EqDecision NamespacedName.
Proof. solve_decision. Defined.
#[export] Instance goerr_eq_dec : EqDecision goerr.
Proof. solve_decision. Defined.
#[export] Instance IntOrString_eq_dec : EqDecision IntOrString.
Proof. solve_decision. Defined.
#[export] Instance ServicePort_eq_dec : EqDecision ServicePort.
Proof. solve_decision. Defined.
#[export] Instance Service_eq_dec : EqDecision Service.
Proof. solve_decision. Defined.
#[export] Instance EndpointPort_eq_dec : EqDecision EndpointPort.
Proof. solve_decision. Defined.
#[export] Instance Endpoint_eq_dec : EqDecision Endpoint.
Proof. solve_decision. Defined.
#[export] Instance EndpointSlice_eq_dec : EqDecision EndpointSlice.
Proof. solve_decision. Defined.
#[export] Instance ConfigMap_eq_dec : EqDecision ConfigMap.
Proof. solve_decision. Defined.
#[export] Instance Secret_eq_dec : EqDecision Secret.
Proof. solve_decision. Defined.
#[export] Instance JobCondition_eq_dec : EqDecision JobCondition.
Proof. solve_decision. Defined.
#[export] Instance Container_eq_dec : EqDecision Container.
Proof. solve_decision. Defined.
#[export] Instance Job_eq_dec : EqDecision Job.
Proof. solve_decision. Defined.
#[export] Instance Workload_eq_dec : EqDecision Workload.
Proof. solve_decision. Defined.
#[export] Instance Scale_eq_dec : EqDecision Scale.
Proof. solve_decision. Defined.
#[export] Instance PodCondition_eq_dec : EqDecision PodCondition.
Proof. solve_decision. Defined.
#[export] Instance Pod_eq_dec : EqDecision Pod.
Proof. solve_decision. Defined.
#[export] Instance Node_eq_dec : EqDecision Node.
Proof. solve_decision. Defined.
#[export] Instance restConfig_eq_dec : EqDecision restConfig.
Proof. solve_decision. Defined.
#[export] Instance WatchEvent_eq_dec : EqDecision WatchEvent.
Proof. solve_decision. Defined.
#[export] Instance woken_eq_dec : EqDecision woken.
Proof. solve_decision. Defined.
#[export] Instance kobj_eq_dec k : EqDecision (kobj k).
Proof. destruct k; apply _. Defined.
#[export] Instance resp_eq_dec o : EqDecision (resp o).
Proof. destruct o; simpl; apply _. Defined.

(** An operation with its answer; a run's history, oldest first; the
    environment. *)
Inductive event := Ev (o : op) (r : resp o).
Abbreviation hist := (list event).
Definition Env : Type := ∀ (h : hist) (o : op), resp o.

(** ** The monad

    A computation answers a value or panics (a nil dereference, a write to a
    nil map, an index out of range), and the events it caused. *)

Inductive outcome (A : Type) := Ret (a : A) | Panic.
Arguments Ret {A} a.
Arguments Panic {A}.

Definition IO (A : Type) : Type := Env → hist → outcome A * hist.

#[export] Instance IO_ret : MRet IO := λ A a E h, (Ret a, []).
#[export] Instance IO_bind : MBind IO := λ A B f m E h,
  let '(o, t1) := m E h in
  match o with
  | Ret a => let '(o', t2) := f a E (h ++ t1) in (o', t1 ++ t2)
  | Panic => (Panic, t1)
  end.
Definition io_panic {A} : IO A := λ E h, (Panic, []).
Definition perform (o : op) : IO (resp o) := λ E h, let r := E h o in (Ret r, [Ev o r]).

(** A loop that has used up its fuel.  It counts as a failure, so that a theorem
    that rules out [Panic] also proves that the fuel was enough. *)
Definition out_of_fuel {A} : IO A := io_panic.

(** A loop that runs until its context ends is modelled by the number of rounds
    it is observed for: it is still [Running], or has left with a result. *)
Inductive loop (A : Type) := Running | Exit (a : A).
Arguments Running {A}.
Arguments Exit {A} a.

(** Dereference of a pointer. *)
Definition deref {A} (o : option A) : IO A :=
  match o with Some a => mret a | None => io_panic end.

Definition now : IO time := perform Now.
Definition emit (m : metric) : IO unit := perform (Metric m).
Definition api_get (t : target) (k : kind) (key : NamespacedName) : IO (goerr + kobj k) :=
  perform (Get t k key).
Definition api_create (k : kind) (o : kobj k) : IO (goerr + kobj k) := perform (Create k o).
Definition api_update (t : target) (k : kind) (o : kobj k) : IO (goerr + kobj k) :=
  perform (Update t k o).
Definition api_update_status (k : kind) (o : kobj k) : IO (goerr + kobj k) :=
  perform (UpdateStatus k o).
Definition api_delete (k : kind) (o : kobj k) (p : option string) : IO error :=
  perform (Delete k o p).

(** The error of an answer that is otherwise ignored. *)
Definition err_of {A} (r : goerr + A) : error := match r with inl e => Some e | inr _ => None end.

(** ** Third-party library functions

    The functions of apimachinery, controller-runtime and client-go the sources
    call on plain data, and client-go's retry loop: parameters ([KubeLib]) with
    the documented behaviour the theorems use ([KubeLibLaws]). *)
Class KubeLib := {
  SetStatusCondition : list Condition → Condition → list Condition;
  RemoveStatusCondition : list Condition → string → list Condition;
  NewControllerRef : ObjectMeta → OwnerReference;
  ContainsFinalizer : ObjectMeta → string → bool;
  AddFinalizer : ObjectMeta → string → ObjectMeta;
  RemoveFinalizer : ObjectMeta → string → ObjectMeta;
  OnError : (goerr → bool) → IO error → IO error;
}.
Definition RetryOnConflict `{KubeLib} : IO error → IO error := OnError IsConflict.

(** [n + 1] attempts: the function is run again while it fails with a
    retriable error. *)
Fixpoint attempts (n : nat) (retriable : goerr → bool) (fn : IO error) : IO error :=
  e ← fn;
  match n, e with
  | S n, Some err => if retriable err then attempts n retriable fn else mret e
  | _, _ => mret e
  end.

Definition find_condition (cs : list Condition) (ty : string) : option Condition :=
  snd <$> list_find (λ c, c_Type c = ty) cs.

Class KubeLibLaws `{KubeLib} : Prop := {
  set_condition_same cs c :
    ∃ c', find_condition (SetStatusCondition cs c) (c_Type c) = Some c'
      ∧ c_Status c' = c_Status c ∧ c_Reason c' = c_Reason c ∧ c_Message c' = c_Message c;
  set_condition_other cs c ty :
    ty ≠ c_Type c → find_condition (SetStatusCondition cs c) ty = find_condition cs ty;
  remove_condition_same cs ty : find_condition (RemoveStatusCondition cs ty) ty = None;
  remove_condition_other cs ty ty' :
    ty' ≠ ty → find_condition (RemoveStatusCondition cs ty) ty' = find_condition cs ty';
  controller_ref_owner m :
    or_UID (NewControllerRef m) = om_UID m ∧ or_Name (NewControllerRef m) = om_Name m;
  contains_add m f : ContainsFinalizer (AddFinalizer m f) f = true;
  contains_remove m f : ContainsFinalizer (RemoveFinalizer m f) f = false;
  add_finalizers_only m f : ∃ l, AddFinalizer m f = {| m with om_Finalizers := l |};
  remove_finalizers_only m f : ∃ l, RemoveFinalizer m f = {| m with om_Finalizers := l |};
  on_error_attempts :
    ∃ n, ∀ retriable fn E h, OnError retriable fn E h = attempts n retriable fn E h;
}.
