(* ===== verification/Logic.v ===== *)
(** * Program logic for [IO]

    [wp m Q]: for every environment and past, the outcome of [m] and the events
    it causes satisfy [Q].  [rg R G m Φ] is the rely-guarantee triple built on
    it: as long as the environment's answers respect [R], every event of [m]
    satisfies [G], [m] does not panic and its value satisfies [Φ]. *)
From stdpp Require Import base gmap strings list numbers.
From S2P Require Import Prelude GoStd Types Kube.

Definition wp {A} (m : IO A) (Q : outcome A → hist → Prop) : Prop :=
  ∀ E h, Q (m E h).1 (m E h).2.

Section wp_rules.
Context {A B : Type}.

Lemma wp_mono (m : IO A) (Q Q' : outcome A → hist → Prop) :
  wp m Q → (∀ o t, Q o t → Q' o t) → wp m Q'.
Proof. intros H HQ E h. apply HQ, H. Qed.

(** Nothing is known about [m]. *)
Lemma wp_any (m : IO A) (Q : outcome A → hist → Prop) : (∀ o t, Q o t) → wp m Q.
Proof. intros H E h. apply H. Qed.

Lemma wp_ret (a : A) (Q : outcome A → hist → Prop) : Q (Ret a) [] → wp (mret a) Q.
Proof. by intros H E h. Qed.

Lemma wp_panic (Q : outcome A → hist → Prop) : Q Panic [] → wp io_panic Q.
Proof. by intros H E h. Qed.

Lemma wp_perform (o : op) (Q : outcome (resp o) → hist → Prop) :
  (∀ r, Q (Ret r) [Ev o r]) → wp (perform o) Q.
Proof. intros H E h. apply H. Qed.

Lemma wp_bind (m : IO A) (f : A → IO B) (Q : outcome B → hist → Prop) :
  wp m (λ o t, match o with
               | Ret a => wp (f a) (λ o' t', Q o' (t ++ t'))
               | Panic => Q Panic t
               end) → wp (m ≫= f) Q.
Proof.
  intros H E h. specialize (H E h). unfold mbind, IO_bind.
  destruct (m E h) as [[a|] t]; simpl in *; [|done].
  specialize (H E (h ++ t)). by destruct (f a E (h ++ t)).
Qed.

Lemma wp_deref (x : option A) (Q : outcome A → hist → Prop) :
  match x with Some a => Q (Ret a) [] | None => Q Panic [] end → wp (deref x) Q.
Proof. destruct x; intros; [by apply wp_ret|by apply wp_panic]. Qed.
End wp_rules.

(** An operation followed by the rest of the program. *)
Lemma wp_bind_perform {B} (o : op) (f : resp o → IO B) (Q : outcome B → hist → Prop) :
  (∀ r, wp (f r) (λ o' t, Q o' (Ev o r :: t))) → wp (perform o ≫= f) Q.
Proof. intros H. apply wp_bind, wp_perform. done. Qed.

Lemma wp_conj {A} (m : IO A) (Q Q' : outcome A → hist → Prop) :
  wp m Q → wp m Q' → wp m (λ o t, Q o t ∧ Q' o t).
Proof. intros H H' E h. split; [apply H|apply H']. Qed.

(** [returns Φ o]: no panic, and the value satisfies [Φ]. *)
Definition returns {A} (Φ : A → Prop) (o : outcome A) : Prop :=
  match o with Ret a => Φ a | Panic => False end.

Definition rg {A} (R G : event → Prop) (m : IO A) (Φ : A → Prop) : Prop :=
  wp m (λ o t, Forall R t → Forall G t ∧ returns Φ o).

Section rg_rules.
Context {A B : Type} (R G : event → Prop).

Lemma rg_ret (a : A) (Φ : A → Prop) : Φ a → rg R G (mret a) Φ.
Proof. intros. by apply wp_ret. Qed.

Lemma rg_perform (o : op) (Φ : resp o → Prop) :
  (∀ r, R (Ev o r) → G (Ev o r) ∧ Φ r) → rg R G (perform o) Φ.
Proof.
  intros H. apply wp_perform. intros r [Hr _]%Forall_cons_1.
  destruct (H r Hr). split; [by apply Forall_singleton|done].
Qed.

Lemma rg_bind (m : IO A) (f : A → IO B) (Φ : A → Prop) (Ψ : B → Prop) :
  rg R G m Φ → (∀ a, Φ a → rg R G (f a) Ψ) → rg R G (m ≫= f) Ψ.
Proof.
  intros Hm Hf. apply wp_bind. intros E h. specialize (Hm E h). simpl in Hm.
  destruct (m E h) as [[a|] t]; simpl in *.
  - intros E' h' [Ht Ht']%Forall_app. destruct (Hm Ht) as [HG Ha].
    destruct (Hf a Ha E' h' Ht') as [HG' Hb]. split; [by apply Forall_app|done].
  - intros Ht. by destruct (Hm Ht).
Qed.

Lemma rg_bind_perform (o : op) (f : resp o → IO B) (Ψ : B → Prop) :
  (∀ r, R (Ev o r) → G (Ev o r) ∧ rg R G (f r) Ψ) → rg R G (perform o ≫= f) Ψ.
Proof.
  intros Hf. apply wp_bind_perform. intros r E h [HR Ht]%Forall_cons_1.
  destruct (Hf r HR) as [HG Hr]. destruct (Hr E h Ht) as [HGt HΨ]. split; [by constructor|done].
Qed.

Lemma rg_bind_ret (a : A) (f : A → IO B) (Ψ : B → Prop) :
  rg R G (f a) Ψ → rg R G (mret a ≫= f) Ψ.
Proof. intros H. apply (rg_bind _ _ (λ x, x = a)); [by apply rg_ret|by intros ? ->]. Qed.

Lemma rg_mono (m : IO A) (Φ Ψ : A → Prop) :
  rg R G m Φ → (∀ a, Φ a → Ψ a) → rg R G m Ψ.
Proof.
  intros H HΦ. eapply wp_mono; [exact H|]. intros [a|] t Ht Hr; destruct (Ht Hr) as [? HA];
    split; auto. by apply HΦ.
Qed.

Lemma rg_deref (x : option A) (a : A) (Φ : A → Prop) :
  x = Some a → Φ a → rg R G (deref x) Φ.
Proof. intros -> ?. by apply rg_ret. Qed.

End rg_rules.

(** Weakening of the rely and the guarantee: how a component's triple is used
    by a client with its own view of the events. *)
Lemma rg_weaken {A} (R R' G G' : event → Prop) (m : IO A) (Φ : A → Prop) :
  rg R G m Φ → (∀ e, R' e → R e) → (∀ e, R' e → G e → G' e) → rg R' G' m Φ.
Proof.
  intros H HR HG. eapply wp_mono; [exact H|]. intros o t Ht HR'.
  destruct Ht as [HGt HΦ]; [by eapply Forall_impl|]. split; [|done].
  rewrite Forall_forall in HR', HGt |- *. eauto.
Qed.

(** Every event of [m] satisfies [P], whatever the environment. *)
Definition emits {A} (P : event → Prop) (m : IO A) : Prop := wp m (λ _ t, Forall P t).

Section emits_rules.
Context {A B : Type} (P : event → Prop).

Lemma emits_ret (a : A) : emits P (mret a).
Proof. by apply wp_ret. Qed.
Lemma emits_panic : emits P (@io_panic A).
Proof. by apply wp_panic. Qed.
Lemma emits_deref (x : option A) : emits P (deref x).
Proof. destruct x; [apply emits_ret|apply emits_panic]. Qed.
Lemma emits_perform (o : op) : (∀ r, P (Ev o r)) → emits P (perform o).
Proof. intros H. apply wp_perform. intros r. by apply Forall_singleton. Qed.
Lemma emits_bind (m : IO A) (f : A → IO B) :
  emits P m → (∀ a, emits P (f a)) → emits P (m ≫= f).
Proof.
  intros Hm Hf. apply wp_bind. intros E h. specialize (Hm E h).
  destruct (m E h) as [[a|] t]; simpl in *; [|done].
  intros E' h'. apply Forall_app; split; [done|apply Hf].
Qed.
Lemma emits_mono (P' : event → Prop) (m : IO A) :
  emits P' m → (∀ e, P' e → P e) → emits P m.
Proof. intros H HP. eapply wp_mono; [exact H|]. intros ? t Ht. by eapply Forall_impl. Qed.
End emits_rules.

Lemma wp_ext {A} (m m' : IO A) (Q : outcome A → hist → Prop) :
  (∀ E h, m E h = m' E h) → wp m' Q → wp m Q.
Proof. intros He H E h. rewrite He. apply H. Qed.
Lemma rg_ext {A} R G (m m' : IO A) (Φ : A → Prop) :
  (∀ E h, m E h = m' E h) → rg R G m' Φ → rg R G m Φ.
Proof. apply wp_ext. Qed.

(** ** Projections of a history *)

(** What [f] extracts from every event, in order. *)
Definition collected {A} (f : event → list A) (t : hist) : list A := mjoin (f <$> t).
Lemma collected_app {A} (f : event → list A) t1 t2 :
  collected f (t1 ++ t2) = collected f t1 ++ collected f t2.
Proof. unfold collected. by rewrite fmap_app, join_app. Qed.
Lemma collected_cons {A} (f : event → list A) e t : collected f (e :: t) = f e ++ collected f t.
Proof. done. Qed.

(** Events that [f] ignores contribute nothing. *)
Lemma emits_collected {A B} (P : event → Prop) (f : event → list A) (m : IO B) :
  emits P m → (∀ e, P e → f e = []) → wp m (λ _ t, collected f t = []).
Proof.
  intros Hm Hf. eapply wp_mono; [exact Hm|]. intros o t Ht.
  induction Ht as [|e t He _ IH]; [done|]. by rewrite collected_cons, IH, Hf.
Qed.

(** ** The retry loop *)

Definition any_event (e : event) : Prop := True.

(** When the loop succeeds, its last attempt did. *)
Lemma attempts_succeeds (P : hist → Prop) fn n retriable :
  (∀ t1 t2, P t2 → P (t1 ++ t2)) →
  wp fn (λ o t, o = Ret None → P t) →
  wp (attempts n retriable fn) (λ o t, o = Ret None → P t).
Proof.
  intros Happ Hfn. assert (Hret : ∀ e t, (Ret e = Ret None → P t) →
    wp (mret e : IO error) (λ o t', o = Ret None → P (t ++ t'))).
  { intros e t Ht. apply wp_ret. rewrite app_nil_r. auto. }
  induction n as [|n IH]; simpl; apply wp_bind;
    (eapply wp_mono; [exact Hfn|]); intros [[err|]|] t Ht; try done; auto.
  destruct (retriable err); [|by apply Hret].
  eapply wp_mono; [exact IH|]. intros o t' Ht' Ho. auto.
Qed.

Lemma attempts_safe (G : event → Prop) fn n retriable :
  rg any_event G fn (λ _, True) → rg any_event G (attempts n retriable fn) (λ _, True).
Proof.
  intros Hfn. induction n as [|n IH]; simpl; apply (rg_bind _ _ _ _ _ _ Hfn).
  - intros; by apply rg_ret.
  - intros [err|] _; [|by apply rg_ret]. destruct (retriable err); [done|by apply rg_ret].
Qed.

Section OnError.
Context `{KubeLibLaws}.

Lemma OnError_wp (P : hist → Prop) retriable fn :
  (∀ t1 t2, P t2 → P (t1 ++ t2)) → wp fn (λ o t, o = Ret None → P t) →
  wp (OnError retriable fn) (λ o t, o = Ret None → P t).
Proof.
  intros HP Hfn. destruct on_error_attempts as [n Hn].
  eapply wp_ext; [apply Hn|]. by apply attempts_succeeds.
Qed.
Lemma OnError_safe (G : event → Prop) retriable fn :
  rg any_event G fn (λ _, True) → rg any_event G (OnError retriable fn) (λ _, True).
Proof.
  intros Hfn. destruct on_error_attempts as [n Hn].
  eapply rg_ext; [apply Hn|]. by apply attempts_safe.
Qed.
End OnError.

(** ** Automation *)

Create HintDb io.
#[export] Hint Resolve emits_ret emits_panic emits_deref rg_ret : io.

(** The operation a primitive computation performs. *)
Ltac as_op m :=
  lazymatch m with
  | perform ?o => o
  | now => constr:(Now)
  | emit ?x => constr:(Metric x)
  | api_get ?t ?k ?key => constr:(Get t k key)
  | api_create ?k ?o => constr:(Create k o)
  | api_update ?t ?k ?o => constr:(Update t k o)
  | api_update_status ?k ?o => constr:(UpdateStatus k o)
  | api_delete ?k ?o ?p => constr:(Delete k o p)
  end.

(** The next operation of a computation. *)
Ltac wp_op :=
  lazymatch goal with
  | |- wp (mbind _ ?m) _ => let o := as_op m in apply (wp_bind_perform o)
  end.

(** One step of symbolic execution of a goal [wp m Q]: primitive operations,
    the monad's operators and case analysis; calls of the program's own
    functions are left to their lemmas. *)
Ltac wp_step :=
  cbv beta zeta;
  lazymatch goal with
  | |- wp (mret _) _ => apply wp_ret
  | |- wp io_panic _ => apply wp_panic
  | |- wp (deref _) _ => apply wp_deref
  | |- wp (mbind _ (mret _)) _ => apply wp_bind, wp_ret
  | |- wp (mbind _ (deref (Some _))) _ => apply wp_bind, wp_ret
  | |- wp (mbind _ ?m) _ =>
      first [let o := as_op m in apply (wp_bind_perform o); intros ?r | apply wp_bind]
  | |- wp (match ?x with _ => _ end) _ => destruct x eqn:?
  | |- match ?x with _ => _ end => destruct x eqn:?
  | |- wp ?m _ => let o := as_op m in apply (wp_perform o); intros ?r
  end.

(** The same for [emits] and for [rg], closing leaves with the [io] hints. *)
Ltac emits_step :=
  cbv beta zeta;
  lazymatch goal with
  | |- emits _ (mbind _ _) => apply emits_bind; [|intros ?a]
  | |- emits _ (match ?x with _ => _ end) => destruct x eqn:?
  | |- emits _ (mret _) => apply emits_ret
  | |- emits _ io_panic => apply emits_panic
  | |- emits _ (deref _) => apply emits_deref
  | |- emits _ ?m =>
      first [let o := as_op m in apply (emits_perform _ o); intros ?r | solve [auto with io]]
  end.

Ltac rg_step :=
  cbv beta zeta;
  lazymatch goal with
  | |- rg _ _ (mbind _ (mret _)) _ => apply rg_bind_ret
  | |- rg _ _ (mbind _ (deref (Some _))) _ => apply rg_bind_ret
  | |- rg ?R ?G (mbind _ ?m) _ =>
      first [ let o := as_op m in apply (rg_bind_perform R G o); intros ?r ?HR; split
            | apply (rg_bind R G m _ (λ _, True)); [|intros ?a _] ]
  | |- rg _ _ (match ?x with _ => _ end) _ => destruct x eqn:?
  | |- rg _ _ (mret _) _ => apply rg_ret
  | |- rg ?R ?G ?m _ => let o := as_op m in apply (rg_perform R G o); intros ?r ?HR; split
  end.
