(* ===== verification/ApiServer.v ===== *)
(** * The documented behaviour of the Kubernetes API server

    What the program may rely on when it talks to the API server, as a relation
    [step_ok st e st'] between the stored objects before and after an event:
    reads answer the stored object, [Create] needs a free name, [Update] of a
    resource with a status subresource keeps the stored status, an update of
    the status keeps everything else, an error changes nothing.  An object being
    deleted is gone with the update that removes its last finalizer; a delete of
    an object with finalizers marks it.  Timestamps travel as RFC 3339 text and
    lose their fraction of a second.

    Reads at the local site answer what is stored at that moment.  The manager's
    client reads from a cache, which answers an object as it was stored at some
    time before: what is proved with [step_ok] holds of runs in which the cache
    has caught up with the objects read.

    [sim] is an in-memory server with this behaviour ([sim_step_ok]); the
    witnesses run the program against it. *)
From Stdlib Require Import NArith.
From stdpp Require Import base gmap strings list numbers.
From S2P Require Import Prelude GoStd Types Kube Logic.


(** ** Objects and their identity *)

Definition kmeta (k : kind) : kobj k → ObjectMeta :=
  match k with
  | KFailoverService => fs_meta
  | KFailoverEvent => fe_meta
  | KService => svc_meta
  | KEndpointSlice => eps_meta
  | KConfigMap => cm_meta
  | KSecret => sec_meta
  | KJob => job_meta
  | KDeployment | KStatefulSet => w_meta
  end.
Definition meta_key (m : ObjectMeta) : NamespacedName :=
  {| nn_Name := om_Name m; nn_Namespace := om_Namespace m |}.
Definition okey (k : kind) (o : kobj k) : NamespacedName := meta_key (kmeta k o).

Definition store : Type := ∀ k : kind, NamespacedName → option (kobj k).

(** ** Serialisation of timestamps *)

Definition trunc (t : time) : time := (t - t mod Second)%Z.
Definition trunc_result (r : ActionResult) : ActionResult :=
  {| r with ar_StartedAt := trunc <$> ar_StartedAt r; ar_CompletedAt := trunc <$> ar_CompletedAt r |}.
Definition trunc_kill (c : ConnectionKillStatus) : ConnectionKillStatus :=
  {| c with ck_SignaledAt := trunc <$> ck_SignaledAt c |}.
Definition trunc_transition (t : TransitionStatus) : TransitionStatus :=
  {| t with ts_PreActionResults := trunc_result <$> ts_PreActionResults t;
            ts_PostActionResults := trunc_result <$> ts_PostActionResults t;
            ts_StartedAt := trunc <$> ts_StartedAt t;
            ts_ConnectionKill := trunc_kill <$> ts_ConnectionKill t |}.
Definition trunc_status (s : FailoverServiceStatus) : FailoverServiceStatus :=
  {| s with st_LastTransitionTime := trunc <$> st_LastTransitionTime s;
            st_SpecChangeTime := trunc <$> st_SpecChangeTime s;
            st_Clusters := (λ c, {| c with cs_LastAppliedTime := trunc <$> cs_LastAppliedTime c |})
                             <$> st_Clusters s;
            st_RemoteState := (λ r, {| r with rs_LastSyncTime := trunc <$> rs_LastSyncTime r;
                                              rs_SpecChangeTime := trunc <$> rs_SpecChangeTime r |})
                                <$> st_RemoteState s;
            st_Transition := trunc_transition <$> st_Transition s;
            st_Conditions := (λ c, {| c with c_LastTransitionTime := trunc (c_LastTransitionTime c) |})
                               <$> st_Conditions s |}.
Definition trunc_event_status (s : FailoverEventStatus) : FailoverEventStatus :=
  {| s with ev_StartedAt := trunc <$> ev_StartedAt s;
            ev_CompletedAt := trunc <$> ev_CompletedAt s;
            ev_PreActionResults := trunc_result <$> ev_PreActionResults s;
            ev_PostActionResults := trunc_result <$> ev_PostActionResults s;
            ev_ConnectionKillResult := trunc_kill <$> ev_ConnectionKillResult s |}.

(** ** What a write stores *)

(** The metadata a client controls; the server assigns the rest. *)
Definition same_meta (m m' : ObjectMeta) : Prop :=
  om_Name m = om_Name m' ∧ om_Namespace m = om_Namespace m' ∧ om_Labels m = om_Labels m'
  ∧ om_Annotations m = om_Annotations m' ∧ om_OwnerReferences m = om_OwnerReferences m'
  ∧ om_Finalizers m = om_Finalizers m'.

(** What the server keeps of a stored object's metadata whatever is written. *)
Definition same_life (m m' : ObjectMeta) : Prop :=
  om_UID m' = om_UID m ∧ om_DeletionTimestamp m' = om_DeletionTimestamp m.

(** The part of an object that [Create] and [Update] take from the request. *)
Definition same_spec (k : kind) : kobj k → kobj k → Prop :=
  match k with
  | KFailoverService => λ o o', fs_spec o = fs_spec o'
  | KFailoverEvent => λ o o', fe_spec o = fe_spec o'
  | KService => λ o o',
      svc_Type o = svc_Type o' ∧ svc_ExternalName o = svc_ExternalName o'
      ∧ svc_Ports o = svc_Ports o'
  | KEndpointSlice => λ o o',
      eps_AddressType o = eps_AddressType o' ∧ eps_Endpoints o = eps_Endpoints o'
      ∧ eps_Ports o = eps_Ports o'
  | KConfigMap => λ o o', ∀ key, mget (cm_Data o) key = mget (cm_Data o') key
  | KSecret => λ o o', sec_Data o = sec_Data o'
  | KJob => λ o o',
      job_ActiveDeadlineSeconds o = job_ActiveDeadlineSeconds o'
      ∧ job_BackoffLimit o = job_BackoffLimit o' ∧ job_RestartPolicy o = job_RestartPolicy o'
      ∧ job_ServiceAccountName o = job_ServiceAccountName o'
      ∧ job_Containers o = job_Containers o'
  | KDeployment | KStatefulSet => λ o o', w_Replicas o = w_Replicas o'
  end.

(** The status subresource, which [Create] and [Update] do not touch:
    [same_status k old o'] for an update of a stored object [old]. *)
Definition same_status (k : kind) : kobj k → kobj k → Prop :=
  match k with
  | KFailoverService => λ o o', fs_status o = fs_status o'
  | KFailoverEvent => λ o o', fe_status o = fe_status o'
  | KJob => λ o o', job_Conditions o = job_Conditions o'
  | KDeployment | KStatefulSet => λ o o',
      w_ReadyReplicas o = w_ReadyReplicas o' ∧ w_UpdatedReplicas o = w_UpdatedReplicas o'
      ∧ w_AvailableReplicas o = w_AvailableReplicas o'
      ∧ w_ObservedGeneration o = w_ObservedGeneration o'
  | _ => λ _ _, True
  end.

(** The status stored by [Status().Update]. *)
Definition status_stored (k : kind) : kobj k → kobj k → Prop :=
  match k with
  | KFailoverService => λ o o', fs_status o' = trunc_status (fs_status o)
  | KFailoverEvent => λ o o', fe_status o' = trunc_event_status (fe_status o)
  | _ => λ _ _, True
  end.
Definition status_empty (k : kind) : kobj k → Prop :=
  match k with
  | KFailoverEvent => λ o, fe_status o = empty_event_status
  | KJob => λ o, job_Conditions o = []
  | _ => λ _, True
  end.

(** ** The transition relation *)

(** [st] with [o] under kind [k] and [key]. *)
Definition put (st : store) (k : kind) (key : NamespacedName) (o : option (kobj k)) : store :=
  λ k' key',
    match decide (k = k') with
    | left E => if decide (key = key') then eq_rect k (λ k, option (kobj k)) o k' E else st k' key'
    | right _ => st k' key'
    end.

Lemma put_eq st k key o : put st k key o k key = o.
Proof.
  unfold put. rewrite (decide_True_pi (P := k = k) eq_refl). simpl. by rewrite decide_True.
Qed.
Lemma put_ne st k key o k' key' :
  (k' ≠ k ∨ key' ≠ key) → put st k key o k' key' = st k' key'.
Proof.
  intros Hne. unfold put. destruct (decide (k = k')) as [<-|]; [|done].
  rewrite decide_False; [done|]. intros ->. by destruct Hne.
Qed.

(** An object being deleted goes when its last finalizer is removed. *)
Definition finished (m : ObjectMeta) : bool :=
  negb (time_ptr_IsZero (om_DeletionTimestamp m)) && bool_decide (om_Finalizers m = []).
Definition stored_as (k : kind) (o : kobj k) : option (kobj k) :=
  if finished (kmeta k o) then None else Some o.

Definition step_ok (st st' : store) (e : event) : Prop :=
  match e with
  | Ev (Get t k key) r =>
      st' = st
      ∧ (t_site t = Local →
         match r with
         | inl err => IsNotFound err = true → st k key = None
         | inr o => st k key = Some o
         end)
  | Ev (Create k o) r =>
      match r with
      | inl _ => st' = st
      | inr o' =>
          st k (okey k o) = None ∧ same_meta (kmeta k o) (kmeta k o')
          ∧ om_DeletionTimestamp (kmeta k o') = None ∧ same_spec k o o'
          ∧ status_empty k o' ∧ st' = put st k (okey k o) (Some o')
      end
  | Ev (Update t k o) r =>
      match t_site t, r with
      | Local, inr o' =>
          ∃ old, st k (okey k o) = Some old
          ∧ same_meta (kmeta k o) (kmeta k o') ∧ same_life (kmeta k old) (kmeta k o')
          ∧ same_spec k o o' ∧ same_status k old o' ∧ st' = put st k (okey k o) (stored_as k o')
      | _, _ => st' = st
      end
  | Ev (UpdateStatus k o) r =>
      match r with
      | inl _ => st' = st
      | inr o' =>
          ∃ old, st k (okey k o) = Some old
          ∧ same_meta (kmeta k old) (kmeta k o') ∧ same_life (kmeta k old) (kmeta k o')
          ∧ same_spec k old o' ∧ status_stored k o o' ∧ st' = put st k (okey k o) (Some o')
      end
  | Ev (Delete k o _) r =>
      match r with
      | Some _ => st' = st
      (* an object with finalizers is only marked *)
      | None => st' = put st k (okey k o) None
          ∨ ∃ o', okey k o' = okey k o ∧ om_Finalizers (kmeta k o') ≠ []
              ∧ st' = put st k (okey k o) (Some o')
      end
  (* the language's own promise: a range visits every entry once *)
  | Ev (Range m) r => st' = st ∧ r ≡ₚ map_to_list m
  | _ => st' = st
  end.

(** A whole history served from [st], ending in [st']. *)
Fixpoint serves (st : store) (t : hist) (st' : store) : Prop :=
  match t with
  | [] => st' = st
  | e :: t => ∃ st1, step_ok st st1 e ∧ serves st1 t st'
  end.

(** Objects are stored under their own key, and none is a deleted one without
    finalizers. *)
Definition keyed (st : store) : Prop :=
  ∀ k key o, st k key = Some o → okey k o = key ∧ finished (kmeta k o) = false.
Lemma keyed_key st k key o : keyed st → st k key = Some o → okey k o = key.
Proof. intros Hk Ho. apply (Hk _ _ _ Ho). Qed.
Lemma keyed_unfinished st k key o : keyed st → st k key = Some o → finished (kmeta k o) = false.
Proof. intros Hk Ho. apply (Hk _ _ _ Ho). Qed.

Lemma keyed_put st k key o :
  keyed st →
  match o with Some o => okey k o = key ∧ finished (kmeta k o) = false | None => True end →
  keyed (put st k key o).
Proof.
  intros Hk Ho k' key' o2.
  destruct (decide (k' = k)) as [->|]; [destruct (decide (key' = key)) as [->|]|].
  - rewrite put_eq. by intros ->.
  - rewrite put_ne by auto. apply Hk.
  - rewrite put_ne by auto. apply Hk.
Qed.

Lemma same_meta_key m m' : same_meta m m' → meta_key m' = meta_key m.
Proof. unfold same_meta, meta_key. intros H. destruct_and! H. congruence. Qed.

Lemma stored_as_keyed k o key : okey k o = key →
  match stored_as k o with Some o => okey k o = key ∧ finished (kmeta k o) = false | None => True end.
Proof. intros Ho. unfold stored_as. destruct (finished _) eqn:Hf; auto. Qed.

(** An update that keeps the finalizers of a stored object keeps the object. *)
Lemma stored_as_same k old o o' :
  finished (kmeta k old) = false → om_Finalizers (kmeta k o) = om_Finalizers (kmeta k old) →
  same_meta (kmeta k o) (kmeta k o') → same_life (kmeta k old) (kmeta k o') →
  stored_as k o' = Some o'.
Proof.
  unfold stored_as, finished. intros Hf Hfin (_ & _ & _ & _ & _ & Hm) [_ Hd].
  by rewrite Hd, <- Hm, Hfin, Hf.
Qed.

Lemma step_keyed st st' e : keyed st → step_ok st st' e → keyed st'.
Proof.
  intros Hk. destruct e as [[] r]; simpl; try (by intros ->); try (by intros [-> _]).
  - destruct r as [|o']; [by intros ->|]. intros (_ & Hm & Hd & _ & _ & ->).
    apply keyed_put; [done|]. split; [by apply same_meta_key|]. unfold finished. by rewrite Hd.
  - destruct (t_site t), r as [|o']; try (by intros ->).
    intros (old & _ & Hm & _ & _ & _ & ->). apply keyed_put; [done|].
    by apply stored_as_keyed, same_meta_key.
  - destruct r as [|o']; [by intros ->|]. intros (old & Hold & Hm & Hl & _ & _ & ->).
    apply keyed_put; [done|]. destruct (Hk _ _ _ Hold) as [<- Hf].
    split; [by apply same_meta_key|]. destruct Hm as (_ & _ & _ & _ & _ & Hm).
    unfold finished in *. destruct Hl as [_ ->]. by rewrite <- Hm.
  - destruct r; [by intros ->|]. intros [->|(o' & Hkey & Hf & ->)]; apply keyed_put; try done.
    split; [done|]. unfold finished. by rewrite bool_decide_eq_false_2, andb_false_r.
Qed.

Lemma serves_keyed st t st' : keyed st → serves st t st' → keyed st'.
Proof.
  revert st. induction t as [|e t IH]; intros st Hk; cbn; [by intros ->|].
  intros (st1 & H1 & H2). by eapply IH, H2; eapply step_keyed.
Qed.

(** ** Reasoning about a served computation

    [served st m Q]: run from the (keyed) stored objects [st] against an API
    server with the documented behaviour, [m] ends with an outcome and stored
    objects that satisfy [Q]. *)
Definition served {A} (st : store) (m : IO A) (Q : outcome A → store → Prop) : Prop :=
  keyed st → wp m (λ o t, ∀ st', serves st t st' → Q o st').

Lemma serves_app st t1 t2 st2 :
  serves st (t1 ++ t2) st2 ↔ ∃ st1, serves st t1 st1 ∧ serves st1 t2 st2.
Proof.
  revert st; induction t1 as [|e t1 IH]; intros st; cbn.
  - split; [eauto|by intros (? & -> & ?)].
  - setoid_rewrite IH. split; [intros (s1&?&s2&?&?)|intros (s2&(s1&?&?)&?)]; eauto 10.
Qed.

Section served_rules.
Context {A B : Type} (st : store).

Lemma served_keyed (m : IO A) (Q : outcome A → store → Prop) :
  (keyed st → served st m Q) → served st m Q.
Proof. intros H Hk. by apply H. Qed.

Lemma served_ret (a : A) (Q : outcome A → store → Prop) : Q (Ret a) st → served st (mret a) Q.
Proof. intros H Hk. apply wp_ret. by intros st' ->. Qed.

Lemma served_deref (x : option A) (Q : outcome A → store → Prop) :
  match x with Some a => Q (Ret a) st | None => Q Panic st end → served st (deref x) Q.
Proof. destruct x; intros H Hk; [by apply served_ret|]. apply wp_panic. by intros st' ->. Qed.

Lemma served_bind (m : IO A) (f : A → IO B) (Q : outcome B → store → Prop) :
  served st m (λ o st1, match o with Ret a => served st1 (f a) Q | Panic => Q Panic st1 end) →
  served st (m ≫= f) Q.
Proof.
  intros H Hk. apply wp_bind. intros E h. specialize (H Hk E h).
  destruct (m E h) as [[a|] t]; simpl in *.
  - intros E' h' st' (st1 & H1 & H2)%serves_app.
    by apply (H st1 H1 (serves_keyed _ _ _ Hk H1) E' h').
  - done.
Qed.

Lemma served_mono (m : IO A) (Q Q' : outcome A → store → Prop) :
  served st m Q → (∀ o st', Q o st' → Q' o st') → served st m Q'.
Proof. intros H HQ Hk. eapply wp_mono; [by apply H|]. simpl. eauto. Qed.

Lemma served_get k key (Q : outcome (goerr + kobj k) → store → Prop) :
  (∀ err, (IsNotFound err = true → st k key = None) → Q (Ret (inl err)) st) →
  (∀ o, st k key = Some o → Q (Ret (inr o)) st) →
  served st (api_get local k key) Q.
Proof.
  intros H1 H2 Hk. apply wp_perform. intros r st' (st1 & [-> Hr] & ->). specialize (Hr eq_refl).
  destruct r; auto.
Qed.

(** Clocks and metrics leave the store alone. *)
Lemma served_now (Q : outcome time → store → Prop) :
  (∀ n, Q (Ret n) st) → served st now Q.
Proof. intros HQ Hk. apply wp_perform. intros n st' (st1 & -> & ->). apply HQ. Qed.
Lemma served_emit m (Q : outcome unit → store → Prop) :
  Q (Ret tt) st → served st (emit m) Q.
Proof. intros HQ Hk. apply wp_perform. intros [] st' (st1 & -> & ->). apply HQ. Qed.

Lemma served_create k (o : kobj k) (Q : outcome (goerr + kobj k) → store → Prop) :
  (∀ err, Q (Ret (inl err)) st) →
  (∀ o', st k (okey k o) = None → same_meta (kmeta k o) (kmeta k o') → same_spec k o o' →
     status_empty k o' → Q (Ret (inr o')) (put st k (okey k o) (Some o'))) →
  served st (api_create k o) Q.
Proof.
  intros H1 H2 Hk. apply wp_perform. intros [err|o'] st' (st1 & Hst & ->); simpl in Hst.
  - subst. auto.
  - destruct Hst as (?&?&?&?&?&->). auto.
Qed.

(** Updates that keep the finalizers of the stored object. *)
Lemma served_update k (o : kobj k) (Q : outcome (goerr + kobj k) → store → Prop) :
  (∀ old, keyed st → st k (okey k o) = Some old →
     om_Finalizers (kmeta k o) = om_Finalizers (kmeta k old)) →
  (∀ err, Q (Ret (inl err)) st) →
  (∀ old o', st k (okey k o) = Some old → same_meta (kmeta k o) (kmeta k o') →
     om_UID (kmeta k o') = om_UID (kmeta k old) → same_spec k o o' → same_status k old o' →
     Q (Ret (inr o')) (put st k (okey k o) (Some o'))) →
  served st (api_update local k o) Q.
Proof.
  intros H0 H1 H2 Hk. apply wp_perform. intros [err|o'] st' (st1 & Hst & ->); simpl in Hst.
  - subst. auto.
  - destruct Hst as (old & Hold & Hm & Hl & ? & ? & ->).
    rewrite (stored_as_same k old o o'); eauto using keyed_unfinished. apply (H2 old); auto. apply Hl.
Qed.

Lemma served_update_status k (o : kobj k) (Q : outcome (goerr + kobj k) → store → Prop) :
  (∀ err, Q (Ret (inl err)) st) →
  (∀ old o', st k (okey k o) = Some old → same_meta (kmeta k old) (kmeta k o') →
     om_UID (kmeta k o') = om_UID (kmeta k old) → same_spec k old o' → status_stored k o o' →
     Q (Ret (inr o')) (put st k (okey k o) (Some o'))) →
  served st (api_update_status k o) Q.
Proof.
  intros H1 H2 Hk. apply wp_perform. intros [err|o'] st' (st1 & Hst & ->); simpl in Hst.
  - subst. auto.
  - destruct Hst as (old&?&?&[? ?]&?&?&->). eauto.
Qed.

Lemma served_delete k (o : kobj k) p (Q : outcome error → store → Prop) :
  (∀ err, Q (Ret (Some err)) st) → Q (Ret None) (put st k (okey k o) None) →
  (∀ o', om_Finalizers (kmeta k o') ≠ [] → Q (Ret None) (put st k (okey k o) (Some o'))) →
  served st (api_delete k o p) Q.
Proof.
  intros H1 H2 H3 Hk. apply wp_perform. intros [err|] st' (st1 & Hst & ->); simpl in Hst.
  - subst. auto.
  - destruct Hst as [->|(o' & _ & Hf & ->)]; auto.
Qed.
End served_rules.

(** Operations that are not the API server's to store. *)
Lemma served_perform st (o : op) (Q : outcome (resp o) → store → Prop) :
  (∀ r st', step_ok st st' (Ev o r) → Q (Ret r) st') → served st (perform o) Q.
Proof. intros HQ Hk. apply wp_perform. intros r st' (st1 & Hst & ->). by apply HQ. Qed.

(** A retry loop whose attempts, when they fail, keep [I]. *)
Lemma served_attempts (I Q : store → Prop) fn n retriable st :
  (∀ st, I st → served st fn (λ o st', match o with
     | Ret (Some _) => I st' | Ret None => Q st' | Panic => False end)) →
  I st → served st (attempts n retriable fn) (λ o st', match o with
     | Ret (Some _) => I st' | Ret None => Q st' | Panic => False end).
Proof.
  intros Hfn. revert st. induction n as [|n IH]; intros st HI; simpl; apply served_bind;
    (eapply served_mono; [by apply Hfn|]); intros [[err|]|] st' H; try done;
    try (by apply served_ret).
  destruct (retriable err); [by apply IH|by apply served_ret].
Qed.
Lemma served_OnError `{KubeLibLaws} (I Q : store → Prop) fn retriable st :
  (∀ st, I st → served st fn (λ o st', match o with
     | Ret (Some _) => I st' | Ret None => Q st' | Panic => False end)) →
  I st → served st (OnError retriable fn) (λ o st', match o with
     | Ret (Some _) => I st' | Ret None => Q st' | Panic => False end).
Proof.
  intros Hfn HI Hk. destruct on_error_attempts as [n Hn].
  eapply wp_ext; [apply Hn|]. by apply served_attempts.
Qed.

(** The object updated is the stored one, as it was read. *)
Lemma same_finalizers st k key (o old u : kobj k) :
  keyed st → st k key = Some o → st k (okey k u) = Some old →
  meta_key (kmeta k u) = meta_key (kmeta k o) → om_Finalizers (kmeta k u) = om_Finalizers (kmeta k o) →
  om_Finalizers (kmeta k u) = om_Finalizers (kmeta k old).
Proof.
  intros Hk Ho Hold Hm ->. pose proof (keyed_key _ _ _ _ Hk Ho) as Hkey.
  unfold okey in *. rewrite Hm, Hkey, Ho in Hold. injection Hold as ->. done.
Qed.
Ltac same_finalizers :=
  match goal with
  | Hk : keyed ?st, Hget : ?st ?k ?key = Some ?o, Hold : ?st ?k (okey ?k ?u) = Some ?old |- _ =>
      exact (same_finalizers st k key o old u Hk Hget Hold eq_refl eq_refl)
  end.

Ltac served_step :=
  cbv beta zeta;
  lazymatch goal with
  | |- served _ (mret _) _ => apply served_ret
  | |- served _ (deref _) _ => apply served_deref
  | |- served _ (mbind _ _) _ => apply served_bind
  | |- served _ (match ?x with _ => _ end) _ => destruct x eqn:?
  | |- match ?x with _ => _ end => destruct x eqn:?
  | |- served _ (api_get local _ _) _ => apply served_get; [intros ?err ?Hnf|intros ?o ?Hget]
  | |- served _ now _ => apply served_now; intros ?n
  | |- served _ (emit _) _ => apply served_emit
  | |- served _ (perform _) _ =>
      apply served_perform; intros ?r ?st' ?Hserved; simpl in Hserved; subst
  | |- served _ (api_create _ _) _ =>
      apply served_create; [intros ?err|intros ?o ?Hfree ?Hmeta ?Hspec ?Hst]
  | |- served _ (api_update local _ _) _ =>
      apply served_update; [intros ?old ?Hkd ?Hold; try same_finalizers
                           |intros ?err|intros ?old ?o ?Hold ?Hmeta ?Huid ?Hspec ?Hst]
  | |- served _ (api_update_status _ _) _ =>
      apply served_update_status; [intros ?err|intros ?old ?o ?Hold ?Hmeta ?Huid ?Hspec ?Hst]
  | |- served _ (api_delete _ _ _) _ => apply served_delete; [intros ?err| |intros ?o ?Hfin]
  end.

(** ** An in-memory server *)

Definition api_err (r : StatusReason) (msg : string) : goerr :=
  {| err_reason := r; err_msg := msg |}.

Definition fresh_meta (m : ObjectMeta) : ObjectMeta := {| m with om_DeletionTimestamp := None |}.
Definition keep_uid (old m : ObjectMeta) : ObjectMeta :=
  {| m with om_UID := om_UID old; om_DeletionTimestamp := om_DeletionTimestamp old |}.

(** The object stored by [Create] of [o]. *)
Definition created (k : kind) : kobj k → kobj k :=
  match k with
  | KFailoverService => λ o, {| o with fs_meta := fresh_meta (fs_meta o) |}
  | KFailoverEvent => λ o, {| o with fe_meta := fresh_meta (fe_meta o);
                                     fe_status := empty_event_status |}
  | KService => λ o, {| o with svc_meta := fresh_meta (svc_meta o) |}
  | KEndpointSlice => λ o, {| o with eps_meta := fresh_meta (eps_meta o) |}
  | KConfigMap => λ o, {| o with cm_meta := fresh_meta (cm_meta o) |}
  | KSecret => λ o, {| o with sec_meta := fresh_meta (sec_meta o) |}
  | KJob => λ o, {| o with job_meta := fresh_meta (job_meta o); job_Conditions := [] |}
  | KDeployment | KStatefulSet => λ o, {| o with w_meta := fresh_meta (w_meta o) |}
  end.

(** The object stored by [Update] with [o] over [old]. *)
Definition updated (k : kind) : kobj k → kobj k → kobj k :=
  match k with
  | KFailoverService => λ old o,
      {| o with fs_meta := keep_uid (fs_meta old) (fs_meta o); fs_status := fs_status old |}
  | KFailoverEvent => λ old o,
      {| o with fe_meta := keep_uid (fe_meta old) (fe_meta o); fe_status := fe_status old |}
  | KService => λ old o, {| o with svc_meta := keep_uid (svc_meta old) (svc_meta o) |}
  | KEndpointSlice => λ old o, {| o with eps_meta := keep_uid (eps_meta old) (eps_meta o) |}
  | KConfigMap => λ old o, {| o with cm_meta := keep_uid (cm_meta old) (cm_meta o) |}
  | KSecret => λ old o, {| o with sec_meta := keep_uid (sec_meta old) (sec_meta o) |}
  | KJob => λ old o,
      {| o with job_meta := keep_uid (job_meta old) (job_meta o);
                job_Conditions := job_Conditions old |}
  | KDeployment | KStatefulSet => λ old o,
      {| old with w_meta := keep_uid (w_meta old) (w_meta o); w_Replicas := w_Replicas o |}
  end.

(** The object stored by [Status().Update] with [o] over [old]. *)
Definition status_updated (k : kind) : kobj k → kobj k → kobj k :=
  match k with
  | KFailoverService => λ old o, {| old with fs_status := trunc_status (fs_status o) |}
  | KFailoverEvent => λ old o, {| old with fe_status := trunc_event_status (fe_status o) |}
  | _ => λ old _, old
  end.

Definition sim_answer (aux : Env) (h : hist) (st : store) (o : op) : resp o :=
  match o as o return resp o with
  | Get t k key =>
      match t_site t with
      | Local => match st k key with
                 | Some o => inr o
                 | None => inl (api_err ReasonNotFound "not found")
                 end
      | Remote _ => aux h (Get t k key)
      end
  | Create k o =>
      match st k (okey k o) with
      | Some _ => inl (api_err ReasonAlreadyExists "already exists")
      | None => inr (created k o)
      end
  | Update t k o =>
      match t_site t with
      | Local => match st k (okey k o) with
                 | Some old => inr (updated k old o)
                 | None => inl (api_err ReasonNotFound "not found")
                 end
      | Remote _ => aux h (Update t k o)
      end
  | UpdateStatus k o =>
      match st k (okey k o) with
      | Some old => inr (status_updated k old o)
      | None => inl (api_err ReasonNotFound "not found")
      end
  | Delete k o _ =>
      match st k (okey k o) with
      | Some old =>
          if bool_decide (om_Finalizers (kmeta k old) = []) then None
          else Some (api_err ReasonConflict "the object has finalizers")
      | None => Some (api_err ReasonNotFound "not found")
      end
  | Range m => map_to_list m
  | o => aux h o
  end.

(** The store after an event. *)
Definition sim_apply (st : store) (e : event) : store :=
  match e with
  | Ev (Create k o) (inr o') => put st k (okey k o) (Some o')
  | Ev (Update t k o) (inr o') =>
      match t_site t with Local => put st k (okey k o) (stored_as k o') | Remote _ => st end
  | Ev (UpdateStatus k o) (inr o') => put st k (okey k o) (Some o')
  | Ev (Delete k o _) None => put st k (okey k o) None
  | _ => st
  end.
Definition replay (st : store) (h : hist) : store := foldl sim_apply st h.

(** The server started with [st0]; [aux] answers what is not its business. *)
Definition sim (aux : Env) (st0 : store) : Env :=
  λ h o, sim_answer aux h (replay st0 h) o.

(** Every answer in [t] is the one [E] gives. *)
Fixpoint legit (E : Env) (h : hist) (t : hist) : Prop :=
  match t with
  | [] => True
  | Ev o r :: t => r = E h o ∧ legit E (h ++ [Ev o r]) t
  end.

(** Decided, for the witnesses. *)
Fixpoint legitb (E : Env) (h : hist) (t : hist) : bool :=
  match t with
  | [] => true
  | Ev o r :: t => bool_decide (r = E h o) && legitb E (h ++ [Ev o r]) t
  end.
Lemma legitb_legit E t : ∀ h, legitb E h t = true → legit E h t.
Proof.
  induction t as [|[o r] t IH]; intros h; cbn; [done|].
  intros [Hr%bool_decide_eq_true Ht]%andb_prop. auto.
Qed.
Ltac check_legit := apply legitb_legit; vm_compute; reflexivity.

Lemma same_meta_refl m : same_meta m m.
Proof. by unfold same_meta. Qed.
Lemma same_spec_refl k (o : kobj k) : same_spec k o o.
Proof. by destruct k; cbn; auto. Qed.

Lemma created_ok k (o : kobj k) :
  same_meta (kmeta k o) (kmeta k (created k o))
  ∧ om_DeletionTimestamp (kmeta k (created k o)) = None ∧ same_spec k o (created k o)
  ∧ status_empty k (created k o).
Proof. destruct k; cbn; unfold same_meta; cbn; auto 20. Qed.

Lemma updated_ok k (old o : kobj k) :
  same_meta (kmeta k o) (kmeta k (updated k old o))
  ∧ same_life (kmeta k old) (kmeta k (updated k old o))
  ∧ same_spec k o (updated k old o) ∧ same_status k old (updated k old o).
Proof. destruct k; cbn; unfold same_meta, same_life, keep_uid; cbn; auto 20. Qed.

Lemma status_updated_ok k (old o : kobj k) :
  same_meta (kmeta k old) (kmeta k (status_updated k old o))
  ∧ same_life (kmeta k old) (kmeta k (status_updated k old o))
  ∧ same_spec k old (status_updated k old o) ∧ status_stored k o (status_updated k old o).
Proof. destruct k; cbn; unfold same_meta, same_life; cbn; auto 20. Qed.

Lemma sim_step_ok aux h st o :
  step_ok st (sim_apply st (Ev o (sim_answer aux h st o))) (Ev o (sim_answer aux h st o)).
Proof.
  destruct o; cbn; try done.
  - destruct (t_site t) eqn:Ht; cbn; [|done].
    split; [done|]. intros _. by destruct (st k key) eqn:Hk.
  - destruct (st k (okey k o)) eqn:Hk; cbn; [done|].
    destruct (created_ok k o) as (?&?&?&?). eauto 10.
  - destruct (t_site t) eqn:Ht; cbn; [|by destruct (aux h (Update t k o))].
    destruct (st k (okey k o)) as [old|] eqn:Hk; cbn; rewrite ?Ht; [|done].
    destruct (updated_ok k old o) as (?&?&?&?). exists old. eauto 10.
  - destruct (st k (okey k o)) as [old|] eqn:Hk; cbn; [|done].
    destruct (status_updated_ok k old o) as (?&?&?&?). exists old. eauto 10.
  - destruct (st k (okey k o)) as [old|]; cbn; [|done]. case_bool_decide; [by left|done].
Qed.

Lemma sim_serves aux st0 t : ∀ h,
  legit (sim aux st0) h t → serves (replay st0 h) t (replay st0 (h ++ t)).
Proof.
  induction t as [|[o r] t IH]; intros h; cbn.
  - intros _. by rewrite app_nil_r.
  - intros [-> Ht]. eexists. split; [apply sim_step_ok|].
    specialize (IH _ Ht). unfold replay in IH at 1. rewrite foldl_app in IH.
    by rewrite <- app_assoc in IH.
Qed.
