(* ===== verification/Decode.v ===== *)
(** * Decoding a response over an object

    A successful [Update] of the client decodes the response's JSON into the
    object that was sent.  The decoder only stores the members that are there:
    a field marked [omitempty] whose stored value is the zero value has no
    member, and keeps what it had in memory; a member under a pointer is
    written through the pointer; element [i] of an array is decoded over
    element [i] of the slice, if there is one.  The status the controller has
    in memory when it updates the object may differ from the one stored, which
    is the one that is answered; here is what it has afterwards.

    The server takes an update only against the resource version that was
    read, so the metadata and the specification of the answer are those of the
    request or those read before it; they are taken as they are answered. *)
From stdpp Require Import base gmap strings list numbers.
From S2P Require Import Prelude GoStd Types Kube ApiServer.

(** ** Members *)

Definition over_str (mem resp : string) : string := if decide (resp = "") then mem else resp.
Definition over_int (mem resp : Z) : Z := if decide (resp = 0%Z) then mem else resp.
Definition over_bool (mem resp : bool) : bool := if resp then resp else mem.
Definition over_phase (mem resp : FailoverPhase) : FailoverPhase :=
  if decide (phase_string resp = "") then mem else resp.

(** A pointer to a scalar; a pointer to a struct, of zero value [zero]. *)
Definition over_scalar {A} (mem resp : option A) : option A :=
  match resp with Some x => Some x | None => mem end.
Definition over_struct {A} (zero : A) (over : A → A → A) (mem resp : option A) : option A :=
  match resp with Some x => Some (over (default zero mem) x) | None => mem end.

(** A slice: the elements in memory are decoded over, the missing ones are
    decoded over the zero value. *)
Fixpoint over_elements {A} (zero : A) (over : A → A → A) (mem resp : list A) : list A :=
  match resp with
  | [] => []
  | x :: resp => over (default zero (head mem)) x :: over_elements zero over (tail mem) resp
  end.
Definition over_slice {A} (zero : A) (over : A → A → A) (mem resp : list A) : list A :=
  match resp with [] => mem | _ => over_elements zero over mem resp end.
Definition replaced {A} (mem resp : A) : A := resp.

(** ** The structs of the status *)

Definition over_ActionResult (mem resp : ActionResult) : ActionResult := {|
  ar_Name := ar_Name resp; ar_Status := ar_Status resp;
  ar_Message := over_str (ar_Message mem) (ar_Message resp);
  ar_StartedAt := over_scalar (ar_StartedAt mem) (ar_StartedAt resp);
  ar_CompletedAt := over_scalar (ar_CompletedAt mem) (ar_CompletedAt resp);
  ar_JobName := over_str (ar_JobName mem) (ar_JobName resp);
  ar_RetryCount := over_int (ar_RetryCount mem) (ar_RetryCount resp) |}.
Definition zero_ActionResult : ActionResult := {|
  ar_Name := ""; ar_Status := StatusOther ""; ar_Message := ""; ar_StartedAt := None;
  ar_CompletedAt := None; ar_JobName := ""; ar_RetryCount := 0 |}.

Definition over_ConnectionKill (mem resp : ConnectionKillStatus) : ConnectionKillStatus := {|
  ck_SignalSent := over_bool (ck_SignalSent mem) (ck_SignalSent resp);
  ck_KillToken := over_str (ck_KillToken mem) (ck_KillToken resp);
  ck_ExpectedNodes := over_slice "" replaced (ck_ExpectedNodes mem) (ck_ExpectedNodes resp);
  ck_AckedNodes := over_slice "" replaced (ck_AckedNodes mem) (ck_AckedNodes resp);
  ck_SignaledAt := over_scalar (ck_SignaledAt mem) (ck_SignaledAt resp) |}.
Definition zero_ConnectionKill : ConnectionKillStatus := {|
  ck_SignalSent := false; ck_KillToken := ""; ck_ExpectedNodes := []; ck_AckedNodes := [];
  ck_SignaledAt := None |}.

Definition over_Transition (mem resp : TransitionStatus) : TransitionStatus := {|
  ts_Phase := over_phase (ts_Phase mem) (ts_Phase resp);
  ts_TargetDirection := over_str (ts_TargetDirection mem) (ts_TargetDirection resp);
  ts_OldAddressSnapshot := over_str (ts_OldAddressSnapshot mem) (ts_OldAddressSnapshot resp);
  ts_NewAddressSnapshot := over_str (ts_NewAddressSnapshot mem) (ts_NewAddressSnapshot resp);
  ts_TransitionID := over_str (ts_TransitionID mem) (ts_TransitionID resp);
  ts_CurrentActionIndex := ts_CurrentActionIndex resp;
  ts_PreActionResults := over_slice zero_ActionResult over_ActionResult
                           (ts_PreActionResults mem) (ts_PreActionResults resp);
  ts_PostActionResults := over_slice zero_ActionResult over_ActionResult
                            (ts_PostActionResults mem) (ts_PostActionResults resp);
  ts_StartedAt := over_scalar (ts_StartedAt mem) (ts_StartedAt resp);
  ts_ConnectionKill := over_struct zero_ConnectionKill over_ConnectionKill
                         (ts_ConnectionKill mem) (ts_ConnectionKill resp);
  ts_EventName := over_str (ts_EventName mem) (ts_EventName resp) |}.
Definition zero_Transition : TransitionStatus := {|
  ts_Phase := PhaseIdle; ts_TargetDirection := ""; ts_OldAddressSnapshot := "";
  ts_NewAddressSnapshot := ""; ts_TransitionID := ""; ts_CurrentActionIndex := 0;
  ts_PreActionResults := []; ts_PostActionResults := []; ts_StartedAt := None;
  ts_ConnectionKill := None; ts_EventName := "" |}.

Definition over_RemoteState (mem resp : RemoteState) : RemoteState := {|
  rs_FailoverActive := over_bool (rs_FailoverActive mem) (rs_FailoverActive resp);
  rs_ActiveCluster := over_str (rs_ActiveCluster mem) (rs_ActiveCluster resp);
  rs_ActiveGeneration := over_int (rs_ActiveGeneration mem) (rs_ActiveGeneration resp);
  rs_LastSyncTime := over_scalar (rs_LastSyncTime mem) (rs_LastSyncTime resp);
  rs_ClusterID := over_str (rs_ClusterID mem) (rs_ClusterID resp);
  rs_SpecChangeTime := over_scalar (rs_SpecChangeTime mem) (rs_SpecChangeTime resp) |}.
Definition zero_RemoteState : RemoteState := {|
  rs_FailoverActive := false; rs_ActiveCluster := ""; rs_ActiveGeneration := 0;
  rs_LastSyncTime := None; rs_ClusterID := ""; rs_SpecChangeTime := None |}.

Definition over_ClusterStatus (mem resp : ClusterStatus) : ClusterStatus := {|
  cs_ClusterID := cs_ClusterID resp;
  cs_AppliedGeneration := over_int (cs_AppliedGeneration mem) (cs_AppliedGeneration resp);
  cs_LastAppliedTime := over_scalar (cs_LastAppliedTime mem) (cs_LastAppliedTime resp);
  cs_Phase := over_phase (cs_Phase mem) (cs_Phase resp) |}.
Definition zero_ClusterStatus : ClusterStatus := {|
  cs_ClusterID := ""; cs_AppliedGeneration := 0; cs_LastAppliedTime := None;
  cs_Phase := PhaseIdle |}.

(** [metav1.Condition]: only the observed generation is optional. *)
Definition over_Condition (mem resp : Condition) : Condition :=
  {| resp with c_ObservedGeneration := over_int (c_ObservedGeneration mem)
                                         (c_ObservedGeneration resp) |}.
Definition zero_Condition : Condition := {|
  c_Type := ""; c_Status := ""; c_ObservedGeneration := 0; c_LastTransitionTime := zero_time;
  c_Reason := ""; c_Message := "" |}.

Definition over_status (mem resp : FailoverServiceStatus) : FailoverServiceStatus := {|
  st_ObservedGeneration := over_int (st_ObservedGeneration mem) (st_ObservedGeneration resp);
  st_ActiveCluster := over_str (st_ActiveCluster mem) (st_ActiveCluster resp);
  st_ActiveGeneration := over_int (st_ActiveGeneration mem) (st_ActiveGeneration resp);
  st_LastTransitionTime := over_scalar (st_LastTransitionTime mem) (st_LastTransitionTime resp);
  st_LastKnownFailoverActive :=
    over_scalar (st_LastKnownFailoverActive mem) (st_LastKnownFailoverActive resp);
  st_SpecChangeTime := over_scalar (st_SpecChangeTime mem) (st_SpecChangeTime resp);
  st_Clusters := over_slice zero_ClusterStatus over_ClusterStatus
                   (st_Clusters mem) (st_Clusters resp);
  st_RemoteState := over_struct zero_RemoteState over_RemoteState
                      (st_RemoteState mem) (st_RemoteState resp);
  st_Transition := over_struct zero_Transition over_Transition
                     (st_Transition mem) (st_Transition resp);
  st_Conditions := over_slice zero_Condition over_Condition
                     (st_Conditions mem) (st_Conditions resp) |}.

(** The object after a successful write that answered [resp]. *)
Definition decode_over (mem resp : FailoverService) : FailoverService :=
  {| resp with fs_status := over_status (fs_status mem) (fs_status resp) |}.

(** ** Laws: a value decoded over itself, or over itself with its fractions of
    a second, is itself *)

Lemma over_str_same s : over_str s s = s.
Proof. unfold over_str. by case_decide. Qed.
Lemma over_int_same z : over_int z z = z.
Proof. unfold over_int. by case_decide. Qed.
Lemma over_bool_same b : over_bool b b = b.
Proof. by destruct b. Qed.
Lemma over_phase_same p : over_phase p p = p.
Proof. unfold over_phase. by case_decide. Qed.
Lemma over_scalar_same {A} (m : option A) : over_scalar m m = m.
Proof. by destruct m. Qed.
Lemma over_scalar_fmap {A} (f : A → A) m : over_scalar m (f <$> m) = f <$> m.
Proof. by destruct m. Qed.
Lemma over_struct_fmap {A} zero over (f : A → A) m :
  (∀ x, over x (f x) = f x) → over_struct zero over m (f <$> m) = f <$> m.
Proof. intros Hf. destruct m; simpl; by rewrite ?Hf. Qed.
Lemma over_slice_fmap {A} zero over (f : A → A) l :
  (∀ x, over x (f x) = f x) → over_slice zero over l (f <$> l) = f <$> l.
Proof.
  intros Hf. assert (He : ∀ l, over_elements zero over l (f <$> l) = f <$> l).
  { intros k. induction k as [|x k IH]; [done|]. rewrite fmap_cons. cbn. rewrite Hf. by f_equal. }
  specialize (He l). by destruct l.
Qed.
Lemma over_slice_replaced {A} (zero : A) l : over_slice zero replaced l l = l.
Proof. rewrite <- (list_fmap_id l) at 2. by rewrite over_slice_fmap, list_fmap_id. Qed.

Create Rewrite HintDb over.
#[local] Hint Rewrite over_str_same over_int_same over_bool_same over_phase_same
  @over_scalar_same @over_scalar_fmap @over_slice_replaced : over.

Lemma over_result_trunc x : over_ActionResult x (trunc_result x) = trunc_result x.
Proof. destruct x; unfold over_ActionResult; simpl; by autorewrite with over. Qed.
Lemma over_kill_trunc x : over_ConnectionKill x (trunc_kill x) = trunc_kill x.
Proof. destruct x; unfold over_ConnectionKill; simpl; by autorewrite with over. Qed.
Lemma over_transition_trunc x : over_Transition x (trunc_transition x) = trunc_transition x.
Proof.
  destruct x; unfold over_Transition; simpl; autorewrite with over.
  by rewrite !(over_slice_fmap _ _ _ _ over_result_trunc), (over_struct_fmap _ _ _ _ over_kill_trunc).
Qed.

Lemma over_status_trunc s : over_status s (trunc_status s) = trunc_status s.
Proof.
  destruct s; unfold over_status; simpl; autorewrite with over.
  rewrite (over_struct_fmap _ _ _ _ over_transition_trunc).
  rewrite over_struct_fmap by (intros []; unfold over_RemoteState; simpl; by autorewrite with over).
  rewrite over_slice_fmap by (intros []; unfold over_ClusterStatus; simpl; by autorewrite with over).
  rewrite over_slice_fmap by (intros []; unfold over_Condition; simpl; by autorewrite with over).
  reflexivity.
Qed.

Lemma over_struct_same {A} zero over (m : option A) :
  (∀ x, over x x = x) → over_struct zero over m m = m.
Proof. intros Hf. destruct m; simpl; by rewrite ?Hf. Qed.
Lemma over_slice_same {A} zero over (l : list A) :
  (∀ x, over x x = x) → over_slice zero over l l = l.
Proof. intros Hf. rewrite <- (list_fmap_id l) at 2. by rewrite over_slice_fmap, list_fmap_id. Qed.

Lemma over_result_same x : over_ActionResult x x = x.
Proof. destruct x; unfold over_ActionResult; simpl; by autorewrite with over. Qed.
Lemma over_kill_same x : over_ConnectionKill x x = x.
Proof. destruct x; unfold over_ConnectionKill; simpl; by autorewrite with over. Qed.
Lemma over_transition_same x : over_Transition x x = x.
Proof.
  destruct x; unfold over_Transition; simpl; autorewrite with over.
  by rewrite !(over_slice_same _ _ _ over_result_same), (over_struct_same _ _ _ over_kill_same).
Qed.
Lemma over_status_same s : over_status s s = s.
Proof.
  destruct s; unfold over_status; simpl; autorewrite with over.
  rewrite (over_struct_same _ _ _ over_transition_same).
  rewrite over_struct_same by (intros []; unfold over_RemoteState; simpl; by autorewrite with over).
  rewrite over_slice_same by (intros []; unfold over_ClusterStatus; simpl; by autorewrite with over).
  rewrite over_slice_same by (intros []; unfold over_Condition; simpl; by autorewrite with over).
  reflexivity.
Qed.

(** An object whose status is the stored one is the answer afterwards, and so
    is one whose status was just stored. *)
Lemma decode_over_stored mem resp : fs_status resp = fs_status mem → decode_over mem resp = resp.
Proof. intros Hs. unfold decode_over. rewrite Hs, over_status_same, <- Hs. by destruct resp. Qed.
Lemma decode_over_status mem resp :
  fs_status resp = trunc_status (fs_status mem) → decode_over mem resp = resp.
Proof. intros Hs. unfold decode_over. rewrite Hs, over_status_trunc, <- Hs. by destruct resp. Qed.

(** The direction and the remote state after the decode. *)
Lemma decode_over_lastknown mem resp :
  st_LastKnownFailoverActive (fs_status (decode_over mem resp))
  = match st_LastKnownFailoverActive (fs_status resp) with
    | Some b => Some b | None => st_LastKnownFailoverActive (fs_status mem) end.
Proof. done. Qed.
Lemma decode_over_remote mem resp rs :
  st_RemoteState (fs_status mem) = Some rs →
  st_RemoteState (fs_status (decode_over mem resp))
  = Some (from_option (over_RemoteState rs) rs (st_RemoteState (fs_status resp))).
Proof. intros Hm. simpl. rewrite Hm. by destruct (st_RemoteState (fs_status resp)). Qed.
Lemma decode_over_transition mem resp :
  st_Transition (fs_status mem) = st_Transition (fs_status resp) →
  st_Transition (fs_status (decode_over mem resp)) = st_Transition (fs_status resp).
Proof. intros Hm. simpl. rewrite Hm. apply over_struct_same, over_transition_same. Qed.
