(* ===== verification/Fixtures.v ===== *)
(** * Concrete instances for the witnesses

    [demo_lib] implements the third-party functions of [KubeLib] as documented
    and satisfies [KubeLibLaws]; [quiet] is an environment in which nothing
    exists and time advances by a second per operation; [demo_fs] is the
    FailoverService of the README's example. *)
From stdpp Require Import base gmap strings list numbers fin_maps.
From S2P Require Import Prelude GoStd Types Kube Logic ApiServer.

(** ** Third-party functions *)

Fixpoint demo_set_condition (cs : list Condition) (c : Condition) : list Condition :=
  match cs with
  | [] => [c]
  | c0 :: cs =>
      if decide (c_Type c0 = c_Type c) then
        {| c with c_LastTransitionTime :=
             if decide (c_Status c0 = c_Status c) then c_LastTransitionTime c0
             else c_LastTransitionTime c |} :: cs
      else c0 :: demo_set_condition cs c
  end.

Definition demo_controller_ref (m : ObjectMeta) : OwnerReference := {|
  or_APIVersion := "k8s-failover.zyno.io/v1alpha1"; or_Kind := "FailoverService";
  or_Name := om_Name m; or_UID := om_UID m; or_Controller := Some true;
  or_BlockOwnerDeletion := Some true |}.

#[export] Instance demo_lib : KubeLib := {
  SetStatusCondition := demo_set_condition;
  RemoveStatusCondition cs ty := filter (λ c, c_Type c ≠ ty) cs;
  NewControllerRef := demo_controller_ref;
  ContainsFinalizer m f := bool_decide (f ∈ om_Finalizers m);
  AddFinalizer m f := {| m with om_Finalizers := om_Finalizers m ++ [f] |};
  RemoveFinalizer m f := {| m with om_Finalizers := filter (λ x, x ≠ f) (om_Finalizers m) |};
  OnError := attempts 4;
}.

Lemma find_condition_cons c0 cs ty :
  find_condition (c0 :: cs) ty
  = if decide (c_Type c0 = ty) then Some c0 else find_condition cs ty.
Proof.
  unfold find_condition. simpl. destruct (decide (c_Type c0 = ty)); [done|].
  destruct (list_find _ cs) as [[i c]|]; done.
Qed.

#[export] Instance demo_lib_laws : KubeLibLaws.
Proof.
  split; simpl.
  - intros cs c. induction cs as [|c0 cs IH]; simpl.
    + exists c. rewrite find_condition_cons. by rewrite decide_True.
    + destruct (decide (c_Type c0 = c_Type c)) as [E|E]; rewrite find_condition_cons; simpl.
      * rewrite decide_True by done. by eexists.
      * by rewrite decide_False.
  - intros cs c ty Hne. induction cs as [|c0 cs IH]; simpl.
    + rewrite find_condition_cons. by rewrite decide_False.
    + destruct (decide (c_Type c0 = c_Type c)) as [E|E]; rewrite !find_condition_cons; simpl.
      * rewrite !decide_False; congruence.
      * by rewrite IH.
  - intros cs ty. induction cs as [|c0 cs IH]; [done|].
    rewrite filter_cons. case_decide; [|done]. rewrite find_condition_cons.
    by rewrite decide_False.
  - intros cs ty ty' Hne. induction cs as [|c0 cs IH]; [done|].
    rewrite filter_cons. case_decide; rewrite !find_condition_cons; [by rewrite IH|].
    rewrite decide_False by congruence. done.
  - done.
  - intros m f. apply bool_decide_eq_true. simpl. set_solver.
  - intros m f. apply bool_decide_eq_false. simpl. intros [? _]%list_elem_of_filter. done.
  - intros m f. by eexists.
  - intros m f. by eexists.
  - by exists 4.
Qed.

(** ** An environment *)

Definition no_such : goerr := api_err ReasonNotFound "not found".
Definition quiet : Env := λ h o,
  match o as o return resp o with
  | Now => (Z.of_nat (length h) * Second)%Z
  | Range m => map_to_list m
  | Get _ _ _ | Create _ _ | Update _ _ _ | UpdateStatus _ _ => inl no_such
  | Delete _ _ _ | ScaleUpdate _ _ _ => Some no_such
  | NewRequest _ _ => None
  | ListEvents _ _ => inr []
  | ListPods _ _ => inr []
  | ListNodes _ => inr []
  | ScaleGet _ _ => inl no_such
  | HTTPDo _ _ => inr 200%Z
  | RESTConfigFromKubeConfig d => inr {| rc_data := d; rc_Timeout := 0; rc_DialTimeout := None |}
  | NewClient _ | NewDynamic _ => inr (length h)
  | Metric _ | Close _ | StopWatch _ | QueueAdd _ => tt
  | CtxErr => None
  | OtherCalls => []
  | Sleep _ => false
  | Wait _ => Closed
  | WaitOrTick _ _ => Some Closed
  | WatchConfigMap _ _ | NewRetryWatcher _ _ => inr (length h)
  | ListRemote _ _ => inr ("1", [])
  | ReadDirProc => inr []
  | StatInode _ => inl no_such
  | Open _ | NetlinkSocket => inr 3%Z
  | Setns _ | Bind _ | Write _ _ | SetRecvTimeout _ _ => None
  | Recvfrom _ _ => inl no_such
  end.

(** ** The README's FailoverService *)

Definition demo_meta : ObjectMeta :=
  {| (new_meta "mysql-failover" "default") with
     om_UID := "7f1c"; om_Generation := 3;
     om_Finalizers := ["k8s-failover.zyno.io/finalizer"];
     om_Annotations := Some {[ "k8s-failover.zyno.io/cluster-id" := "us-east-1" ]} |}.

Definition demo_spec (active : bool) : FailoverServiceSpec := {|
  sp_ServiceName := "mysql-dns-alias";
  sp_Ports := [{| p_Name := "mysql"; p_Port := 3306; p_Protocol := "" |}];
  sp_FailoverActive := active;
  sp_PrimaryCluster := {|
    ct_PrimaryModeAddress := "mysql-primary.mysql.svc.cluster.local";
    ct_FailoverModeAddress := "192.168.50.60";
    ct_OnFailover := None; ct_OnFailback := None |};
  sp_FailoverCluster := {|
    ct_PrimaryModeAddress := "10.20.30.40";
    ct_FailoverModeAddress := "mysql-failover.mysql.svc.cluster.local";
    ct_OnFailover := None; ct_OnFailback := None |} |}.

Definition demo_status : FailoverServiceStatus := {|
  st_ObservedGeneration := 3; st_ActiveCluster := "us-east-1"; st_ActiveGeneration := 1;
  st_LastTransitionTime := None; st_LastKnownFailoverActive := Some false;
  st_SpecChangeTime := None; st_Clusters := []; st_RemoteState := None;
  st_Transition := None; st_Conditions := [] |}.

Definition demo_fs (active : bool) : FailoverService :=
  {| fs_meta := demo_meta; fs_spec := demo_spec active; fs_status := demo_status |}.

Definition empty_store : store := λ _ _, None.
Lemma empty_store_keyed : keyed empty_store.
Proof. done. Qed.

(** The value of a computation that returned. *)
Definition value {A} (d : A) (o : outcome A) : A := match o with Ret a => a | Panic => d end.
Definition returned {A} (o : outcome A) : bool := match o with Ret _ => true | Panic => false end.
Lemma returned_value {A} (d : A) (o : outcome A) : returned o = true → o = Ret (value d o).
Proof. by destruct o. Qed.
