(* ===== verification/ServiceManager.v ===== *)
(** * The service manager ([src/internal/service/manager.go])

    The managed Service and its EndpointSlice: address selection and the
    reconciliation of the two objects with a target address. *)
From stdpp Require Import base gmap strings list numbers.
From S2P Require Import Prelude GoStd GoNetIP Types Kube Logic ApiServer Fixtures.

Record Manager := { m_ClusterRole : string }.

Section service.
  Context `{KubeLib}.

Definition ResolveActiveAddressWithDirection (m : Manager) (fs : FailoverService)
    (failoverActive : bool) : string :=
  let target :=
    if decide (m_ClusterRole m = "primary") then sp_PrimaryCluster (fs_spec fs)
    else sp_FailoverCluster (fs_spec fs) in
  if failoverActive then ct_FailoverModeAddress target else ct_PrimaryModeAddress target.

Definition ResolveActiveAddress (m : Manager) (fs : FailoverService) : string :=
  ResolveActiveAddressWithDirection m fs (sp_FailoverActive (fs_spec fs)).

Definition svc_key (fs : FailoverService) : NamespacedName :=
  {| nn_Name := sp_ServiceName (fs_spec fs); nn_Namespace := om_Namespace (fs_meta fs) |}.
Definition slice_key (fs : FailoverService) : NamespacedName :=
  {| nn_Name := sp_ServiceName (fs_spec fs) +:+ "-failover";
     nn_Namespace := om_Namespace (fs_meta fs) |}.

Definition isOwnedBy (refs : list OwnerReference) (fs : FailoverService) : bool :=
  existsb (λ ref, bool_decide (or_UID ref = om_UID (fs_meta fs))) refs.

Definition managed_by_label : gmap string string :=
  {[ "app.kubernetes.io/managed-by" := "k8s-failover-manager" ]}.

(** The metadata of a managed object. *)
Definition managed_meta (fs : FailoverService) (name : string) (labels : gmap string string)
    : ObjectMeta :=
  {| (new_meta name (om_Namespace (fs_meta fs))) with
     om_Labels := Some labels;
     om_OwnerReferences := [NewControllerRef (fs_meta fs)] |}.

Definition buildExternalNameService (fs : FailoverService) (dnsName : string) : Service := {|
  svc_meta := managed_meta fs (sp_ServiceName (fs_spec fs)) managed_by_label;
  svc_Type := ServiceTypeExternalName; svc_ExternalName := dnsName;
  svc_ClusterIP := ""; svc_Ports := [] |}.

(** The protocol of a port, TCP by default. *)
Definition port_protocol (p : Port) : string :=
  if decide (p_Protocol p = "") then ProtocolTCP else p_Protocol p.

Definition buildClusterIPService (fs : FailoverService) : Service := {|
  svc_meta := managed_meta fs (sp_ServiceName (fs_spec fs)) managed_by_label;
  svc_Type := ServiceTypeClusterIP; svc_ExternalName := ""; svc_ClusterIP := "";
  svc_Ports := (λ p, {| svp_Name := p_Name p; svp_Port := p_Port p;
                        svp_TargetPort := FromInt32 (p_Port p);
                        svp_Protocol := port_protocol p |}) <$> sp_Ports (fs_spec fs) |}.

Definition not_owned (what : string) (key : NamespacedName) (fs : FailoverService)
    (verb : string) : goerr :=
  Errorf (what +:+ " " +:+ nn_Namespace key +:+ "/" +:+ nn_Name key
    +:+ " exists but is not owned by FailoverService " +:+ om_Name (fs_meta fs)
    +:+ "; refusing to " +:+ verb).

Definition address_type (ip : string) : string :=
  match ParseIP ip ≫= To4 with Some _ => AddressTypeIPv4 | None => AddressTypeIPv6 end.

(** The EndpointSlice [reconcileEndpointSlice] wants. *)
Definition desired_slice (fs : FailoverService) (ip : string) : EndpointSlice := {|
  eps_meta := managed_meta fs (nn_Name (slice_key fs))
    {[ LabelServiceName := sp_ServiceName (fs_spec fs);
       "endpointslice.kubernetes.io/managed-by" := "k8s-failover-manager.zyno.io";
       "app.kubernetes.io/managed-by" := "k8s-failover-manager" ]};
  eps_AddressType := address_type ip;
  eps_Endpoints := [{| e_Addresses := [ip]; e_Ready := Some true |}];
  eps_Ports := (λ p, {| ep_Name := Some (p_Name p); ep_Port := Some (p_Port p);
                        ep_Protocol := Some (port_protocol p) |}) <$> sp_Ports (fs_spec fs) |}.

Definition reconcileEndpointSlice (fs : FailoverService) (ip : string) : IO error :=
  let desired := desired_slice fs ip in
  r ← api_get local KEndpointSlice (slice_key fs);
  match r with
  | inl err =>
      if IsNotFound err then r ← api_create KEndpointSlice desired; mret (err_of r)
      else mret (Some (wrapf "getting endpoint slice" err))
  | inr existing =>
      if negb (isOwnedBy (om_OwnerReferences (eps_meta existing)) fs) then
        mret (Some (not_owned "endpointslice" (slice_key fs) fs "modify"))
      else
        let existing := {|
          eps_meta := {| (eps_meta existing) with
                         om_Labels := om_Labels (eps_meta desired);
                         om_OwnerReferences := om_OwnerReferences (eps_meta desired) |};
          eps_AddressType := eps_AddressType desired;
          eps_Endpoints := eps_Endpoints desired;
          eps_Ports := eps_Ports desired |} in
        r ← api_update local KEndpointSlice existing; mret (err_of r)
  end.

Definition deleteEndpointSlice (fs : FailoverService) : IO error :=
  r ← api_get local KEndpointSlice (slice_key fs);
  match r with
  | inl err =>
      if IsNotFound err then mret None
      else mret (Some (wrapf "getting endpoint slice for deletion" err))
  | inr existing =>
      if negb (isOwnedBy (om_OwnerReferences (eps_meta existing)) fs) then
        mret (Some (not_owned "endpointslice" (slice_key fs) fs "delete"))
      else api_delete KEndpointSlice existing None
  end.

Definition reconcileExternalNameService (fs : FailoverService) (dnsName : string) : IO error :=
  r ← api_get local KService (svc_key fs);
  let desired := buildExternalNameService fs dnsName in
  match r with
  | inl err =>
      if negb (IsNotFound err) then mret (Some (wrapf "getting service" err))
      else r ← api_create KService desired; mret (err_of r)
  | inr existing =>
      if negb (isOwnedBy (om_OwnerReferences (svc_meta existing)) fs) then
        mret (Some (not_owned "service" (svc_key fs) fs "modify"))
      else if decide (svc_Type existing = ServiceTypeExternalName) then
        if decide (svc_ExternalName existing = dnsName) then mret None
        else
          let existing := {| existing with svc_ExternalName := dnsName; svc_Ports := [] |} in
          r ← api_update local KService existing; mret (err_of r)
      else
        e ← deleteEndpointSlice fs;
        match e with
        | Some err => mret (Some err)
        | None =>
            e ← api_delete KService existing None;
            match e with
            | Some err => mret (Some (wrapf "deleting old service" err))
            | None => r ← api_create KService desired; mret (err_of r)
            end
        end
  end.

Definition reconcileClusterIPService (fs : FailoverService) (ip : string) : IO error :=
  r ← api_get local KService (svc_key fs);
  let desired := buildClusterIPService fs in
  match r with
  | inl err =>
      if negb (IsNotFound err) then mret (Some (wrapf "getting service" err))
      else
        r ← api_create KService desired;
        match r with
        | inl err => mret (Some err)
        | inr _ => reconcileEndpointSlice fs ip
        end
  | inr existing =>
      if negb (isOwnedBy (om_OwnerReferences (svc_meta existing)) fs) then
        mret (Some (not_owned "service" (svc_key fs) fs "modify"))
      else if decide (svc_Type existing = ServiceTypeExternalName) then
        e ← api_delete KService existing None;
        match e with
        | Some err => mret (Some (wrapf "deleting old service" err))
        | None =>
            r ← api_create KService desired;
            match r with
            | inl err => mret (Some err)
            | inr _ => reconcileEndpointSlice fs ip
            end
        end
      else
        let existing := {|
          svc_meta := {| (svc_meta existing) with
                         om_OwnerReferences := om_OwnerReferences (svc_meta desired) |};
          svc_Type := svc_Type existing; svc_ExternalName := svc_ExternalName existing;
          svc_ClusterIP := svc_ClusterIP existing; svc_Ports := svc_Ports desired |} in
        r ← api_update local KService existing;
        match r with
        | inl err => mret (Some (wrapf "updating service" err))
        | inr _ => reconcileEndpointSlice fs ip
        end
  end.

Definition ReconcileWithAddress (fs : FailoverService) (address : string) : IO error :=
  match ParseIP address with
  | Some _ => reconcileClusterIPService fs address
  | None => reconcileExternalNameService fs address
  end.

Definition ReconcileWithDirection (m : Manager) (fs : FailoverService) (failoverActive : bool)
    : IO error :=
  ReconcileWithAddress fs (ResolveActiveAddressWithDirection m fs failoverActive).

Definition Reconcile (m : Manager) (fs : FailoverService) : IO error :=
  ReconcileWithDirection m fs (sp_FailoverActive (fs_spec fs)).

(** ** Specification

    [routes st fs address]: the stored objects send the service's traffic to
    [address], an ExternalName service for a DNS name, a service with an
    EndpointSlice for an IP address. *)

(** The ports of the stored objects, against those of the specification. *)
Definition protocol_or_tcp (p : Port) : string := if String.eqb (p_Protocol p) "" then "TCP" else p_Protocol p.
Definition serves_port (p : Port) (x : ServicePort) : Prop :=
  svp_Name x = p_Name p ∧ svp_Port x = p_Port p ∧ svp_TargetPort x = FromInt32 (p_Port p)
  ∧ svp_Protocol x = protocol_or_tcp p.
Definition endpoint_port (p : Port) (x : EndpointPort) : Prop :=
  ep_Name x = Some (p_Name p) ∧ ep_Port x = Some (p_Port p)
  ∧ ep_Protocol x = Some (protocol_or_tcp p).

Definition slice_routes (st : store) (fs : FailoverService) (address : string) : Prop :=
  ∃ sl, st KEndpointSlice (slice_key fs) = Some sl
    ∧ mget (om_Labels (eps_meta sl)) "kubernetes.io/service-name" = Some (sp_ServiceName (fs_spec fs))
    ∧ eps_AddressType sl = address_type address
    ∧ eps_Endpoints sl = [{| e_Addresses := [address]; e_Ready := Some true |}]
    ∧ Forall2 endpoint_port (sp_Ports (fs_spec fs)) (eps_Ports sl).

Definition routes (st : store) (fs : FailoverService) (address : string) : Prop :=
  ∃ svc, st KService (svc_key fs) = Some svc ∧
    match ParseIP address with
    | None => svc_Type svc = ServiceTypeExternalName ∧ svc_ExternalName svc = address
    | Some _ => svc_Type svc ≠ ServiceTypeExternalName
        ∧ Forall2 serves_port (sp_Ports (fs_spec fs)) (svc_Ports svc) ∧ slice_routes st fs address
    end.

Lemma port_protocol_spec p : port_protocol p = protocol_or_tcp p.
Proof.
  unfold port_protocol, protocol_or_tcp. destruct (String.eqb_spec (p_Protocol p) "");
    by case_decide.
Qed.
Lemma desired_slice_ports fs ip :
  Forall2 endpoint_port (sp_Ports (fs_spec fs)) (eps_Ports (desired_slice fs ip)).
Proof.
  simpl. induction (sp_Ports (fs_spec fs)) as [|p l IH]; simpl; constructor; [|done].
  split; [done|]. split; [done|]. simpl. by rewrite port_protocol_spec.
Qed.
Lemma desired_service_ports fs :
  Forall2 serves_port (sp_Ports (fs_spec fs)) (svc_Ports (buildClusterIPService fs)).
Proof.
  simpl. induction (sp_Ports (fs_spec fs)) as [|p l IH]; simpl; constructor; [|done].
  do 3 (split; [done|]). simpl. by rewrite port_protocol_spec.
Qed.
Lemma desired_slice_label fs ip :
  mget (om_Labels (eps_meta (desired_slice fs ip))) "kubernetes.io/service-name"
  = Some (sp_ServiceName (fs_spec fs)).
Proof. apply lookup_insert_eq. Qed.

(** [reconcileEndpointSlice] leaves the services alone. *)
Lemma slice_routes_spec st fs ip :
  served st (reconcileEndpointSlice fs ip) (λ o st', o = Ret None →
    slice_routes st' fs ip ∧ ∀ key, st' KService key = st KService key).
Proof.
  apply served_keyed; intros Hk. unfold reconcileEndpointSlice.
  assert (Hroute : ∀ sl (st0 : store), st0 KEndpointSlice (slice_key fs) = Some sl →
    om_Labels (eps_meta sl) = om_Labels (eps_meta (desired_slice fs ip)) →
    eps_AddressType sl = address_type ip ∧ eps_Endpoints sl = eps_Endpoints (desired_slice fs ip)
      ∧ eps_Ports sl = eps_Ports (desired_slice fs ip) → slice_routes st0 fs ip).
  { intros sl st0 Hsl Hl (Ht & He & Hp). exists sl. split; [done|]. rewrite Hl, Hp.
    split; [apply desired_slice_label|]. split; [done|]. split; [done|apply desired_slice_ports]. }
  repeat served_step; try done; intros _.
  - destruct Hspec as (?&?&?), Hmeta as (_&_&Hl&_). split.
    + eapply Hroute; [apply (put_eq st KEndpointSlice)|done|done].
    + intros key. by rewrite put_ne by auto.
  - destruct Hspec as (?&?&?), Hmeta as (_&_&Hl&_). apply (keyed_key _ _ _ _ Hk) in Hget. split.
    + eapply Hroute; [rewrite <- Hget; apply (put_eq st KEndpointSlice)|done|done].
    + intros key. by rewrite put_ne by auto.
Qed.

Lemma deleteEndpointSlice_spec st fs :
  served st (deleteEndpointSlice fs) (λ o st', ∀ key, st' KService key = st KService key).
Proof.
  unfold deleteEndpointSlice. repeat served_step; try done; intros key; by rewrite put_ne by auto.
Qed.

(** The last step of the IP case: with the service in place, the slice
    completes the route. *)
Lemma slice_completes_route (st : store) fs ip svc :
  st KService (svc_key fs) = Some svc → svc_Type svc ≠ ServiceTypeExternalName →
  svc_Ports svc = svc_Ports (buildClusterIPService fs) → is_Some (ParseIP ip) →
  served st (reconcileEndpointSlice fs ip) (λ o st', o = Ret None → routes st' fs ip).
Proof.
  intros Hsvc Hty Hp [b Hip]. eapply served_mono; [apply slice_routes_spec|].
  intros o st' H' Ho. destruct (H' Ho) as [Hsl Hsame]. exists svc. rewrite Hsame, Hip.
  split; [done|]. split; [done|]. rewrite Hp. split; [apply desired_service_ports|done].
Qed.

(** A service that is only marked as deleted is still in the way. *)
Lemma marked_not_free (st : store) (o o' d : Service) fs :
  keyed st → st KService (svc_key fs) = Some o →
  put st KService (okey KService o) (Some o') KService (okey KService d) = None →
  okey KService d ≠ svc_key fs.
Proof.
  intros Hk Hget Hfree Hd. rewrite Hd, (keyed_key _ _ _ _ Hk Hget), (put_eq st KService) in Hfree.
  discriminate.
Qed.

Lemma reconcileClusterIPService_routes st fs ip :
  is_Some (ParseIP ip) →
  served st (reconcileClusterIPService fs ip) (λ o st', o = Ret None → routes st' fs ip).
Proof.
  intros Hip. apply served_keyed; intros Hk. unfold reconcileClusterIPService.
  assert (Hty : ServiceTypeClusterIP ≠ ServiceTypeExternalName) by done.
  repeat served_step; try done.
  - destruct Hspec as (?&_&?). eapply slice_completes_route; [apply (put_eq st KService)| | |done]; simpl in *; congruence.
  - destruct Hspec as (?&_&?). eapply slice_completes_route; [apply (put_eq _ KService)| | |done]; simpl in *; congruence.
  - by destruct (marked_not_free _ _ _ _ _ Hk Hget Hfree).
  - destruct Hspec as (Ht&_&Hp). apply (keyed_key _ _ _ _ Hk) in Hget.
    eapply slice_completes_route; [rewrite <- Hget; apply (put_eq st KService)| | |done];
      simpl in *; congruence.
Qed.

Lemma reconcileExternalNameService_routes st fs dnsName :
  ParseIP dnsName = None →
  served st (reconcileExternalNameService fs dnsName)
    (λ o st', o = Ret None → routes st' fs dnsName).
Proof.
  intros Hip. apply served_keyed; intros Hk. unfold reconcileExternalNameService, routes.
  rewrite Hip. repeat served_step; try done.
  - intros _. destruct Hspec as (?&?&_). eexists; split; [apply (put_eq st KService)|done].
  - intros _. eexists; split; [exact Hget|done].
  - intros _. destruct Hspec as (?&?&_). apply (keyed_key _ _ _ _ Hk) in Hget.
    eexists; rewrite <- Hget; split; [apply (put_eq st KService)|]. simpl in *. split; congruence.
  - eapply served_mono; [apply deleteEndpointSlice_spec|].
    intros [[err|]|] st1 Hsame; repeat served_step; try done.
    all: intros _; destruct Hspec as (?&?&_).
    all: eexists; split; [apply (put_eq _ KService)|done].
Qed.

Lemma ReconcileWithAddress_served st fs address :
  served st (ReconcileWithAddress fs address) (λ o st', o = Ret None → routes st' fs address).
Proof.
  unfold ReconcileWithAddress. destruct (ParseIP address) eqn:Hip.
  - apply reconcileClusterIPService_routes. by rewrite Hip.
  - by apply reconcileExternalNameService_routes.
Qed.

(** ** Events

    The manager only touches services and endpoint slices. *)
Definition service_event (e : event) : Prop :=
  match e with
  | Ev (Get _ _ _) _ => True
  | Ev (Create k _) _ | Ev (Delete k _ _) _ => k = KService ∨ k = KEndpointSlice
  | Ev (Update t k _) _ => t_site t = Local ∧ (k = KService ∨ k = KEndpointSlice)
  | _ => False
  end.

(** The manager never panics. *)
Lemma ReconcileWithAddress_safe fs address :
  rg (λ _, True) service_event (ReconcileWithAddress fs address) (λ _, True).
Proof.
  unfold ReconcileWithAddress, reconcileClusterIPService, reconcileExternalNameService,
    reconcileEndpointSlice, deleteEndpointSlice.
  repeat rg_step; simpl; auto.
Qed.

(** ** Ownership

    An update or a deletion is [guarded] when the object it targets was read
    earlier in the same run, was then owned by the FailoverService, and is
    written back under the same identity and resource version. *)
Definition read_owned (fs : FailoverService) (seen : hist) (k : kind) (o : kobj k) : Prop :=
  ∃ key o0, Ev (Get local k key) (inr o0) ∈ seen
    ∧ isOwnedBy (om_OwnerReferences (kmeta k o0)) fs = true
    ∧ okey k o = okey k o0 ∧ om_UID (kmeta k o) = om_UID (kmeta k o0)
    ∧ om_ResourceVersion (kmeta k o) = om_ResourceVersion (kmeta k o0).

Fixpoint guarded (fs : FailoverService) (seen t : hist) : Prop :=
  match t with
  | [] => True
  | e :: t =>
      match e with
      | Ev (Update _ k o) _ => read_owned fs seen k o
      | Ev (Delete k o _) _ => read_owned fs seen k o
      | _ => True
      end ∧ guarded fs (e :: seen) t
  end.

Lemma guarded_app fs t1 t2 : ∀ seen,
  guarded fs seen t1 → guarded fs (rev t1 ++ seen) t2 → guarded fs seen (t1 ++ t2).
Proof.
  induction t1 as [|e t1 IH]; simpl; intros seen H1 H2; [done|].
  destruct H1. split; [done|]. apply IH; [done|]. by rewrite <- app_assoc in H2.
Qed.

Lemma read_owned_here fs seen k key (o o0 : kobj k) :
  Ev (Get local k key) (inr o0) ∈ seen →
  negb (isOwnedBy (om_OwnerReferences (kmeta k o0)) fs) = false →
  kmeta k o = kmeta k o0 ∨
    okey k o = okey k o0 ∧ om_UID (kmeta k o) = om_UID (kmeta k o0)
    ∧ om_ResourceVersion (kmeta k o) = om_ResourceVersion (kmeta k o0) →
  read_owned fs seen k o.
Proof.
  intros Hin Ho%negb_false_iff Hm. exists key, o0. unfold okey in *.
  destruct Hm as [Hm|(?&?&?)]; [rewrite Hm|]; auto.
Qed.

Ltac guard_all := repeat wp_step; simpl; repeat split; try done;
  eapply read_owned_here; [repeat constructor|done|auto].

Lemma reconcileEndpointSlice_guarded fs ip seen :
  wp (reconcileEndpointSlice fs ip) (λ _ t, guarded fs seen t).
Proof. unfold reconcileEndpointSlice. guard_all. Qed.
Lemma deleteEndpointSlice_guarded fs seen :
  wp (deleteEndpointSlice fs) (λ _ t, guarded fs seen t).
Proof. unfold deleteEndpointSlice. guard_all. Qed.


(** C32: the manager only updates or deletes objects it has just read and found
    owned by the FailoverService (its UID among their owner references), and
    writes them back under the UID and resource version it read: another
    controller's service is never taken over. *)
Theorem ReconcileWithAddress_guarded fs address E h :
  guarded fs [] (ReconcileWithAddress fs address E h).2.
Proof.
  revert E h. change (wp (ReconcileWithAddress fs address) (λ _ t, guarded fs [] t)).
  unfold ReconcileWithAddress, reconcileClusterIPService, reconcileExternalNameService.
  repeat wp_step; simpl; repeat split; try done.
  all: try apply reconcileEndpointSlice_guarded.
  all: try (eapply read_owned_here; [repeat constructor|done|auto]; fail).
  eapply wp_mono; [apply deleteEndpointSlice_guarded|].
  intros [[err|]|] t Ht; [wp_step; split; [done|]; by rewrite app_nil_r| |done].
  repeat wp_step; (split; [done|]); apply guarded_app; try done; simpl; repeat split.
  all: eapply read_owned_here; [|done|by left]; apply elem_of_app; right; repeat constructor.
Qed.

(** C33: a service of the wanted name that another owner holds is left alone:
    the reconcile fails after the one read. *)
Theorem foreign_service_refused fs address svc (E : Env) h :
  E h (Get local KService (svc_key fs)) = inr svc →
  isOwnedBy (om_OwnerReferences (svc_meta svc)) fs = false →
  ReconcileWithAddress fs address E h
  = (Ret (Some (not_owned "service" (svc_key fs) fs "modify")),
     [Ev (Get local KService (svc_key fs)) (inr svc)]).
Proof.
  intros Hget Ho. unfold ReconcileWithAddress, reconcileClusterIPService,
    reconcileExternalNameService, api_get, perform, mbind, IO_bind.
  destruct (ParseIP address); rewrite Hget, Ho; done.
Qed.

(** C31: once the manager reports success, the stored objects send the
    service's traffic to [address]: an ExternalName service for a DNS name; for
    an IP address a service with the spec's ports and an EndpointSlice whose
    one endpoint is the address.  This holds from every stored state, the
    migrations between the two shapes included. *)
Theorem ReconcileWithAddress_routes fs address E h (st st' : store) :
  keyed st → serves st (ReconcileWithAddress fs address E h).2 st' →
  (ReconcileWithAddress fs address E h).1 = Ret None → routes st' fs address.
Proof. intros Hk. by apply ReconcileWithAddress_served. Qed.

End service.

(** ** Witnesses *)

(** The demo service as a cluster-IP service with its slice. *)
Definition demo_ip_store : store :=
  put (put empty_store KService (svc_key (demo_fs true))
         (Some {| (buildClusterIPService (demo_fs true)) with svc_ClusterIP := "10.43.0.7" |}))
    KEndpointSlice (slice_key (demo_fs true))
    (Some (desired_slice (demo_fs true) "192.168.50.60")).

Lemma demo_ip_store_keyed : keyed demo_ip_store.
Proof. unfold demo_ip_store. repeat apply keyed_put; try done. Qed.

(** The failback of the demo service: from the IP address to the DNS name. *)
Lemma ReconcileWithAddress_routes_witness :
  ∃ st', routes st' (demo_fs true) "mysql-primary.mysql.svc.cluster.local".
Proof.
  eexists.
  eapply (ReconcileWithAddress_routes (demo_fs true) "mysql-primary.mysql.svc.cluster.local"
    (sim quiet demo_ip_store) [] demo_ip_store).
  - exact demo_ip_store_keyed.
  - apply (sim_serves quiet demo_ip_store _ []). check_legit.
  - vm_compute. reflexivity.
Defined.

Lemma foreign_service_refused_witness :
  (ReconcileWithAddress (demo_fs true) "10.0.0.1"
    (sim quiet (put empty_store KService (svc_key (demo_fs true))
      (Some {| (buildClusterIPService (demo_fs true)) with
               svc_meta := new_meta "mysql-dns-alias" "default" |}))) []).2 ≠ [].
Proof.
  erewrite (foreign_service_refused (demo_fs true)); [discriminate| |]; vm_compute; reflexivity.
Defined.
