(* ===== verification/Actions.v ===== *)
(** * The action executors ([src/internal/action])

    The dispatcher ([executor.go]) and the executors for HTTP requests, jobs,
    scaling and readiness.  An executor answers an error (retried by the
    controller) or a [Result]. *)
From stdpp Require Import base gmap strings list numbers.
From S2P Require Import Prelude GoStd Types Kube Logic ApiServer Fixtures.

(** ** executor.go *)

(** The values the controller attaches to the context. *)
Record Ctx := {
  ctx_OwnerRef : option OwnerReference;
  ctx_TransitionStartedAt : option time;
  ctx_TransitionDirection : option string }.

Record Result := {
  Completed : bool; Succeeded : bool; Message : string; JobName : string }.

Definition done_ (succeeded : bool) (msg : string) : Result :=
  {| Completed := true; Succeeded := succeeded; Message := msg; JobName := "" |}.
Definition running (msg : string) : Result :=
  {| Completed := false; Succeeded := false; Message := msg; JobName := "" |}.

(** The [Executor] interface: context, action, namespace, name prefix, index. *)
Definition Executor : Type :=
  Ctx → FailoverAction → string → string → Z → IO (goerr + Result).
Definition CleanupExecutor : Type := string → string → IO error.

(** A nil executor is [None]. *)
Record MultiExecutor := {
  me_HTTP : option Executor; me_Job : option (Executor * CleanupExecutor);
  me_Scale : option Executor; me_WaitReady : option Executor;
  me_WaitRemote : option Executor }.

Definition not_configured (action : FailoverAction) (ty : string) : goerr :=
  Errorf ("action " +:+ fmt_q (fa_Name action) +:+ ": " +:+ ty +:+ " executor not configured").

Definition MultiExecutor_Execute (m : MultiExecutor) : Executor :=
  λ ctx action namespace namePrefix actionIndex,
  let run ty (e : option Executor) :=
    match e with
    | None => mret (inl (not_configured action ty))
    | Some e => e ctx action namespace namePrefix actionIndex
    end in
  if fa_HTTP action is Some _ then run "HTTP" (me_HTTP m)
  else if fa_Job action is Some _ then run "Job" (fst <$> me_Job m)
  else if fa_Scale action is Some _ then run "Scale" (me_Scale m)
  else if fa_WaitReady action is Some _ then run "WaitReady" (me_WaitReady m)
  else if fa_WaitRemote action is Some _ then run "WaitRemote" (me_WaitRemote m)
  else mret (inl (Errorf ("action " +:+ fmt_q (fa_Name action) +:+ " has no executor type set"))).

Definition MultiExecutor_Cleanup (m : MultiExecutor) : CleanupExecutor := λ jobName namespace,
  match me_Job m with
  | None => mret (Some (Errorf ("cannot cleanup job " +:+ fmt_q jobName
                                +:+ ": Job executor not configured")))
  | Some (_, cleanup) => cleanup jobName namespace
  end.

(** ** http.go *)

Definition defaultHTTPTimeout : Z := 30 * Second.

(** [time.Duration(s) * time.Second], in 64 bits. *)
Definition seconds (s : Z) : Z := i64 (s * Second).

(** The headers are the [Header.Set] calls in the order of the map iteration. *)
Definition HTTPExecutor_Execute : Executor := λ ctx action namespace namePrefix actionIndex,
  spec ← deref (fa_HTTP action);
  let method := if decide (ha_Method spec = "") then "GET" else ha_Method spec in
  let timeout := match ha_TimeoutSeconds spec with
                 | Some s => seconds s
                 | None => defaultHTTPTimeout
                 end in
  e ← perform (NewRequest method (ha_URL spec));
  match e with
  | Some err => mret (inr (done_ false ("building request: " +:+ err_msg err)))
  | None =>
      headers ← perform (Range (ha_Headers spec));
      r ← perform (HTTPDo timeout {| rq_Method := method; rq_URL := ha_URL spec;
                                     rq_Body := ha_Body spec; rq_Headers := headers |});
      match r with
      | inl err => mret (inl (wrapf "request failed" err))
      | inr code =>
          if (200 <=? code)%Z && (code <? 300)%Z
          then mret (inr (done_ true ("HTTP " +:+ itoa code)))
          else mret (inr (done_ false ("HTTP " +:+ itoa code)))
      end
  end.

(** ** waitready.go *)

Definition not_found (ty name : string) : Result := done_ false (ty +:+ " " +:+ name +:+ " not found").

(** The replicas a workload wants. *)
Definition desired_replicas (w : Workload) : Z :=
  match w_Replicas w with Some n => n | None => 1 end.

Definition replica_counts (w : Workload) (desired : Z) : string :=
  "(" +:+ itoa (w_ReadyReplicas w) +:+ "/" +:+ itoa desired +:+ ")".

Definition checkDeployment (key : NamespacedName) : IO (goerr + Result) :=
  r ← api_get local KDeployment key;
  match r with
  | inl err =>
      if IsNotFound err then mret (inr (not_found "Deployment" (nn_Name key)))
      else mret (inl (wrapf ("getting deployment " +:+ nn_Name key) err))
  | inr dep =>
      let desired := desired_replicas dep in
      if (w_ReadyReplicas dep =? desired)%Z && (w_UpdatedReplicas dep =? desired)%Z
         && (w_AvailableReplicas dep =? desired)%Z
         && (w_ObservedGeneration dep =? om_Generation (w_meta dep))%Z
      then mret (inr (done_ true ("Deployment " +:+ nn_Name key +:+ " is ready "
                                  +:+ replica_counts dep desired)))
      else mret (inr (running ("Deployment " +:+ nn_Name key +:+ " not ready yet "
                               +:+ replica_counts dep desired)))
  end.

Definition checkStatefulSet (key : NamespacedName) : IO (goerr + Result) :=
  r ← api_get local KStatefulSet key;
  match r with
  | inl err =>
      if IsNotFound err then mret (inr (not_found "StatefulSet" (nn_Name key)))
      else mret (inl (wrapf ("getting statefulset " +:+ nn_Name key) err))
  | inr sts =>
      let desired := desired_replicas sts in
      if (w_ReadyReplicas sts =? desired)%Z && (w_UpdatedReplicas sts =? desired)%Z
         && (w_AvailableReplicas sts =? desired)%Z
         && (w_ObservedGeneration sts =? om_Generation (w_meta sts))%Z
      then mret (inr (done_ true ("StatefulSet " +:+ nn_Name key +:+ " is ready "
                                  +:+ replica_counts sts desired)))
      else mret (inr (running ("StatefulSet " +:+ nn_Name key +:+ " not ready yet "
                               +:+ replica_counts sts desired)))
  end.

Definition WaitReadyExecutor_Execute : Executor := λ ctx action namespace namePrefix actionIndex,
  spec ← deref (fa_WaitReady action);
  let key := {| nn_Name := wr_Name spec; nn_Namespace := namespace |} in
  if decide (wr_Kind spec = "Deployment") then checkDeployment key
  else if decide (wr_Kind spec = "StatefulSet") then checkStatefulSet key
  else mret (inr (done_ false ("unsupported kind " +:+ fmt_q (wr_Kind spec)))).

Definition CheckTimeout (startedAt : option time) (timeoutSec : Z) : IO bool :=
  match startedAt with
  | None => mret false
  | Some t =>
      let deadline := (t + seconds timeoutSec)%Z in
      n ← now;
      mret (After n deadline)
  end.

(** ** scale.go *)

(** The object of [getScalableObject], of one of two kinds. *)
Inductive Scalable := ADeployment (w : Workload) | AStatefulSet (w : Workload).

Definition getScalableObject (kind name namespace : string) : IO (goerr + Scalable) :=
  let key := {| nn_Name := name; nn_Namespace := namespace |} in
  if decide (kind = "Deployment") then
    r ← api_get local KDeployment key;
    mret (match r with inl e => inl e | inr w => inr (ADeployment w) end)
  else if decide (kind = "StatefulSet") then
    r ← api_get local KStatefulSet key;
    mret (match r with inl e => inl e | inr w => inr (AStatefulSet w) end)
  else mret (inl (Errorf ("unsupported kind " +:+ fmt_q kind +:+ ", must be Deployment or StatefulSet"))).

Definition scale_get (o : Scalable) : IO (goerr + Scale) :=
  match o with
  | ADeployment w => perform (ScaleGet KDeployment w)
  | AStatefulSet w => perform (ScaleGet KStatefulSet w)
  end.
Definition scale_update (o : Scalable) (body : Scale) : IO error :=
  match o with
  | ADeployment w => perform (ScaleUpdate KDeployment w body)
  | AStatefulSet w => perform (ScaleUpdate KStatefulSet w body)
  end.

(** The action [ScaleExecutor] delegates to the readiness executor. *)
Definition wait_action (action : FailoverAction) (spec : ScaleAction) : FailoverAction := {|
  fa_Name := fa_Name action; fa_HTTP := None; fa_Job := None; fa_Scale := None;
  fa_WaitReady := Some {| wr_Kind := sa_Kind spec; wr_Name := sa_Name spec;
                          wr_TimeoutSeconds := None |};
  fa_WaitRemote := None; fa_IgnoreFailure := false; fa_MaxRetries := None;
  fa_RetryIntervalSeconds := None |}.

Definition ScaleExecutor_Execute (WaitReady : option Executor) : Executor :=
  λ ctx action namespace namePrefix actionIndex,
  spec ← deref (fa_Scale action);
  let what := sa_Kind spec +:+ " " +:+ sa_Name spec in
  r ← getScalableObject (sa_Kind spec) (sa_Name spec) namespace;
  match r with
  | inl err =>
      if IsNotFound err then mret (inr (done_ false (what +:+ " not found")))
      else mret (inl (wrapf ("getting " +:+ what) err))
  | inr obj =>
      r ← scale_get obj;
      match r with
      | inl err => mret (inl (wrapf ("getting scale for " +:+ what) err))
      | inr scale =>
          e ← (if (sc_Replicas scale =? sa_Replicas spec)%Z then mret None
               else scale_update obj {| scale with sc_Replicas := sa_Replicas spec |});
          match e with
          | Some err => mret (inl (wrapf ("updating scale for " +:+ what) err))
          | None =>
              match sa_WaitReady spec, WaitReady with
              | true, None =>
                  mret (inr (done_ false ("scale.waitReady requested for " +:+ what
                                          +:+ " but WaitReady executor is not configured")))
              | true, Some wr => wr ctx (wait_action action spec) namespace namePrefix actionIndex
              | false, _ =>
                  mret (inr (done_ true ("Scaled " +:+ what +:+ " to " +:+ itoa (sa_Replicas spec))))
              end
          end
      end
  end.

(** ** job.go *)

Definition maxJobNameLen : nat := 63.
Definition maxLabelValueLen : nat := 63.
Definition defaultActiveDeadlineSeconds : Z := 300.
Definition defaultBackoffLimit : Z := 0.

(** The first [n] bytes of the SHA-256 of [s], in hexadecimal. *)
Definition short_hash (n : nat) (s : string) : string :=
  hex_EncodeToString (take n (sha256.Sum256 s)).

Definition jobName (namePrefix : string) (actionIndex : Z) : string :=
  let name := namePrefix +:+ "-action-" +:+ itoa actionIndex in
  if len name <=? maxJobNameLen then name
  else str_take (maxJobNameLen - 9) name +:+ "-" +:+ short_hash 4 name.

Definition truncateLabel (v : string) : string :=
  if len v <=? maxLabelValueLen then v
  else str_take (maxLabelValueLen - 9) v +:+ "-" +:+ short_hash 4 v.

Definition buildJob (name namespace : string) (spec : JobAction) (ownerPrefix : string)
    (ownerRef : option OwnerReference) : Job := {|
  job_meta := {| (new_meta name namespace) with
    om_Labels := Some {[ "app.kubernetes.io/managed-by" := "k8s-failover-manager";
                         "k8s-failover.zyno.io/owner" := truncateLabel ownerPrefix ]};
    om_OwnerReferences := match ownerRef with Some r => [r] | None => [] end |};
  job_ActiveDeadlineSeconds :=
    Some (match ja_ActiveDeadlineSeconds spec with Some d => d
          | None => defaultActiveDeadlineSeconds end);
  job_BackoffLimit :=
    Some (match ja_MaxRetries spec with Some n => n | None => defaultBackoffLimit end);
  job_RestartPolicy := "Never";
  job_ServiceAccountName := ja_ServiceAccountName spec;
  job_Containers := [{|
    co_Name := "action"; co_Image := ja_Image spec;
    co_Command := match ja_Script spec with
                  | Some script => ["/bin/sh"; "-c"; script]
                  | None => ja_Command spec
                  end;
    co_Env := (λ e, {| ev_Name := ev_Name e; ev_Value := ev_Value e |}) <$> ja_Env spec |}];
  job_Conditions := [] |}.

Definition with_job (name : string) (r : Result) : Result := {| r with JobName := name |}.

Fixpoint job_conditions_result (conds : list JobCondition) (name : string) : Result :=
  match conds with
  | [] => with_job name (running "Job running")
  | cond :: conds =>
      if decide (jc_Type cond = "Complete" ∧ jc_Status cond = "True") then
        with_job name (done_ true "Job completed successfully")
      else if decide (jc_Type cond = "Failed" ∧ jc_Status cond = "True") then
        with_job name (done_ false ("Job failed: " +:+ jc_Message cond))
      else job_conditions_result conds name
  end.
Definition checkJobStatus (job : Job) (name : string) : Result :=
  job_conditions_result (job_Conditions job) name.

Definition JobExecutor_Execute : Executor := λ ctx action namespace namePrefix actionIndex,
  let name := jobName namePrefix actionIndex in
  r ← api_get local KJob {| nn_Name := name; nn_Namespace := namespace |};
  match r with
  | inl err =>
      if negb (IsNotFound err) then mret (inl (wrapf ("checking job " +:+ name) err))
      else
        spec ← deref (fa_Job action);
        r ← api_create KJob (buildJob name namespace spec namePrefix (ctx_OwnerRef ctx));
        match r with
        | inl err => mret (inl (wrapf ("creating job " +:+ name) err))
        | inr _ => mret (inr (with_job name (running "Job created")))
        end
  | inr existing => mret (inr (checkJobStatus existing name))
  end.

Definition JobExecutor_Cleanup : CleanupExecutor := λ name namespace,
  r ← api_get local KJob {| nn_Name := name; nn_Namespace := namespace |};
  match r with
  | inl err =>
      if IsNotFound err then mret None else mret (Some (wrapf "getting job for cleanup" err))
  | inr job => api_delete KJob job (Some "Background")
  end.

(** ** What the controller relies on

    An event an action may cause: reads, HTTP requests, new jobs and the scale of
    a workload, but no write to the FailoverService, its events, the managed
    service or the kill signals. *)
Definition action_event (e : event) : Prop :=
  match e with
  | Ev (Create k _) _ => k = KJob
  | Ev (Update _ _ _) _ | Ev (UpdateStatus _ _) _ | Ev (Delete _ _ _) _ => False
  | _ => True
  end.

(** The clean-up reads and deletes jobs. *)
Definition cleanup_event (e : event) : Prop :=
  match e with
  | Ev (Get _ _ _) _ => True
  | Ev (Delete k _ _) _ => k = KJob
  | _ => False
  end.

(** The promise of the executors to the controller: they never panic and
    cause only action events, the clean-up only clean-up events. *)
Class ActionExecutor (m : MultiExecutor) : Prop := {
  execute_safe ctx action namespace namePrefix actionIndex :
    rg any_event action_event
      (MultiExecutor_Execute m ctx action namespace namePrefix actionIndex) (λ _, True);
  cleanup_safe jobName namespace :
    rg any_event cleanup_event (MultiExecutor_Cleanup m jobName namespace) (λ _, True) }.

(** An executor of the actions that satisfy [P]. *)
Definition executor_safe (P : FailoverAction → Prop) (e : Executor) : Prop :=
  ∀ ctx action namespace namePrefix actionIndex, P action →
    rg any_event action_event (e ctx action namespace namePrefix actionIndex) (λ _, True).

Ltac rg_solve := repeat rg_step; try done.

Lemma HTTPExecutor_safe : executor_safe (λ a, is_Some (fa_HTTP a)) HTTPExecutor_Execute.
Proof.
  intros ctx action ns p i [spec Hs]. unfold HTTPExecutor_Execute. rewrite Hs. rg_solve.
Qed.
Lemma WaitReadyExecutor_safe :
  executor_safe (λ a, is_Some (fa_WaitReady a)) WaitReadyExecutor_Execute.
Proof.
  intros ctx action ns p i [spec Hs]. unfold WaitReadyExecutor_Execute. rewrite Hs.
  unfold checkDeployment, checkStatefulSet. rg_solve.
Qed.
Lemma scale_get_safe o : rg any_event action_event (scale_get o) (λ _, True).
Proof. destruct o; simpl; rg_solve. Qed.
Lemma scale_update_safe o b : rg any_event action_event (scale_update o b) (λ _, True).
Proof. destruct o; simpl; rg_solve. Qed.
Lemma ScaleExecutor_safe :
  executor_safe (λ a, is_Some (fa_Scale a)) (ScaleExecutor_Execute (Some WaitReadyExecutor_Execute)).
Proof.
  intros ctx action ns p i [spec Hs]. unfold ScaleExecutor_Execute, getScalableObject. rewrite Hs.
  rg_solve; auto using scale_get_safe, scale_update_safe.
  apply WaitReadyExecutor_safe. by eexists.
Qed.
Lemma JobExecutor_safe : executor_safe (λ a, is_Some (fa_Job a)) JobExecutor_Execute.
Proof.
  intros ctx action ns p i [spec Hs]. unfold JobExecutor_Execute. rewrite Hs. rg_solve.
Qed.
Lemma JobExecutor_Cleanup_safe name ns :
  rg any_event cleanup_event (JobExecutor_Cleanup name ns) (λ _, True).
Proof. unfold JobExecutor_Cleanup. rg_solve. Qed.

(** ** Properties *)

Lemma len_short_hash n s : len (short_hash n s) ≤ 2 * n.
Proof. unfold short_hash. rewrite len_hex, length_take. lia. Qed.

(** The names of jobs and label values: cut to [n] bytes, a dash and a hash. *)
Lemma len_cut n k s : len (str_take n s +:+ "-" +:+ short_hash k s) ≤ n + 1 + 2 * k.
Proof. rewrite !len_app, len_take. pose proof (len_short_hash k s). simpl. unfold len in *. simpl. lia. Qed.

(** A name that fits is kept, another is cut. *)
Lemma cut_bounded n k s :
  1 + 2 * k ≤ n →
  let r := if len s <=? n then s else str_take (n - (1 + 2 * k)) s +:+ "-" +:+ short_hash k s in
  len r ≤ n ∧ (r = s ∨ n < len s).
Proof.
  intros Hn r. unfold r. destruct (Nat.leb_spec (len s) n); [auto|].
  pose proof (len_cut (n - (1 + 2 * k)) k s). split; [lia|auto].
Qed.

(** Names derived for Kubernetes objects and labels fit the 63-byte limit
    whatever their prefix, and a name that fits is kept as it is. *)
Theorem action_names_bounded namePrefix actionIndex v :
  len (jobName namePrefix actionIndex) ≤ 63 ∧ len (truncateLabel v) ≤ 63
  ∧ (jobName namePrefix actionIndex = namePrefix +:+ "-action-" +:+ itoa actionIndex
     ∨ 63 < len (namePrefix +:+ "-action-" +:+ itoa actionIndex))
  ∧ (truncateLabel v = v ∨ 63 < len v).
Proof.
  destruct (cut_bounded 63 4 (namePrefix +:+ "-action-" +:+ itoa actionIndex)) as [H1 H2]; [lia|].
  destruct (cut_bounded 63 4 v) as [H3 H4]; [lia|]. auto.
Qed.

Lemma JobExecutor_served ctx action namespace namePrefix actionIndex (st : store) :
  let key := {| nn_Name := jobName namePrefix actionIndex; nn_Namespace := namespace |} in
  served st (JobExecutor_Execute ctx action namespace namePrefix actionIndex)
    (λ o st', ∀ r, o = Ret (inr r) → is_Some (st' KJob key)
      ∧ ∀ job, st KJob key = Some job →
          st' = st ∧ r = checkJobStatus job (jobName namePrefix actionIndex)).
Proof.
  intros key. unfold JobExecutor_Execute. repeat served_step; try done.
  - intros r [= <-]. split; [eexists; apply (put_eq st KJob)|].
    intros job Hjob. exfalso.
    assert (IsNotFound err = true) as Hn by (by destruct (IsNotFound err)).
    specialize (Hnf Hn). change (st KJob key = None) in Hnf. congruence.
  - intros r [= <-]. split; [by eexists|]. intros job Hjob. split; [done|].
    change (st KJob key = Some o) in Hget. simpl in *. congruence.
Qed.

(** C36: running a job action leaves a job of its deterministic name in the
    store; when the job was already there nothing is written, and the result
    reports that job's conditions.  Retried reconciles therefore start the job
    once. *)
Theorem JobExecutor_idempotent ctx action namespace namePrefix actionIndex E h
    (st st' : store) r :
  let key := {| nn_Name := jobName namePrefix actionIndex; nn_Namespace := namespace |} in
  let run := JobExecutor_Execute ctx action namespace namePrefix actionIndex E h in
  keyed st → serves st run.2 st' → run.1 = Ret (inr r) →
  is_Some (st' KJob key)
  ∧ ∀ job, st KJob key = Some job →
      st' = st ∧ r = checkJobStatus job (jobName namePrefix actionIndex).
Proof. intros key run Hk Hs. by apply (JobExecutor_served _ _ _ _ _ _ Hk E h). Qed.

(** In the range of durations the deadline test is exact: it fires when
    more than [timeoutSec] seconds have passed since the start, and never for an
    action that has not started. *)
Theorem CheckTimeout_exact startedAt timeoutSec (E : Env) h :
  (0 <= timeoutSec <= 9223372036)%Z →
  (CheckTimeout startedAt timeoutSec E h).1
  = Ret (match startedAt with
         | None => false
         | Some t => bool_decide (t + timeoutSec * Second < E h Now)%Z
         end).
Proof.
  intros Hr. destruct startedAt as [t|]; [|done].
  unfold CheckTimeout, now, perform, mbind, IO_bind, seconds, After. simpl.
  rewrite i64_id; [done|]. unfold in_i64, Second. lia.
Qed.

(** C40: one second more and the duration overflows: the deadline lies in the
    past and an action times out at the moment it starts.  The CRD accepts such
    a [timeoutSeconds]. *)
Theorem CheckTimeout_overflow (t : time) (E : Env) h :
  E h Now = t → (CheckTimeout (Some t) 9223372037 E h).1 = Ret true.
Proof.
  intros Hn. unfold CheckTimeout, now, perform, mbind, IO_bind. simpl. rewrite Hn.
  unfold After. rewrite bool_decide_true; [done|].
  assert (seconds 9223372037 < 0)%Z by (vm_compute; done). lia.
Qed.

(** A workload with all its wanted replicas ready, updated and available, and
    its controller up to date. *)
Definition workload_ready (w : Workload) : Prop :=
  let n := default 1%Z (w_Replicas w) in
  w_ReadyReplicas w = n ∧ w_UpdatedReplicas w = n ∧ w_AvailableReplicas w = n
  ∧ w_ObservedGeneration w = om_Generation (w_meta w).

(** The kinds of workload a scale or a readiness action names. *)
Definition workload_kind (name : string) (k : kind) : Prop :=
  name = "Deployment" ∧ k = KDeployment ∨ name = "StatefulSet" ∧ k = KStatefulSet.

(** The workload of kind [k] and key [key] was read, and its scale is [n]: the
    scale read said so, or was written back with it. *)
Definition scaled (k : kind) (key : NamespacedName) (n : Z) (t : hist) : Prop :=
  ∃ (o : kobj k) sc, Ev (Get local k key) (inr o) ∈ t ∧ Ev (ScaleGet k o) (inr sc) ∈ t
  ∧ (sc_Replicas sc = n ∨ Ev (ScaleUpdate k o {| sc with sc_Replicas := n |}) None ∈ t).

(** What a successful scale action in namespace [ns] has seen. *)
Definition saw_scale (spec : ScaleAction) (ns : string) (t : hist) : Prop :=
  ∃ k, workload_kind (sa_Kind spec) k
    ∧ scaled k {| nn_Name := sa_Name spec; nn_Namespace := ns |} (sa_Replicas spec) t.

(** A read of the named workload that found it ready. *)
Definition saw_ready (kind : string) (key : NamespacedName) (t : hist) : Prop :=
  (kind = "Deployment" ∧ ∃ w, Ev (Get local KDeployment key) (inr w) ∈ t ∧ workload_ready w)
  ∨ (kind = "StatefulSet" ∧ ∃ w, Ev (Get local KStatefulSet key) (inr w) ∈ t ∧ workload_ready w).

Lemma checkDeployment_ready key :
  wp (checkDeployment key) (λ o t, ∀ r, o = Ret (inr r) → Succeeded r = true →
    saw_ready "Deployment" key t).
Proof.
  unfold checkDeployment. repeat wp_step; intros ? [= <-]; try done. intros _.
  left. split; [done|]. eexists. split; [by constructor|].
  apply andb_prop in Heqb as [[[]%andb_prop]%andb_prop].
  unfold workload_ready, desired_replicas in *. rewrite !Z.eqb_eq in *.
  repeat split; try done; by destruct (w_Replicas k).
Qed.
Lemma checkStatefulSet_ready key :
  wp (checkStatefulSet key) (λ o t, ∀ r, o = Ret (inr r) → Succeeded r = true →
    saw_ready "StatefulSet" key t).
Proof.
  unfold checkStatefulSet. repeat wp_step; intros ? [= <-]; try done. intros _.
  right. split; [done|]. eexists. split; [by constructor|].
  apply andb_prop in Heqb as [[[]%andb_prop]%andb_prop].
  unfold workload_ready, desired_replicas in *. rewrite !Z.eqb_eq in *.
  repeat split; try done; by destruct (w_Replicas k).
Qed.

Lemma WaitReadyExecutor_ready ctx action spec ns p i :
  fa_WaitReady action = Some spec →
  wp (WaitReadyExecutor_Execute ctx action ns p i) (λ o t, ∀ r, o = Ret (inr r) →
    Succeeded r = true →
    saw_ready (wr_Kind spec) {| nn_Name := wr_Name spec; nn_Namespace := ns |} t).
Proof.
  intros Hs. unfold WaitReadyExecutor_Execute. rewrite Hs. wp_step.
  destruct (decide (wr_Kind spec = "Deployment")) as [->|]; [apply checkDeployment_ready|].
  destruct (decide (wr_Kind spec = "StatefulSet")) as [->|]; [apply checkStatefulSet_ready|].
  apply wp_ret. by intros ? [= <-].
Qed.

Lemma saw_ready_mono kind key t1 t2 : t1 ⊆ t2 → saw_ready kind key t1 → saw_ready kind key t2.
Proof. intros Hsub [(?&w&?&?)|(?&w&?&?)]; [left|right]; eauto. Qed.

(** The workload fetched is the one named. *)
Definition obj_kind (o : Scalable) : kind :=
  match o with ADeployment _ => KDeployment | AStatefulSet _ => KStatefulSet end.
Definition obj_obj (o : Scalable) : kobj (obj_kind o) :=
  match o with ADeployment w | AStatefulSet w => w end.
Lemma getScalableObject_named kind name ns :
  wp (getScalableObject kind name ns) (λ o t, ∀ obj, o = Ret (inr obj) →
    workload_kind kind (obj_kind obj)
    ∧ Ev (Get local (obj_kind obj) {| nn_Name := name; nn_Namespace := ns |}) (inr (obj_obj obj)) ∈ t).
Proof.
  unfold getScalableObject, api_get.
  destruct (decide (kind = "Deployment")) as [->|];
    [|destruct (decide (kind = "StatefulSet")) as [->|]; [|apply wp_ret; by intros ? [=]]];
    wp_op; intros [err|w]; apply wp_ret; intros obj [= <-]; (split; [|by constructor]).
  - by left.
  - by right.
Qed.
Lemma scale_get_op obj : scale_get obj = perform (ScaleGet (obj_kind obj) (obj_obj obj)).
Proof. by destruct obj. Qed.
Lemma scale_update_op obj sc :
  scale_update obj sc = perform (ScaleUpdate (obj_kind obj) (obj_obj obj) sc).
Proof. by destruct obj. Qed.

(** The end of a scale action whose workload has its scale. *)
Lemma scale_end_success ctx action spec ns p i :
  wp (match sa_WaitReady spec, Some WaitReadyExecutor_Execute with
      | true, None => mret (inr (done_ false ""))
      | true, Some wr => wr ctx (wait_action action spec) ns p i
      | false, _ => mret (inr (done_ true ("Scaled " +:+ (sa_Kind spec +:+ " " +:+ sa_Name spec)
                                            +:+ " to " +:+ itoa (sa_Replicas spec))))
      end) (λ o t, ∀ r : Result, o = Ret (inr r) → Succeeded r = true →
    sa_WaitReady spec = true →
    saw_ready (sa_Kind spec) {| nn_Name := sa_Name spec; nn_Namespace := ns |} t).
Proof.
  destruct (sa_WaitReady spec); [|by apply wp_ret].
  eapply wp_mono; [by apply WaitReadyExecutor_ready|]. intros o t H r Ho Hr _. by apply (H r).
Qed.

(** C39: a scale action reports success only after it has read the workload its
    spec names, by kind, name and namespace, and seen that workload's scale to be
    the one asked for or written it back so; and, with [waitReady], after a read
    that found all the replicas of that workload ready at the current
    generation. *)
Theorem ScaleExecutor_success ctx action spec ns p i E h r :
  fa_Scale action = Some spec →
  let run := ScaleExecutor_Execute (Some WaitReadyExecutor_Execute) ctx action ns p i E h in
  run.1 = Ret (inr r) → Succeeded r = true →
  saw_scale spec ns run.2
  ∧ (sa_WaitReady spec = true →
     saw_ready (sa_Kind spec) {| nn_Name := sa_Name spec; nn_Namespace := ns |} run.2).
Proof.
  intros Hs. revert E h r.
  change (wp (ScaleExecutor_Execute (Some WaitReadyExecutor_Execute) ctx action ns p i) (λ o t,
    ∀ r, o = Ret (inr r) → Succeeded r = true → saw_scale spec ns t ∧ (sa_WaitReady spec = true →
     saw_ready (sa_Kind spec) {| nn_Name := sa_Name spec; nn_Namespace := ns |} t))).
  unfold ScaleExecutor_Execute. rewrite Hs. wp_step. apply wp_bind.
  eapply wp_mono; [apply getScalableObject_named|]. intros [[err|obj]|] t0 Hget;
    [repeat wp_step; by intros ? [= <-]| |by intros ? [=]].
  destruct (Hget obj eq_refl) as [Hk Hin]. rewrite scale_get_op. wp_op.
  intros [err|sc]; [apply wp_ret; by intros ? [=]|]. apply wp_bind.
  destruct (Z.eqb_spec (sc_Replicas sc) (sa_Replicas spec)) as [Heq|Hne].
  - apply wp_ret. eapply wp_mono; [apply scale_end_success|]. intros o t Hend r Ho Hr. split.
    + exists (obj_kind obj). split; [done|]. exists (obj_obj obj), sc.
      split; [set_solver|]. split; [set_solver|]. by left.
    + intros Hw. apply (saw_ready_mono _ _ t); [set_solver|by apply (Hend r)].
  - rewrite scale_update_op. apply wp_perform. intros [err|]; [apply wp_ret; by intros ? [=]|].
    eapply wp_mono; [apply scale_end_success|]. intros o t Hend r Ho Hr. split.
    + exists (obj_kind obj). split; [done|]. exists (obj_obj obj), sc.
      split; [set_solver|]. split; [set_solver|]. right. set_solver.
    + intros Hw. apply (saw_ready_mono _ _ t); [set_solver|by apply (Hend r)].
Qed.

(** ** Witnesses *)

Definition demo_action : FailoverAction := {|
  fa_Name := "scale-up"; fa_HTTP := None; fa_Job := None; fa_Scale := None;
  fa_WaitReady := None; fa_WaitRemote := None; fa_IgnoreFailure := false;
  fa_MaxRetries := None; fa_RetryIntervalSeconds := None |}.
Definition demo_job_action : FailoverAction :=
  {| demo_action with fa_Job := Some {|
       ja_Image := "mysql:8"; ja_Command := []; ja_Script := Some "promote.sh"; ja_Env := [];
       ja_ServiceAccountName := ""; ja_ActiveDeadlineSeconds := None; ja_MaxRetries := None |} |}.
Definition demo_scale : ScaleAction := {|
  sa_Kind := "StatefulSet"; sa_Name := "mysql"; sa_Replicas := 3; sa_WaitReady := true;
  sa_TimeoutSeconds := None |}.
Definition demo_scale_action : FailoverAction := {| demo_action with fa_Scale := Some demo_scale |}.
Definition demo_ctx : Ctx := {|
  ctx_OwnerRef := None; ctx_TransitionStartedAt := None; ctx_TransitionDirection := None |}.

(** A ready StatefulSet of three replicas, and the scale subresource. *)
Definition demo_workload : Workload := {|
  w_meta := {| (new_meta "mysql" "default") with om_Generation := 2 |};
  w_Replicas := Some 3%Z; w_ReadyReplicas := 3; w_UpdatedReplicas := 3;
  w_AvailableReplicas := 3; w_ObservedGeneration := 2 |}.
Definition scaling : Env := λ h o,
  match o as o return resp o with
  | ScaleGet _ _ => inr {| sc_meta := new_meta "mysql" "default"; sc_Replicas := 1 |}
  | ScaleUpdate _ _ _ => None
  | o => quiet h o
  end.
Definition demo_workload_store : store :=
  put empty_store KStatefulSet (meta_key (w_meta demo_workload)) (Some demo_workload).

Lemma JobExecutor_idempotent_witness :
  ∃ st' : store, is_Some (st' KJob {| nn_Name := "mysql-action-0"; nn_Namespace := "default" |}).
Proof.
  eexists.
  refine (proj1 (JobExecutor_idempotent demo_ctx demo_job_action "default" "mysql" 0
    (sim quiet empty_store) [] empty_store _ _ empty_store_keyed _ _)).
  - apply (sim_serves quiet empty_store _ []). check_legit.
  - vm_compute. reflexivity.
Defined.

Lemma ScaleExecutor_success_witness :
  ∃ t, saw_scale demo_scale "default" t
    ∧ saw_ready "StatefulSet" (meta_key (w_meta demo_workload)) t.
Proof.
  pose proof (ScaleExecutor_success demo_ctx demo_scale_action demo_scale "default" "" 0
    (sim scaling demo_workload_store) []) as H.
  eexists. edestruct H as [H1 H2]; [reflexivity|vm_compute; reflexivity|reflexivity|].
  split; [exact H1|exact (H2 eq_refl)].
Defined.

Lemma CheckTimeout_exact_witness : (CheckTimeout (Some 0%Z) 60 quiet []).1 = Ret false.
Proof. rewrite CheckTimeout_exact; [reflexivity|lia]. Defined.

Lemma CheckTimeout_overflow_witness : (CheckTimeout (Some 0%Z) 9223372037 quiet []).1 = Ret true.
Proof. apply CheckTimeout_overflow. reflexivity. Defined.
