(* ===== verification/WaitRemote.v ===== *)
(** * Waiting for the remote cluster ([src/internal/action/waitremote.go])

    The executor of [waitRemote] actions: it reads the remote FailoverService
    and, when that is idle, its FailoverEvents, and decides whether the remote
    has gone through the transition the local one is waiting for. *)
From stdpp Require Import base gmap strings list numbers.
From S2P Require Import Prelude GoStd Types Kube Logic ApiServer Fixtures Actions.

Definition defaultConnectTimeout : Z := 10 * Second.

(** The [RemoteClientProvider] interface: a client under a deadline. *)
Definition RemoteClientProvider : Type := option Z → IO (goerr + client_id).

(** ** Matching remote transitions and events *)

Definition transitionMatchesDirection (transition : option TransitionStatus)
    (expectedDirection : string) : bool :=
  bool_decide (expectedDirection = "")
  || match transition with
     | Some t => bool_decide (ts_TargetDirection t = expectedDirection)
     | None => false
     end.

Definition eventMatchesTransition (event : FailoverEvent) (localStartedAt : time)
    (expectedDirection : string) : bool :=
  if bool_decide (expectedDirection ≠ "")
     && bool_decide (es_Direction (fe_spec event) ≠ expectedDirection) then false
  else if time_IsZero localStartedAt then true
  else match ev_StartedAt (fe_status event) with
       | Some t => negb (Before t localStartedAt)
       | None =>
           match ev_CompletedAt (fe_status event) with
           | Some t => negb (Before t localStartedAt)
           | None => negb (Before (om_CreationTimestamp (fe_meta event)) localStartedAt)
           end
       end.

Definition isTerminalRemoteEvent (event : option FailoverEvent) : bool :=
  match event with
  | Some e => bool_decide (ev_Outcome (fe_status e) ≠ OutcomeUnset)
              && bool_decide (ev_Outcome (fe_status e) ≠ EventOutcomeInProgress)
  | None => false
  end.

Definition eventTimestamp (event : FailoverEvent) : time :=
  match ev_CompletedAt (fe_status event) with
  | Some t => t
  | None =>
      match ev_StartedAt (fe_status event) with
      | Some t => t
      | None => om_CreationTimestamp (fe_meta event)
      end
  end.

Definition remoteTransitionStartedAfter (remote : FailoverService) (localStartedAt : time)
    : bool :=
  if time_IsZero localStartedAt then true
  else match fs_transition remote with
       | None => false
       | Some t =>
           match ts_StartedAt t with
           | None => false
           | Some s => negb (Before s localStartedAt)
           end
       end.

(** The loop of [findRecentRemoteEvent]: the best event so far and its time. *)
Fixpoint recent_event (fsName : string) (localStartedAt : time) (expectedDirection : string)
    (items : list FailoverEvent) (best : option (FailoverEvent * time)) : option FailoverEvent :=
  match items with
  | [] => fst <$> best
  | event :: items =>
      let continue := recent_event fsName localStartedAt expectedDirection items in
      if decide (es_FailoverServiceRef (fe_spec event) ≠ fsName) then continue best
      else if negb (eventMatchesTransition event localStartedAt expectedDirection) then
        continue best
      else
        let eventTime := eventTimestamp event in
        match best with
        | None => continue (Some (event, eventTime))
        | Some (_, bestTime) =>
            if After eventTime bestTime then continue (Some (event, eventTime))
            else continue best
        end
  end.

Definition findRecentRemoteEvent (remoteClient : target) (namespace fsName : string)
    (localStartedAt : time) (expectedDirection : string)
    : IO (goerr + option FailoverEvent) :=
  r ← perform (ListEvents remoteClient namespace);
  match r with
  | inl err => mret (inl err)
  | inr items => mret (inr (recent_event fsName localStartedAt expectedDirection items None))
  end.

(** [findActionResult]: [None] when the name is ambiguous, otherwise the match,
    if any. *)
Fixpoint scan_results (results : list ActionResult) (actionName : string)
    (found : option ActionResult) : option (option ActionResult) :=
  match results with
  | [] => Some found
  | r :: results =>
      if decide (ar_Name r = actionName) then
        match found with
        | Some _ => None
        | None => scan_results results actionName (Some r)
        end
      else scan_results results actionName found
  end.
Definition findActionResult (preResults postResults : list ActionResult) (actionName : string)
    : option (option ActionResult) :=
  match scan_results preResults actionName None with
  | None => None
  | Some found => scan_results postResults actionName found
  end.

Definition remote_action (actionName : string) : string :=
  "Remote action " +:+ fmt_q actionName.
Definition waiting_action (actionName : string) : string :=
  "Waiting for remote action " +:+ fmt_q actionName.

Definition resultForAction (actionName : string) (r : ActionResult) : Result :=
  match ar_Status r with
  | ActionStatusSucceeded => done_ true (remote_action actionName +:+ " succeeded")
  | ActionStatusFailed => done_ false (remote_action actionName +:+ " failed: " +:+ ar_Message r)
  | ActionStatusSkipped => done_ true (remote_action actionName +:+ " was skipped")
  | s => running (waiting_action actionName +:+ " (status: " +:+ status_string s +:+ ")")
  end.

Definition ambiguous (actionName : string) : Result :=
  done_ false (remote_action actionName +:+ " is ambiguous; action names must be unique").

(** ** The checks *)

Definition listing_events (err : goerr) : Result :=
  running ("listing remote FailoverEvents: " +:+ err_msg err).

Definition checkPhase (remoteClient : target) (remote : FailoverService)
    (namespace fsName : string) (targetPhase : FailoverPhase) (localStartedAt : time)
    (expectedDirection : string) : IO Result :=
  let transition := fs_transition remote in
  let remotePhase := match transition with Some t => ts_Phase t | None => PhaseIdle end in
  let targetOrder := PhaseOrder targetPhase in
  let remoteOrder := PhaseOrder remotePhase in
  if decide (targetPhase = PhaseIdle) then
    if decide (remotePhase ≠ PhaseIdle) then
      if negb (transitionMatchesDirection transition expectedDirection) then
        t ← deref transition;
        mret (running ("Waiting for remote " +:+ expectedDirection
          +:+ " transition to start (currently " +:+ ts_TargetDirection t +:+ ")"))
      else
        mret (running ("Waiting for remote to become idle (currently "
          +:+ phase_string remotePhase +:+ ")"))
    else
      r ← findRecentRemoteEvent remoteClient namespace fsName localStartedAt expectedDirection;
      match r with
      | inl err => mret (listing_events err)
      | inr event =>
          if isTerminalRemoteEvent event then
            mret (done_ true "Remote cluster is idle (completed matching transition after local transition started)")
          else mret (running "Waiting for remote to participate in transition (currently idle)")
      end
  else if decide (remotePhase = PhaseIdle) then
    r ← findRecentRemoteEvent remoteClient namespace fsName localStartedAt expectedDirection;
    match r with
    | inl err => mret (listing_events err)
    | inr event =>
        if isTerminalRemoteEvent event then
          mret (done_ true ("Remote cluster has completed matching transition (target was "
            +:+ phase_string targetPhase +:+ ")"))
        else
          mret (running ("Waiting for remote to start transition (target phase: "
            +:+ phase_string targetPhase +:+ ")"))
    end
  else if negb (transitionMatchesDirection transition expectedDirection) then
    t ← deref transition;
    mret (running ("Waiting for remote " +:+ expectedDirection +:+ " transition (currently "
      +:+ ts_TargetDirection t +:+ ")"))
  else if (targetOrder <=? remoteOrder)%Z then
    if remoteTransitionStartedAfter remote localStartedAt then
      mret (done_ true ("Remote cluster is at phase " +:+ phase_string remotePhase
        +:+ " (target: " +:+ phase_string targetPhase +:+ ")"))
    else
      mret (running ("Remote is at phase " +:+ phase_string remotePhase
        +:+ " but transition predates local start; waiting for current transition"))
  else
    mret (running ("Waiting for remote to reach phase " +:+ phase_string targetPhase
      +:+ " (currently " +:+ phase_string remotePhase +:+ ")")).

Definition checkActionName (remoteClient : target) (remote : FailoverService)
    (namespace fsName actionName : string) (localStartedAt : time)
    (expectedDirection : string) : IO Result :=
  match fs_transition remote with
  | None =>
      r ← findRecentRemoteEvent remoteClient namespace fsName localStartedAt expectedDirection;
      match r with
      | inl err => mret (listing_events err)
      | inr None =>
          mret (running (waiting_action actionName +:+ " (remote has no active transition)"))
      | inr (Some event) =>
          match findActionResult (ev_PreActionResults (fe_status event))
                  (ev_PostActionResults (fe_status event)) actionName with
          | None => mret (ambiguous actionName)
          | Some (Some result) => mret (resultForAction actionName result)
          | Some None =>
              if bool_decide (ev_Outcome (fe_status event) ≠ OutcomeUnset)
                 && bool_decide (ev_Outcome (fe_status event) ≠ EventOutcomeInProgress) then
                mret (done_ false ("Remote transition completed without action "
                  +:+ fmt_q actionName))
              else
                mret (running (waiting_action actionName +:+ " (remote event still in progress)"))
          end
      end
  | Some transition =>
      if negb (transitionMatchesDirection (Some transition) expectedDirection) then
        mret (running (waiting_action actionName +:+ " on " +:+ expectedDirection +:+ " transition"))
      else if negb (remoteTransitionStartedAfter remote localStartedAt) then
        mret (running (waiting_action actionName +:+ " (remote transition predates local start)"))
      else
        match findActionResult (ts_PreActionResults transition) (ts_PostActionResults transition)
                actionName with
        | None => mret (ambiguous actionName)
        | Some (Some result) => mret (resultForAction actionName result)
        | Some None =>
            mret (running (waiting_action actionName +:+ " (not found in remote results)"))
        end
  end.

Definition WaitRemoteExecutor_Execute (ClientProvider : option RemoteClientProvider) : Executor :=
  λ ctx action namespace namePrefix actionIndex,
  match ClientProvider with
  | None => mret (inr (done_ false "remote client provider not configured"))
  | Some GetClient =>
      spec ← deref (fa_WaitRemote action);
      let connectTimeout := match wm_ConnectTimeoutSeconds spec with
                            | Some s => seconds s
                            | None => defaultConnectTimeout
                            end in
      r ← GetClient (Some connectTimeout);
      match r with
      | inl err => mret (inr (running ("connecting to remote cluster: " +:+ err_msg err)))
      | inr c =>
          let remoteClient := {| t_site := Remote c; t_timeout := Some connectTimeout |} in
          match ctx_OwnerRef ctx with
          | None =>
              mret (inr (done_ false "cannot determine FailoverService name for remote lookup"))
          | Some ownerRef =>
              r ← api_get remoteClient KFailoverService
                    {| nn_Name := or_Name ownerRef; nn_Namespace := namespace |};
              match r with
              | inl err =>
                  mret (inr (running ("getting remote FailoverService: " +:+ err_msg err)))
              | inr remote =>
                  let localStartedAt := default zero_time (ctx_TransitionStartedAt ctx) in
                  let localDirection := default "" (ctx_TransitionDirection ctx) in
                  match wm_Phase spec with
                  | Some phase =>
                      r ← checkPhase remoteClient remote namespace (or_Name ownerRef) phase
                            localStartedAt localDirection;
                      mret (inr r)
                  | None =>
                      match wm_ActionName spec with
                      | Some actionName =>
                          r ← checkActionName remoteClient remote namespace (or_Name ownerRef)
                                actionName localStartedAt localDirection;
                          mret (inr r)
                      | None => mret (inr (done_ false "neither phase nor actionName specified"))
                      end
                  end
              end
          end
      end
  end.

(** ** Safety *)

(** The promise of the provider to the executor. *)
Definition provider_safe (p : RemoteClientProvider) : Prop :=
  ∀ timeout, rg any_event action_event (p timeout) (λ _, True).

Lemma findRecentRemoteEvent_safe c ns name start dir :
  rg any_event action_event (findRecentRemoteEvent c ns name start dir) (λ _, True).
Proof. unfold findRecentRemoteEvent. rg_solve. Qed.

Lemma checkPhase_safe c remote ns name p start dir :
  rg any_event action_event (checkPhase c remote ns name p start dir) (λ _, True).
Proof.
  unfold checkPhase. rg_solve; auto using findRecentRemoteEvent_safe.
  all: destruct (fs_transition remote); rg_solve; done.
Qed.
Lemma checkActionName_safe c remote ns name a start dir :
  rg any_event action_event (checkActionName c remote ns name a start dir) (λ _, True).
Proof. unfold checkActionName. rg_solve; auto using findRecentRemoteEvent_safe. Qed.

Lemma WaitRemoteExecutor_safe p :
  match p with Some p => provider_safe p | None => True end →
  executor_safe (λ a, is_Some (fa_WaitRemote a)) (WaitRemoteExecutor_Execute p).
Proof.
  intros Hp ctx action ns prefix i [spec Hs]. unfold WaitRemoteExecutor_Execute. rewrite Hs.
  destruct p as [p|]; rg_solve; auto using checkPhase_safe, checkActionName_safe.
Qed.

(** The executors as [cmd/main.go] wires them. *)
Definition NewMultiExecutor (ClientProvider : option RemoteClientProvider) : MultiExecutor := {|
  me_HTTP := Some HTTPExecutor_Execute;
  me_Job := Some (JobExecutor_Execute, JobExecutor_Cleanup);
  me_Scale := Some (ScaleExecutor_Execute (Some WaitReadyExecutor_Execute));
  me_WaitReady := Some WaitReadyExecutor_Execute;
  me_WaitRemote := Some (WaitRemoteExecutor_Execute ClientProvider) |}.

Lemma NewMultiExecutor_safe p :
  match p with Some p => provider_safe p | None => True end →
  ActionExecutor (NewMultiExecutor p).
Proof.
  intros Hp. split; intros; [|apply JobExecutor_Cleanup_safe].
  unfold MultiExecutor_Execute; simpl.
  destruct (fa_HTTP action) eqn:?; [by apply HTTPExecutor_safe|].
  destruct (fa_Job action) eqn:?; [by apply JobExecutor_safe|].
  destruct (fa_Scale action) eqn:?; [by apply ScaleExecutor_safe|].
  destruct (fa_WaitReady action) eqn:?; [by apply WaitReadyExecutor_safe|].
  destruct (fa_WaitRemote action) eqn:?; [by apply WaitRemoteExecutor_safe|].
  by rg_step.
Qed.

(** ** The two searches *)

Definition unique {A} (l : list A) : option (option A) :=
  match l with [] => Some None | [a] => Some (Some a) | _ => None end.

Lemma scan_results_unique results name found :
  scan_results results name found
  = unique (option_list found ++ filter (λ r, ar_Name r = name) results).
Proof.
  revert found; induction results as [|r rs IH]; intros found.
  - by destruct found.
  - rewrite filter_cons. simpl. case_decide; [|apply IH].
    destruct found; [done|]. apply IH.
Qed.

Lemma findActionResult_unique pre post name :
  findActionResult pre post name =
  match filter (λ r, ar_Name r = name) (pre ++ post) with
  | [] => Some None
  | [r] => Some (Some r)
  | _ => None
  end.
Proof.
  unfold findActionResult. rewrite list.filter_app, scan_results_unique. simpl.
  destruct (filter _ pre) as [|r [|r' rs]]; simpl; [apply scan_results_unique| |done].
  rewrite scan_results_unique. simpl. by destruct (filter _ post).
Qed.

(** An event of FailoverService [fsName] that belongs to the local
    transition. *)
Definition correlated_event (fsName : string) (start : time) (dir : string) (e : FailoverEvent)
    : Prop :=
  es_FailoverServiceRef (fe_spec e) = fsName ∧ eventMatchesTransition e start dir = true.

(** The best event of two. *)
Definition later (e e' : FailoverEvent) : Prop := (eventTimestamp e' <= eventTimestamp e)%Z.

Lemma recent_event_some fsName start dir items e0 :
  ∃ e, recent_event fsName start dir items (Some (e0, eventTimestamp e0)) = Some e
    ∧ (e = e0 ∨ e ∈ items ∧ correlated_event fsName start dir e) ∧ later e e0
    ∧ ∀ e', e' ∈ items → correlated_event fsName start dir e' → later e e'.
Proof.
  revert e0; induction items as [|x items IH]; intros e0; simpl.
  - exists e0. unfold later. split_and!; [done|auto|lia|]. by intros ? ?%not_elem_of_nil.
  - assert (skip : ¬ correlated_event fsName start dir x ∨ later e0 x →
      ∃ e, recent_event fsName start dir items (Some (e0, eventTimestamp e0)) = Some e
      ∧ (e = e0 ∨ e ∈ x :: items ∧ correlated_event fsName start dir e) ∧ later e e0
      ∧ ∀ e', e' ∈ x :: items → correlated_event fsName start dir e' → later e e').
    { intros Hx. destruct (IH e0) as (e & He & Hin & Hl & Hmax). exists e.
      unfold later in *. split_and!; [done| |done|].
      - destruct Hin as [?|[??]]; [auto|]. right. by split; [constructor|].
      - intros e' [->|?]%elem_of_cons Hc; [|auto]. destruct Hx; [done|lia]. }
    destruct (decide _) as [Hn|Hn]; [apply skip; left; by intros []|].
    destruct (eventMatchesTransition x start dir) eqn:Hm; simpl;
      [|apply skip; left; intros []; congruence].
    unfold After. destruct (bool_decide_reflect (eventTimestamp e0 < eventTimestamp x)%Z);
      [|apply skip; right; unfold later; lia].
    destruct (IH x) as (e & He & Hin & Hl & Hmax). exists e. unfold later in *.
    apply dec_stable in Hn. split_and!; [done| |lia|].
    + right. destruct Hin as [->|[??]]; [split; [constructor|done]|by split; [constructor|]].
    + intros e' [->|?]%elem_of_cons Hc; auto.
Qed.

Lemma recent_event_best fsName start dir items :
  match recent_event fsName start dir items None with
  | Some e => e ∈ items ∧ correlated_event fsName start dir e
      ∧ ∀ e', e' ∈ items → correlated_event fsName start dir e' →
          (eventTimestamp e' <= eventTimestamp e)%Z
  | None => ∀ e', e' ∈ items → ¬ correlated_event fsName start dir e'
  end.
Proof.
  induction items as [|x items IH]; simpl; [by intros ? ?%not_elem_of_nil|].
  assert (skip : ¬ correlated_event fsName start dir x →
    match recent_event fsName start dir items None with
    | Some e => e ∈ x :: items ∧ correlated_event fsName start dir e
        ∧ ∀ e', e' ∈ x :: items → correlated_event fsName start dir e' → later e e'
    | None => ∀ e', e' ∈ x :: items → ¬ correlated_event fsName start dir e'
    end).
  { intros Hx. destruct (recent_event _ _ _ items None) as [e|].
    - destruct IH as (?&?&Hmax). split_and!; [by constructor|done|].
      intros e' [->|?]%elem_of_cons ?; [done|]. by apply Hmax.
    - intros e' [->|?]%elem_of_cons; auto. }
  destruct (decide _) as [Hn|Hn]; [apply skip; by intros []|].
  destruct (eventMatchesTransition x start dir) eqn:Hm; simpl;
    [|apply skip; intros []; congruence].
  apply dec_stable in Hn.
  destruct (recent_event_some fsName start dir items x) as (e & -> & Hin & Hl & Hmax).
  split_and!; [destruct Hin as [->|[]]; by constructor|by destruct Hin as [->|[]]|].
  intros e' [->|?]%elem_of_cons ?; [done|]. by apply Hmax.
Qed.

(** ** What success means *)

(** The remote transition under way belongs to the local one: same direction,
    started no earlier. *)
Definition in_flight (remote : FailoverService) (start : time) (dir : string)
    (tr : TransitionStatus) : Prop :=
  fs_transition remote = Some tr
  ∧ (dir = "" ∨ ts_TargetDirection tr = dir)
  ∧ (start = zero_time ∨ ∃ s, ts_StartedAt tr = Some s ∧ (start <= s)%Z).

(** An event of the local transition among those the remote listed in [t]. *)
Definition listed (c : target) (ns fsName : string) (start : time) (dir : string) (t : hist)
    (e : FailoverEvent) : Prop :=
  (∃ items, Ev (ListEvents c ns) (inr items) ∈ t ∧ e ∈ items)
  ∧ correlated_event fsName start dir e.

Definition terminal (e : FailoverEvent) : Prop :=
  ev_Outcome (fe_status e) ≠ OutcomeUnset ∧ ev_Outcome (fe_status e) ≠ EventOutcomeInProgress.

Definition phase_evidence (c : target) (ns fsName : string) (remote : FailoverService)
    (p : FailoverPhase) (start : time) (dir : string) (t : hist) : Prop :=
  (∃ tr, in_flight remote start dir tr ∧ ts_Phase tr ≠ PhaseIdle ∧ p ≠ PhaseIdle
     ∧ (PhaseOrder p <= PhaseOrder (ts_Phase tr))%Z)
  ∨ ((∀ tr, fs_transition remote = Some tr → ts_Phase tr = PhaseIdle)
     ∧ ∃ e, listed c ns fsName start dir t e ∧ terminal e).

(** [r] is the one result of that name, and it is good. *)
Definition good_result (pre post : list ActionResult) (name : string) : Prop :=
  ∃ r, filter (λ r, ar_Name r = name) (pre ++ post) = [r]
    ∧ (ar_Status r = ActionStatusSucceeded ∨ ar_Status r = ActionStatusSkipped).

Definition action_evidence (c : target) (ns fsName : string) (remote : FailoverService)
    (name : string) (start : time) (dir : string) (t : hist) : Prop :=
  (∃ tr, in_flight remote start dir tr
     ∧ good_result (ts_PreActionResults tr) (ts_PostActionResults tr) name)
  ∨ (fs_transition remote = None ∧ ∃ e, listed c ns fsName start dir t e
     ∧ good_result (ev_PreActionResults (fe_status e)) (ev_PostActionResults (fe_status e)) name).

Lemma matches_in_flight remote start dir tr :
  fs_transition remote = Some tr →
  transitionMatchesDirection (Some tr) dir = true →
  remoteTransitionStartedAfter remote start = true → in_flight remote start dir tr.
Proof.
  intros Htr Hd Hs. unfold transitionMatchesDirection, remoteTransitionStartedAfter in *.
  rewrite Htr in Hs. split; [done|]. split.
  - apply orb_prop in Hd as [?%bool_decide_eq_true|?%bool_decide_eq_true]; auto.
  - unfold time_IsZero in Hs. case_bool_decide; [by left|right].
    destruct (ts_StartedAt tr) as [s|]; [|done]. exists s. split; [done|].
    unfold Before in Hs. apply negb_true_iff, bool_decide_eq_false in Hs. lia.
Qed.

Lemma findRecent_listed c ns fsName start dir :
  wp (findRecentRemoteEvent c ns fsName start dir) (λ o t, ∃ r, o = Ret r ∧
    ∀ e, r = inr (Some e) → ∀ t0 t1, listed c ns fsName start dir (t0 ++ t ++ t1) e).
Proof.
  unfold findRecentRemoteEvent. repeat wp_step; eexists; (split; [done|]); intros e [=].
  intros t0 t1. pose proof (recent_event_best fsName start dir l) as Hm.
  destruct (recent_event _ _ _ l None); simplify_eq.
  destruct Hm as (?&?&_). split; [|done]. exists l. split; [|done].
  apply elem_of_app; right. constructor.
Qed.

Lemma terminal_event e : isTerminalRemoteEvent (Some e) = true → terminal e.
Proof. simpl. intros [?%bool_decide_eq_true ?%bool_decide_eq_true]%andb_prop. by split. Qed.

Lemma result_good name r pre post :
  findActionResult pre post name = Some (Some r) →
  Succeeded (resultForAction name r) = true → good_result pre post name.
Proof.
  rewrite findActionResult_unique. intros Hf Hr. exists r.
  destruct (filter _ _) as [|r' [|]]; simplify_eq. split; [done|].
  unfold resultForAction in Hr. destruct (ar_Status r); auto; done.
Qed.

(** Success through the terminal event of an idle remote. *)
Ltac by_event :=
  eapply wp_mono; [apply findRecent_listed|]; intros o t (r & -> & Hl);
  repeat wp_step; intros ? [= <-]; try done; intros _ t0 t1; right;
  match goal with
  | Ht : isTerminalRemoteEvent ?x = true |- _ => destruct x; [|done]
  end;
  split; [|eexists; split; [rewrite <- app_assoc; by apply Hl|by apply terminal_event]].

Lemma checkPhase_evidence c remote ns fsName p start dir :
  wp (checkPhase c remote ns fsName p start dir) (λ o t, ∀ r, o = Ret r → Succeeded r = true →
    ∀ t0 t1, phase_evidence c ns fsName remote p start dir (t0 ++ t ++ t1)).
Proof.
  unfold checkPhase.
  repeat first [wp_step; try (by intros ? [= <-])].
  - by_event. intros tr Htr. destruct (fs_transition remote); simplify_eq. by apply dec_stable.
  - by_event. intros tr Htr. by destruct (fs_transition remote); simplify_eq.
  - intros ? [= <-] _ t0 t1. left. destruct (fs_transition remote) as [tr|] eqn:Htr; [|done].
    exists tr. apply negb_false_iff in Heqb.
    split_and!; [by apply matches_in_flight|done|done|by apply Z.leb_le].
Qed.

Lemma checkActionName_evidence c remote ns fsName name start dir :
  wp (checkActionName c remote ns fsName name start dir) (λ o t, ∀ r, o = Ret r →
    Succeeded r = true → ∀ t0 t1, action_evidence c ns fsName remote name start dir (t0 ++ t ++ t1)).
Proof.
  unfold checkActionName. destruct (fs_transition remote) as [tr|] eqn:Htr.
  - repeat wp_step; intros ? [= <-] Hr; try done. intros t0 t1. left. exists tr.
    apply negb_false_iff in Heqb, Heqb0.
    split; [by apply matches_in_flight|by eapply result_good].
  - wp_step. eapply wp_mono; [apply findRecent_listed|]. intros o t (r & -> & Hl).
    repeat wp_step; intros ? [= <-] Hr; try done. intros t0 t1. right. split; [done|].
    eexists. split; [rewrite <- app_assoc; by apply Hl|by eapply result_good].
Qed.

(** The evidence of a check, in the trace of the whole run. *)
Ltac finish_evidence evidence :=
  intros [x|] t Ht; [|by intros ? [=]]; wp_step; intros ? [= <-] Hx;
  match goal with
  | Ho : ctx_OwnerRef _ = Some ?o, Hr : ?r = inr ?k |- context [?t0 ++ ?e :: t ++ []] =>
      specialize (Ht x eq_refl Hx (t0 ++ [e]) []); rewrite <- app_assoc in Ht;
      match type of Ht with
      | evidence ?tc _ _ _ _ _ _ _ => exists o, tc, k
      end
  end;
  split_and!; [done|done| |exact Ht];
  apply elem_of_app; right; apply elem_of_app; right; constructor.

(** C34: a [waitRemote] action succeeds only on evidence from the remote cluster
    that belongs to the local transition: a transition under way in the same
    direction that started no earlier and has reached the phase (or finished the
    named action), or, with the remote idle, such a FailoverEvent with a final
    outcome (or the named action's result).  A stale remote transition never
    satisfies it. *)
Theorem WaitRemote_success provider ctx action spec ns prefix i E h r :
  fa_WaitRemote action = Some spec →
  let run := WaitRemoteExecutor_Execute provider ctx action ns prefix i E h in
  run.1 = Ret (inr r) → Succeeded r = true →
  ∃ owner c remote,
    ctx_OwnerRef ctx = Some owner ∧ t_site c ≠ Local
    ∧ Ev (Get c KFailoverService {| nn_Name := or_Name owner; nn_Namespace := ns |}) (inr remote)
        ∈ run.2
    ∧ let start := default zero_time (ctx_TransitionStartedAt ctx) in
      let dir := default "" (ctx_TransitionDirection ctx) in
      match wm_Phase spec, wm_ActionName spec with
      | Some p, _ => phase_evidence c ns (or_Name owner) remote p start dir run.2
      | None, Some name => action_evidence c ns (or_Name owner) remote name start dir run.2
      | None, None => False
      end.
Proof.
  intros Hs. revert E h r.
  change (wp (WaitRemoteExecutor_Execute provider ctx action ns prefix i) (λ o t, ∀ r,
    o = Ret (inr r) → Succeeded r = true → ∃ owner c remote,
    ctx_OwnerRef ctx = Some owner ∧ t_site c ≠ Local
    ∧ Ev (Get c KFailoverService {| nn_Name := or_Name owner; nn_Namespace := ns |}) (inr remote) ∈ t
    ∧ let start := default zero_time (ctx_TransitionStartedAt ctx) in
      let dir := default "" (ctx_TransitionDirection ctx) in
      match wm_Phase spec, wm_ActionName spec with
      | Some p, _ => phase_evidence c ns (or_Name owner) remote p start dir t
      | None, Some name => action_evidence c ns (or_Name owner) remote name start dir t
      | None, None => False
      end)).
  unfold WaitRemoteExecutor_Execute. rewrite Hs.
  destruct provider as [GetClient|]; [|wp_step; by intros ? [= <-]].
  do 2 wp_step. apply wp_any. intros [[err|c]|] t0; [wp_step; by intros ? [= <-]| |by intros ? [=]].
  repeat wp_step; try (by intros ? [= <-]).
  - eapply wp_mono; [apply checkPhase_evidence|]. finish_evidence phase_evidence.
  - eapply wp_mono; [apply checkActionName_evidence|]. finish_evidence action_evidence.
Qed.

(** ** Witness *)

(** A remote cluster flushing connections for the same failover. *)
Definition demo_transition (p : FailoverPhase) (start : time) : TransitionStatus := {|
  ts_Phase := p; ts_TargetDirection := "failover";
  ts_OldAddressSnapshot := "mysql-primary.mysql.svc.cluster.local";
  ts_NewAddressSnapshot := "192.168.50.60"; ts_TransitionID := "9f86d081";
  ts_CurrentActionIndex := 0; ts_PreActionResults := []; ts_PostActionResults := [];
  ts_StartedAt := Some start; ts_ConnectionKill := None; ts_EventName := "" |}.
Definition demo_remote : Env := λ h o,
  match o as o return resp o with
  | Get _ KFailoverService _ =>
      inr (set_Transition (Some (demo_transition PhaseFlushingConnections 200)) (demo_fs true))
  | o => quiet h o
  end.
Definition demo_provider : RemoteClientProvider := λ _, mret (inr 0%nat).
Definition demo_wait : WaitRemoteAction := {|
  wm_Phase := Some PhaseUpdatingResources; wm_ActionName := None;
  wm_ConnectTimeoutSeconds := None; wm_ActionTimeoutSeconds := None |}.
Definition demo_wait_action : FailoverAction :=
  {| demo_action with fa_WaitRemote := Some demo_wait |}.
Definition demo_wait_ctx : Ctx := {|
  ctx_OwnerRef := Some (demo_controller_ref demo_meta);
  ctx_TransitionStartedAt := Some 100%Z; ctx_TransitionDirection := Some "failover" |}.

Lemma WaitRemote_success_witness :
  ∃ c remote t, phase_evidence c "default" "mysql-failover" remote PhaseUpdatingResources 100
    "failover" t.
Proof.
  pose proof (WaitRemote_success (Some demo_provider) demo_wait_ctx demo_wait_action demo_wait
    "default" "" 0 demo_remote []) as H.
  edestruct H as (owner & c & remote & Ho & _ & _ & Hev);
    [reflexivity|vm_compute; reflexivity|reflexivity|].
  injection Ho as <-. exists c, remote. eexists. exact Hev.
Defined.
