(* ===== verification/RemoteCluster.v ===== *)
(** * The remote cluster ([src/internal/remotecluster])

    The cached client of the remote cluster ([client.go]) and the push-based
    synchronisation of the desired direction with its conflict resolution
    ([syncer.go]). *)
From stdpp Require Import base gmap strings list numbers.
From S2P Require Import Prelude GoStd Types Kube Logic ApiServer Fixtures Actions WaitRemote.

(** ** client.go *)

Record ClientProvider := {
  cp_SecretName : string; cp_SecretNamespace : string;
  cp_cachedClient : option client_id; cp_cachedConfig : option restConfig;
  cp_lastResourceVer : string }.

Definition secret_key (p : ClientProvider) : NamespacedName :=
  {| nn_Name := cp_SecretName p; nn_Namespace := cp_SecretNamespace p |}.

Definition tuneRESTConfig (cfg : restConfig) : restConfig := {|
  rc_data := rc_data cfg;
  rc_Timeout := if (rc_Timeout cfg =? 0)%Z then 30 * Second else rc_Timeout cfg;
  rc_DialTimeout := Some (5 * Second)%Z |}.

(** The lookup of the local client under the caller's deadline. *)
Definition local_within (timeout : option Z) : target := {| t_site := Local; t_timeout := timeout |}.

(** The provider after the call, and the client. *)
Definition GetClient (p : ClientProvider) (timeout : option Z)
    : IO (ClientProvider * (goerr + client_id)) :=
  r ← api_get (local_within timeout) KSecret (secret_key p);
  match r with
  | inl err => mret (p, inl (wrapf "getting remote kubeconfig secret" err))
  | inr secret =>
      match cp_cachedClient p, decide (cp_lastResourceVer p = om_ResourceVersion (sec_meta secret)) with
      | Some c, left _ => mret (p, inr c)
      | _, _ =>
          match sec_Data secret !! "kubeconfig" with
          | None => mret (p, inl (Errorf ("secret " +:+ cp_SecretNamespace p +:+ "/"
                                          +:+ cp_SecretName p +:+ " missing 'kubeconfig' key")))
          | Some kubeconfigData =>
              r ← perform (RESTConfigFromKubeConfig kubeconfigData);
              match r with
              | inl err => mret (p, inl (wrapf "parsing remote kubeconfig" err))
              | inr restConfig =>
                  let restConfig := tuneRESTConfig restConfig in
                  r ← perform (NewClient restConfig);
                  match r with
                  | inl err => mret (p, inl (wrapf "creating remote client" err))
                  | inr c =>
                      mret ({| p with cp_cachedClient := Some c;
                                      cp_cachedConfig := Some restConfig;
                                      cp_lastResourceVer := om_ResourceVersion (sec_meta secret) |},
                            inr c)
                  end
              end
          end
      end
  end.

(** What the calls of other goroutines make of the provider. *)
Fixpoint other_calls (calls : list (option Z)) (p : ClientProvider) : IO ClientProvider :=
  match calls with
  | [] => mret p
  | timeout :: calls => '(p, _) ← GetClient p timeout; other_calls calls p
  end.

(** The mutex is free between the call of [GetClient] and the reading of the
    cached configuration: other goroutines may refresh the cache there. *)
Definition GetRESTConfig (p : ClientProvider) (timeout : option Z)
    : IO (ClientProvider * (goerr + restConfig * string)) :=
  '(p, r) ← GetClient p timeout;
  match r with
  | inl err => mret (p, inl err)
  | inr _ =>
      calls ← perform OtherCalls;
      p ← other_calls calls p;
      cfg ← deref (cp_cachedConfig p);
      mret (p, inr (cfg, cp_lastResourceVer p))
  end.

Definition SecretResourceVersion (p : ClientProvider) (timeout : option Z) : IO (goerr + string) :=
  r ← api_get (local_within timeout) KSecret (secret_key p);
  match r with
  | inl err => mret (inl (wrapf "getting remote kubeconfig secret" err))
  | inr secret => mret (inr (om_ResourceVersion (sec_meta secret)))
  end.

(** The provider as the [RemoteClientProvider] of the other components, in its
    state [p]. *)
Definition provider_at (p : ClientProvider) : RemoteClientProvider :=
  λ timeout, '(_, r) ← GetClient p timeout; mret r.

(** ** syncer.go *)

Definition DefaultSyncTimeout : Z := 30 * Second.

Record SyncResult := { sr_RemoteWins : bool; sr_RemoteState : option RemoteState }.

Record Syncer := { sy_ClusterID : string; sy_SyncTimeout : Z }.

Definition syncTimeout (s : Syncer) : Z :=
  if (0 <? sy_SyncTimeout s)%Z then sy_SyncTimeout s else DefaultSyncTimeout.

Definition cluster_id_annotation := "k8s-failover.zyno.io/cluster-id".

Definition remoteClusterID (remote : FailoverService) : string :=
  match mget (om_Annotations (fs_meta remote)) cluster_id_annotation with
  | Some id => id
  | None => ""
  end.

Definition SetClusterIDAnnotation (obj : ObjectMeta) (clusterID : string) : ObjectMeta :=
  let annotations := match om_Annotations obj with Some m => m | None => ∅ end in
  {| obj with om_Annotations := Some (<[cluster_id_annotation := clusterID]> annotations) |}.

(** Whether the remote wins a conflict on the direction. *)
Definition remote_wins (clusterID : string) (loc remote : FailoverService) : bool :=
  let remoteGen := st_ActiveGeneration (fs_status remote) in
  let localGen := st_ActiveGeneration (fs_status loc) in
  if (localGen <? remoteGen)%Z then true
  else if (remoteGen =? localGen)%Z then
    match st_SpecChangeTime (fs_status remote), st_SpecChangeTime (fs_status loc) with
    | Some remoteTime, Some localTime =>
        if After remoteTime localTime then true
        else if After localTime remoteTime then false
        else str_ltb clusterID (remoteClusterID remote)
    | _, _ => str_ltb clusterID (remoteClusterID remote)
    end
  else false.

(** The retried push of the local direction. *)
Definition push_direction (remoteClient : target) (loc : FailoverService) : IO error :=
  r ← api_get remoteClient KFailoverService (meta_key (fs_meta loc));
  match r with
  | inl err => mret (Some err)
  | inr remote =>
      let remote := set_FailoverActive (sp_FailoverActive (fs_spec loc)) remote in
      r ← api_update remoteClient KFailoverService remote;
      mret (err_of r)
  end.

Section sync.
Context `{KubeLib}.

Definition Sync_body (s : Syncer) (provider : RemoteClientProvider) (loc : FailoverService)
    : IO (goerr + SyncResult) :=
  r ← provider (Some (syncTimeout s));
  match r with
  | inl err => mret (inl (wrapf "getting remote client" err))
  | inr c =>
      let remoteClient := {| t_site := Remote c; t_timeout := Some (syncTimeout s) |} in
      r ← api_get remoteClient KFailoverService (meta_key (fs_meta loc));
      match r with
      | inl err => mret (inl (wrapf "getting remote FailoverService" err))
      | inr remote =>
          n ← now;
          let state := {|
            rs_FailoverActive := sp_FailoverActive (fs_spec remote);
            rs_ActiveCluster := st_ActiveCluster (fs_status remote);
            rs_ActiveGeneration := st_ActiveGeneration (fs_status remote);
            rs_LastSyncTime := Some n;
            rs_ClusterID := remoteClusterID remote;
            rs_SpecChangeTime := st_SpecChangeTime (fs_status remote) |} in
          if eqb (sp_FailoverActive (fs_spec remote)) (sp_FailoverActive (fs_spec loc)) then
            mret (inr {| sr_RemoteWins := false; sr_RemoteState := Some state |})
          else if remote_wins (sy_ClusterID s) loc remote then
            mret (inr {| sr_RemoteWins := true; sr_RemoteState := Some state |})
          else
            e ← RetryOnConflict (push_direction remoteClient loc);
            match e with
            | Some err =>
                if IsConflict err then
                  mret (inl (wrapf "pushing state to remote (conflict)" err))
                else mret (inl (wrapf "pushing state to remote" err))
            | None =>
                mret (inr {| sr_RemoteWins := false;
                             sr_RemoteState := Some {| state with
                               rs_FailoverActive := sp_FailoverActive (fs_spec loc);
                               rs_LastSyncTime := Some n |} |})
            end
      end
  end.

(** The body, timed by the deferred metric. *)
Definition Sync (s : Syncer) (provider : RemoteClientProvider) (loc : FailoverService)
    : IO (goerr + SyncResult) :=
  start ← now;
  r ← Sync_body s provider loc;
  n ← now;
  _ ← emit (RemoteSyncDuration (n - start)%Z);
  mret r.

End sync.

(** ** Conflict resolution *)

Lemma str_ltb_total s1 s2 : s1 ≠ s2 → str_ltb s1 s2 = negb (str_ltb s2 s1).
Proof.
  intros Hne. unfold str_ltb, String.ltb. rewrite (String.compare_antisym s1 s2).
  destruct (String.compare s2 s1) eqn:Hc; try done.
  by apply String.compare_eq_iff in Hc.
Qed.

(** Two clusters with different identities that disagree on the direction
    resolve the conflict the same way: the remote wins in the eyes of one exactly
    when it does not in the eyes of the other. *)
Lemma remote_wins_opposite idA idB (a b : FailoverService) :
  remoteClusterID a = idA → remoteClusterID b = idB → idA ≠ idB →
  remote_wins idA a b = negb (remote_wins idB b a).
Proof.
  intros Ha Hb Hne. unfold remote_wins. rewrite Ha, Hb.
  pose proof (str_ltb_total idA idB Hne) as Hs.
  destruct (Z.ltb_spec (st_ActiveGeneration (fs_status a)) (st_ActiveGeneration (fs_status b))),
    (Z.ltb_spec (st_ActiveGeneration (fs_status b)) (st_ActiveGeneration (fs_status a))),
    (Z.eqb_spec (st_ActiveGeneration (fs_status b)) (st_ActiveGeneration (fs_status a))),
    (Z.eqb_spec (st_ActiveGeneration (fs_status a)) (st_ActiveGeneration (fs_status b)));
    try lia; try done.
  destruct (st_SpecChangeTime (fs_status a)) as [ta|], (st_SpecChangeTime (fs_status b)) as [tb|];
    try done. unfold After. repeat case_bool_decide; done || lia.
Qed.

(** ** The push *)

(** The remote object of the local one's name has been updated to the local
    direction, nothing else of what was read changed. *)
Definition pushed (c : target) (loc : FailoverService) (t : hist) : Prop :=
  ∃ remote remote',
    Ev (Get c KFailoverService (meta_key (fs_meta loc))) (inr remote) ∈ t
    ∧ Ev (Update c KFailoverService
            (set_FailoverActive (sp_FailoverActive (fs_spec loc)) remote)) (inr remote') ∈ t.

Lemma pushed_app c loc t1 t2 : pushed c loc t2 → pushed c loc (t1 ++ t2).
Proof.
  intros (r & r' & ? & ?). exists r, r'. split; apply elem_of_app; by right.
Qed.

Lemma push_direction_pushed c loc :
  wp (push_direction c loc) (λ o t, o = Ret None → pushed c loc t).
Proof.
  unfold push_direction. repeat wp_step; intros [=]. destruct r0; simplify_eq/=.
  eexists _, _. split; [constructor|constructor; constructor].
Qed.

Section sync_properties.
Context `{KubeLibLaws}.

(** What a synchronisation did, given the remote object it saw. *)
Definition synced (s : Syncer) (c : target) (loc remote : FailoverService) (res : SyncResult)
    (t : hist) : Prop :=
  let agree := sp_FailoverActive (fs_spec remote) = sp_FailoverActive (fs_spec loc) in
  let wins := remote_wins (sy_ClusterID s) loc remote = true in
  (sr_RemoteWins res = true ↔ ¬ agree ∧ wins)
  ∧ ∃ st, sr_RemoteState res = Some st
  ∧ rs_ActiveGeneration st = st_ActiveGeneration (fs_status remote)
  ∧ rs_ClusterID st = remoteClusterID remote
  ∧ ((agree ∨ wins) ∧ rs_FailoverActive st = sp_FailoverActive (fs_spec remote)
       ∧ Forall action_event t
     ∨ ¬ agree ∧ ¬ wins ∧ rs_FailoverActive st = sp_FailoverActive (fs_spec loc)
       ∧ pushed c loc t).

Lemma provider_at_safe p : provider_safe (provider_at p).
Proof. intros timeout. unfold provider_at, GetClient. rg_solve. Qed.

Lemma provider_at_events p timeout : emits action_event (provider_at p timeout).
Proof.
  intros E h. apply (provider_at_safe p timeout E h). by apply Forall_true.
Qed.

Lemma Sync_body_synced s p loc :
  wp (Sync_body s (provider_at p) loc) (λ o t, ∀ res, o = Ret (inr res) →
    ∃ c remote, Ev (Get c KFailoverService (meta_key (fs_meta loc))) (inr remote) ∈ t
      ∧ synced s c loc remote res t).
Proof.
  unfold Sync_body. wp_step.
  eapply wp_mono; [apply provider_at_events|]. intros [[err|c]|] t0 Ht0;
    [wp_step; by intros ? [=]| |by intros ? [=]].
  cbv zeta. generalize {| t_site := Remote c; t_timeout := Some (syncTimeout s) |}. intros tc.
  repeat wp_step; try (by intros ? [=]).
  - intros ? [= <-]. apply eqb_prop in Heqb. exists tc, k. unfold synced. simpl.
    split; [apply elem_of_app; right; constructor|].
    split; [split; [done|by intros []]|]. eexists; split_and!; [done..|left]. split_and!; [auto|done|].
    repeat first [apply Forall_app; split|constructor]; done.
  - intros ? [= <-]. apply eqb_false_iff in Heqb. exists tc, k. unfold synced. simpl.
    split; [apply elem_of_app; right; constructor|].
    split; [done|]. eexists; split_and!; [done..|left]. split_and!; [auto|done|].
    repeat first [apply Forall_app; split|constructor]; done.
  - eapply wp_mono.
    { apply (OnError_wp _ _ _ (pushed_app tc loc)), push_direction_pushed. }
    intros [[err|]|] t Ht; [repeat wp_step; by intros ? [=]| |by intros ? [=]].
    wp_step. intros ? [= <-]. apply eqb_false_iff in Heqb.
    exists tc, k. unfold synced. simpl.
    split; [apply elem_of_app; right; constructor|].
    split; [split; [done|intros []; congruence]|]. eexists; split_and!; [done..|right]. split_and!; [done|congruence|done|].
    rewrite app_nil_r. apply pushed_app. apply (pushed_app _ _ [_; _]). auto.
Qed.

(** C17: a successful [Sync] has read the remote FailoverService and either
    changed nothing, when the clusters agree or the remote wins, or pushed the
    local direction to it and nothing else; its result says which. *)
Theorem Sync_outcome s p loc E h res :
  (Sync s (provider_at p) loc E h).1 = Ret (inr res) →
  ∃ c remote, Ev (Get c KFailoverService (meta_key (fs_meta loc))) (inr remote)
      ∈ (Sync s (provider_at p) loc E h).2
    ∧ synced s c loc remote res (Sync s (provider_at p) loc E h).2.
Proof.
  revert E h res. change (wp (Sync s (provider_at p) loc) (λ o t, ∀ res, o = Ret (inr res) →
    ∃ c remote, Ev (Get c KFailoverService (meta_key (fs_meta loc))) (inr remote) ∈ t
      ∧ synced s c loc remote res t)).
  unfold Sync. do 2 wp_step. eapply wp_mono; [apply Sync_body_synced|].
  intros [res|] t Ht; [|by intros ? [=]]. repeat wp_step. intros ? [= ->].
  destruct (Ht _ eq_refl) as (c & remote & Hin & H1 & st & H2 & H3 & H5 & H4). exists c, remote.
  split; [right; apply elem_of_app; by left|]. split; [done|]. exists st. split_and!; [done..|].
  destruct H4 as [(?&?&Hev)|(?&?&?&Hev)]; [left|right]; split_and!; try done.
  - constructor; [done|]. apply Forall_app; split; [done|]. by repeat constructor.
  - apply (pushed_app _ _ [_]). destruct Hev as (?&?&?&?). do 2 eexists.
    split; apply elem_of_app; left; eassumption.
Qed.

(** ** The promise to the controller *)

(** Events of a synchronisation: reads, metrics, and updates of the remote
    FailoverService; nothing is written locally. *)
Definition remote_event (e : event) : Prop :=
  match e with
  | Ev (Update t k _) _ => t_site t ≠ Local ∧ k = KFailoverService
  | Ev (Create _ _) _ | Ev (UpdateStatus _ _) _ | Ev (Delete _ _ _) _ => False
  | Ev (HTTPDo _ _) _ | Ev (ScaleUpdate _ _ _) _ => False
  | _ => True
  end.

Lemma push_direction_safe c loc :
  t_site c ≠ Local → rg any_event remote_event (push_direction c loc) (λ _, True).
Proof. intros Hc. unfold push_direction. by rg_solve. Qed.

Lemma provider_at_remote p timeout :
  rg any_event remote_event (provider_at p timeout) (λ _, True).
Proof. unfold provider_at, GetClient. rg_solve. Qed.

(** A winning remote comes with its state. *)
Definition sync_answer (x : goerr + SyncResult) : Prop :=
  match x with
  | inr res => sr_RemoteWins res = true → is_Some (sr_RemoteState res)
  | inl _ => True
  end.

Lemma Sync_body_safe s p loc :
  rg any_event remote_event (Sync_body s (provider_at p) loc) sync_answer.
Proof.
  unfold Sync_body. rg_solve; auto using provider_at_remote.
  - by eexists.
  - by apply OnError_safe, push_direction_safe.
Qed.

Lemma Sync_safe s p loc : rg any_event remote_event (Sync s (provider_at p) loc) sync_answer.
Proof.
  unfold Sync. rg_step; [done|]. eapply rg_bind; [apply Sync_body_safe|].
  intros x Hx. by rg_solve.
Qed.

End sync_properties.

(** ** The client cache *)

(** In the history [h], [c] was built from the kubeconfig of the Secret at
    version [ver]. *)
Definition built_from (key : NamespacedName) (h : hist) (ver : string) (c : client_id) : Prop :=
  ∃ t secret data cfg,
    Ev (Get t KSecret key) (inr secret) ∈ h
    ∧ om_ResourceVersion (sec_meta secret) = ver ∧ sec_Data secret !! "kubeconfig" = Some data
    ∧ Ev (RESTConfigFromKubeConfig data) (inr cfg) ∈ h
    ∧ Ev (NewClient (tuneRESTConfig cfg)) (inr c) ∈ h.

Definition coherent (p : ClientProvider) (h : hist) : Prop :=
  ∀ c, cp_cachedClient p = Some c → built_from (secret_key p) h (cp_lastResourceVer p) c.

Lemma built_from_app key h t ver c : built_from key h ver c → built_from key (h ++ t) ver c.
Proof.
  intros (tg & secret & data & cfg & ? & ? & ? & ? & ?). exists tg, secret, data, cfg.
  split_and!; try done; apply elem_of_app; by left.
Qed.

Lemma fresh_built p h timeout secret data cfg c :
  sec_Data secret !! "kubeconfig" = Some data →
  built_from (secret_key p) (h ++ [Ev (Get (local_within timeout) KSecret (secret_key p)) (inr secret);
                      Ev (RESTConfigFromKubeConfig data) (inr cfg);
                      Ev (NewClient (tuneRESTConfig cfg)) (inr c)])
    (om_ResourceVersion (sec_meta secret)) c.
Proof.
  intros Hd. exists (local_within timeout), secret, data, cfg.
  split_and!; try done; apply elem_of_app; right; repeat constructor.
Qed.

(** The client cache is coherent: a call keeps the invariant, and the client
    it answers was built from the kubeconfig at the version of the Secret that
    the same call has just read, so rotated credentials are never served from
    the cache. *)
Theorem GetClient_coherent p timeout E h p' r :
  coherent p h → (GetClient p timeout E h).1 = Ret (p', r) →
  coherent p' (h ++ (GetClient p timeout E h).2)
  ∧ ∀ c, r = inr c → ∃ secret,
      Ev (Get (local_within timeout) KSecret (secret_key p)) (inr secret)
        ∈ (GetClient p timeout E h).2
      ∧ built_from (secret_key p) (h ++ (GetClient p timeout E h).2) (om_ResourceVersion (sec_meta secret)) c.
Proof.
  intros Hp. revert p' r.
  assert (wp (GetClient p timeout) (λ o t, ∀ p' r, o = Ret (p', r) → coherent p' (h ++ t)
    ∧ ∀ c, r = inr c → ∃ secret,
      Ev (Get (local_within timeout) KSecret (secret_key p)) (inr secret) ∈ t
      ∧ built_from (secret_key p) (h ++ t) (om_ResourceVersion (sec_meta secret)) c)) as H; [|apply H].
  assert (Hkeep : ∀ t, coherent p (h ++ t)) by (intros t c Hc; by apply built_from_app, Hp).
  unfold GetClient.
  repeat wp_step; intros ? ? [= <- <-]; (split; [try apply Hkeep|intros ? [=]]); subst.
  - exists k. split; [constructor|]. rewrite <- e. by apply built_from_app, Hp.
  - intros c [= <-]. exact (fresh_built p h _ _ _ _ _ Heqo0).
  - exists k. split; [constructor|]. by apply fresh_built.
  - intros c [= <-]. exact (fresh_built p h _ _ _ _ _ Heqo0).
  - exists k. split; [constructor|]. by apply fresh_built.
Qed.

(** ** Witnesses *)

Definition demo_peer (id : string) (active : bool) (changed : option time) : FailoverService :=
  set_SpecChangeTime changed
    (set_meta (SetClusterIDAnnotation (fs_meta (demo_fs active)) id) (demo_fs active)).


Definition demo_cp : ClientProvider := {|
  cp_SecretName := "remote-kubeconfig"; cp_SecretNamespace := "failover-system";
  cp_cachedClient := None; cp_cachedConfig := None; cp_lastResourceVer := "" |}.
Definition demo_secret : Secret := {|
  sec_meta := {| (new_meta "remote-kubeconfig" "failover-system") with om_ResourceVersion := "17" |};
  sec_Data := {[ "kubeconfig" := "apiVersion: v1" ]} |}.

(** A remote cluster that still runs on its primary. *)
Definition demo_sync_env : Env := λ h o,
  match o as o return resp o with
  | Get _ KSecret _ => inr demo_secret
  | Get _ KFailoverService _ => inr (demo_peer "us-west-2" false (Some 4%Z))
  | Update _ KFailoverService o => inr o
  | o => quiet h o
  end.
Definition demo_syncer : Syncer := {| sy_ClusterID := "us-east-1"; sy_SyncTimeout := 0 |}.

Lemma Sync_outcome_witness :
  ∃ c remote res t, synced demo_syncer c (demo_peer "us-east-1" true (Some 5%Z)) remote res t
    ∧ rs_FailoverActive <$> sr_RemoteState res = Some true.
Proof.
  pose proof (Sync_outcome demo_syncer demo_cp (demo_peer "us-east-1" true (Some 5%Z))
    demo_sync_env []) as H.
  edestruct H as (c & remote & _ & Hs); [vm_compute; reflexivity|].
  exists c, remote. do 2 eexists. split; [exact Hs|reflexivity].
Defined.

Lemma GetClient_coherent_witness :
  ∃ p' h, coherent p' h ∧ is_Some (cp_cachedClient p').
Proof.
  pose proof (GetClient_coherent demo_cp None demo_sync_env []) as H.
  edestruct H as [Hc _]; [discriminate|vm_compute; reflexivity|].
  do 2 eexists. split; [exact Hc|]. eexists. reflexivity.
Defined.
