(* ===== verification/Worlds.v ===== *)
(** * Two clusters

    The stored objects of a cluster and of its peer, seen from the cluster whose
    manager runs: operations at the local site act on the first, those of a
    remote client on the second, each with the documented behaviour of
    [ApiServer].  [shared] is the triple on such a pair of stores. *)
From stdpp Require Import base gmap strings list numbers.
From S2P Require Import Prelude GoStd Types Kube Logic ApiServer.

Record world := { w_here : store; w_peer : store }.
(** The same pair seen from the peer. *)
Definition flip (w : world) : world := {| w_here := w_peer w; w_peer := w_here w |}.

(** What an operation of a remote client is to the cluster it is sent to. *)
Definition at_peer (e : event) : option event :=
  match e with
  | Ev (Get t k key) r =>
      match t_site t with Local => None | Remote _ => Some (Ev (Get local k key) r) end
  | Ev (Update t k o) r =>
      match t_site t with Local => None | Remote _ => Some (Ev (Update local k o) r) end
  | _ => None
  end.

Definition world_step (w w' : world) (e : event) : Prop :=
  step_ok (w_here w) (w_here w') e
  ∧ match at_peer e with
    | Some e' => step_ok (w_peer w) (w_peer w') e'
    | None => w_peer w' = w_peer w
    end.

Fixpoint world_serves (w : world) (t : hist) (w' : world) : Prop :=
  match t with
  | [] => w' = w
  | e :: t => ∃ w1, world_step w w1 e ∧ world_serves w1 t w'
  end.

Definition world_keyed (w : world) : Prop := keyed (w_here w) ∧ keyed (w_peer w).

Lemma world_step_keyed w w' e : world_keyed w → world_step w w' e → world_keyed w'.
Proof.
  intros [Hh Hp] [H1 H2]. split; [exact (step_keyed _ _ _ Hh H1)|].
  destruct (at_peer e); [exact (step_keyed _ _ _ Hp H2)|by rewrite H2].
Qed.

Lemma world_serves_keyed w t w' : world_keyed w → world_serves w t w' → world_keyed w'.
Proof.
  revert w. induction t as [|e t IH]; intros w Hk; cbn; [by intros ->|].
  intros (w1 & H1 & H2). apply (IH w1); [|done]. by apply (world_step_keyed _ _ _ Hk H1).
Qed.

Lemma world_serves_app w t1 t2 w2 :
  world_serves w (t1 ++ t2) w2 ↔ ∃ w1, world_serves w t1 w1 ∧ world_serves w1 t2 w2.
Proof.
  revert w; induction t1 as [|e t1 IH]; intros w; cbn.
  - split; [eauto|by intros (? & -> & ?)].
  - setoid_rewrite IH. split; [intros (s1&?&s2&?&?)|intros (s2&(s1&?&?)&?)]; eauto 10.
Qed.

(** The local cluster alone is served as in [ApiServer]. *)
Lemma world_serves_here w t w' : world_serves w t w' → serves (w_here w) t (w_here w').
Proof.
  revert w. induction t as [|e t IH]; intros w; cbn; [by intros ->|].
  intros (w1 & [H1 _] & H2). eauto.
Qed.

(** ** The triple

    Run from the (keyed) pair [w] with answers that satisfy [R], [m] ends with an
    outcome and a pair that satisfy [Q]. *)
Definition shared {A} (R : event → Prop) (w : world) (m : IO A)
    (Q : outcome A → world → Prop) : Prop :=
  world_keyed w → wp m (λ o t, Forall R t → ∀ w', world_serves w t w' → Q o w').

Section rules.
Context {A B : Type} (R : event → Prop) (w : world).

Lemma shared_keyed (m : IO A) (Q : outcome A → world → Prop) :
  (world_keyed w → shared R w m Q) → shared R w m Q.
Proof. intros H Hk. by apply H. Qed.

Lemma shared_ret (a : A) (Q : outcome A → world → Prop) : Q (Ret a) w → shared R w (mret a) Q.
Proof. intros H Hk. apply wp_ret. by intros _ w' ->. Qed.

Lemma shared_deref (x : option A) (Q : outcome A → world → Prop) :
  match x with Some a => Q (Ret a) w | None => Q Panic w end → shared R w (deref x) Q.
Proof. destruct x; intros H Hk; [by apply shared_ret|]. apply wp_panic. by intros _ w' ->. Qed.

Lemma shared_bind (m : IO A) (f : A → IO B) (Q : outcome B → world → Prop) :
  shared R w m (λ o w1, match o with Ret a => shared R w1 (f a) Q | Panic => Q Panic w1 end) →
  shared R w (m ≫= f) Q.
Proof.
  intros H Hk. apply wp_bind. intros E h. specialize (H Hk E h).
  destruct (m E h) as [[a|] t]; simpl in *; [|done].
  intros E' h' [HR1 HR2]%Forall_app w' (w1 & H1 & H2)%world_serves_app.
  by apply (H HR1 w1 H1 (world_serves_keyed _ _ _ Hk H1) E' h').
Qed.

Lemma shared_mono (m : IO A) (Q Q' : outcome A → world → Prop) :
  shared R w m Q → (∀ o w', Q o w' → Q' o w') → shared R w m Q'.
Proof. intros H HQ Hk. eapply wp_mono; [by apply H|]. simpl. eauto. Qed.

Lemma shared_conj (m : IO A) (Q Q' : outcome A → world → Prop) :
  shared R w m Q → shared R w m Q' → shared R w m (λ o w', Q o w' ∧ Q' o w').
Proof. intros H H' Hk E h HR w' Hw. split; [by eapply H|by eapply H']. Qed.

(** From a property of the outcome and the events alone. *)
Lemma shared_wp (m : IO A) (Q : outcome A → world → Prop) :
  wp m (λ o t, Forall R t → ∀ w', world_serves w t w' → Q o w') → shared R w m Q.
Proof. by intros H _. Qed.

Lemma shared_perform (o : op) (Q : outcome (resp o) → world → Prop) :
  (∀ r w', R (Ev o r) → world_step w w' (Ev o r) → Q (Ret r) w') → shared R w (perform o) Q.
Proof.
  intros HQ Hk. apply wp_perform. intros r [HR _]%Forall_cons_1 w' (w1 & Hst & ->). by apply HQ.
Qed.

Lemma shared_ext (m m' : IO A) (Q : outcome A → world → Prop) :
  (∀ E h, m E h = m' E h) → shared R w m' Q → shared R w m Q.
Proof. intros He H Hk. eapply wp_ext; [exact He|by apply H]. Qed.
End rules.

Lemma shared_weaken {A} (R R' : event → Prop) w (m : IO A) (Q : outcome A → world → Prop) :
  shared R w m Q → (∀ e, R' e → R e) → shared R' w m Q.
Proof.
  intros H HR Hk. eapply wp_mono; [by apply H|]. intros o t Ht HR'. apply Ht.
  by eapply Forall_impl.
Qed.

(** ** The directions stored under a name *)

Definition direction (fs : FailoverService) : bool := sp_FailoverActive (fs_spec fs).
Definition being_deleted (fs : FailoverService) : bool :=
  negb (time_ptr_IsZero (om_DeletionTimestamp (fs_meta fs))).
Definition stored_direction (key : NamespacedName) (st : store) : option bool :=
  direction <$> st KFailoverService key.
(** The direction, and whether the object is being deleted. *)
Definition standing (key : NamespacedName) (st : store) : option (bool * bool) :=
  (λ fs, (direction fs, being_deleted fs)) <$> st KFailoverService key.
(** Here and at the peer. *)
Definition directions (key : NamespacedName) (w : world) : option bool * option bool :=
  (stored_direction key (w_here w), stored_direction key (w_peer w)).
Definition standings (key : NamespacedName) (w : world) : option (bool * bool) * option (bool * bool) :=
  (standing key (w_here w), standing key (w_peer w)).

Lemma stored_direction_standing key st : stored_direction key st = fst <$> standing key st.
Proof. unfold stored_direction, standing. by destruct (st KFailoverService key). Qed.
Lemma directions_standings key w w' :
  standings key w' = standings key w → directions key w' = directions key w.
Proof.
  unfold standings, directions. intros Hs. injection Hs as H1 H2.
  by rewrite !stored_direction_standing, H1, H2.
Qed.

(** An event that does not write the specification of a FailoverService. *)
Definition keeps_specs (e : event) : Prop :=
  match e with
  | Ev (Create k _) _ | Ev (Update _ k _) _ | Ev (Delete k _ _) _ => k ≠ KFailoverService
  | _ => True
  end.

Lemma put_standing key st k key' o :
  k ≠ KFailoverService → standing key (put st k key' o) = standing key st.
Proof. intros Hk. unfold standing. rewrite put_ne; [done|]. left. congruence. Qed.

Lemma step_standing key st st' e :
  keeps_specs e → step_ok st st' e → standing key st' = standing key st.
Proof.
  destruct e as [[] r]; simpl; intros Hk; try (by intros ->); try (by intros [-> _]).
  - destruct r; [by intros ->|]. intros (_&_&_&_&_&->). by apply put_standing.
  - destruct (t_site t), r; try (by intros ->).
    intros (old&_&_&_&_&_&->). by apply put_standing.
  - destruct r as [|o']; [by intros ->|]. intros (old & Hold & _ & Hl & Hspec & _ & ->).
    destruct (decide (k = KFailoverService)) as [->|Hne]; [|by apply put_standing].
    unfold standing. destruct (decide (key = okey KFailoverService o)) as [->|Hne].
    + rewrite put_eq, Hold. simpl in *. unfold direction, being_deleted. destruct Hl as [_ Hl].
      simpl in Hl. by rewrite Hspec, Hl.
    + by rewrite put_ne by auto.
  - destruct r; [by intros ->|]. intros [->|(o' & _ & _ & ->)]; by apply put_standing.
Qed.

Lemma world_step_standings key w w' e :
  keeps_specs e → world_step w w' e → standings key w' = standings key w.
Proof.
  intros Hk [H1 H2]. unfold standings. f_equal; [by eapply step_standing|].
  destruct (at_peer e) as [e'|] eqn:He; [|by rewrite H2].
  eapply step_standing; [|exact H2].
  destruct e as [[] r]; simpl in He; try discriminate; destruct (t_site t); by simplify_eq.
Qed.

Lemma world_serves_standings key t : ∀ w w',
  Forall keeps_specs t → world_serves w t w' → standings key w' = standings key w.
Proof.
  induction t as [|e t IH]; intros w w'; cbn; [by intros _ ->|].
  intros [He Ht]%Forall_cons_1 (w1 & H1 & H2).
  rewrite (IH w1 w' Ht H2). exact (world_step_standings _ _ _ _ He H1).
Qed.

(** A computation without such writes keeps the directions. *)
Lemma shared_keeps {A} R w (m : IO A) (Q : outcome A → world → Prop) :
  emits keeps_specs m → (∀ o w', (∀ key, standings key w' = standings key w) → Q o w') →
  shared R w m Q.
Proof.
  intros Hm HQ Hk. eapply wp_mono; [exact Hm|]. intros o t Ht _ w' Hw. apply HQ.
  intros key. exact (world_serves_standings key t w w' Ht Hw).
Qed.

(** The rest of the program after such a computation. *)
Lemma shared_bind_keeps {A B} R w (m : IO A) (f : A → IO B) (Q : outcome B → world → Prop) :
  emits keeps_specs m →
  (∀ w', (∀ key, standings key w' = standings key w) → Q Panic w') →
  (∀ a w', (∀ key, standings key w' = standings key w) → shared R w' (f a) Q) →
  shared R w (m ≫= f) Q.
Proof. intros Hm HP HQ. apply shared_bind, shared_keeps; [done|]. intros [a|] w' Hw; auto. Qed.

(** ** The peer's objects *)

(** No update is sent to the peer. *)
Definition stays_home (e : event) : Prop :=
  match e with Ev (Update t _ _) _ => t_site t = Local | _ => True end.

Lemma world_serves_home t : ∀ w w',
  Forall stays_home t → world_serves w t w' → w_peer w' = w_peer w.
Proof.
  induction t as [|e t IH]; intros w w'; cbn; [by intros _ ->|].
  intros [He Ht]%Forall_cons_1 (w1 & [_ H1] & H2). rewrite (IH w1 w') by done.
  destruct (at_peer e) as [e'|] eqn:Hp; [|done].
  destruct e as [[] r]; simpl in Hp, He; try discriminate; destruct (t_site t0); simplify_eq.
  by destruct H1 as [-> _].
Qed.

(** ** Reading and writing FailoverServices *)

Lemma world_eq w w' : w_here w' = w_here w → w_peer w' = w_peer w → w' = w.
Proof. destruct w, w'; simpl. by intros -> ->. Qed.

(** Operations that change no stored object. *)
Definition reads_only (e : event) : Prop :=
  match e with
  | Ev (Create _ _) _ | Ev (Update _ _ _) _ | Ev (UpdateStatus _ _) _ | Ev (Delete _ _ _) _ => False
  | _ => True
  end.

Lemma world_step_reads w w' e : reads_only e → world_step w w' e → w' = w.
Proof.
  intros He [H1 H2]. apply world_eq.
  - destruct e as [[] r]; simpl in He, H1; try done; by destruct H1.
  - destruct e as [[] r]; simpl in He, H2; try done. destruct (t_site t); [done|by destruct H2].
Qed.

Lemma shared_reads {A} R w (m : IO A) (Q : outcome A → world → Prop) :
  emits reads_only m → (∀ o, Q o w) → shared R w m Q.
Proof.
  intros Hm HQ Hk. eapply wp_mono; [exact Hm|]. intros o t Ht _ w' Hw.
  enough (w' = w) as -> by done. clear -Ht Hw. revert w Hw.
  induction Ht as [|e t He Ht IH]; intros w; cbn; [done|]. intros (w1 & H1 & H2).
  rewrite <- (world_step_reads _ _ _ He H1). by apply IH.
Qed.

Lemma shared_now R w (Q : outcome time → world → Prop) :
  (∀ n, Q (Ret n) w) → shared R w now Q.
Proof.
  intros HQ. apply (shared_perform _ _ Now). intros n w' _ Hs.
  by rewrite (world_step_reads w w' (Ev Now n) I Hs).
Qed.
Lemma shared_emit R w m (Q : outcome unit → world → Prop) :
  Q (Ret tt) w → shared R w (emit m) Q.
Proof.
  intros HQ. apply (shared_perform _ _ (Metric m)). intros [] w' _ Hs.
  by rewrite (world_step_reads w w' (Ev (Metric m) tt) I Hs).
Qed.

Lemma shared_get_here R w key (Q : outcome (goerr + FailoverService) → world → Prop) :
  (∀ err, R (Ev (Get local KFailoverService key) (inl err)) → Q (Ret (inl err)) w) →
  (∀ o, w_here w KFailoverService key = Some o → Q (Ret (inr o)) w) →
  shared R w (api_get local KFailoverService key) Q.
Proof.
  intros H1 H2. apply shared_perform. intros r w' HR Hs.
  rewrite (world_step_reads w w' (Ev (Get _ KFailoverService key) r) I Hs). destruct Hs as [[_ Hr] _]. specialize (Hr eq_refl).
  destruct r; auto.
Qed.

Lemma shared_get_peer R w t c key (Q : outcome (goerr + FailoverService) → world → Prop) :
  t_site t = Remote c →
  (∀ err, R (Ev (Get t KFailoverService key) (inl err)) → Q (Ret (inl err)) w) →
  (∀ o, w_peer w KFailoverService key = Some o → Q (Ret (inr o)) w) →
  shared R w (api_get t KFailoverService key) Q.
Proof.
  intros Ht H1 H2. apply shared_perform. intros r w' HR Hs.
  rewrite (world_step_reads w w' (Ev (Get _ KFailoverService key) r) I Hs). destruct Hs as [_ Hs]. simpl in Hs.
  rewrite Ht in Hs. destruct Hs as [_ Hr]. specialize (Hr eq_refl). destruct r; auto.
Qed.

(** A write of [o] answers [o']: the specification and the name are those
    written. *)
Definition written (o o' : FailoverService) : Prop :=
  fs_spec o' = fs_spec o ∧ meta_key (fs_meta o') = meta_key (fs_meta o).

(** What an update makes of the stored object: it gets the direction sent, or it
    is gone, having been deleted. *)
Definition updated_to (d : bool) (x x' : option (bool * bool)) : Prop :=
  ∃ d0 del, x = Some (d0, del) ∧ (x' = Some (d, del) ∨ del = true ∧ x' = None).

Lemma update_standing st st' o r :
  step_ok st st' (Ev (Update local KFailoverService o) r) →
  match r with
  | inl _ => st' = st
  | inr o' => written o o'
      ∧ updated_to (direction o) (standing (meta_key (fs_meta o)) st)
                                 (standing (meta_key (fs_meta o)) st')
  end.
Proof.
  destruct r as [err|o']; [done|]. intros (old & Hold & Hm & [_ Hl] & Hs & _ & ->). simpl in *.
  split; [split; [done|by apply same_meta_key]|].
  exists (direction old), (being_deleted old). unfold standing, okey in *. simpl in *.
  rewrite put_eq, Hold. split; [done|]. unfold stored_as, finished. simpl.
  unfold direction, being_deleted. rewrite Hl, Hs.
  destruct (negb _) eqn:Hn, (bool_decide _); simpl; rewrite ?Hl, ?Hs, ?Hn; auto.
Qed.

Lemma shared_update_here R w o (Q : outcome (goerr + FailoverService) → world → Prop) :
  (∀ err, R (Ev (Update local KFailoverService o) (inl err)) → Q (Ret (inl err)) w) →
  (∀ o' w', written o o' → w_peer w' = w_peer w →
     updated_to (direction o) (standing (meta_key (fs_meta o)) (w_here w))
                              (standing (meta_key (fs_meta o)) (w_here w')) →
     Q (Ret (inr o')) w') →
  shared R w (api_update local KFailoverService o) Q.
Proof.
  intros H1 H2. apply shared_perform. intros r w' HR [Hh Hp]. simpl in Hp.
  pose proof (update_standing _ _ _ _ Hh) as Hd. destruct r as [err|o'].
  - rewrite (world_eq w w' Hd Hp). auto.
  - destruct Hd as [Hw Hd]. by apply H2.
Qed.

Lemma shared_update_peer R w t c o (Q : outcome (goerr + FailoverService) → world → Prop) :
  t_site t = Remote c →
  (∀ err, R (Ev (Update t KFailoverService o) (inl err)) → Q (Ret (inl err)) w) →
  (∀ o' w', written o o' → w_here w' = w_here w →
     step_ok (w_peer w) (w_peer w') (Ev (Update local KFailoverService o) (inr o')) →
     Q (Ret (inr o')) w') →
  shared R w (api_update t KFailoverService o) Q.
Proof.
  intros Ht H1 H2. apply shared_perform. intros r w' HR [Hh Hp]. simpl in Hh, Hp.
  rewrite Ht in Hh, Hp. pose proof (update_standing _ _ _ _ Hp) as Hd. destruct r as [err|o'].
  - rewrite (world_eq w w' Hh Hd). auto.
  - destruct Hd as [Hw _]. by apply H2.
Qed.

(** The answer of a status update has the stored specification. *)
Lemma shared_update_status R w o (Q : outcome (goerr + FailoverService) → world → Prop) :
  (∀ err, R (Ev (UpdateStatus KFailoverService o) (inl err)) → Q (Ret (inl err)) w) →
  (∀ o' w', meta_key (fs_meta o') = meta_key (fs_meta o) →
     (∀ key, standings key w' = standings key w) →
     stored_direction (meta_key (fs_meta o)) (w_here w) = Some (direction o') →
     Q (Ret (inr o')) w') →
  shared R w (api_update_status KFailoverService o) Q.
Proof.
  intros H1 H2. apply shared_keyed. intros [Hk _].
  apply shared_perform. intros r w' HR Hs.
  pose proof (λ key, world_step_standings key w w' (Ev (UpdateStatus KFailoverService o) r) I Hs)
    as Hd. destruct Hs as [Hh Hp]. simpl in Hh, Hp. destruct r as [err|o'].
  - rewrite (world_eq w w' Hh Hp). auto.
  - destruct Hh as (old & Hold & Hm & _ & Hs & _ & _). apply H2; [|done|].
    + rewrite (same_meta_key _ _ Hm). by apply (keyed_key _ KFailoverService _ _ Hk).
    + unfold stored_direction. simpl in *. unfold okey in Hold. simpl in Hold.
      rewrite Hold. simpl. unfold direction. by rewrite Hs.
Qed.

(** A retried computation whose failed attempts change nothing. *)
Lemma shared_attempts R w n retriable (fn : IO error) (P : world → Prop) :
  let Q := λ o w', match o with Ret None => P w' | Ret (Some _) => w' = w | Panic => False end in
  shared R w fn Q → shared R w (attempts n retriable fn) Q.
Proof.
  intros Q Hfn. induction n as [|n IH]; simpl; apply shared_bind;
    (eapply shared_mono; [exact Hfn|]); intros [[err|]|] w' Hw; try done;
    simpl in Hw; subst; try (by apply shared_ret).
  destruct (retriable err); [done|by apply shared_ret].
Qed.

(** ** A pair of in-memory servers *)

Definition world_answer (aux : Env) (h : hist) (w : world) (o : op) : resp o :=
  match o as o return resp o with
  | Get t k key =>
      sim_answer aux h (match t_site t with Local => w_here w | Remote _ => w_peer w end)
        (Get local k key)
  | Update t k o =>
      sim_answer aux h (match t_site t with Local => w_here w | Remote _ => w_peer w end)
        (Update local k o)
  | o => sim_answer aux h (w_here w) o
  end.
Definition world_apply (w : world) (e : event) : world := {|
  w_here := sim_apply (w_here w) e;
  w_peer := match at_peer e with Some e' => sim_apply (w_peer w) e' | None => w_peer w end |}.
Definition world_replay (w : world) (h : hist) : world := foldl world_apply w h.

(** The servers started with [w0]. *)
Definition world_sim (aux : Env) (w0 : world) : Env :=
  λ h o, world_answer aux h (world_replay w0 h) o.

Lemma world_sim_step_here aux h w t k key :
  step_ok (w_here w) (w_here w) (Ev (Get t k key) (world_answer aux h w (Get t k key))).
Proof.
  simpl. destruct (t_site t); (split; [done|]); [|done]. intros _. by destruct (w_here w k key).
Qed.

Lemma world_sim_step aux h w o :
  world_step w (world_apply w (Ev o (world_answer aux h w o))) (Ev o (world_answer aux h w o)).
Proof.
  destruct o as [|m|t k key|k o|t k o|k o|k o p|t ns|ns l|l|k o|k o b| | | | | | | | | | | | | | |
    | | | | | | | | | | |]; try (split; [exact (sim_step_ok aux h (w_here w) _)|reflexivity]).
  - split; [exact (world_sim_step_here aux h w t k key)|]. cbn [at_peer world_answer world_apply w_peer].
    destruct (t_site t); [done|]. exact (sim_step_ok aux h (w_peer w) (Get local k key)).
  - split; cbn [at_peer world_answer world_apply w_peer w_here]; simpl; destruct (t_site t) eqn:Ht.
    + exact (sim_step_ok aux h (w_here w) (Update local k o)).
    + by case_match.
    + done.
    + exact (sim_step_ok aux h (w_peer w) (Update local k o)).
Qed.

Lemma world_sim_serves aux w0 t : ∀ h,
  legit (world_sim aux w0) h t → world_serves (world_replay w0 h) t (world_replay w0 (h ++ t)).
Proof.
  induction t as [|[o r] t IH]; intros h; cbn.
  - intros _. by rewrite app_nil_r.
  - intros [-> Ht]. eexists. split; [apply world_sim_step|].
    specialize (IH _ Ht). unfold world_replay in IH at 1. rewrite foldl_app in IH.
    by rewrite <- app_assoc in IH.
Qed.

(** A run that starts with the servers. *)
Lemma world_sim_run aux w t :
  legit (world_sim aux w) [] t → world_serves w t (world_replay w t).
Proof. intros Ht. by apply (world_sim_serves aux w t []). Qed.
