(* ===== verification/Watcher.v ===== *)
(** * The remote watcher ([src/internal/remotecluster/watcher.go])

    Lists and watches the FailoverServices of the remote cluster and adds a
    reconcile request to the controller's queue for every item and every event;
    reconnects with an exponential backoff, and when the kubeconfig Secret
    changes.  The loops run until their context ends: they are observed for a
    number of rounds.  The [ClientProvider], which other components use as well,
    is part of the watcher's state here. *)
From stdpp Require Import base gmap strings list numbers.
From S2P Require Import Prelude GoStd Types Kube Logic ApiServer Fixtures RemoteCluster.

Definition listTimeout : Z := 15 * Second.
Definition minHealthyDuration : Z := 30 * Second.
Definition configPollInterval : Z := 30 * Second.
Definition maxBackoff : Z := 30 * Second.

(** Nil interfaces are [None]; the queue is the operation [QueueAdd]. *)
Record RemoteWatcher := {
  rw_ClientProvider : ClientProvider; rw_lastConfigVer : string;
  rw_listClient : option client_id; rw_watchClient : option client_id }.

(** The answer of [getDynamicClients]: the two clients with the version of the
    configuration they were built from. *)
Abbreviation clients := (goerr + client_id * option client_id * string)%type.

(** Building both clients from a configuration. *)
Definition make_clients (w : RemoteWatcher) (cfg : restConfig) (configVer : string)
    : IO (RemoteWatcher * clients) :=
  r ← perform (NewDynamic cfg);
  match r with
  | inl err => mret (w, inl (wrapf "creating list dynamic client" err))
  | inr lc =>
      let watchCfg := {| cfg with rc_Timeout := 0%Z |} in
      r ← perform (NewDynamic watchCfg);
      match r with
      | inl err => mret (w, inl (wrapf "creating watch dynamic client" err))
      | inr wc =>
          mret ({| w with rw_listClient := Some lc; rw_watchClient := Some wc;
                          rw_lastConfigVer := configVer |},
                inr (lc, Some wc, configVer))
      end
  end.

(** The watcher after the call, and its answer. *)
Definition getDynamicClients (w : RemoteWatcher) (timeout : option Z)
    : IO (RemoteWatcher * clients) :=
  '(p, r) ← GetRESTConfig (rw_ClientProvider w) timeout;
  let w := {| w with rw_ClientProvider := p |} in
  match r with
  | inl err => mret (w, inl err)
  | inr (cfg, configVer) =>
      match rw_listClient w, decide (rw_lastConfigVer w = configVer) with
      | Some lc, left _ => mret (w, inr (lc, rw_watchClient w, configVer))
      | _, _ => make_clients w cfg configVer
      end
  end.

Definition configChanged (w : RemoteWatcher) (knownVer : string) : IO bool :=
  r ← SecretResourceVersion (rw_ClientProvider w) (Some (5 * Second)%Z);
  match r with
  | inl err => if IsNotFound err then mret true else mret false
  | inr currentVer => mret (bool_decide (currentVer ≠ knownVer))
  end.

Fixpoint enqueueList (items : list NamespacedName) : IO unit :=
  match items with
  | [] => mret tt
  | item :: items => _ ← perform (QueueAdd item); enqueueList items
  end.

Definition enqueueEvent (event : WatchEvent) : IO unit :=
  match we_Object event with
  | None => mret tt
  | Some key => perform (QueueAdd key)
  end.

(** The select loop of [watchLoop]. *)
Fixpoint watch_session (rounds : nat) (w : RemoteWatcher) (watcher : nat) (configVer : string)
    : IO (loop error) :=
  match rounds with
  | O => mret Running
  | S rounds =>
      ev ← perform (WaitOrTick watcher configPollInterval);
      match ev with
      | Some CtxDone => mret (Exit None)
      | None =>
          changed ← configChanged w configVer;
          if (changed : bool) then mret (Exit (Some (Errorf "kubeconfig rotated")))
          else watch_session rounds w watcher configVer
      | Some Closed => mret (Exit (Some (Errorf "watch channel closed")))
      | Some (Received event) =>
          if bool_decide (we_Type event = "ERROR") then
            mret (Exit (Some (Errorf "watch error event received")))
          else
            _ ← enqueueEvent event;
            watch_session rounds w watcher configVer
      end
  end.

Definition watchLoop (rounds : nat) (w : RemoteWatcher) : IO (RemoteWatcher * loop error) :=
  '(w, r) ← getDynamicClients w None;
  match r with
  | inl err => mret (w, Exit (Some (wrapf "getting dynamic clients" err)))
  | inr (listDynClient, watchDynClient, configVer) =>
      r ← perform (ListRemote listDynClient (Some listTimeout));
      match r with
      | inl err => mret (w, Exit (Some (wrapf "listing remote FailoverServices" err)))
      | inr (rv, items) =>
          _ ← enqueueList items;
          (* a nil client would be called by the watcher's goroutine *)
          dynClient ← deref watchDynClient;
          r ← perform (NewRetryWatcher dynClient rv);
          match r with
          | inl err => mret (w, Exit (Some (wrapf "creating retry watcher" err)))
          | inr watcher =>
              r ← watch_session rounds w watcher configVer;
              match r with
              | Running => mret (w, Running)
              | Exit e => _ ← perform (StopWatch watcher); mret (w, Exit e)
              end
          end
      end
  end.

(** The reconnecting loop, from a given backoff. *)
Fixpoint run_from (sessions rounds : nat) (backoff : Z) (w : RemoteWatcher)
    : IO (RemoteWatcher * loop unit) :=
  match sessions with
  | O => mret (w, Running)
  | S sessions =>
      start ← now;
      '(w, r) ← watchLoop rounds w;
      match r with
      | Running => mret (w, Running)
      | Exit _ =>
          e ← perform CtxErr;
          match e with
          | Some _ => mret (w, Exit tt)
          | None =>
              t ← now;
              let backoff := if (minHealthyDuration <=? t - start)%Z then Second else backoff in
              done ← perform (Sleep backoff);
              if (done : bool) then mret (w, Exit tt)
              else run_from sessions rounds (Z.min (i64 (backoff * 2)) maxBackoff) w
          end
      end
  end.
Definition run (sessions rounds : nat) (w : RemoteWatcher) : IO (RemoteWatcher * loop unit) :=
  run_from sessions rounds Second w.
