(* ===== verification/WatcherProofs.v ===== *)
(** * What the remote watcher promises

    Every remote change the watcher learns of reaches the controller's queue, in
    order; the backoff stays within its bounds; the clients of a session come
    from one version of the Secret; watches are stopped; and a session ends for
    a rotation exactly when the Secret has changed. *)
From stdpp Require Import base gmap strings list numbers.
From S2P Require Import Prelude GoStd Types Kube Logic ApiServer Fixtures RemoteCluster Watcher.

(** ** The queue *)

(** The requests added, and the identities the remote cluster sent: the items of
    the lists, and the objects of the events other than errors. *)
Definition event_adds (e : event) : list NamespacedName :=
  match e with Ev (QueueAdd key) _ => [key] | _ => [] end.
Definition event_news (e : event) : list NamespacedName :=
  match e with
  | Ev (ListRemote _ _) (inr (_, items)) => items
  | Ev (WaitOrTick _ _) (Some (Received ev)) =>
      if bool_decide (we_Type ev = "ERROR") then [] else option_list (we_Object ev)
  | _ => []
  end.

Definition balanced_queue {A} (_ : outcome A) (t : hist) : Prop :=
  collected event_adds t = collected event_news t.

Lemma balanced_bind {A B} (m : IO A) (f : A → IO B) :
  wp m balanced_queue → (∀ a, wp (f a) balanced_queue) → wp (m ≫= f) balanced_queue.
Proof.
  intros Hm Hf. apply wp_bind. eapply wp_mono; [exact Hm|]. intros [a|] t Ht; [|done].
  eapply wp_mono; [apply Hf|]. intros o t' Ht'. unfold balanced_queue in *.
  by rewrite !collected_app, Ht, Ht'.
Qed.

(** Operations that neither add requests nor bring news. *)
Definition idle_event (e : event) : Prop := event_adds e = [] ∧ event_news e = [].
Lemma balanced_idle {A} (m : IO A) : emits idle_event m → wp m balanced_queue.
Proof.
  intros Hm. eapply wp_mono; [apply wp_conj|].
  - apply (emits_collected _ event_adds _ Hm). by intros e [].
  - apply (emits_collected _ event_news _ Hm). by intros e [].
  - intros o t [H1 H2]. unfold balanced_queue. by rewrite H1, H2.
Qed.

Ltac idle := repeat emits_step; auto; try done.
Lemma GetClient_idle p timeout : emits idle_event (GetClient p timeout).
Proof. unfold GetClient. idle. Qed.
#[export] Hint Resolve GetClient_idle : io.
Lemma other_calls_emits (P : event → Prop) calls p :
  (∀ p timeout, emits P (GetClient p timeout)) → emits P (other_calls calls p).
Proof. intros HP. revert p. induction calls; intros p; simpl; idle. Qed.
Lemma GetRESTConfig_idle p timeout : emits idle_event (GetRESTConfig p timeout).
Proof. unfold GetRESTConfig. idle. apply other_calls_emits. auto with io. Qed.
#[export] Hint Resolve GetRESTConfig_idle : io.
Lemma getDynamicClients_idle w timeout : emits idle_event (getDynamicClients w timeout).
Proof. unfold getDynamicClients, make_clients. idle. Qed.
Lemma configChanged_idle w ver : emits idle_event (configChanged w ver).
Proof. unfold configChanged, SecretResourceVersion. idle. Qed.

Lemma enqueueList_adds items :
  wp (enqueueList items) (λ o t,
    o = Ret tt ∧ collected event_adds t = items ∧ collected event_news t = []).
Proof.
  induction items as [|item items IH]; simpl; [by apply wp_ret|]. wp_op. intros r.
  eapply wp_mono; [exact IH|]. intros o t (-> & H1 & H2). rewrite !collected_cons, H1, H2. done.
Qed.

Lemma watch_session_balanced rounds w watcher ver :
  wp (watch_session rounds w watcher ver) balanced_queue.
Proof.
  induction rounds as [|n IH]; simpl; [by apply wp_ret|]. wp_op. intros [[| |ev]|].
  - by apply wp_ret.
  - by apply wp_ret.
  - destruct (bool_decide (we_Type ev = "ERROR")) eqn:Herr.
    { apply wp_ret. unfold balanced_queue. rewrite !collected_cons. cbn. by rewrite Herr. }
    unfold enqueueEvent. destruct (we_Object ev) as [key|] eqn:Hobj; [wp_op; intros r|apply wp_bind, wp_ret];
      (eapply wp_mono; [exact IH|]); intros o t Ht; unfold balanced_queue in *;
      rewrite ?app_nil_l, !collected_cons; cbn [event_adds event_news]; rewrite Herr, Hobj, Ht; done.
  - eapply wp_mono; [apply balanced_bind; [apply balanced_idle, configChanged_idle|]|].
    + intros []; [by apply wp_ret|exact IH].
    + done.
Qed.

Lemma watchLoop_balanced rounds w : wp (watchLoop rounds w) balanced_queue.
Proof.
  unfold watchLoop. apply balanced_bind; [apply balanced_idle, getDynamicClients_idle|].
  intros [w' [err|[[lc wc] ver]]]; [by apply wp_ret|]. wp_op. intros [err|[rv items]]; [by apply wp_ret|].
  apply wp_bind. eapply wp_mono; [apply enqueueList_adds|]. intros o t (-> & H1 & H2).
  eapply wp_mono.
  { assert (Hrest : ∀ wc, wp (r ← perform (NewRetryWatcher wc rv);
      match r with
      | inl err => mret (w', Exit (Some (wrapf "creating retry watcher" err)))
      | inr watcher =>
          r ← watch_session rounds w' watcher ver;
          match r with
          | Running => mret (w', Running)
          | Exit e => _ ← perform (StopWatch watcher); mret (w', Exit e)
          end
      end) balanced_queue).
    { intros c. apply balanced_bind; [by apply wp_perform|]. intros [err|wt]; [by apply wp_ret|].
      apply balanced_bind; [apply watch_session_balanced|]. intros [|e]; [by apply wp_ret|].
      apply balanced_bind; [by apply wp_perform|]. intros ?. by apply wp_ret. }
    apply (balanced_bind (deref wc)); [by apply wp_deref; destruct wc|]. exact Hrest. }
  intros o t' Ht'. unfold balanced_queue in *. rewrite !collected_cons, !collected_app, H1, H2, Ht'.
  done.
Qed.

Lemma run_from_balanced sessions rounds backoff w :
  wp (run_from sessions rounds backoff w) balanced_queue.
Proof.
  revert backoff w. induction sessions as [|n IH]; intros backoff w; simpl; [by apply wp_ret|].
  apply balanced_bind; [by apply wp_perform|]. intros start.
  apply balanced_bind; [apply watchLoop_balanced|]. intros [w' []]; [by apply wp_ret|].
  apply balanced_bind; [by apply wp_perform|]. intros [e|]; [by apply wp_ret|].
  apply balanced_bind; [by apply wp_perform|]. intros t.
  apply balanced_bind; [by apply wp_perform|]. intros []; [by apply wp_ret|apply IH].
Qed.

(** C15: the controller is told of every remote change the watcher learns of: the
    requests added to its queue are exactly the items listed and the objects of
    the events received, in that order, over all sessions and reconnections. *)
Theorem watcher_enqueues sessions rounds w E h :
  let '(_, t) := run sessions rounds w E h in
  collected event_adds t = collected event_news t.
Proof.
  pose proof (run_from_balanced sessions rounds Second w E h) as H. unfold run.
  by destruct (run_from sessions rounds Second w E h).
Qed.

(** ** The backoff *)

(** The sessions of a history, given the last two readings of the clock: how
    long each lasted, and the pause after it. *)
Fixpoint pauses (start finish : time) (t : hist) : list (Z * Z) :=
  match t with
  | [] => []
  | Ev Now n :: t => pauses finish n t
  | Ev (Sleep d) _ :: t => ((finish - start)%Z, d) :: pauses start finish t
  | _ :: t => pauses start finish t
  end.

Definition clockless (e : event) : Prop :=
  match e with Ev Now _ | Ev (Sleep _) _ => False | _ => True end.
Lemma pauses_clockless t1 t2 a b : Forall clockless t1 → pauses a b (t1 ++ t2) = pauses a b t2.
Proof.
  induction 1 as [|e t1 He _ IH]; [done|]. simpl. rewrite <- IH. by destruct e as [[] r].
Qed.

Lemma enqueueList_clockless items : emits clockless (enqueueList items).
Proof. induction items; simpl; idle. Qed.
#[export] Hint Resolve enqueueList_clockless : io.
Lemma enqueueEvent_clockless ev : emits clockless (enqueueEvent ev).
Proof. unfold enqueueEvent. idle. Qed.
#[export] Hint Resolve enqueueEvent_clockless : io.
Lemma configChanged_clockless w ver : emits clockless (configChanged w ver).
Proof. unfold configChanged, SecretResourceVersion. idle. Qed.
#[export] Hint Resolve configChanged_clockless : io.
Lemma watch_session_clockless rounds w watcher ver :
  emits clockless (watch_session rounds w watcher ver).
Proof. induction rounds; simpl; idle. Qed.
#[export] Hint Resolve watch_session_clockless : io.
Lemma GetClient_clockless p timeout : emits clockless (GetClient p timeout).
Proof. unfold GetClient. idle. Qed.
#[export] Hint Resolve GetClient_clockless : io.
Lemma getDynamicClients_clockless w timeout : emits clockless (getDynamicClients w timeout).
Proof.
  unfold getDynamicClients, make_clients, GetRESTConfig. idle. apply other_calls_emits. auto with io.
Qed.
#[export] Hint Resolve getDynamicClients_clockless : io.
Lemma watchLoop_clockless rounds w : emits clockless (watchLoop rounds w).
Proof. unfold watchLoop. idle. Qed.

(** The pauses of a loop that starts with backoff [b]: a session of 30 seconds or
    more resets the backoff to a second, the next backoff is twice this pause,
    30 seconds at most. *)
Fixpoint paced (b : Z) (ps : list (Z * Z)) : Prop :=
  match ps with
  | [] => True
  | (elapsed, d) :: ps =>
      d = (if (minHealthyDuration <=? elapsed)%Z then Second else b)
      ∧ paced (Z.min (2 * d) maxBackoff) ps
  end.
Definition valid_backoff (b : Z) : Prop := (Second <= b <= maxBackoff)%Z.

Lemma next_backoff b :
  valid_backoff b → i64 (b * 2) = (2 * b)%Z ∧ valid_backoff (Z.min (2 * b) maxBackoff).
Proof.
  unfold valid_backoff, maxBackoff, Second. intros. split; [|lia].
  rewrite i64_id; [lia|]. unfold in_i64. lia.
Qed.

Lemma run_from_paced sessions rounds b w :
  valid_backoff b →
  wp (run_from sessions rounds b w) (λ _ t, ∀ a f, paced b (pauses a f t)).
Proof.
  revert b w. induction sessions as [|n IH]; intros b w Hb; simpl; [by apply wp_ret|].
  wp_op. intros start. apply wp_bind. eapply wp_mono; [apply watchLoop_clockless|].
  intros o t Ht. simpl in Ht.
  assert (Hend : ∀ t' a f, Forall clockless t' → paced b (pauses a f (Ev Now start :: t ++ t'))).
  { intros t' a f Ht'. simpl. rewrite pauses_clockless by done.
    rewrite <- (app_nil_r t'), pauses_clockless by done. done. }
  destruct o as [[w' [|res]]|]; [apply wp_ret; intros; by apply Hend| |].
  2:{ intros a f. rewrite <- (app_nil_r t). by apply Hend. }
  wp_op. intros [e|]; [apply wp_ret; intros; apply Hend; by repeat constructor|].
  wp_op. intros finish. simpl in finish. cbv zeta.
  set (d := if (minHealthyDuration <=? finish - start)%Z then Second else b).
  assert (Hd : valid_backoff d) by (unfold d; case_match; [done|exact Hb]).
  destruct (next_backoff d Hd) as [Hi Hn]. wp_op. intros []; [apply wp_ret|].
  - intros a f. simpl. rewrite pauses_clockless by done. simpl. split; [done|]. done.
  - rewrite Hi. eapply wp_mono; [by apply IH|]. intros o t' Ht' a f. simpl.
    rewrite pauses_clockless by done. simpl. split; [done|]. apply Ht'.
Qed.

(** Every pause is between a second and 30 seconds. *)
Definition bounded_pauses (ps : list (Z * Z)) : Prop := Forall (λ p, valid_backoff p.2) ps.
(** As long as no session is healthy, the k-th pause is 2^k seconds, 30 at most. *)
Definition doubling_pauses (ps : list (Z * Z)) : Prop :=
  ∀ k p, ps !! k = Some p → Forall (λ p, p.1 < minHealthyDuration)%Z (take (S k) ps) →
    p.2 = Z.min (2 ^ Z.of_nat k * Second) maxBackoff.

Lemma paced_bounded b ps : valid_backoff b → paced b ps → bounded_pauses ps.
Proof.
  revert b. induction ps as [|[elapsed d] ps IH]; intros b Hb; [constructor|].
  intros [Hd Hps]. assert (Hvd : valid_backoff d) by (rewrite Hd; case_match; [done|exact Hb]).
  constructor; [done|]. eapply IH, Hps. by apply next_backoff.
Qed.

Lemma paced_doubling b ps :
  valid_backoff b → paced b ps → ∀ k p, ps !! k = Some p →
  Forall (λ p, p.1 < minHealthyDuration)%Z (take (S k) ps) →
  p.2 = Z.min (2 ^ Z.of_nat k * b) maxBackoff.
Proof.
  revert b. induction ps as [|[elapsed d] ps IH]; intros b Hb; [done|]. intros [Hd Hps] k p.
  intros Hk Hall. apply Forall_cons_1 in Hall as [Hel Hall]. simpl in Hel. rewrite (proj2 (Z.leb_gt _ _) Hel) in Hd. subst d.
  destruct k as [|k]; simpl in Hk.
  - injection Hk as <-. simpl. unfold valid_backoff in Hb. lia.
  - rewrite (IH _ (proj2 (next_backoff b Hb)) Hps k p Hk) by done.
    rewrite Nat2Z.inj_succ, Z.pow_succ_r by lia. unfold valid_backoff in Hb.
    assert (0 < 2 ^ Z.of_nat k)%Z by (apply Z.pow_pos_nonneg; lia).
    destruct (Z.min_spec (2 * b) maxBackoff) as [[? ->]|[? ->]]; [f_equal; ring|].
    rewrite !Z.min_r; nia.
Qed.

(** C19: the pause between two sessions starts at a second, doubles after every
    session that did not last 30 seconds, never exceeds 30 seconds, and starts
    again at a second after one that did; the doubling does not overflow. *)
Theorem watcher_backoff sessions rounds w E h :
  let '(_, t) := run sessions rounds w E h in
  let ps := pauses 0 0 t in
  paced Second ps ∧ bounded_pauses ps ∧ doubling_pauses ps.
Proof.
  assert (H1 : valid_backoff Second) by done.
  pose proof (run_from_paced sessions rounds Second w H1 E h) as H. unfold run.
  destruct (run_from sessions rounds Second w E h) as [o t]. specialize (H 0%Z 0%Z). simpl in H.
  split; [done|]. split; [by eapply paced_bounded|]. intros k p. by apply paced_doubling.
Qed.

(** ** Credentials *)

(** In the history [h], the configuration [cfg] was read from the Secret at
    version [ver]; and the two clients were made from it, the watch client
    without a request timeout. *)
Definition config_from (key : NamespacedName) (h : hist) (ver : string) (cfg : restConfig) : Prop :=
  ∃ t secret data cfg0,
    Ev (Get t KSecret key) (inr secret) ∈ h
    ∧ om_ResourceVersion (sec_meta secret) = ver ∧ sec_Data secret !! "kubeconfig" = Some data
    ∧ Ev (RESTConfigFromKubeConfig data) (inr cfg0) ∈ h ∧ cfg = tuneRESTConfig cfg0.
Definition clients_from (key : NamespacedName) (h : hist) (ver : string) (lc wc : client_id) : Prop :=
  ∃ cfg, config_from key h ver cfg ∧ Ev (NewDynamic cfg) (inr lc) ∈ h
    ∧ Ev (NewDynamic {| cfg with rc_Timeout := 0%Z |}) (inr wc) ∈ h.

Lemma config_from_app key h t ver cfg : config_from key h ver cfg → config_from key (h ++ t) ver cfg.
Proof.
  intros (tg & secret & data & cfg0 & ? & ? & ? & ? & ?). exists tg, secret, data, cfg0.
  split_and!; try done; apply elem_of_app; by left.
Qed.
Lemma clients_from_app key h t ver lc wc :
  clients_from key h ver lc wc → clients_from key (h ++ t) ver lc wc.
Proof.
  intros (cfg & ? & ? & ?). exists cfg. split; [by apply config_from_app|].
  split; apply elem_of_app; by left.
Qed.

Definition provider_ok (p : ClientProvider) (h : hist) : Prop :=
  ∀ c, cp_cachedClient p = Some c → ∃ cfg, cp_cachedConfig p = Some cfg
    ∧ config_from (secret_key p) h (cp_lastResourceVer p) cfg.
Definition watcher_ok (w : RemoteWatcher) (h : hist) : Prop :=
  provider_ok (rw_ClientProvider w) h
  ∧ ∀ lc, rw_listClient w = Some lc → ∃ wc, rw_watchClient w = Some wc
      ∧ clients_from (secret_key (rw_ClientProvider w)) h (rw_lastConfigVer w) lc wc.
Lemma provider_ok_app p h t : provider_ok p h → provider_ok p (h ++ t).
Proof. intros Hp c Hc. destruct (Hp c Hc) as (cfg & ? & ?). eauto using config_from_app. Qed.
Lemma watcher_ok_app w h t : watcher_ok w h → watcher_ok w (h ++ t).
Proof.
  intros [Hp Hw]. split; [by apply provider_ok_app|]. intros lc Hlc.
  destruct (Hw lc Hlc) as (wc & ? & ?). eauto using clients_from_app.
Qed.

(** What a call answers that reads the Secret [key] at version [ver]. *)
Definition just_read (key : NamespacedName) (ver : string) (t : hist) : Prop :=
  ∃ tg secret, Ev (Get tg KSecret key) (inr secret) ∈ t ∧ om_ResourceVersion (sec_meta secret) = ver.

Lemma GetClient_provider_ok p timeout h :
  provider_ok p h →
  wp (GetClient p timeout) (λ o t, ∃ p' r, o = Ret (p', r) ∧ secret_key p' = secret_key p
    ∧ provider_ok p' (h ++ t)
    ∧ ∀ c, r = inr c → cp_cachedClient p' = Some c
        ∧ just_read (secret_key p) (cp_lastResourceVer p') t).
Proof.
  intros Hp. pose proof (λ t, provider_ok_app p h t Hp) as Happ. unfold GetClient.
  repeat wp_step; (do 2 eexists; split; [done|]; split; [done|]); (split; [try apply Happ|intros ? [=]]);
    subst; try (intros c0 [= <-]; eexists; split; [done|]; do 4 eexists; split_and!;
      [apply elem_of_app; right; constructor|done|eassumption
      |apply elem_of_app; right; right; constructor|done]);
    (split; [done|]); eexists _, _; (split; [constructor|done]).
Qed.

(** A call that fails leaves the cache as it is. *)
Lemma GetClient_refreshes p timeout :
  wp (GetClient p timeout) (λ o _, ∀ p' r, o = Ret (p', r) →
    match r with inl _ => p' = p | inr _ => True end).
Proof. unfold GetClient. repeat wp_step; by intros ? ? [= <- <-]. Qed.

(** What a call of [getDynamicClients] answers. *)
Definition coherent_clients (w : RemoteWatcher) (h t : hist) (r : clients) : Prop :=
  match r with
  | inl _ => True
  | inr (lc, wc, ver) => ∃ c, wc = Some c ∧ just_read (secret_key (rw_ClientProvider w)) ver t
      ∧ clients_from (secret_key (rw_ClientProvider w)) (h ++ t) ver lc c
  end.

Lemma make_clients_ok w cfg ver h :
  watcher_ok w h → config_from (secret_key (rw_ClientProvider w)) h ver cfg →
  wp (make_clients w cfg ver) (λ o t, ∃ w' r, o = Ret (w', r) ∧ watcher_ok w' (h ++ t)
    ∧ match r with
      | inr (lc, wc, ver') => ver' = ver ∧ ∃ c, wc = Some c
          ∧ clients_from (secret_key (rw_ClientProvider w)) (h ++ t) ver lc c
      | inl _ => True
      end).
Proof.
  intros Hw Hc. unfold make_clients.
  wp_op. intros [err|lc]; [by apply wp_ret; do 2 eexists; split; [done|]; split; [apply watcher_ok_app|]|].
  wp_op. intros [err|wc]; [by apply wp_ret; do 2 eexists; split; [done|]; split; [apply watcher_ok_app|]|].
  apply wp_ret. set (t := [Ev (NewDynamic cfg) (inr lc); _]).
  assert (Hcl : clients_from (secret_key (rw_ClientProvider w)) (h ++ t) ver lc wc).
  { exists cfg. split; [by apply config_from_app|]. split; apply elem_of_app; right; repeat constructor. }
  do 2 eexists. split; [done|]. split; [|by eauto]. destruct (watcher_ok_app w h t Hw) as [H1 _].
  split; [exact H1|]. intros lc' [= <-]. by exists wc.
Qed.

(** The calls of other goroutines keep the cache coherent, and its version one
    that was read since [h]. *)
Lemma other_calls_ok calls p h t0 :
  provider_ok p (h ++ t0) → is_Some (cp_cachedClient p) →
  just_read (secret_key p) (cp_lastResourceVer p) t0 →
  wp (other_calls calls p) (λ o t, ∃ p', o = Ret p' ∧ secret_key p' = secret_key p
    ∧ provider_ok p' (h ++ t0 ++ t) ∧ is_Some (cp_cachedClient p')
    ∧ just_read (secret_key p) (cp_lastResourceVer p') (t0 ++ t)).
Proof.
  revert p t0. induction calls as [|timeout calls IH]; intros p t0 Hp Hc Hr; simpl.
  { apply wp_ret. exists p. by rewrite !app_nil_r. }
  apply wp_bind. eapply wp_mono; [apply wp_conj; [by apply GetClient_provider_ok|
    apply GetClient_refreshes]|].
  intros o t [(p' & r & -> & Hkey & Hp' & Hr') Hsame]. specialize (Hsame p' r eq_refl).
  rewrite <- app_assoc in Hp'.
  assert (Hall : is_Some (cp_cachedClient p')
    ∧ just_read (secret_key p') (cp_lastResourceVer p') (t0 ++ t)).
  { destruct r as [err|c].
    - rewrite Hsame. split; [done|]. destruct Hr as (tg & sec & Hin & ?). exists tg, sec.
      split; [|done]. apply elem_of_app. by left.
    - destruct (Hr' c eq_refl) as [Hc' (tg & sec & Hin & ?)]. split; [by eexists|].
      exists tg, sec. rewrite Hkey. split; [|done]. apply elem_of_app. by right. }
  destruct Hall as [Hc' Hr2]. eapply wp_mono; [by apply (IH p' (t0 ++ t))|].
  intros o t' (p2 & -> & Hk2 & Hp2 & Hc2 & Hr2'). exists p2. rewrite <- app_assoc in Hp2, Hr2'.
  rewrite Hkey in *. done.
Qed.

(** What a call of [GetRESTConfig] answers. *)
Lemma GetRESTConfig_ok p timeout h :
  provider_ok p h →
  wp (GetRESTConfig p timeout) (λ o t, ∃ p' r, o = Ret (p', r) ∧ secret_key p' = secret_key p
    ∧ provider_ok p' (h ++ t)
    ∧ match r with
      | inl _ => True
      | inr (cfg, ver) => just_read (secret_key p) ver t ∧ config_from (secret_key p) (h ++ t) ver cfg
      end).
Proof.
  intros Hp. unfold GetRESTConfig. apply wp_bind.
  eapply wp_mono; [by apply GetClient_provider_ok|]. intros o t (p1 & r & -> & Hkey & Hp1 & Hr).
  destruct r as [err|c]; [apply wp_ret; do 2 eexists; by rewrite app_nil_r|].
  destruct (Hr c eq_refl) as [Hc Hread]. wp_op. intros calls. apply wp_bind.
  set (e := Ev OtherCalls calls).
  eapply wp_mono; [apply (other_calls_ok calls p1 h (t ++ [e]))|].
  - rewrite app_assoc. by apply provider_ok_app.
  - by eexists.
  - rewrite Hkey. destruct Hread as (tg & sec & ? & ?). exists tg, sec.
    split; [|done]. apply elem_of_app. by left.
  - intros o t' (p2 & -> & Hk2 & Hp2 & [c2 Hc2] & Hread2).
    destruct (Hp2 c2 Hc2) as (cfg & Hcfg & Hfrom). rewrite Hcfg. apply wp_bind, wp_ret, wp_ret.
    do 2 eexists. split; [done|]. rewrite <- !app_assoc in *. cbn [app] in *.
    rewrite !app_nil_r. rewrite Hk2, Hkey in *. done.
Qed.

Lemma getDynamicClients_ok w timeout h :
  watcher_ok w h →
  wp (getDynamicClients w timeout) (λ o t, ∃ w' r, o = Ret (w', r) ∧ watcher_ok w' (h ++ t)
    ∧ coherent_clients w h t r).
Proof.
  intros [Hp Hw]. unfold getDynamicClients. apply wp_bind.
  eapply wp_mono; [by apply GetRESTConfig_ok|]. intros o t (p' & r & -> & Hkey & Hp' & Hr).
  assert (Hsame : watcher_ok {| w with rw_ClientProvider := p' |} (h ++ t)).
  { split; [done|]. intros lc Hlc. simpl in *. destruct (Hw lc Hlc) as (wc & ? & ?).
    rewrite Hkey. eauto using clients_from_app. }
  destruct r as [err|[cfg ver]].
  { apply wp_ret. do 2 eexists. split; [done|]. rewrite !app_nil_r. by split. }
  destruct Hr as [(tg & sec & Hin & Hver) Hfrom]. cbv zeta. simpl.
  assert (Hread : ∀ t', just_read (secret_key (rw_ClientProvider w)) ver (t ++ t')).
  { intros t'. exists tg, sec. split; [|done]. apply elem_of_app. by left. }
  rewrite <- Hkey in Hfrom.
  assert (Hnew : wp (make_clients {| w with rw_ClientProvider := p' |} cfg ver)
    (λ o t', ∃ w' r, o = Ret (w', r) ∧ watcher_ok w' (h ++ t ++ t') ∧ coherent_clients w h (t ++ t') r)).
  { eapply wp_mono; [by apply (make_clients_ok _ _ _ _ Hsame)|]. simpl. rewrite Hkey.
    intros o t' (w' & r & -> & Hw' & Hr'). rewrite <- app_assoc in Hw', Hr'. do 2 eexists. split; [done|].
    split; [done|]. destruct r as [|[[lc wc] ver']]; [done|]. destruct Hr' as (-> & c' & -> & ?). by exists c'. }
  destruct (rw_listClient w) as [lc|] eqn:Hlc; [|exact Hnew].
  destruct (decide _) as [Hv|]; [|exact Hnew]. apply wp_ret. do 2 eexists. split; [done|].
  rewrite app_nil_r. split; [done|]. destruct (Hw lc eq_refl) as (wc & ? & ?). exists wc. split; [done|].
  split; [by rewrite <- (app_nil_r t)|]. rewrite <- Hv. by apply clients_from_app.
Qed.

(** C18: the two clients a session works with were made from one configuration,
    read from the Secret at the version the call has just seen and answers: the
    caches never mix credentials of different versions, and no nil client or
    configuration is used. *)
Theorem getDynamicClients_coherent w timeout E h :
  watcher_ok w h →
  ∃ w' r, (getDynamicClients w timeout E h).1 = Ret (w', r)
    ∧ watcher_ok w' (h ++ (getDynamicClients w timeout E h).2)
    ∧ coherent_clients w h (getDynamicClients w timeout E h).2 r.
Proof. intros Hw. by apply getDynamicClients_ok. Qed.

(** ** Sessions *)

(** The watchers opened and stopped. *)
Definition event_watchers (e : event) : list nat :=
  match e with Ev (NewRetryWatcher _ _) (inr w) => [w] | _ => [] end.
Definition event_stops (e : event) : list nat :=
  match e with Ev (StopWatch w) _ => [w] | _ => [] end.
Definition unwatched (e : event) : Prop :=
  match e with Ev (NewRetryWatcher _ _) _ | Ev (StopWatch _) _ => False | _ => True end.
Lemma unwatched_none t :
  Forall unwatched t → collected event_watchers t = [] ∧ collected event_stops t = [].
Proof.
  induction 1 as [|e t He _ [IH1 IH2]]; [done|]. rewrite !collected_cons, IH1, IH2.
  by destruct e as [[] r].
Qed.

(** A computation that returns and touches no watcher. *)
Definition plain_run {A} (o : outcome A) (t : hist) : Prop := returned o = true ∧ Forall unwatched t.
Lemma plain_bind {A B} (m : IO A) (f : A → IO B) :
  wp m plain_run → (∀ a, wp (f a) plain_run) → wp (m ≫= f) plain_run.
Proof.
  intros Hm Hf. apply wp_bind. eapply wp_mono; [exact Hm|]. intros [a|] t [Hr Ht]; [|done].
  eapply wp_mono; [apply Hf|]. intros o t' [? ?]. split; [done|]. by apply Forall_app.
Qed.
Lemma plain_ret {A} (a : A) : wp (mret a) plain_run.
Proof. by apply wp_ret. Qed.
Lemma plain_perform (o : op) : (∀ r, unwatched (Ev o r)) → wp (perform o) plain_run.
Proof. intros H. apply wp_perform. intros r. split; [done|]. by apply Forall_singleton. Qed.

Ltac plain_step :=
  cbv beta zeta;
  lazymatch goal with
  | |- wp (mret _) _ => apply plain_ret
  | |- wp (mbind _ _) _ => apply plain_bind; [|intros ?a]
  | |- wp (match ?x with _ => _ end) _ => destruct x
  | |- wp ?m _ => first [let o := as_op m in apply (plain_perform o); done | solve [auto with io]]
  end.
Lemma enqueueList_plain items : wp (enqueueList items) plain_run.
Proof. induction items; simpl; repeat plain_step. Qed.
#[export] Hint Resolve enqueueList_plain : io.
Lemma configChanged_plain w ver : wp (configChanged w ver) plain_run.
Proof. unfold configChanged, SecretResourceVersion. repeat plain_step. Qed.
#[export] Hint Resolve configChanged_plain : io.
Lemma watch_session_plain rounds w watcher ver : wp (watch_session rounds w watcher ver) plain_run.
Proof. induction rounds; simpl; unfold enqueueEvent; repeat plain_step; auto. Qed.

Lemma GetClient_unwatched p timeout : emits unwatched (GetClient p timeout).
Proof. unfold GetClient. idle. Qed.
#[export] Hint Resolve GetClient_unwatched : io.
Lemma getDynamicClients_unwatched w timeout : emits unwatched (getDynamicClients w timeout).
Proof.
  unfold getDynamicClients, make_clients, GetRESTConfig. idle. apply other_calls_emits. auto with io.
Qed.

(** Every watcher opened has been stopped, the one of the session that still
    runs excepted. *)
Definition watchers_stopped {A} (r : loop A) (t : hist) : Prop :=
  match r with
  | Exit _ => collected event_watchers t = collected event_stops t
  | Running => ∃ current, collected event_watchers t = collected event_stops t ++ current
      ∧ (length current <= 1)%nat
  end.
Definition good_run {A} (h : hist) (o : outcome (RemoteWatcher * loop A)) (t : hist) : Prop :=
  ∃ w r, o = Ret (w, r) ∧ watcher_ok w (h ++ t) ∧ watchers_stopped r t.

Lemma watchers_stopped_pre {A} (r : loop A) t1 t2 :
  collected event_watchers t1 = collected event_stops t1 → watchers_stopped r t2 →
  watchers_stopped r (t1 ++ t2).
Proof.
  intros H1. destruct r; simpl; rewrite !collected_app, H1; [|by intros ->].
  intros (current & -> & ?). exists current. by rewrite app_assoc.
Qed.

Lemma watchLoop_good rounds w h : watcher_ok w h → wp (watchLoop rounds w) (good_run h).
Proof.
  intros Hw. unfold watchLoop. apply wp_bind.
  eapply wp_mono; [apply wp_conj; [by apply getDynamicClients_ok|apply getDynamicClients_unwatched]|].
  intros o t [(w' & r & -> & Hw' & Hr) Ht]. simpl in Ht. apply unwatched_none in Ht as [Ho Hs].
  assert (Hgood : ∀ (res : loop error) t', watchers_stopped res t' → good_run h (Ret (w', res)) (t ++ t')).
  { intros res t' H'. do 2 eexists. split; [done|]. rewrite app_assoc.
    split; [by apply watcher_ok_app|]. apply watchers_stopped_pre; [by rewrite Ho, Hs|done]. }
  destruct r as [err|[[lc wc] ver]]; [apply wp_ret; by apply Hgood|].
  destruct Hr as (c & -> & _). wp_op. intros [err|[rv items]]; [apply wp_ret; by apply Hgood|].
  apply wp_bind. eapply wp_mono; [apply enqueueList_plain|]. intros [[]|] t1 [Hr1 Ht1]; [|done].
  apply unwatched_none in Ht1 as [Ho1 Hs1]. apply wp_bind, wp_ret. wp_op.
  intros [err|watcher]; [apply wp_ret, Hgood; simpl; rewrite !collected_cons, !collected_app, Ho1, Hs1; done|].
  apply wp_bind. eapply wp_mono; [apply watch_session_plain|]. intros [res|] t2 [Hr2 Ht2]; [|done].
  apply unwatched_none in Ht2 as [Ho2 Hs2]. destruct res as [|e]; [apply wp_ret, Hgood|wp_op; intros r; apply wp_ret, Hgood].
  - exists [watcher]. rewrite !collected_cons, !collected_app, !collected_cons, !collected_app, Ho1, Hs1, Ho2, Hs2. done.
  - simpl. rewrite !collected_cons, !collected_app, !collected_cons, !collected_app, Ho1, Hs1, Ho2, Hs2. done.
Qed.

Lemma run_from_good sessions rounds b w h :
  watcher_ok w h → wp (run_from sessions rounds b w) (good_run h).
Proof.
  revert b w h. induction sessions as [|n IH]; intros b w h Hw; simpl.
  { apply wp_ret. do 2 eexists. split; [done|]. rewrite app_nil_r. split; [done|].
    exists []. split; [done|simpl; lia]. }
  wp_op. intros start. apply wp_bind.
  eapply wp_mono; [by apply (watchLoop_good _ _ (h ++ [Ev Now start])), watcher_ok_app|].
  intros o t (w' & r & -> & Hw' & Hs). rewrite <- app_assoc in Hw'.
  assert (Hgood : ∀ (res : loop unit) t', watchers_stopped r t → watchers_stopped res (t ++ t') →
    good_run h (Ret (w', res)) (Ev Now start :: t ++ t')).
  { intros res t' _ Hres. do 2 eexists. split; [done|].
    split; [|by apply (watchers_stopped_pre _ [Ev Now start])].
    replace (h ++ Ev Now start :: t ++ t') with ((h ++ [Ev Now start] ++ t) ++ t')
      by (by rewrite <- !app_assoc). by apply watcher_ok_app. }
  destruct r as [|res].
  { apply wp_ret. apply Hgood; [done|]. by rewrite app_nil_r. }
  assert (Hpre : ∀ (r : loop unit) t', watchers_stopped r t' → watchers_stopped r (t ++ t'))
    by (intros; by apply watchers_stopped_pre).
  wp_op. intros [e|]; [by apply wp_ret, Hgood, Hpre|]. wp_op. intros finish. cbv zeta.
  generalize (if (minHealthyDuration <=? finish - start)%Z then Second else b). intros d.
  wp_op. intros []; [by apply wp_ret, Hgood, Hpre|].
  set (t2 := [Ev Now start] ++ t ++ [Ev CtxErr None; Ev Now finish; Ev (Sleep d) false]).
  eapply wp_mono; [apply (IH _ _ (h ++ t2))|].
  { unfold t2. replace (h ++ _) with ((h ++ [Ev Now start] ++ t)
      ++ [Ev CtxErr None; Ev Now finish; Ev (Sleep d) false]) by (by rewrite <- !app_assoc).
    by apply watcher_ok_app. }
  intros o t' (w2 & r2 & -> & Hw2 & Hs2). do 2 eexists. split; [done|].
  replace (Ev Now start :: t ++ _) with (t2 ++ t') by (unfold t2; by rewrite <- !app_assoc).
  split; [by rewrite app_assoc|]. unfold t2. rewrite <- !app_assoc.
  apply watchers_stopped_pre; [done|]. by apply Hpre, watchers_stopped_pre.
Qed.

(** The watcher never fails: it runs until its context ends, and every watch
    it opened has then been stopped; while it runs at most one is open. *)
Theorem run_stops_watches sessions rounds w E h :
  watcher_ok w h →
  ∃ w' r, (run sessions rounds w E h).1 = Ret (w', r)
    ∧ watcher_ok w' (h ++ (run sessions rounds w E h).2)
    ∧ watchers_stopped r (run sessions rounds w E h).2.
Proof. intros Hw. by apply run_from_good. Qed.

(** ** Rotation of the credentials *)

(** What the polls of a session find: that the Secret has been deleted or is no
    longer at version [ver].  A poll that fails in another way finds nothing. *)
Definition event_polls (ver : string) (e : event) : list bool :=
  match e with
  | Ev (Get _ KSecret _) (inl err) => [IsNotFound err]
  | Ev (Get _ KSecret _) (inr secret) => [bool_decide (om_ResourceVersion (sec_meta secret) ≠ ver)]
  | _ => []
  end.
Definition event_ticks (e : event) : list unit :=
  match e with Ev (WaitOrTick _ _) None => [tt] | _ => [] end.
Definition rotated (o : outcome (loop error)) : bool :=
  match o with
  | Ret (Exit (Some err)) => bool_decide (err_msg err = "kubeconfig rotated")
  | _ => false
  end.

(** Polls that found nothing, and one more that found a change if the session
    ended for a rotation; one poll per tick. *)
Definition polled (ver : string) (o : outcome (loop error)) (t : hist) : Prop :=
  (∃ n, collected (event_polls ver) t
        = replicate n false ++ (if rotated o then [true] else []))
  ∧ length (collected (event_polls ver) t) = length (collected event_ticks t).

Lemma configChanged_polls w ver :
  wp (configChanged w ver) (λ o t, ∃ b, o = Ret b ∧ collected (event_polls ver) t = [b]
    ∧ collected event_ticks t = []).
Proof.
  unfold configChanged, SecretResourceVersion. apply wp_bind. wp_op. intros [err|secret]; apply wp_ret.
  - unfold IsNotFound. simpl. case_match eqn:Hb; apply wp_ret; eexists;
      (split; [done|]); rewrite !collected_cons; cbn; unfold IsNotFound; by rewrite Hb.
  - apply wp_ret. by eexists.
Qed.

Lemma watch_session_polled rounds w watcher ver :
  wp (watch_session rounds w watcher ver) (λ o t, polled ver o t).
Proof.
  induction rounds as [|n IH]; simpl.
  { apply wp_ret. split; [by exists 0|done]. }
  wp_op. intros [[| |ev]|]; [apply wp_ret; by split; [exists 0|]..| |].
  - destruct (bool_decide (we_Type ev = "ERROR")); [apply wp_ret; by split; [exists 0|]|].
    unfold enqueueEvent. destruct (we_Object ev); [wp_op; intros r|apply wp_bind, wp_ret];
      (eapply wp_mono; [exact IH|]); by intros o t Ht.
  - apply wp_bind. eapply wp_mono; [apply configChanged_polls|].
    intros o t (b & -> & Hp & Ht). destruct b.
    + apply wp_ret. split; [exists 0|]; rewrite !collected_cons, !collected_app, Hp, ?Ht; done.
    + eapply wp_mono; [exact IH|]. intros o t' [[k Hk] Hl].
      split; [exists (S k)|]; rewrite !collected_cons, !collected_app, Hp, ?Ht, ?Hk; [done|].
      rewrite Hk in Hl. simpl in *. by rewrite Hl.
Qed.

(** A session polls the Secret on every tick and ends for a rotation exactly
    when a poll finds the Secret deleted or changed; a poll that fails for
    another reason leaves the watch alone. *)
Theorem session_rotation rounds w watcher ver E h :
  let '(o, t) := watch_session rounds w watcher ver E h in polled ver o t.
Proof.
  pose proof (watch_session_polled rounds w watcher ver E h) as H. simpl in H.
  by destruct (watch_session rounds w watcher ver E h).
Qed.

(** ** Witnesses *)

Definition demo_watcher : RemoteWatcher := {|
  rw_ClientProvider := demo_cp; rw_lastConfigVer := "";
  rw_listClient := None; rw_watchClient := None |}.
Lemma demo_watcher_ok h : watcher_ok demo_watcher h.
Proof. by split. Qed.

(** A remote cluster with two FailoverServices, one of which changes. *)
Definition demo_remote : Env := λ h o,
  match o as o return resp o with
  | ListRemote _ _ => inr ("41", [{| nn_Name := "mysql"; nn_Namespace := "default" |};
                                  {| nn_Name := "redis"; nn_Namespace := "default" |}])
  | WaitOrTick _ _ =>
      if bool_decide (length h < 12) then
        Some (Received {| we_Type := "MODIFIED";
                          we_Object := Some {| nn_Name := "mysql"; nn_Namespace := "default" |} |})
      else Some CtxDone
  | CtxErr => Some (Errorf "context canceled")
  | o => demo_sync_env h o
  end.

Lemma getDynamicClients_coherent_witness :
  ∃ w' h, watcher_ok w' h ∧ clients_from (secret_key demo_cp) h "17" 4 5.
Proof.
  destruct (getDynamicClients_coherent demo_watcher None demo_remote [] (demo_watcher_ok []))
    as (w' & r & Hr & Hw & Hc).
  assert (Hr' : r = inr (4, Some 5, "17")) by (vm_compute in Hr; injection Hr as _ <-; reflexivity).
  subst r. destruct Hc as (c & Heq & _ & Hc). injection Heq as <-.
  do 2 eexists. split; [exact Hw|exact Hc].
Defined.

Lemma run_stops_watches_witness :
  ∃ w' r t, watcher_ok w' t ∧ watchers_stopped (A := unit) r t
    ∧ collected event_watchers t ≠ [].
Proof.
  destruct (run_stops_watches 2 8 demo_watcher demo_remote [] (demo_watcher_ok []))
    as (w' & r & Hr & Hw & Hs).
  exists w', r, (run 2 8 demo_watcher demo_remote []).2. split; [exact Hw|]. split; [exact Hs|].
  vm_compute. discriminate.
Defined.
