(* ===== verification/Signaler.v ===== *)
(** * The kill signaler ([src/internal/connkill/signaler.go])

    The controller's side of the connection-kill protocol: kill signals and
    their acknowledgments are entries of one ConfigMap, keyed by node and
    FailoverService, with JSON payloads. *)
From stdpp Require Import base gmap strings list numbers fin_maps sorting.
From S2P Require Import Prelude GoStd GoJSON Types Kube Logic ApiServer Actions.

Definition ConfigMapName := "connection-kill-signal".
Definition agentLabelKey := "app.kubernetes.io/name".
Definition agentLabelVal := "connection-killer".
Definition LabelOSStable := "kubernetes.io/os".

(** ** Payloads *)

Record KillSignal := {
  ks_IP : string; ks_Seq : Z; ks_Token : string; ks_Node : string;
  ks_FSNamespace : string; ks_FSName : string }.

Record KillAck := {
  ka_Seq : Z; ka_Token : string; ka_Node : string; ka_FSNamespace : string;
  ka_FSName : string; ka_Killed : Z; ka_Errors : Z }.

Definition json_Marshal_signal (s : KillSignal) : string :=
  marshal_object [
    member "ip" (marshal_string (ks_IP s)); member "seq" (marshal_int (ks_Seq s));
    member_string_omitempty "token" (ks_Token s); member_string_omitempty "node" (ks_Node s);
    member_string_omitempty "fsNamespace" (ks_FSNamespace s);
    member_string_omitempty "fsName" (ks_FSName s) ].

Definition json_Marshal_ack (a : KillAck) : string :=
  marshal_object [
    member "seq" (marshal_int (ka_Seq a)); member_string_omitempty "token" (ka_Token a);
    member_string_omitempty "node" (ka_Node a);
    member_string_omitempty "fsNamespace" (ka_FSNamespace a);
    member_string_omitempty "fsName" (ka_FSName a);
    member "killed" (marshal_int (ka_Killed a)); member "errors" (marshal_int (ka_Errors a)) ].

Definition signal_fields := ["ip"; "seq"; "token"; "node"; "fsNamespace"; "fsName"].
Definition set_signal_field (name : string) (v : json) (s : KillSignal) : option KillSignal :=
  if decide (name = "ip") then x ← decode_string v (ks_IP s); Some {| s with ks_IP := x |}
  else if decide (name = "seq") then x ← decode_int v (ks_Seq s); Some {| s with ks_Seq := x |}
  else if decide (name = "token") then
    x ← decode_string v (ks_Token s); Some {| s with ks_Token := x |}
  else if decide (name = "node") then
    x ← decode_string v (ks_Node s); Some {| s with ks_Node := x |}
  else if decide (name = "fsNamespace") then
    x ← decode_string v (ks_FSNamespace s); Some {| s with ks_FSNamespace := x |}
  else x ← decode_string v (ks_FSName s); Some {| s with ks_FSName := x |}.
Definition zero_signal : KillSignal := {|
  ks_IP := ""; ks_Seq := 0; ks_Token := ""; ks_Node := ""; ks_FSNamespace := ""; ks_FSName := "" |}.
Definition json_Unmarshal_signal (data : string) : option KillSignal :=
  unmarshal_struct signal_fields set_signal_field zero_signal data.

Definition ack_fields := ["seq"; "token"; "node"; "fsNamespace"; "fsName"; "killed"; "errors"].
Definition set_ack_field (name : string) (v : json) (a : KillAck) : option KillAck :=
  if decide (name = "seq") then x ← decode_int v (ka_Seq a); Some {| a with ka_Seq := x |}
  else if decide (name = "token") then
    x ← decode_string v (ka_Token a); Some {| a with ka_Token := x |}
  else if decide (name = "node") then
    x ← decode_string v (ka_Node a); Some {| a with ka_Node := x |}
  else if decide (name = "fsNamespace") then
    x ← decode_string v (ka_FSNamespace a); Some {| a with ka_FSNamespace := x |}
  else if decide (name = "fsName") then
    x ← decode_string v (ka_FSName a); Some {| a with ka_FSName := x |}
  else if decide (name = "killed") then
    x ← decode_int v (ka_Killed a); Some {| a with ka_Killed := x |}
  else x ← decode_int v (ka_Errors a); Some {| a with ka_Errors := x |}.
Definition zero_ack : KillAck := {|
  ka_Seq := 0; ka_Token := ""; ka_Node := ""; ka_FSNamespace := ""; ka_FSName := "";
  ka_Killed := 0; ka_Errors := 0 |}.
Definition json_Unmarshal_ack (data : string) : option KillAck :=
  unmarshal_struct ack_fields set_ack_field zero_ack data.

(** ** Keys *)

Definition maxConfigMapKeyLen : nat := 253.
Definition longestKeyPrefix := "kill".

Definition key_body (nodeName fsNamespace fsName : string) : string :=
  nodeName +:+ "_" +:+ fsNamespace +:+ "_" +:+ fsName.

Definition safeKey (prefix nodeName fsNamespace fsName : string) : string :=
  let body := key_body nodeName fsNamespace fsName in
  let maxRawBodyLen := maxConfigMapKeyLen - len longestKeyPrefix - 1 in
  if len body <=? maxRawBodyLen then prefix +:+ "_" +:+ body
  else
    let hashStr := short_hash 8 body in
    let maxBodyLen := maxConfigMapKeyLen - len longestKeyPrefix - 1 - 1 - len hashStr in
    let truncatedBody := str_take maxBodyLen body in
    prefix +:+ "_" +:+ truncatedBody +:+ "-" +:+ hashStr.

Definition killKey (nodeName fsNamespace fsName : string) : string :=
  safeKey "kill" nodeName fsNamespace fsName.
Definition ackKey (nodeName fsNamespace fsName : string) : string :=
  safeKey "ack" nodeName fsNamespace fsName.

(** ** Discovery of the nodes *)

Definition isPodReady (conditions : list PodCondition) : bool :=
  existsb (λ c : PodCondition, bool_decide (pc_Type c = "Ready") && bool_decide (pc_Status c = "True")) conditions.

Definition isNodeEligible (node : Node) : bool :=
  if bool_decide (is_Some (node_DeletionTimestamp node)) || node_Unschedulable node then false
  else if bool_decide (mget0 (node_Labels node) LabelOSStable ≠ "linux") then false
  else match list_find (λ c, pc_Type c = "Ready") (node_Conditions node) with
       | Some (_, c) => bool_decide (pc_Status c = "True")
       | None => true
       end.

(** The ready agents only matter to the log; the nodes expected to acknowledge
    are the eligible ones. *)
Definition discoverAgentNodes (Namespace : string) : IO (goerr + list string) :=
  r ← perform (ListPods Namespace (agentLabelKey, agentLabelVal));
  match r with
  | inl err => mret (inl (wrapf "listing connection-killer pods" err))
  | inr [] => mret (inr [])
  | inr _ =>
      r ← perform (ListNodes (LabelOSStable, "linux"));
      match r with
      | inl err => mret (inl (wrapf "listing connection-killer target nodes" err))
      | inr nodes =>
          let eligibleNodeNames := node_Name <$> filter (λ n, isNodeEligible n = true) nodes in
          match eligibleNodeNames with
          | [] => mret (inr [])
          | _ => mret (inr (sort_Strings eligibleNodeNames))
          end
      end
  end.

(** ** Signals *)

(** The payload stored at [key] is replaced by the next signal. *)
Definition next_seq (data : gmap string string) (key : string) : Z :=
  match data !! key with
  | Some existing =>
      match json_Unmarshal_signal existing with
      | Some signal => i64 (ks_Seq signal + 1)
      | None => 1
      end
  | None => 1
  end.

Fixpoint populateKillSignals (data : gmap string string) (nodeNames : list string)
    (destIP killToken fsNamespace fsName : string) : gmap string string :=
  match nodeNames with
  | [] => data
  | nodeName :: nodeNames =>
      let key := killKey nodeName fsNamespace fsName in
      let signalData := {|
        ks_IP := destIP; ks_Seq := next_seq data key; ks_Token := killToken;
        ks_Node := nodeName; ks_FSNamespace := fsNamespace; ks_FSName := fsName |} in
      populateKillSignals (<[key := json_Marshal_signal signalData]> data) nodeNames
        destIP killToken fsNamespace fsName
  end.

Definition cm_key (Namespace : string) : NamespacedName :=
  {| nn_Name := ConfigMapName; nn_Namespace := Namespace |}.

(** One attempt of [SignalKill]. *)
Definition signal_attempt (Namespace : string) (nodeNames : list string)
    (destIP killToken fsNamespace fsName : string) : IO error :=
  r ← api_get local KConfigMap (cm_key Namespace);
  match r with
  | inl err =>
      if IsNotFound err then
        r ← api_create KConfigMap {|
          cm_meta := new_meta ConfigMapName Namespace;
          cm_Data := Some (populateKillSignals ∅ nodeNames destIP killToken fsNamespace fsName) |};
        mret (err_of r)
      else mret (Some (wrapf "getting kill signal configmap" err))
  | inr cm =>
      let data := default ∅ (cm_Data cm) in
      r ← api_update local KConfigMap {| cm with
        cm_Data := Some (populateKillSignals data nodeNames destIP killToken fsNamespace fsName) |};
      mret (err_of r)
  end.

Section signaler.
Context `{KubeLib}.

Definition SignalKill (Namespace destIP killToken fsNamespace fsName : string)
    : IO (goerr + list string) :=
  r ← discoverAgentNodes Namespace;
  match r with
  | inl err => mret (inl err)
  | inr [] => mret (inr [])
  | inr nodeNames =>
      e ← OnError (λ err, IsConflict err || IsAlreadyExists err)
            (signal_attempt Namespace nodeNames destIP killToken fsNamespace fsName);
      match e with
      | Some err => mret (inl err)
      | None => mret (inr nodeNames)
      end
  end.

End signaler.

(** ** Acknowledgments *)

Record AckStatus := {
  as_AllAcked : bool; as_AckedNodes : list string; as_PendingNodes : list string;
  as_ErrorNodes : list string }.

(** Where the loop of [CheckAcks] files a node. *)
Inductive ack_class := Acked | Pending | Errored.

Definition classify (data : gomap) (killToken fsNamespace fsName nodeName : string) : ack_class :=
  match mget data (ackKey nodeName fsNamespace fsName) with
  | None => Pending
  | Some ackData =>
      match json_Unmarshal_ack ackData with
      | None => Pending
      | Some ack =>
          if decide (ka_Token ack ≠ killToken) then Pending
          else if (0 <? ka_Errors ack)%Z then Errored
          else Acked
      end
  end.

Fixpoint check_nodes (data : gomap) (killToken fsNamespace fsName : string)
    (expectedNodes : list string) (status : AckStatus) : AckStatus :=
  match expectedNodes with
  | [] => status
  | nodeName :: nodes =>
      check_nodes data killToken fsNamespace fsName nodes
        (match classify data killToken fsNamespace fsName nodeName with
         | Pending => {| status with as_PendingNodes := as_PendingNodes status ++ [nodeName] |}
         | Errored => {| status with as_ErrorNodes := as_ErrorNodes status ++ [nodeName] |}
         | Acked => {| status with as_AckedNodes := as_AckedNodes status ++ [nodeName] |}
         end)
  end.

Definition no_acks : AckStatus := {|
  as_AllAcked := false; as_AckedNodes := []; as_PendingNodes := []; as_ErrorNodes := [] |}.

Definition CheckAcks (Namespace killToken : string) (expectedNodes : list string)
    (fsNamespace fsName : string) : IO (goerr + AckStatus) :=
  match expectedNodes with
  | [] => mret (inr {| no_acks with as_AllAcked := true |})
  | _ =>
      r ← api_get local KConfigMap (cm_key Namespace);
      match r with
      | inl err =>
          if IsNotFound err then mret (inr {| no_acks with as_PendingNodes := expectedNodes |})
          else mret (inl (wrapf "getting kill signal configmap" err))
      | inr cm =>
          let status := check_nodes (cm_Data cm) killToken fsNamespace fsName expectedNodes no_acks in
          mret (inr {| status with as_AllAcked :=
            bool_decide (length (as_PendingNodes status) = 0)
            && bool_decide (length (as_ErrorNodes status) = 0) |})
      end
  end.

(** ** Cleanup *)

Definition legacy_suffix (fsNamespace fsName : string) : string :=
  "_" +:+ fsNamespace +:+ "_" +:+ fsName.

Definition signalMatchesFS (key signalData fsNamespace fsName : string) : bool :=
  match json_Unmarshal_signal signalData with
  | Some signal =>
      if bool_decide (ks_FSNamespace signal ≠ "") || bool_decide (ks_FSName signal ≠ "") then
        bool_decide (ks_FSNamespace signal = fsNamespace) && bool_decide (ks_FSName signal = fsName)
      else HasSuffix key (legacy_suffix fsNamespace fsName)
  | None => HasSuffix key (legacy_suffix fsNamespace fsName)
  end.

Definition ackMatchesFS (key ackData fsNamespace fsName : string) : bool :=
  match json_Unmarshal_ack ackData with
  | Some ack =>
      if bool_decide (ka_FSNamespace ack ≠ "") || bool_decide (ka_FSName ack ≠ "") then
        bool_decide (ka_FSNamespace ack = fsNamespace) && bool_decide (ka_FSName ack = fsName)
      else HasSuffix key (legacy_suffix fsNamespace fsName)
  | None => HasSuffix key (legacy_suffix fsNamespace fsName)
  end.

(** The keys an entry condemns; the order of the entries is immaterial. *)
Definition condemned (fsNamespace fsName : string) (entry : string * string) : list string :=
  let '(key, data) := entry in
  if HasPrefix key "kill_" then
    if signalMatchesFS key data fsNamespace fsName
    then [key; "ack_" +:+ TrimPrefix key "kill_"] else []
  else if HasPrefix key "ack_" then
    if ackMatchesFS key data fsNamespace fsName then [key] else []
  else [].
Definition toDelete (data : gmap string string) (fsNamespace fsName : string) : list string :=
  mjoin (condemned fsNamespace fsName <$> map_to_list data).

Definition cleanup_attempt (Namespace fsNamespace fsName : string) : IO error :=
  r ← api_get local KConfigMap (cm_key Namespace);
  match r with
  | inl err =>
      if IsNotFound err then mret None
      else mret (Some (wrapf "getting kill signal configmap for cleanup" err))
  | inr cm =>
      let data := default ∅ (cm_Data cm) in
      if decide (data = ∅) then mret None
      else match toDelete data fsNamespace fsName with
           | [] => mret None
           | keys =>
               r ← api_update local KConfigMap {| cm with
                 cm_Data := Some (foldr delete data keys) |};
               mret (err_of r)
           end
  end.

Definition CleanupSignals `{KubeLib} (Namespace fsNamespace fsName : string) : IO error :=
  OnError IsConflict (cleanup_attempt Namespace fsNamespace fsName).

(** ** Events *)

(** Reads and writes of the ConfigMap. *)
Definition signal_event (e : event) : Prop :=
  match e with
  | Ev (Get _ _ _) _ | Ev (ListPods _ _) _ | Ev (ListNodes _) _ => True
  | Ev (Create k _) _ => k = KConfigMap
  | Ev (Update t k _) _ => t_site t = Local ∧ k = KConfigMap
  | _ => False
  end.
(** Reads and updates. *)
Definition cleaning_event (e : event) : Prop :=
  match e with
  | Ev (Get _ _ _) _ => True
  | Ev (Update t k _) _ => t_site t = Local ∧ k = KConfigMap
  | _ => False
  end.

Lemma discoverAgentNodes_safe ns : rg any_event signal_event (discoverAgentNodes ns) (λ _, True).
Proof. unfold discoverAgentNodes. rg_solve. Qed.

Lemma SignalKill_safe `{KubeLibLaws} ns ip tok fns name :
  rg any_event signal_event (SignalKill ns ip tok fns name) (λ _, True).
Proof.
  unfold SignalKill. rg_solve; auto using discoverAgentNodes_safe.
  apply OnError_safe. unfold signal_attempt. rg_solve.
Qed.
Lemma CheckAcks_safe ns tok nodes fns name :
  rg any_event cleaning_event (CheckAcks ns tok nodes fns name) (λ _, True).
Proof. unfold CheckAcks. rg_solve. Qed.
Lemma CleanupSignals_safe `{KubeLibLaws} ns fns name :
  rg any_event cleaning_event (CleanupSignals ns fns name) (λ _, True).
Proof. unfold CleanupSignals. apply OnError_safe. unfold cleanup_attempt. rg_solve. Qed.
