(* ===== verification/Netlink.v ===== *)
(** * Destroying sockets ([src/internal/connkill/netlink.go], [namespace.go])

    The agent's work on a kill signal: dump the TCP sockets of every network
    namespace through SOCK_DIAG, and destroy those connected to an address.
    Messages are byte sequences with the kernel's layouts on a little-endian
    machine (amd64 and arm64, the architectures of the images). *)
From Stdlib Require Import Ascii.
From stdpp Require Import base gmap strings list numbers.
From S2P Require Import Prelude GoStd GoNetIP Types Kube Logic.
Local Open Scope N_scope.

(** ** Bytes *)

Fixpoint le_bytes (n : nat) (x : N) : list N :=
  match n with
  | O => []
  | S n => x mod 256 :: le_bytes n (x / 256)
  end.
Fixpoint le_val (b : list N) : N :=
  match b with
  | [] => 0
  | x :: b => x + 256 * le_val b
  end.
(** [b[i:i+n]]. *)
Definition slice (i n : nat) (b : list N) : list N := take n (drop i b).

(** ** syscall.ParseNetlinkMessage *)

Definition NLMSG_HDRLEN : nat := 16.
Definition NLMSG_ERROR : N := 2.
Definition NLMSG_DONE : N := 3.
Definition NLM_F_REQUEST : N := 1.
Definition NLM_F_ACK : N := 4.
Definition NLM_F_DUMP : N := 768.

Record NetlinkMessage := { nm_Type : N; nm_Data : list N }.

Fixpoint ParseNetlinkMessage_loop (fuel : nat) (b : list N) : option (list NetlinkMessage) :=
  match fuel with
  | O => Some []
  | S fuel =>
      if decide (length b < NLMSG_HDRLEN)%nat then Some []
      else
        let hlen := N.to_nat (le_val (slice 0 4 b)) in
        let l := ((hlen + 3) / 4 * 4)%nat in
        if decide (hlen < NLMSG_HDRLEN ∨ length b < l)%nat then None
        else
          let m := {| nm_Type := le_val (slice 4 2 b);
                      nm_Data := slice NLMSG_HDRLEN (hlen - NLMSG_HDRLEN) b |} in
          ms ← ParseNetlinkMessage_loop fuel (drop l b);
          Some (m :: ms)
  end.
(** Every message takes at least a header, so the length is fuel enough. *)
Definition ParseNetlinkMessage (b : list N) : option (list NetlinkMessage) :=
  ParseNetlinkMessage_loop (length b) b.

(** ** netlink.go *)

Definition AF_INET : N := 2.
Definition AF_INET6 : N := 10.
Definition IPPROTO_TCP : N := 6.
Definition SOCK_DIAG_BY_FAMILY : N := 20.
Definition SOCK_DESTROY : N := 21.
Definition tcpAllStates : N := 4095.

Record inetDiagSockID := {
  id_SPort : list N; id_DPort : list N; id_Src : list N; id_Dst : list N;
  id_If : N; id_Cookie : N * N }.

Definition zero_id : inetDiagSockID := {|
  id_SPort := [0; 0]; id_DPort := [0; 0]; id_Src := replicate 16 0; id_Dst := replicate 16 0;
  id_If := 0; id_Cookie := (0, 0) |}.

(** The in-memory layout of the identity, and its reading. *)
Definition id_bytes (i : inetDiagSockID) : list N :=
  id_SPort i ++ id_DPort i ++ id_Src i ++ id_Dst i ++ le_bytes 4 (id_If i)
  ++ le_bytes 4 (id_Cookie i).1 ++ le_bytes 4 (id_Cookie i).2.
Definition read_id (b : list N) : inetDiagSockID := {|
  id_SPort := slice 0 2 b; id_DPort := slice 2 2 b; id_Src := slice 4 16 b;
  id_Dst := slice 20 16 b; id_If := le_val (slice 36 4 b);
  id_Cookie := (le_val (slice 40 4 b), le_val (slice 44 4 b)) |}.

Record inetDiagMsg := { dm_Family : N; dm_State : N; dm_ID : inetDiagSockID }.
Definition sizeof_inetDiagMsg : nat := 72.
Definition read_msg (b : list N) : inetDiagMsg :=
  {| dm_Family := nth 0 b 0; dm_State := nth 1 b 0; dm_ID := read_id (drop 4 b) |}.

(** [inetDiagReqV2] in memory: family, protocol, extension, padding, states,
    identity. *)
Record inetDiagReqV2 := { rq_Family : N; rq_Protocol : N; rq_States : N; rq_ID : inetDiagSockID }.
Definition req_bytes (r : inetDiagReqV2) : list N :=
  [rq_Family r; rq_Protocol r; 0; 0] ++ le_bytes 4 (rq_States r) ++ id_bytes (rq_ID r).

Definition netlink_request (type flags seq : N) (payload : list N) : list N :=
  le_bytes 4 (N.of_nat (NLMSG_HDRLEN + length payload)) ++ le_bytes 2 type ++ le_bytes 2 flags
  ++ le_bytes 4 seq ++ le_bytes 4 0 ++ payload.

(** The error code of an NLMSG_ERROR message, 0 for an acknowledgment. *)
Definition netlink_errno (m : NetlinkMessage) : option Z :=
  if decide (4 <= length (nm_Data m))%nat then
    let errno := i32 (Z.of_N (le_val (slice 0 4 (nm_Data m)))) in
    if decide (errno = 0%Z) then None else Some errno
  else None.

Definition To16 (ip : list N) : option (list N) :=
  if decide (length ip = 4%nat) then Some (v4InV6Prefix ++ ip)
  else if decide (length ip = 16%nat) then Some ip else None.

Definition matchesDest (msg : inetDiagMsg) (destIP : list N) (family : N) : bool :=
  if family =? AF_INET then
    match To4 destIP with
    | None => false
    | Some ip4 => bool_decide (take 4 (id_Dst (dm_ID msg)) = take 4 ip4)
    end
  else
    match To16 destIP with
    | None => false
    | Some ip6 => bool_decide (take 16 (id_Dst (dm_ID msg)) = take 16 ip6)
    end.

(** The inner loop over one datagram: the new state, and whether the dump is
    [Done], goes on ([More]), was [Stopped] by [fn] or failed. *)
Inductive dump_state := Done | More | Stopped | Failed (errno : Z).

Section dump.
Context {S : Type} (fn : inetDiagMsg → S → S * bool).

Fixpoint dump_messages (msgs : list NetlinkMessage) (s : S) : S * dump_state :=
  match msgs with
  | [] => (s, More)
  | m :: msgs =>
      if nm_Type m =? NLMSG_DONE then (s, Done)
      else if nm_Type m =? NLMSG_ERROR then
        match netlink_errno m with
        | Some errno => (s, Failed errno)
        | None => dump_messages msgs s
        end
      else if decide (sizeof_inetDiagMsg <= length (nm_Data m))%nat then
        let '(s, continue) := fn (read_msg (nm_Data m)) s in
        if continue then dump_messages msgs s else (s, Stopped)
      else dump_messages msgs s
  end.

(** The receive loop; the kernel decides how many datagrams a dump has. *)
Fixpoint receive_dump (fuel : nat) (fd : Z) (s : S) : IO (S * error) :=
  match fuel with
  | O => out_of_fuel
  | Datatypes.S fuel =>
      r ← perform (Recvfrom fd 65536);
      match r with
      | inl err => mret (s, Some (wrapf "recvfrom" err))
      | inr b =>
          match ParseNetlinkMessage b with
          | None => mret (s, Some (Errorf "parsing netlink messages: invalid argument"))
          | Some msgs =>
              match dump_messages msgs s with
              | (s, Done) | (s, Stopped) => mret (s, None)
              | (s, Failed errno) => mret (s, Some (Errorf ("netlink error: " +:+ itoa errno)))
              | (s, More) => receive_dump fuel fd s
              end
          end
      end
  end.

Definition forEachTCPSocket (fuel : nat) (fd : Z) (family : N) (s : S) : IO (S * error) :=
  let req := {| rq_Family := family; rq_Protocol := IPPROTO_TCP; rq_States := tcpAllStates;
                rq_ID := zero_id |} in
  e ← perform (Write fd (netlink_request SOCK_DIAG_BY_FAMILY
        (N.lor NLM_F_DUMP NLM_F_REQUEST) 1 (req_bytes req)));
  match e with
  | Some err => mret (s, Some (wrapf "sending diag request" err))
  | None =>
      e ← perform (SetRecvTimeout fd 10);
      match e with
      | Some err => mret (s, Some (wrapf "setting recv timeout" err))
      | None => receive_dump fuel fd s
      end
  end.
End dump.

Definition destroySocket (fd : Z) (family : N) (id : inetDiagSockID) : IO error :=
  let req := {| rq_Family := family; rq_Protocol := IPPROTO_TCP; rq_States := tcpAllStates;
                rq_ID := id |} in
  e ← perform (Write fd (netlink_request SOCK_DESTROY (N.lor NLM_F_REQUEST NLM_F_ACK) 2
        (req_bytes req)));
  match e with
  | Some err => mret (Some (wrapf "sending destroy request" err))
  | None =>
      e ← perform (SetRecvTimeout fd 5);
      match e with
      | Some err => mret (Some (wrapf "setting destroy recv timeout" err))
      | None =>
          r ← perform (Recvfrom fd 4096);
          match r with
          | inl err => mret (Some (wrapf "reading destroy ack" err))
          | inr b =>
              match ParseNetlinkMessage b with
              | None => mret (Some (Errorf "parsing destroy ack: invalid argument"))
              | Some msgs =>
                  match omap (λ m, if nm_Type m =? NLMSG_ERROR then netlink_errno m else None) msgs with
                  | errno :: _ => mret (Some (Errorf ("destroy error: " +:+ itoa errno)))
                  | [] => mret None
                  end
              end
          end
      end
  end.

(** Phase 2: destroyed sockets and errors. *)
Fixpoint destroy_all (fd : Z) (family : N) (targets : list inetDiagSockID) (destroyed errCount : Z)
    : IO (Z * Z) :=
  match targets with
  | [] => mret (destroyed, errCount)
  | id :: targets =>
      e ← destroySocket fd family id;
      match e with
      | Some _ => destroy_all fd family targets destroyed (errCount + 1)%Z
      | None => destroy_all fd family targets (destroyed + 1)%Z errCount
      end
  end.

(** The callback of phase 1. *)
Definition collect (destIP : list N) (family : N) (msg : inetDiagMsg)
    (targets : list inetDiagSockID) : list inetDiagSockID * bool :=
  (if matchesDest msg destIP family then targets ++ [dm_ID msg] else targets, true).

Definition dest_family (destIP : list N) : N :=
  match To4 destIP with None => AF_INET6 | Some _ => AF_INET end.

Definition DestroySocketsByDestIP (fuel : nat) (destIP : list N) : IO (Z * Z * error) :=
  let family := dest_family destIP in
  r ← perform NetlinkSocket;
  match r with
  | inl err => mret (0, 0, Some (wrapf "opening netlink socket" err))%Z
  | inr fd =>
      e ← perform (Bind fd);
      r ← match e with
          | Some err => mret (0, 0, Some (wrapf "binding netlink socket" err))%Z
          | None =>
              '(targets, e) ← forEachTCPSocket (collect destIP family) fuel fd family [];
              match e with
              | Some err => mret (0, 0, Some (wrapf "iterating TCP sockets" err))%Z
              | None =>
                  '(destroyed, errCount) ← destroy_all fd family targets 0 0;
                  mret (destroyed, errCount, None)
              end
          end;
      _ ← perform (Close fd);
      mret r
  end.

(** ** namespace.go *)

(** [strconv.Atoi] succeeds: an optional sign and decimal digits in range. *)
Definition Atoi_ok (s : string) : bool :=
  let digits :=
    match s with
    | String "+"%char t | String "-"%char t => t
    | _ => s
    end in
  let neg := HasPrefix s "-" in
  let bs := sha256.bytes_of_string digits in
  let v := foldl (λ acc c, acc * 10 + (c - 48)) 0 bs in
  negb (bool_decide (bs = [])) && forallb (λ c, (48 <=? c) && (c <=? 57)) bs
  && (v <=? (if neg then 2 ^ 63 else 2 ^ 63 - 1)).

Definition ns_path (pid : string) : string := "/proc/" +:+ pid +:+ "/ns/net".

(** The directory entries are names with their [IsDir] flag. *)
Fixpoint scan_proc (entries : list (string * bool)) (seenInodes : list N)
    (namespaces : list string) : IO (list string) :=
  match entries with
  | [] => mret namespaces
  | (name, isDir) :: entries =>
      if negb isDir then scan_proc entries seenInodes namespaces
      else if negb (Atoi_ok name) then scan_proc entries seenInodes namespaces
      else
        r ← perform (StatInode (ns_path name));
        match r with
        | inl _ => scan_proc entries seenInodes namespaces
        | inr ino =>
            if decide (ino ∈ seenInodes) then scan_proc entries seenInodes namespaces
            else scan_proc entries (ino :: seenInodes) (namespaces ++ [ns_path name])
        end
  end.

Definition enumerateNetworkNamespaces : IO (goerr + list string) :=
  r ← perform ReadDirProc;
  match r with
  | inl err => mret (inl (wrapf "reading /proc" err))
  | inr entries => namespaces ← scan_proc entries [] []; mret (inr namespaces)
  end.

Definition isPermissionError (err : goerr) : bool := Contains (err_msg err) "permission denied".

Definition killInNamespace (fuel : nat) (nsPath : string) (destIP : list N) : IO (Z * Z * error) :=
  r ← perform (Open "/proc/self/ns/net");
  match r with
  | inl err => mret (0, 0, Some (wrapf "opening current netns" err))%Z
  | inr origNS =>
      r ← perform (Open nsPath);
      res ← match r with
            | inl err => mret (0, 0, Some (wrapf ("opening target netns " +:+ nsPath) err))%Z
            | inr targetNS =>
                e ← perform (Setns targetNS);
                res ← match e with
                      | Some err =>
                          if isPermissionError err then
                            mret (0, 0, Some (wrapf ("permission denied entering netns " +:+ nsPath) err))%Z
                          else mret (0, 0, Some (wrapf ("setns to " +:+ nsPath) err))%Z
                      | None =>
                          '(killed, errCount, killErr) ← DestroySocketsByDestIP fuel destIP;
                          e ← perform (Setns origNS);
                          match e with
                          | Some err => mret (killed, errCount, Some (wrapf "restoring original netns" err))
                          | None => mret (killed, errCount, killErr)
                          end
                      end;
                _ ← perform (Close targetNS);
                mret res
            end;
      _ ← perform (Close origNS);
      mret res
  end.

Fixpoint kill_in_all (fuel : nat) (namespaces : list string) (destIP : list N)
    (killed errCount : Z) : IO (Z * Z) :=
  match namespaces with
  | [] => mret (killed, errCount)
  | nsPath :: namespaces =>
      '(nsKilled, nsErrors, nsErr) ← killInNamespace fuel nsPath destIP;
      let errCount := (errCount + nsErrors)%Z in
      kill_in_all fuel namespaces destIP (killed + nsKilled)%Z
        (match nsErr with Some _ => (errCount + 1)%Z | None => errCount end)
  end.

Definition KillConnectionsAllNamespaces (fuel : nat) (destIP : list N) : IO (Z * Z * error) :=
  r ← enumerateNetworkNamespaces;
  match r with
  | inl err => mret (0, 0, Some (wrapf "enumerating network namespaces" err))%Z
  | inr namespaces =>
      '(killed, errCount) ← kill_in_all fuel namespaces destIP 0 0;
      mret (killed, errCount, None)
  end.
