(* ===== verification/NetlinkProofs.v ===== *)
(** * What the destruction of sockets promises

    The destroy requests sent are exactly those for the dumped sockets connected
    to the address ([connected_to]), counted by what the kernel answered; the
    dump loop ends when the kernel's dump does; every namespace found is visited
    once: entered, rid of the sockets and left for the thread's own, every
    descriptor closed ([visited]). *)
From Stdlib Require Import NArith.
From stdpp Require Import base gmap strings list numbers option.
From S2P Require Import Prelude GoStd GoNetIP Types Kube Logic Fixtures Netlink.
Local Open Scope N_scope.

(** ** The sockets of a dump *)

(** The sockets of a datagram, up to the end of the dump, and whether it ends
    the dump. *)
Fixpoint datagram_sockets (msgs : list NetlinkMessage) : list inetDiagMsg :=
  match msgs with
  | [] => []
  | m :: msgs =>
      if nm_Type m =? NLMSG_DONE then []
      else if nm_Type m =? NLMSG_ERROR then datagram_sockets msgs
      else if decide (sizeof_inetDiagMsg <= length (nm_Data m))%nat
      then read_msg (nm_Data m) :: datagram_sockets msgs
      else datagram_sockets msgs
  end.

(** The sockets dumped in a history: those of the datagrams read with the dump's
    buffer. *)
Definition event_sockets (e : event) : list inetDiagMsg :=
  match e with
  | Ev (Recvfrom _ size) (inr b) =>
      if decide (size = 65536%Z) then
        match ParseNetlinkMessage b with Some msgs => datagram_sockets msgs | None => [] end
      else []
  | _ => []
  end.
Definition dumped (t : hist) : list inetDiagMsg := mjoin (event_sockets <$> t).
Lemma dumped_app t1 t2 : dumped (t1 ++ t2) = dumped t1 ++ dumped t2.
Proof. unfold dumped. by rewrite fmap_app, join_app. Qed.

Lemma dumped_cons e t : dumped (e :: t) = event_sockets e ++ dumped t.
Proof. done. Qed.

(** The destination of an identity is [destIP]: an IPv4 address of four bytes or
    in its 16-byte form, against the first four bytes of the field; otherwise the
    sixteen bytes of an IPv6 address. *)
Definition v4_mapped (ip : list N) : Prop :=
  length ip = 16%nat ∧ take 12 ip = [0; 0; 0; 0; 0; 0; 0; 0; 0; 0; 255; 255].
Definition connected_to (destIP : list N) (id : inetDiagSockID) : Prop :=
  length destIP = 4%nat ∧ take 4 (id_Dst id) = destIP
  ∨ v4_mapped destIP ∧ take 4 (id_Dst id) = drop 12 destIP
  ∨ length destIP = 16%nat ∧ ¬ v4_mapped destIP ∧ take 16 (id_Dst id) = destIP.
#[export] Instance v4_mapped_dec ip : Decision (v4_mapped ip).
Proof. unfold v4_mapped. apply _. Defined.
#[export] Instance connected_to_dec destIP id : Decision (connected_to destIP id).
Proof. unfold connected_to. apply _. Defined.
(** The address family of its sockets, AF_INET or AF_INET6. *)
Definition family_of (destIP : list N) : N :=
  if decide (length destIP = 4%nat ∨ v4_mapped destIP) then 2 else 10.

Lemma To4_cases ip :
  To4 ip = if decide (length ip = 4%nat) then Some ip
           else if decide (v4_mapped ip) then Some (drop 12 ip) else None.
Proof.
  unfold To4. case_bool_decide as H1; [by rewrite decide_True|]. rewrite decide_False by done.
  case_bool_decide as H2; destruct H2 as [? ?] || idtac.
  - by rewrite decide_True.
  - rewrite decide_False; [done|]. intros [? ?]. by apply H2.
Qed.
Lemma dest_family_spec destIP : dest_family destIP = family_of destIP.
Proof.
  unfold dest_family, family_of. rewrite To4_cases. repeat case_decide; try done; tauto.
Qed.
Lemma matchesDest_iff m destIP :
  matchesDest m destIP (dest_family destIP) = true ↔ connected_to destIP (dm_ID m).
Proof.
  unfold matchesDest, dest_family, connected_to. rewrite To4_cases.
  destruct (decide (length destIP = 4%nat)) as [H4|H4].
  { simpl. rewrite bool_decide_eq_true, (take_ge destIP) by lia.
    split; [by left|]. intros [[_ ?]|[[[? _] _]|[? _]]]; [done|lia..]. }
  destruct (decide (v4_mapped destIP)) as [Hm|Hm]; simpl.
  { pose proof Hm as [Hl _]. rewrite bool_decide_eq_true.
    rewrite (take_ge (drop 12 destIP)) by (rewrite length_drop; lia).
    split; [by right; left|]. intros [[? _]|[[_ ?]|(_ & [] & _)]]; done. }
  unfold To16. rewrite decide_False by done. destruct (decide (length destIP = 16%nat)) as [Hl|Hl].
  - rewrite bool_decide_eq_true, (take_ge destIP) by lia.
    split; [by right; right|]. intros [[? _]|[[? _]|(_ & _ & ?)]]; done.
  - split; [done|]. intros [[? _]|[[[? _] _]|[? _]]]; done.
Qed.

(** The identities of the sockets connected to [destIP]. *)
Definition matching (destIP : list N) (msgs : list inetDiagMsg) : list inetDiagSockID :=
  dm_ID <$> filter (λ m, connected_to destIP (dm_ID m)) msgs.
Lemma matching_app destIP l1 l2 : matching destIP (l1 ++ l2) = matching destIP l1 ++ matching destIP l2.
Proof. unfold matching. by rewrite list.filter_app, fmap_app. Qed.
Lemma matching_cons destIP m l :
  matching destIP (m :: l)
  = (if matchesDest m destIP (dest_family destIP) then [dm_ID m] else []) ++ matching destIP l.
Proof.
  unfold matching. rewrite filter_cons. pose proof (matchesDest_iff m destIP) as Hm.
  destruct (matchesDest m destIP _); case_decide as Hd; simpl; try done.
  - by destruct Hd; apply Hm.
  - by apply Hm in Hd.
Qed.

(** The kernel answers a datagram without an error code. *)
Definition errno_of (m : NetlinkMessage) : Z := i32 (Z.of_N (le_val (take 4 (nm_Data m)))).
Definition kernel_accepts (b : list N) : Prop :=
  ∃ msgs, ParseNetlinkMessage b = Some msgs
    ∧ ∀ m, m ∈ msgs → nm_Type m = NLMSG_ERROR → (4 <= length (nm_Data m))%nat → errno_of m = 0%Z.

(** An operation on a socket that fails: the call itself, or its answer. *)
Definition failed_event (e : event) : Prop :=
  match e with
  | Ev NetlinkSocket (inl _) | Ev (Bind _) (Some _) | Ev (Write _ _) (Some _)
  | Ev (SetRecvTimeout _ _) (Some _) | Ev (Recvfrom _ _) (inl _) => True
  | Ev (Recvfrom _ _) (inr b) => ¬ kernel_accepts b
  | _ => False
  end.
Definition netlink_fails (m : NetlinkMessage) : Prop :=
  nm_Type m = NLMSG_ERROR ∧ (4 <= length (nm_Data m))%nat ∧ errno_of m ≠ 0%Z.
Lemma netlink_errno_fails m errno :
  nm_Type m = NLMSG_ERROR → netlink_errno m = Some errno → netlink_fails m.
Proof.
  unfold netlink_errno, netlink_fails, errno_of, slice. rewrite drop_0. intros Ht He.
  by repeat case_decide.
Qed.
Lemma fails_refused b msgs :
  ParseNetlinkMessage b = Some msgs → Exists netlink_fails msgs → ¬ kernel_accepts b.
Proof.
  intros Hp (m & Hm & Ht & Hl & He)%list.Exists_exists (msgs' & Hp' & Hall).
  rewrite Hp in Hp'. injection Hp' as <-. exact (He (Hall m Hm Ht Hl)).
Qed.

(** The datagrams of a dump, read from [fd] up to the one that ends it. *)
Definition ends_dump (msgs : list NetlinkMessage) : bool :=
  existsb (λ m, nm_Type m =? NLMSG_DONE) msgs.
Inductive full_dump (fd : Z) : hist → Prop :=
  | FD_last b msgs : ParseNetlinkMessage b = Some msgs → ends_dump msgs = true →
      full_dump fd [Ev (Recvfrom fd 65536) (inr b)]
  | FD_more b msgs t : ParseNetlinkMessage b = Some msgs → ends_dump msgs = false →
      full_dump fd t → full_dump fd (Ev (Recvfrom fd 65536) (inr b) :: t).

Section collect.
Context (destIP : list N).

Lemma dump_messages_collect msgs s :
  match dump_messages (collect destIP (dest_family destIP)) msgs s with
  | (s', Done) => s' = s ++ matching destIP (datagram_sockets msgs) ∧ ends_dump msgs = true
  | (s', More) => s' = s ++ matching destIP (datagram_sockets msgs) ∧ ends_dump msgs = false
  | (_, Stopped) => False
  | (_, Failed _) => Exists netlink_fails msgs
  end.
Proof.
  revert s. induction msgs as [|m msgs IH]; intros s; simpl; [by rewrite app_nil_r|].
  destruct (nm_Type m =? NLMSG_DONE); [by rewrite app_nil_r|]. cbn [orb].
  assert (Hmore : ∀ s, match dump_messages (collect destIP (dest_family destIP)) msgs s with
    | (_, Failed _) => Exists netlink_fails (m :: msgs) | _ => True end).
  { intros s1. specialize (IH s1). destruct (dump_messages _ msgs s1) as [? []]; try done. by right. }
  destruct (N.eqb_spec (nm_Type m) NLMSG_ERROR) as [Ht|_].
  { destruct (netlink_errno m) as [errno|] eqn:He; [left; by eapply netlink_errno_fails|].
    specialize (IH s). specialize (Hmore s). by destruct (dump_messages _ msgs s) as [? []]. }
  destruct (decide _);
    [|specialize (IH s); specialize (Hmore s); by destruct (dump_messages _ msgs s) as [? []]].
  unfold collect at 1.
  specialize (IH (if matchesDest (read_msg (nm_Data m)) destIP (dest_family destIP)
    then s ++ [dm_ID (read_msg (nm_Data m))] else s)).
  destruct (dump_messages _ msgs _) as [s' []]; try done; [..|by right];
    destruct IH as [-> ?]; (split; [|done]);
    rewrite matching_cons; destruct (matchesDest _ _ _); simpl; by rewrite <- ?app_assoc.
Qed.

Lemma receive_dump_collect fuel fd s :
  wp (receive_dump (collect destIP (dest_family destIP)) fuel fd s) (λ o t,
    match o with
    | Ret (s', None) => s' = s ++ matching destIP (dumped t) ∧ full_dump fd t
    | Ret (_, Some _) => Exists failed_event t
    | Panic => length t = fuel
    end).
Proof.
  revert s. induction fuel as [|fuel IH]; intros s; simpl; [by apply wp_panic|].
  wp_step. destruct r as [err|b]; [by apply wp_ret; constructor|].
  destruct (ParseNetlinkMessage b) as [msgs|] eqn:Hp;
    [|apply wp_ret; constructor; intros (? & ? & _); congruence].
  pose proof (dump_messages_collect msgs s) as Hd.
  assert (Hone : event_sockets (Ev (Recvfrom fd 65536) (inr b)) = datagram_sockets msgs).
  { simpl. by rewrite Hp. }
  destruct (dump_messages _ msgs s) as [s' []];
    [destruct Hd as [Hd He].. |done|apply wp_ret; constructor; by eapply fails_refused].
  - apply wp_ret. rewrite dumped_cons, Hone, app_nil_r. split; [done|by econstructor].
  - eapply wp_mono; [apply IH|]. intros [[s2 [err|]]|] t Ht; [by right| |by simpl; rewrite Ht].
    destruct Ht as [-> Hf].
    rewrite Hd, dumped_cons, Hone, matching_app, app_assoc. split; [done|by eapply FD_more].
Qed.
End collect.

(** ** Destroy requests *)

Definition destroy_request (family : N) (id : inetDiagSockID) : list N :=
  netlink_request SOCK_DESTROY (N.lor NLM_F_REQUEST NLM_F_ACK) 2 (req_bytes {|
    rq_Family := family; rq_Protocol := IPPROTO_TCP; rq_States := tcpAllStates; rq_ID := id |}).
(** The destroy requests sent, in order: the messages whose type field says so. *)
Definition event_destroys (e : event) : list (list N) :=
  match e with
  | Ev (Write _ buf) _ => if le_val (slice 4 2 buf) =? SOCK_DESTROY then [buf] else []
  | _ => []
  end.
Definition destroys (t : hist) : list (list N) := mjoin (event_destroys <$> t).
Lemma destroys_app t1 t2 : destroys (t1 ++ t2) = destroys t1 ++ destroys t2.
Proof. unfold destroys. by rewrite fmap_app, join_app. Qed.


Lemma request_type type flags seq payload :
  type < 65536 → le_val (slice 4 2 (netlink_request type flags seq payload)) = type.
Proof.
  intros Ht. unfold netlink_request, slice. simpl.
  rewrite N.mul_0_r, N.add_0_r.
  rewrite (N.mod_small (type / 256)) by (apply N.Div0.div_lt_upper_bound; lia).
  rewrite N.add_comm. symmetry. apply N.div_mod'.
Qed.
Lemma destroys_cons e t : destroys (e :: t) = event_destroys e ++ destroys t.
Proof. done. Qed.

(** What became of a destroy request: its events, on the descriptor [fd].  The
    kernel has destroyed the socket when it answers without an error code;
    everything else, from the write on, is an error. *)
Inductive destroy_outcome (fd : Z) (family : N) (id : inetDiagSockID) : bool → hist → Prop :=
  | DO_unsent err : destroy_outcome fd family id false
      [Ev (Write fd (destroy_request family id)) (Some err)]
  | DO_untimed err : destroy_outcome fd family id false
      [Ev (Write fd (destroy_request family id)) None; Ev (SetRecvTimeout fd 5) (Some err)]
  | DO_unread err : destroy_outcome fd family id false
      [Ev (Write fd (destroy_request family id)) None; Ev (SetRecvTimeout fd 5) None;
       Ev (Recvfrom fd 4096) (inl err)]
  | DO_refused b : ¬ kernel_accepts b → destroy_outcome fd family id false
      [Ev (Write fd (destroy_request family id)) None; Ev (SetRecvTimeout fd 5) None;
       Ev (Recvfrom fd 4096) (inr b)]
  | DO_destroyed b : kernel_accepts b → destroy_outcome fd family id true
      [Ev (Write fd (destroy_request family id)) None; Ev (SetRecvTimeout fd 5) None;
       Ev (Recvfrom fd 4096) (inr b)].

Definition ok_error (e : error) : bool := match e with None => true | Some _ => false end.
Lemma errno_iff m :
  (if nm_Type m =? NLMSG_ERROR then netlink_errno m else None) = None
  ↔ (nm_Type m = NLMSG_ERROR → (4 <= length (nm_Data m))%nat → errno_of m = 0%Z).
Proof.
  unfold netlink_errno, errno_of, slice. rewrite drop_0.
  destruct (N.eqb_spec (nm_Type m) NLMSG_ERROR) as [Ht|Ht]; [|split; [by intros _ ?|done]].
  destruct (decide _) as [Hl|Hl]; [|split; [by intros _ _ ?|done]].
  case_decide as He; split; try done. intros H. by destruct He; apply H.
Qed.
Lemma kernel_accepts_iff b msgs :
  ParseNetlinkMessage b = Some msgs →
  omap (λ m, if nm_Type m =? NLMSG_ERROR then netlink_errno m else None) msgs = []
  ↔ kernel_accepts b.
Proof.
  intros Hp. unfold kernel_accepts. rewrite Hp. split.
  - intros Ho. exists msgs. split; [done|]. intros m Hm. apply errno_iff.
    destruct (if nm_Type m =? NLMSG_ERROR then netlink_errno m else None) as [z|] eqn:Hz; [|done].
    exfalso. apply (not_elem_of_nil z). rewrite <- Ho. apply list_elem_of_omap. by exists m.
  - intros (msgs' & [= <-] & Hall). apply elem_of_nil_inv. intros z (m & Hm & Hz)%list_elem_of_omap.
    rewrite (proj2 (errno_iff m) (Hall m Hm)) in Hz. done.
Qed.

Lemma destroySocket_outcome fd family id :
  wp (destroySocket fd family id) (λ o t, ∃ e, o = Ret e ∧ destroy_outcome fd family id (ok_error e) t).
Proof.
  unfold destroySocket. change (netlink_request SOCK_DESTROY _ _ _) with (destroy_request family id).
  wp_op. intros [err|]; [apply wp_ret; eexists; split; [done|constructor]|].
  wp_op. intros [err|]; [apply wp_ret; eexists; split; [done|constructor]|].
  wp_op. intros [err|b]; [apply wp_ret; eexists; split; [done|constructor]|].
  destruct (ParseNetlinkMessage b) as [msgs|] eqn:Hp.
  - pose proof (kernel_accepts_iff b msgs Hp) as Hk.
    destruct (omap _ msgs) as [|errno l]; apply wp_ret; eexists; (split; [done|]).
    + constructor. by apply Hk.
    + apply DO_refused. by intros ?%Hk.
  - apply wp_ret. eexists. split; [done|]. apply DO_refused. intros (msgs & Hm & _). congruence.
Qed.

Lemma destroy_outcome_request fd family id ok t :
  destroy_outcome fd family id ok t → destroys t = [destroy_request family id] ∧ dumped t = [].
Proof.
  assert (Hw : ∀ r, event_destroys (Ev (Write fd (destroy_request family id)) r)
    = [destroy_request family id]).
  { intros r. unfold event_destroys. unfold destroy_request at 1. by rewrite request_type. }
  destruct 1; rewrite destroys_cons, Hw; unfold dumped; simpl; done.
Qed.

(** The outcomes of the requests, counted. *)
Definition count (b : bool) (outcomes : list (bool * hist)) : Z :=
  Z.of_nat (length (filter (λ x, x.1 = b) outcomes)).
Lemma count_cons b x l : count b (x :: l) = ((if decide (x.1 = b) then 1 else 0) + count b l)%Z.
Proof. unfold count. rewrite filter_cons. case_decide; simpl; lia. Qed.

Lemma destroy_all_outcomes fd family ids d e :
  wp (destroy_all fd family ids d e) (λ o t, ∃ outcomes,
    t = mjoin outcomes.*2 ∧ Forall2 (λ id x, destroy_outcome fd family id x.1 x.2) ids outcomes
    ∧ o = Ret (d + count true outcomes, e + count false outcomes)%Z).
Proof.
  revert d e. induction ids as [|id ids IH]; intros d e; simpl.
  { apply wp_ret. exists []. split; [done|]. split; [constructor|]. unfold count. simpl.
    by rewrite !Z.add_0_r. }
  apply wp_bind. eapply wp_mono; [apply destroySocket_outcome|].
  intros o t (err & -> & Hout).
  destruct err as [err|]; (eapply wp_mono; [apply IH|]); intros o t' (outcomes & -> & Hall & ->);
    [exists ((false, t) :: outcomes)|exists ((true, t) :: outcomes)];
    (split; [done|]); (split; [by constructor|]); rewrite !count_cons; simpl; do 2 f_equal; lia.
Qed.

Lemma outcomes_requests fd family ids (outcomes : list (bool * hist)) :
  Forall2 (λ id x, destroy_outcome fd family id x.1 x.2) ids outcomes →
  destroys (mjoin outcomes.*2) = destroy_request family <$> ids ∧ dumped (mjoin outcomes.*2) = [].
Proof.
  induction 1 as [|id x ids outcomes Ho _ [IH1 IH2]]; [done|].
  destruct (destroy_outcome_request _ _ _ _ _ Ho) as [H1 H2].
  change (mjoin (x :: outcomes).*2) with (x.2 ++ mjoin outcomes.*2).
  by rewrite destroys_app, dumped_app, H1, H2, IH1, IH2.
Qed.

Lemma receive_dump_destroys {S} (fn : inetDiagMsg → S → S * bool) fuel fd s :
  wp (receive_dump fn fuel fd s) (λ _ t, destroys t = []).
Proof.
  revert s. induction fuel as [|fuel IH]; intros s; simpl; [by apply wp_panic|].
  by repeat wp_step.
Qed.

(** The request for a dump of the sockets of a family, in any state. *)
Definition dump_request (family : N) : list N :=
  netlink_request SOCK_DIAG_BY_FAMILY (N.lor NLM_F_DUMP NLM_F_REQUEST) 1 (req_bytes {|
    rq_Family := family; rq_Protocol := IPPROTO_TCP; rq_States := tcpAllStates;
    rq_ID := zero_id |}).

Lemma forEachTCPSocket_collect destIP fuel fd :
  wp (forEachTCPSocket (collect destIP (dest_family destIP)) fuel fd (dest_family destIP) [])
    (λ o t, destroys t = [] ∧ match o with
      | Ret (ids, None) => ∃ reads, ids = matching destIP (dumped reads) ∧ full_dump fd reads
          ∧ t = [Ev (Write fd (dump_request (dest_family destIP))) None;
                 Ev (SetRecvTimeout fd 10) None] ++ reads
      | Ret (_, Some _) => Exists failed_event t
      | Panic => length t = (2 + fuel)%nat
      end).
Proof.
  unfold forEachTCPSocket. wp_op. intros [err|]; [apply wp_ret; by repeat constructor|].
  wp_op. intros [err|]; [apply wp_ret; split; [done|by right; left]|].
  eapply wp_mono; [apply wp_conj; [apply receive_dump_destroys|apply receive_dump_collect]|].
  intros o t [Ht Hc]. rewrite !destroys_cons, Ht. split; [done|].
  destruct o as [[ids [err|]]|]; [by do 2 right| |by simpl; rewrite Hc].
  destruct Hc as [-> Hf]. by exists t.
Qed.

(** A run that succeeds asks for a dump of the sockets of the address's family,
    reads it to its end, then sends one destroy request for each that is
    connected to [destIP], in the order of the dump; it counts those the kernel
    accepted and the others.  A run fails only if an operation of it does, and
    then destroys nothing.  Running out of fuel takes [fuel] datagrams. *)
Definition exact_destruction (fuel : nat) (destIP : list N) (o : outcome (Z * Z * error)) (t : hist) : Prop :=
  match o with
  | Ret (d, e, None) => ∃ fd reads outcomes c,
      t = [Ev NetlinkSocket (inr fd); Ev (Bind fd) None;
           Ev (Write fd (dump_request (family_of destIP))) None; Ev (SetRecvTimeout fd 10) None]
          ++ reads ++ mjoin outcomes.*2 ++ [Ev (Close fd) c]
      ∧ full_dump fd reads
      ∧ Forall2 (λ id x, destroy_outcome fd (family_of destIP) id x.1 x.2)
          (matching destIP (dumped reads)) outcomes
      ∧ d = count true outcomes ∧ e = count false outcomes
  | Ret (d, e, Some _) => d = 0%Z ∧ e = 0%Z ∧ destroys t = [] ∧ Exists failed_event t
  | Panic => destroys t = [] ∧ length t = (4 + fuel)%nat
  end.

Lemma DestroySockets_exact_aux fuel destIP :
  wp (DestroySocketsByDestIP fuel destIP) (exact_destruction fuel destIP).
Proof.
  unfold DestroySocketsByDestIP. wp_op. intros [err|fd]; [apply wp_ret; by repeat constructor|].
  wp_op. intros bound. apply wp_bind. destruct bound as [err|].
  { apply wp_ret, wp_bind_perform. intros r. apply wp_ret. do 3 (split; [done|]). by right; left. }
  apply wp_bind. eapply wp_mono; [apply forEachTCPSocket_collect|].
  intros [[ids [err|]]|] t [Ht Hids].
  - apply wp_ret, wp_bind_perform. intros r. apply wp_ret. simpl.
    rewrite !destroys_cons, !destroys_app, Ht. do 3 (split; [done|]). do 2 right.
    rewrite app_nil_r. apply list.Exists_app. left. exact Hids.
  - destruct Hids as (reads & -> & Hf & ->). apply wp_bind.
    eapply wp_mono; [apply destroy_all_outcomes|]. intros o t2 (outcomes & -> & Hall & ->).
    apply wp_ret, wp_bind_perform. intros r. apply wp_ret. simpl.
    exists fd, reads, outcomes, r. rewrite <- dest_family_spec.
    split; [by rewrite <- !app_assoc|]. split; [done|]. split; [done|]. split; lia.
  - simpl. by rewrite !destroys_cons, Ht, Hids.
Qed.

(** C29: exactly the dumped sockets connected to the destination, of either
    address family, get a destroy request, one each, in the order of the dump;
    the first counter counts the requests the kernel accepted, the second those
    that failed or that it refused.  It fails only when the socket or the dump
    does, and then destroys nothing; with fuel for the datagrams of the dump it
    returns. *)
Theorem DestroySockets_exact fuel destIP E h :
  let '(o, t) := DestroySocketsByDestIP fuel destIP E h in exact_destruction fuel destIP o t.
Proof.
  pose proof (DestroySockets_exact_aux fuel destIP E h) as H.
  by destruct (DestroySocketsByDestIP fuel destIP E h).
Qed.

(** ** The end of a dump *)

(** The kernel ends the dump, or fails, within [n] datagrams. *)
Fixpoint dump_ends (E : Env) (h : hist) (fd : Z) (n : nat) : Prop :=
  match n with
  | O => False
  | S n =>
      match E h (Recvfrom fd 65536) with
      | inl _ => True
      | inr b =>
          match ParseNetlinkMessage b with
          | None => True
          | Some msgs =>
              existsb (λ m, nm_Type m =? NLMSG_DONE) msgs = true
              ∨ dump_ends E (h ++ [Ev (Recvfrom fd 65536) (inr b)]) fd n
          end
      end
  end.

Lemma dump_messages_done {S} (fn : inetDiagMsg → S → S * bool) msgs s :
  existsb (λ m, nm_Type m =? NLMSG_DONE) msgs = true → (dump_messages fn msgs s).2 ≠ More.
Proof.
  revert s. induction msgs as [|m msgs IH]; intros s; simpl; [done|].
  destruct (nm_Type m =? NLMSG_DONE); simpl; [done|]. intros Hd.
  destruct (nm_Type m =? NLMSG_ERROR); [destruct (netlink_errno m); [done|auto]|].
  destruct (decide _); [|auto]. destruct (fn _ s) as [s' []]; auto.
Qed.

(** The receive loop ends: when the kernel ends its dump within [n]
    datagrams, [n] rounds of fuel are enough. *)
Theorem receive_dump_ends {S} (fn : inetDiagMsg → S → S * bool) fuel fd s E h n :
  dump_ends E h fd n → (n <= fuel)%nat → ∃ r, (receive_dump fn fuel fd s E h).1 = Ret r.
Proof.
  revert s h n. induction fuel as [|fuel IH]; intros s h [|n] Hend Hn; try done; [lia|].
  simpl in Hend. cbn [receive_dump]. unfold perform, mbind, IO_bind. cbv zeta.
  destruct (E h (Recvfrom fd 65536)) as [err|b]; [by eexists|].
  destruct (ParseNetlinkMessage b) as [msgs|]; [|by eexists].
  pose proof (dump_messages_done fn msgs s) as Hdone.
  destruct (dump_messages fn msgs s) as [s' []]; try by eexists.
  destruct Hend as [Hd|Hend]; [by destruct (Hdone Hd)|].
  destruct (IH s' (h ++ [Ev (Recvfrom fd 65536) (inr b)]) n Hend ltac:(lia)) as [r Hr].
  destruct (receive_dump fn fuel fd s' E _) as [o t]. simpl in *. subst. by eexists.
Qed.

(** ** Descriptors and namespaces *)

(** The descriptors an event opens and closes, and the namespace it enters. *)
Definition event_opens (e : event) : list Z :=
  match e with
  | Ev (Open _) (inr fd) | Ev NetlinkSocket (inr fd) => [fd]
  | _ => []
  end.
Definition event_closes (e : event) : list Z :=
  match e with Ev (Close fd) _ => [fd] | _ => [] end.
Definition event_setns (e : event) : list (Z * error) :=
  match e with Ev (Setns fd) r => [(fd, r)] | _ => [] end.
(** Every descriptor opened is closed. *)
Definition balanced (t : hist) : Prop := collected event_opens t ≡ₚ collected event_closes t.

(** Traffic on an open socket. *)
Definition socket_event (e : event) : Prop :=
  match e with
  | Ev (Bind _) _ | Ev (Write _ _) _ | Ev (SetRecvTimeout _ _) _ | Ev (Recvfrom _ _) _ => True
  | _ => False
  end.
Lemma socket_events t :
  Forall socket_event t →
  collected event_opens t = [] ∧ collected event_closes t = [] ∧ collected event_setns t = [].
Proof.
  induction 1 as [|e t He _ (IH1 & IH2 & IH3)]; [done|].
  rewrite !collected_cons, IH1, IH2, IH3. by destruct e as [[] r].
Qed.

Ltac socket_events := repeat emits_step; try exact I; auto.
Lemma receive_dump_events {S} (fn : inetDiagMsg → S → S * bool) fuel fd s :
  emits socket_event (receive_dump fn fuel fd s).
Proof. revert s. induction fuel as [|fuel IH]; intros s; simpl; [apply emits_panic|]; socket_events. Qed.
#[export] Hint Resolve receive_dump_events : io.
Lemma destroySocket_events fd family id : emits socket_event (destroySocket fd family id).
Proof. unfold destroySocket. socket_events. Qed.
#[export] Hint Resolve destroySocket_events : io.
Lemma destroy_all_events fd family ids d e : emits socket_event (destroy_all fd family ids d e).
Proof. revert d e. induction ids as [|id ids IH]; intros d e; simpl; socket_events. Qed.
#[export] Hint Resolve destroy_all_events : io.
Lemma forEachTCPSocket_events {S} (fn : inetDiagMsg → S → S * bool) fuel fd family s :
  emits socket_event (forEachTCPSocket fn fuel fd family s).
Proof. unfold forEachTCPSocket. socket_events. Qed.
#[export] Hint Resolve forEachTCPSocket_events : io.

(** A call that closes what it opens and does not change the namespace. *)
Definition tidy (o : bool) (t : hist) : Prop :=
  o = true → balanced t ∧ collected event_setns t = [].

Lemma DestroySockets_tidy fuel destIP :
  wp (DestroySocketsByDestIP fuel destIP) (λ o t, tidy (returned o) t).
Proof.
  unfold DestroySocketsByDestIP. wp_step. destruct r as [err|fd]; [apply wp_ret; intros _; unfold balanced; by split|].
  wp_op. intros bound. apply wp_bind.
  assert (Hbody : emits socket_event (match bound with
    | Some err => mret (0, 0, Some (wrapf "binding netlink socket" err))%Z
    | None =>
        '(targets, e) ← forEachTCPSocket (collect destIP (dest_family destIP)) fuel fd
                          (dest_family destIP) [];
        match e with
        | Some err => mret (0, 0, Some (wrapf "iterating TCP sockets" err))%Z
        | None =>
            '(destroyed, errCount) ← destroy_all fd (dest_family destIP) targets 0 0;
            mret (destroyed, errCount, None)
        end
    end)) by socket_events.
  eapply wp_mono; [exact Hbody|]. intros [a|] t (H1 & H2 & H3)%socket_events; [|done].
  wp_op. intros r. apply wp_ret. intros _. unfold balanced.
  rewrite !collected_cons, !collected_app, H1, H2, H3. done.
Qed.

Definition visit_error (e : error) : bool := match e with Some _ => true | None => false end.
Definition own_ns : string := "/proc/self/ns/net".

(** The visit of the namespace at [path], by its events and its result.  The
    thread opens its own namespace and the one at [path], enters the latter,
    destroys sockets there and nowhere else, and returns to the former; what
    keeps it from entering, or from returning, is the error reported. *)
Inductive visited (fuel : nat) (destIP : list N) (path : string) : Z * Z * error → hist → Prop :=
  | V_no_home err err' : visited fuel destIP path (0, 0, Some err')%Z [Ev (Open own_ns) (inl err)]
  | V_no_target home err err' c : visited fuel destIP path (0, 0, Some err')%Z
      [Ev (Open own_ns) (inr home); Ev (Open path) (inl err); Ev (Close home) c]
  | V_not_entered home target err err' c c' : visited fuel destIP path (0, 0, Some err')%Z
      [Ev (Open own_ns) (inr home); Ev (Open path) (inr target); Ev (Setns target) (Some err);
       Ev (Close target) c; Ev (Close home) c']
  | V_entered home target killed errs kerr work back err c c' :
      exact_destruction fuel destIP (Ret (killed, errs, kerr)) work →
      balanced work → collected event_setns work = [] →
      match back with None => err = kerr | Some _ => is_Some err end →
      visited fuel destIP path (killed, errs, err)
        ([Ev (Open own_ns) (inr home); Ev (Open path) (inr target); Ev (Setns target) None]
         ++ work ++ [Ev (Setns home) back; Ev (Close target) c; Ev (Close home) c']).

Lemma killInNamespace_visit fuel path destIP :
  wp (killInNamespace fuel path destIP) (λ o t,
    match o with Ret res => visited fuel destIP path res t | Panic => fuel <= length t end)%nat.
Proof.
  unfold killInNamespace. wp_op. intros [err|home]; [apply wp_ret; constructor|].
  wp_op. intros [err|target]; apply wp_bind.
  { apply wp_ret. wp_op. intros c. apply wp_ret. constructor. }
  wp_op. intros [err|]; apply wp_bind.
  { destruct (isPermissionError err); apply wp_ret; wp_op; intros c; apply wp_ret; wp_op; intros c';
      apply wp_ret; constructor. }
  apply wp_bind. eapply wp_mono; [apply wp_conj; [apply DestroySockets_tidy|apply DestroySockets_exact_aux]|].
  intros [[[killed errs] kerr]|] t [Ht Hd];
    [|destruct Hd as [_ Hd]; simpl; rewrite ?length_app, Hd; simpl; lia]. destruct (Ht eq_refl) as [Hb Hs].
  wp_op. intros back. destruct back as [err|]; cbv beta iota; apply wp_ret; wp_op; intros c; apply wp_ret;
    wp_op; intros c'; apply wp_ret;
    cbn [app]; rewrite <- ?app_assoc; by eapply V_entered.
Qed.

(** A visit closes what it has opened, and the last namespace it enters, if it
    enters any and does not report an error, is the thread's own. *)
Lemma visited_balanced fuel destIP path res t : visited fuel destIP path res t → balanced t.
Proof.
  unfold balanced.
  destruct 1 as [| | |home target k e kerr work back err c c' _ Hb _ _]; [done..| |];
    [|unfold balanced in Hb].
  - apply perm_swap.
  - rewrite !collected_app, Hb. simpl. rewrite app_nil_r.
    rewrite (Permutation_app_comm _ [target; home]). apply perm_swap.
Qed.

Lemma DestroySockets_emits (P : event → Prop) fuel destIP :
  (∀ e, socket_event e → P e) → (∀ r, P (Ev NetlinkSocket r)) → (∀ fd r, P (Ev (Close fd) r)) →
  emits P (DestroySocketsByDestIP fuel destIP).
Proof.
  intros HP Hs Hc. assert (∀ B (m : IO B), emits socket_event m → emits P m) as Hm
    by (intros; by eapply emits_mono).
  unfold DestroySocketsByDestIP. repeat emits_step; auto; try (apply HP; exact I);
    apply Hm; auto with io.
Qed.

(** The namespaces of a scan of /proc: inode and path of the first process seen
    in each. *)
Fixpoint first_seen (seen : list N) (t : hist) : list (N * string) :=
  match t with
  | [] => []
  | Ev (StatInode p) (inr ino) :: t =>
      if decide (ino ∈ seen) then first_seen seen t else (ino, p) :: first_seen (ino :: seen) t
  | _ :: t => first_seen seen t
  end.

Lemma first_seen_nodup t seen :
  NoDup (first_seen seen t).*1 ∧ ∀ ino, ino ∈ (first_seen seen t).*1 → ino ∉ seen.
Proof.
  revert seen. induction t as [|[o r] t IH]; intros seen; simpl.
  { split; [constructor|]. intros ? []%elem_of_nil. }
  destruct o; try apply IH. destruct r as [err|ino]; [apply IH|].
  destruct (decide _); [apply IH|]. destruct (IH (ino :: seen)) as [H1 H2]. simpl. split.
  - constructor; [|done]. intros Hin. by apply (H2 _ Hin), elem_of_cons; left.
  - intros i [->|Hi]%elem_of_cons; [done|]. specialize (H2 _ Hi). by rewrite not_elem_of_cons in H2; destruct H2.
Qed.

(** Every inode found is one seen before or has its own entry. *)
Lemma first_seen_all t seen p ino :
  Ev (StatInode p) (inr ino) ∈ t → ino ∈ seen ∨ ino ∈ (first_seen seen t).*1.
Proof.
  revert seen. induction t as [|e t IH]; intros seen; [by intros ?%elem_of_nil|].
  intros [<-|Hin]%elem_of_cons; simpl.
  - destruct (decide _); [by left|]. right. apply elem_of_cons. by left.
  - destruct e as [[] r]; auto. destruct r as [err|i]; auto.
    destruct (decide _); auto. simpl. rewrite elem_of_cons.
    destruct (IH (i :: seen) Hin) as [[->|?]%elem_of_cons|?]; auto.
Qed.

Lemma scan_proc_first entries seen ns :
  wp (scan_proc entries seen ns) (λ o t, o = Ret (ns ++ (first_seen seen t).*2)).
Proof.
  revert seen ns. induction entries as [|[name isDir] entries IH]; intros seen ns; simpl.
  { apply wp_ret. by rewrite app_nil_r. }
  destruct (negb isDir); [apply IH|]. destruct (negb (Atoi_ok name)); [apply IH|].
  wp_op. intros [err|ino]; simpl; [apply IH|]. destruct (decide _); [apply IH|].
  eapply wp_mono; [apply IH|]. intros o t ->. by rewrite <- app_assoc.
Qed.

(** The processes of a directory listing, by the path of their namespace; the
    scan looks at each of them. *)
Definition process_paths (entries : list (string * bool)) : list string :=
  (λ x, ns_path x.1) <$> filter (λ x, x.2 = true ∧ Atoi_ok x.1 = true) entries.
Definition event_stat (e : event) : list string :=
  match e with Ev (StatInode p) _ => [p] | _ => [] end.
Lemma scan_proc_all entries seen ns :
  wp (scan_proc entries seen ns) (λ _ t, collected event_stat t = process_paths entries).
Proof.
  unfold process_paths. revert seen ns.
  induction entries as [|[name isDir] entries IH]; intros seen ns; simpl; [by apply wp_ret|].
  rewrite filter_cons. destruct isDir; cbn [negb]; [|rewrite decide_False by (intros [? _]; done); apply IH].
  destruct (Atoi_ok name) eqn:Hn; cbn [negb]; [|rewrite decide_False by (simpl; rewrite Hn; by intros [_ ?]); apply IH].
  rewrite decide_True by done. wp_op. intros r.
  assert (Hcons : ∀ t, collected event_stat t = (λ x, ns_path x.1) <$>
      filter (λ x : string * bool, x.2 = true ∧ Atoi_ok x.1 = true) entries →
    collected event_stat (Ev (StatInode (ns_path name)) r :: t) = ns_path name ::
      ((λ x, ns_path x.1) <$> filter (λ x : string * bool, x.2 = true ∧ Atoi_ok x.1 = true) entries))
    by (intros t Ht; rewrite collected_cons, Ht; done).
  destruct r as [err|ino]; [eapply wp_mono; [apply IH|auto]|].
  destruct (decide _); (eapply wp_mono; [apply IH|auto]).
Qed.

Definition scan_event (e : event) : Prop :=
  match e with Ev ReadDirProc _ | Ev (StatInode _) _ => True | _ => False end.
Lemma scan_proc_events entries seen ns : emits scan_event (scan_proc entries seen ns).
Proof.
  revert seen ns. induction entries as [|[name isDir] entries IH]; intros seen ns; simpl;
    repeat emits_step; try exact I; auto.
Qed.

(** A visit of the namespace at [path], with its result. *)
Definition visit (fuel : nat) (destIP : list N) (path : string) (v : (Z * Z * error) * hist) : Prop :=
  visited fuel destIP path v.1 v.2 ∧ balanced v.2.

(** The counters of a list of visits: sockets destroyed; errors, a failed visit
    being one more. *)
Definition sum (l : list Z) : Z := foldr Z.add 0%Z l.
Lemma sum_cons x l : sum (x :: l) = (x + sum l)%Z.
Proof. done. Qed.
Definition visit_killed (v : (Z * Z * error) * hist) : Z := v.1.1.1.
Definition visit_errors (v : (Z * Z * error) * hist) : Z :=
  (v.1.1.2 + (if visit_error v.1.2 then 1 else 0))%Z.

Lemma kill_in_all_visits fuel paths destIP k e :
  wp (kill_in_all fuel paths destIP k e) (λ o t, match o with
    | Ret (k', e') => ∃ visits, t = mjoin visits.*2 ∧ Forall2 (visit fuel destIP) paths visits
        ∧ k' = (k + sum (visit_killed <$> visits))%Z ∧ e' = (e + sum (visit_errors <$> visits))%Z
    | Panic => (fuel <= length t)%nat
    end).
Proof.
  revert k e. induction paths as [|path paths IH]; intros k e; simpl.
  { apply wp_ret. exists []. split; [done|]. split; [constructor|].
    unfold sum; simpl; lia. }
  apply wp_bind. eapply wp_mono; [apply killInNamespace_visit|].
  intros [[[nk ne] nerr]|] t1 Hv1; [|done].
  pose proof (visited_balanced _ _ _ _ _ Hv1) as Hb1.
  eapply wp_mono; [apply IH|]. intros [[k' e']|] t2 Ht; [|rewrite length_app; lia].
  destruct Ht as (visits & -> & Hv & -> & ->). exists (((nk, ne, nerr), t1) :: visits).
  split; [done|]. split; [by constructor|].
  rewrite !fmap_cons. rewrite !sum_cons.
  generalize (sum (visit_killed <$> visits)) (sum (visit_errors <$> visits)). intros a b.
  unfold visit_killed, visit_errors. destruct nerr; simpl; lia.
Qed.

(** What a kill leaves behind: the scan of every process of /proc and one visit
    per namespace found, in the order found, or an error reading the directory.
    Running out of fuel takes as many events at least. *)
Definition kill_run (fuel : nat) (destIP : list N) (o : outcome (Z * Z * error)) (t : hist) : Prop :=
  match o with
  | Ret (k, e, None) => ∃ entries scan visits,
      t = Ev ReadDirProc (inr entries) :: scan ++ mjoin visits.*2
      ∧ Forall scan_event scan ∧ collected event_stat scan = process_paths entries
      ∧ Forall2 (visit fuel destIP) (first_seen [] scan).*2 visits
      ∧ k = sum (visit_killed <$> visits) ∧ e = sum (visit_errors <$> visits)
  | Ret (k, e, Some _) => k = 0%Z ∧ e = 0%Z ∧ ∃ err, t = [Ev ReadDirProc (inl err)]
  | Panic => (fuel <= length t)%nat
  end.

(** C30: a kill looks at every process of /proc and visits every network
    namespace found exactly once: each visit enters that namespace, destroys the
    sockets connected to the destination there, returns to the thread's own
    namespace and closes the descriptors it opened, or reports what kept it from
    it; the counters are the sums over the visits, and only an unreadable /proc
    makes the kill fail as a whole. *)
Theorem KillConnections_visits fuel destIP E h :
  let '(o, t) := KillConnectionsAllNamespaces fuel destIP E h in
  kill_run fuel destIP o t
  ∧ ∀ scan, NoDup (first_seen [] scan).*1
      ∧ ∀ p ino, Ev (StatInode p) (inr ino) ∈ scan → ino ∈ (first_seen [] scan).*1.
Proof.
  assert (H : wp (KillConnectionsAllNamespaces fuel destIP) (kill_run fuel destIP)).
  { unfold KillConnectionsAllNamespaces, enumerateNetworkNamespaces. apply wp_bind.
    wp_op. intros [err|entries]; [repeat apply wp_ret; cbn; by repeat eexists|].
    apply wp_bind.
    eapply wp_mono; [apply wp_conj; [apply scan_proc_first|
      apply wp_conj; [apply scan_proc_events|apply scan_proc_all]]|].
    intros o t1 (-> & Ht1 & Hall). apply wp_ret, wp_bind. eapply wp_mono; [apply kill_in_all_visits|].
    intros [[k e]|] t2 Ht2; [|cbn; rewrite ?length_app; simpl; lia]. apply wp_ret.
    destruct Ht2 as (visits & -> & Hv & -> & ->). cbn.
    exists entries, t1, visits. rewrite !app_nil_r. done. }
  specialize (H E h). destruct (KillConnectionsAllNamespaces fuel destIP E h) as [o t].
  split; [exact H|]. intros scan. split; [apply first_seen_nodup|].
  intros p ino Hin. by destruct (first_seen_all _ [] _ _ Hin) as [?%elem_of_nil|].
Qed.

(** A kernel that ends the dump at once. *)
Definition demo_kernel : Env := λ h o,
  match o as o return resp o with
  | Recvfrom _ _ => inr (netlink_request NLMSG_DONE 0 1 [])
  | o => quiet h o
  end.
Lemma receive_dump_ends_witness :
  ∃ r, (receive_dump (collect [10; 0; 0; 7] AF_INET) 1 3 [] demo_kernel []).1 = Ret r.
Proof.
  apply (receive_dump_ends (collect [10; 0; 0; 7] AF_INET) 1 3 [] demo_kernel [] 1);
    [|apply le_n]. simpl. left. reflexivity.
Defined.
