(* ===== verification/Agent.v ===== *)
(** * The connection-kill agent ([src/internal/connkill/agent.go])

    The DaemonSet's side of the protocol: on every change of the ConfigMap it
    processes the kill signals for its node that are newer than the last one it
    has acknowledged.  The watching and polling loops are observed for a number
    of rounds.  The environment variables of [src/cmd/connection-killer/main.go]
    close the file. *)
From stdpp Require Import base gmap strings list numbers fin_maps.
From S2P Require Import Prelude GoStd GoNetIP GoJSON Types Kube Logic ApiServer Actions Signaler Netlink.

(** [a_lastSeq] is [None] for the nil map of a fresh agent; [a_Clientset] tells
    whether a clientset for watches is available. *)
Record Agent := {
  a_NodeName : string; a_Namespace : string; a_Clientset : bool;
  a_lastSeq : option (gmap string Z) }.

(** [a.lastSeq[k]], 0 when absent. *)
Definition last_seq (a : Agent) (k : string) : Z := default 0%Z (m ← a_lastSeq a; m !! k).

(** One attempt of [writeAck] to store the payload. *)
Definition ack_attempt (Namespace ackKey data : string) : IO error :=
  r ← api_get local KConfigMap (cm_key Namespace);
  match r with
  | inl err => mret (Some err)
  | inr cm =>
      let m := default ∅ (cm_Data cm) in
      r ← api_update local KConfigMap {| cm with cm_Data := Some (<[ackKey := data]> m) |};
      mret (err_of r)
  end.

Section agent.
Context `{KubeLib} (fuel : nat).

(** Marshalling a [KillAck] cannot fail. *)
Definition writeAck (a : Agent) (ackKey : string) (seq : Z) (token fsNamespace fsName : string)
    (killed errCount : Z) : IO error :=
  let ack := {| ka_Seq := seq; ka_Token := token; ka_Node := a_NodeName a;
                ka_FSNamespace := fsNamespace; ka_FSName := fsName;
                ka_Killed := killed; ka_Errors := errCount |} in
  RetryOnConflict (ack_attempt (a_Namespace a) ackKey (json_Marshal_ack ack)).

(** Whether the entry is a kill signal for this node. *)
Definition my_signal (a : Agent) (key signalData : string) : option KillSignal :=
  if HasPrefix key "kill_" then
    match json_Unmarshal_signal signalData with
    | None => None
    | Some signal =>
        if bool_decide (ks_Node signal ≠ "") then
          if bool_decide (ks_Node signal ≠ a_NodeName a) then None else Some signal
        else if HasPrefix key ("kill_" +:+ a_NodeName a +:+ "_") then Some signal else None
    end
  else None.

(** The body of the loop of [RunOnce] for one entry. *)
Definition process_entry (a : Agent) (key signalData : string) : IO Agent :=
  match my_signal a key signalData with
  | None => mret a
  | Some signal =>
      let a := {| a with a_lastSeq := Some (default ∅ (a_lastSeq a)) |} in
      let seqKey := TrimPrefix key "kill_" in
      if (ks_Seq signal <=? last_seq a seqKey)%Z then mret a
      else
        match ParseIP (ks_IP signal) with
        | None => mret a
        | Some destIP =>
            '(killed, errCount, err) ← KillConnectionsAllNamespaces fuel destIP;
            let errCount := match err with Some _ => (errCount + 1)%Z | None => errCount end in
            e ← writeAck a ("ack_" +:+ seqKey) (ks_Seq signal) (ks_Token signal)
                  (ks_FSNamespace signal) (ks_FSName signal) killed errCount;
            match e with
            | Some _ => mret a
            | None =>
                mret {| a with a_lastSeq :=
                          Some (<[seqKey := ks_Seq signal]> (default ∅ (a_lastSeq a))) |}
            end
        end
  end.

Fixpoint process_entries (a : Agent) (entries : list (string * string)) : IO Agent :=
  match entries with
  | [] => mret a
  | (key, signalData) :: entries =>
      a ← process_entry a key signalData;
      process_entries a entries
  end.

(** The agent after the call, and the error. *)
Definition RunOnce (a : Agent) : IO (Agent * error) :=
  r ← api_get local KConfigMap (cm_key (a_Namespace a));
  match r with
  | inl err =>
      if IsNotFound err then mret (a, None)
      else mret (a, Some (wrapf "getting kill signal configmap" err))
  | inr cm =>
      entries ← perform (Range (default ∅ (cm_Data cm)));
      a ← process_entries a entries;
      mret (a, None)
  end.

(** The acknowledgment of this node an entry holds. *)
Definition my_ack (a : Agent) (key ackData : string) : option (string * Z) :=
  if HasPrefix key "ack_" then
    let seqKey := TrimPrefix key "ack_" in
    match json_Unmarshal_ack ackData with
    | None => None
    | Some ack =>
        if bool_decide (ka_Node ack ≠ "") then
          if bool_decide (ka_Node ack ≠ a_NodeName a) then None else Some (seqKey, ka_Seq ack)
        else if HasPrefix seqKey (a_NodeName a +:+ "_") then Some (seqKey, ka_Seq ack) else None
    end
  else None.

Fixpoint seed (a : Agent) (entries : list (string * string)) (m : gmap string Z) : gmap string Z :=
  match entries with
  | [] => m
  | (key, ackData) :: entries =>
      seed a entries (match my_ack a key ackData with
                      | Some (seqKey, seq) => <[seqKey := seq]> m
                      | None => m
                      end)
  end.

Definition initFromConfigMap (a : Agent) : IO Agent :=
  r ← api_get local KConfigMap (cm_key (a_Namespace a));
  match r with
  | inl _ => mret a
  | inr cm =>
      entries ← perform (Range (default ∅ (cm_Data cm)));
      mret {| a with a_lastSeq := Some (seed a entries ∅) |}
  end.

(** The select loop of [watchOnce] over the watcher's events. *)
Fixpoint watch_events (rounds : nat) (watcher : nat) (a : Agent) : IO (Agent * loop error) :=
  match rounds with
  | O => mret (a, Running)
  | S rounds =>
      ev ← perform (Wait watcher);
      match ev with
      | CtxDone => e ← perform CtxErr; mret (a, Exit e)
      | Closed => mret (a, Exit (Some (Errorf "watch channel closed")))
      | Received event =>
          if bool_decide (we_Type event = "MODIFIED" ∨ we_Type event = "ADDED") then
            '(a, _) ← RunOnce a;
            watch_events rounds watcher a
          else watch_events rounds watcher a
      end
  end.

Definition watchOnce (rounds : nat) (a : Agent) : IO (Agent * loop error) :=
  r ← perform (WatchConfigMap (a_Namespace a) ConfigMapName);
  match r with
  | inl err => mret (a, Exit (Some (wrapf "starting configmap watch" err)))
  | inr watcher =>
      '(a, _) ← RunOnce a;
      '(a, r) ← watch_events rounds watcher a;
      match r with
      | Running => mret (a, Running)
      | Exit e => _ ← perform (StopWatch watcher); mret (a, Exit e)
      end
  end.

(** The reconnecting loop of [Watch]. *)
Fixpoint watch_loop (sessions rounds : nat) (interval : Z) (a : Agent) : IO (Agent * loop error) :=
  match sessions with
  | O => mret (a, Running)
  | S sessions =>
      '(a, r) ← watchOnce rounds a;
      match r with
      | Running => mret (a, Running)
      | Exit None => watch_loop sessions rounds interval a
      | Exit (Some _) =>
          e ← perform CtxErr;
          match e with
          | Some err => mret (a, Exit (Some err))
          | None =>
              done ← perform (Sleep interval);
              if (done : bool) then e ← perform CtxErr; mret (a, Exit e)
              else watch_loop sessions rounds interval a
          end
      end
  end.

Fixpoint pollWatch (rounds : nat) (interval : Z) (a : Agent) : IO (Agent * loop error) :=
  match rounds with
  | O => mret (a, Running)
  | S rounds =>
      done ← perform (Sleep interval);
      if (done : bool) then e ← perform CtxErr; mret (a, Exit e)
      else '(a, _) ← RunOnce a; pollWatch rounds interval a
  end.

(** The agent observed for at most [sessions] watches of [rounds] events each. *)
Definition Watch (sessions rounds : nat) (a : Agent) (interval : Z) : IO (Agent * loop error) :=
  a ← initFromConfigMap a;
  if negb (a_Clientset a) then pollWatch rounds interval a
  else watch_loop sessions rounds interval a.

End agent.

(** ** [src/cmd/connection-killer/main.go] *)

Definition defaultControllerNamespace := "k8s-failover-manager-system".

(** [os.Getenv]: the empty string for a variable that is not set. *)
Definition Getenv (vars : gmap string string) (name : string) : string := default "" (vars !! name).

Definition agentNodeName (vars : gmap string string) : goerr + string :=
  let nodeName := Getenv vars "NODE_NAME" in
  if bool_decide (nodeName = "") then
    inl (Errorf "NODE_NAME environment variable is required")
  else inr nodeName.

Definition controllerNamespace (vars : gmap string string) : string :=
  let namespace := Getenv vars "CONTROLLER_NAMESPACE" in
  if bool_decide (namespace = "") then defaultControllerNamespace else namespace.
