(* ===== verification/KillPayloads.v ===== *)
(** * The payloads and keys of the connection-kill protocol

    What the two sides of the protocol agree on: payloads survive the ConfigMap,
    keys fit a ConfigMap, and the key under which the agent acknowledges is the
    one the controller polls. *)
From Stdlib Require Import NArith Ascii String.
From stdpp Require Import base gmap strings list numbers option pretty.
From S2P Require Import Prelude GoStd GoJSON GoJSONProofs Types Kube Logic Actions Signaler.

(** ** Payloads *)

(** The payload's strings are ASCII, its sequence number has 64 bits. *)
Definition plain_signal (s : KillSignal) : Prop :=
  ascii_bytes (ks_IP s) ∧ ascii_bytes (ks_Token s) ∧ ascii_bytes (ks_Node s)
  ∧ ascii_bytes (ks_FSNamespace s) ∧ ascii_bytes (ks_FSName s) ∧ in_i64 (ks_Seq s).
Definition plain_ack (a : KillAck) : Prop :=
  ascii_bytes (ka_Token a) ∧ ascii_bytes (ka_Node a) ∧ ascii_bytes (ka_FSNamespace a)
  ∧ ascii_bytes (ka_FSName a) ∧ in_i64 (ka_Seq a) ∧ in_i64 (ka_Killed a) ∧ in_i64 (ka_Errors a).

(** Members as the encoder writes them. *)
Definition str_member (k v : string) : string * (bytes * json) :=
  (k, (marshal_string v, JStr (bytes_of v))).
Definition int_member (k : string) (z : Z) : string * (bytes * json) :=
  (k, (marshal_int z, JNum (marshal_int z))).
Definition opt_member (k v : string) : list (string * (bytes * json)) :=
  if decide (v = "") then [] else [str_member k v].

Lemma str_member_ok k v : ascii_bytes k → ascii_bytes v → member_ok (str_member k v).
Proof. intros. split; [done|]. by apply encodes_string. Qed.
Lemma int_member_ok k z : ascii_bytes k → member_ok (int_member k z).
Proof. intros. split; [done|]. apply encodes_int. Qed.
Lemma opt_member_ok k v : ascii_bytes k → ascii_bytes v → Forall member_ok (opt_member k v).
Proof.
  intros. unfold opt_member. case_decide; [constructor|].
  constructor; [by apply str_member_ok|constructor].
Qed.

Lemma omap_member k v l :
  omap id (member k v :: l) = (marshal_string k ++ c_colon :: v) :: omap id l.
Proof. done. Qed.
Lemma omap_opt k v l :
  omap id (member_string_omitempty k v :: l) = (member_bytes <$> opt_member k v) ++ omap id l.
Proof. unfold member_string_omitempty, opt_member. by case_decide. Qed.

(** Storing decoded members in a struct, one at a time. *)
Section store.
Context {A : Type} (names : list string) (set : string → json → A → option A).

Definition store_member (st : option A) (kv : bytes * json) : option A :=
  let '(k, v) := kv in
  a ← st;
  match find_field names k with Some n => set n v a | None => Some a end.
Definition store_all (st : option A) (ms : list (string * (bytes * json))) : option A :=
  foldl store_member st (member_json <$> ms).

Lemma store_cons a a' n k b v l :
  find_field names (bytes_of k) = Some n → set n v a = Some a' →
  store_all (Some a) ((k, (b, v)) :: l) = store_all (Some a') l.
Proof. intros Hk Hs. unfold store_all. simpl. by rewrite Hk, Hs. Qed.
(** An omitted member stands for the empty string. *)
Lemma store_opt a a' n k v l :
  find_field names (bytes_of k) = Some n → set n (JStr (bytes_of v)) a = Some a' →
  (v = "" → a' = a) → store_all (Some a) (opt_member k v ++ l) = store_all (Some a') l.
Proof.
  intros Hk Hs Hv. unfold opt_member. case_decide as Hd; [by rewrite (Hv Hd)|].
  by eapply store_cons.
Qed.

Lemma unmarshal_members zero fields m ms :
  omap id fields = member_bytes <$> m :: ms → Forall member_ok (m :: ms) →
  unmarshal_struct names set zero (marshal_object fields) = store_all (Some zero) (m :: ms).
Proof.
  intros Hf Hms. unfold unmarshal_struct. by rewrite (parse_object fields m ms Hf Hms).
Qed.
End store.

(** One member: the field is found by computation, the value decoded. *)
Ltac store_field :=
  cbv -[decode_string decode_int bytes_of marshal_int];
  rewrite ?decode_string_bytes, ?decode_int_bytes by done; reflexivity.
Ltac store_step :=
  etransitivity;
  [first [eapply store_cons; [vm_compute; reflexivity|store_field]
         |eapply store_opt; [vm_compute; reflexivity|store_field|intros ->; reflexivity]]|].

Ltac members_ok :=
  repeat first [apply Forall_nil_2 | apply Forall_cons_2 | apply Forall_app_2
    | apply str_member_ok | apply int_member_ok | apply opt_member_ok
    | assumption | reflexivity].

Lemma signal_roundtrip_aux s :
  plain_signal s → json_Unmarshal_signal (json_Marshal_signal s) = Some s.
Proof.
  destruct s as [ip seq tok node ns name]. intros (Hip & Htok & Hnode & Hns & Hname & Hseq).
  unfold json_Unmarshal_signal, json_Marshal_signal; simpl in *.
  erewrite (unmarshal_members _ _ _ _ (str_member "ip" ip) (int_member "seq" seq
    :: opt_member "token" tok ++ opt_member "node" node ++ opt_member "fsNamespace" ns
    ++ opt_member "fsName" name ++ [])).
  - repeat store_step. reflexivity.
  - rewrite !omap_member, !omap_opt, !fmap_cons, !fmap_app. done.
  - members_ok.
Qed.

Lemma ack_roundtrip_aux a : plain_ack a → json_Unmarshal_ack (json_Marshal_ack a) = Some a.
Proof.
  destruct a as [seq tok node ns name killed errs].
  intros (Htok & Hnode & Hns & Hname & Hseq & Hk & He).
  unfold json_Unmarshal_ack, json_Marshal_ack; simpl in *.
  erewrite (unmarshal_members _ _ _ _ (int_member "seq" seq)
    (opt_member "token" tok ++ opt_member "node" node ++ opt_member "fsNamespace" ns
    ++ opt_member "fsName" name ++ [int_member "killed" killed; int_member "errors" errs])).
  - repeat store_step. reflexivity.
  - rewrite !omap_member, !omap_opt, !fmap_cons, !fmap_app. done.
  - members_ok.
Qed.

(** ** Keys *)

Lemma str_drop_app p s : str_drop (len p) (p +:+ s) = s.
Proof. unfold len. induction p as [|a p IH]; simpl; [by destruct s|done]. Qed.
Lemma HasPrefix_app p s : HasPrefix (p +:+ s) p = true.
Proof. induction p as [|a p IH]; simpl; [by destruct s|]. by rewrite decide_True. Qed.
Lemma TrimPrefix_app p s : TrimPrefix (p +:+ s) p = s.
Proof. unfold TrimPrefix. by rewrite HasPrefix_app, str_drop_app. Qed.

Lemma HasPrefix_split s p : HasPrefix s p = true → s = p +:+ TrimPrefix s p.
Proof.
  intros Hp. unfold TrimPrefix. rewrite Hp. revert s Hp.
  induction p as [|a p IH]; intros [|b s]; simpl; try done.
  case_decide as Hab; [|done]. intros Hp. subst.
  change (String b s = String b (p +:+ str_drop (len p) s)). f_equal. by apply IH.
Qed.

(** The part of a key that does not depend on its prefix. *)
Definition key_suffix (nodeName fsNamespace fsName : string) : string :=
  let body := key_body nodeName fsNamespace fsName in
  if len body <=? maxConfigMapKeyLen - len longestKeyPrefix - 1 then body
  else str_take (maxConfigMapKeyLen - len longestKeyPrefix - 1 - 1 - len (short_hash 8 body)) body
       +:+ "-" +:+ short_hash 8 body.

Lemma safeKey_suffix prefix node ns name :
  safeKey prefix node ns name = prefix +:+ "_" +:+ key_suffix node ns name.
Proof. unfold safeKey, key_suffix. cbv zeta. by case_match. Qed.

Lemma key_suffix_bounded node ns name : len (key_suffix node ns name) ≤ 248.
Proof.
  unfold key_suffix. cbv zeta. destruct (_ <=? _) eqn:Hl.
  - apply Nat.leb_le in Hl. exact Hl.
  - set (body := key_body node ns name). pose proof (len_short_hash 8 body) as Hh.
    rewrite !len_app, len_take. unfold maxConfigMapKeyLen, longestKeyPrefix.
    change (len "kill") with 4. change (len "-") with 1. lia.
Qed.

(** C27: kill and acknowledgment keys of a node fit a ConfigMap's 253 bytes, and
    the key the agent derives from a kill key is the one the controller polls. *)
Theorem ack_key_agrees node ns name :
  len (killKey node ns name) ≤ 253 ∧ len (ackKey node ns name) ≤ 253
  ∧ HasPrefix (killKey node ns name) "kill_" = true
  ∧ "ack_" +:+ TrimPrefix (killKey node ns name) "kill_" = ackKey node ns name.
Proof.
  unfold killKey, ackKey. rewrite !safeKey_suffix.
  pose proof (key_suffix_bounded node ns name) as Hb.
  rewrite !len_app. change ("kill" +:+ "_" +:+ ?s) with ("kill_" +:+ s).
  rewrite TrimPrefix_app, HasPrefix_app.
  change (len "kill") with 4. change (len "ack") with 3. change (len "_") with 1.
  repeat split; lia.
Qed.

(** C26: a kill signal survives its JSON encoding. *)
Theorem signal_roundtrip s :
  plain_signal s → json_Unmarshal_signal (json_Marshal_signal s) = Some s.
Proof. apply signal_roundtrip_aux. Qed.

(** ** Witness *)

Definition demo_signal : KillSignal := {|
  ks_IP := "10.0.0.7"; ks_Seq := 3; ks_Token := "42-77"; ks_Node := "node-a.prod";
  ks_FSNamespace := "default"; ks_FSName := "mysql-failover" |}.
Lemma signal_roundtrip_witness :
  json_Unmarshal_signal (json_Marshal_signal demo_signal) = Some demo_signal.
Proof. apply signal_roundtrip. repeat split; members_ok; done. Defined.
Definition demo_ack : KillAck := {|
  ka_Seq := 3; ka_Token := "42-77"; ka_Node := "node-a.prod"; ka_FSNamespace := "default";
  ka_FSName := "mysql-failover"; ka_Killed := 5; ka_Errors := 0 |}.
