(* ===== verification/KillProtocol.v ===== *)
(** * The connection-kill protocol

    What the controller's signaler and the node agents promise each other:
    signalling stores a signal for every eligible node, all acknowledged means
    that every expected node has acknowledged this kill without errors, cleanup
    removes exactly the entries of its FailoverService, and an agent acts on
    new signals for its own node only. *)
From Stdlib Require Import NArith Ascii String.
From stdpp Require Import base gmap strings list numbers option sorting.
From S2P Require Import Prelude GoStd GoNetIP GoJSON GoJSONProofs Types Kube Logic ApiServer Fixtures Actions Signaler Netlink Agent KillPayloads.

(** ** Discovery *)

Lemma list_find_head {A} (P : A → Prop) `{∀ x, Decision (P x)} l :
  snd <$> list_find P l = head (filter P l).
Proof.
  induction l as [|x l IH]; [done|]. simpl. rewrite filter_cons. case_decide; [done|].
  by destruct (list_find P l) as [[]|].
Qed.

(** ** Signalling *)

(** What [populateKillSignals] stores under [key]. *)
Definition signal_for (ip tok ns name : string) (nodes : list string) (key data : string) : Prop :=
  ∃ node seq, node ∈ nodes ∧ killKey node ns name = key ∧ in_i64 seq
    ∧ data = json_Marshal_signal {| ks_IP := ip; ks_Seq := seq; ks_Token := tok; ks_Node := node;
                                    ks_FSNamespace := ns; ks_FSName := name |}.

Lemma signal_for_cons ip tok ns name node nodes key data :
  signal_for ip tok ns name nodes key data → signal_for ip tok ns name (node :: nodes) key data.
Proof. intros (n & seq & Hn & ?). exists n, seq. split; [by right|done]. Qed.

Lemma next_seq_range m key : in_i64 (next_seq m key).
Proof. unfold next_seq. repeat case_match; first [apply i64_range|unfold in_i64; lia]. Qed.

Lemma populate_lookup m nodes ip tok ns name key :
  let m' := populateKillSignals m nodes ip tok ns name in
  (key ∈ (λ n, killKey n ns name) <$> nodes →
     ∃ data, m' !! key = Some data ∧ signal_for ip tok ns name nodes key data)
  ∧ (key ∉ (λ n, killKey n ns name) <$> nodes → m' !! key = m !! key).
Proof.
  revert m. induction nodes as [|node nodes IH]; intros m; simpl.
  - split; [by intros ?%not_elem_of_nil|done].
  - destruct (IH (<[killKey node ns name := json_Marshal_signal {|
      ks_IP := ip; ks_Seq := next_seq m (killKey node ns name); ks_Token := tok; ks_Node := node;
      ks_FSNamespace := ns; ks_FSName := name |}]> m)) as [IH1 IH2].
    split.
    + intros Hin. destruct (decide (key ∈ (λ n, killKey n ns name) <$> nodes)) as [Hk|Hk].
      * destruct (IH1 Hk) as (data & ? & ?). eauto using signal_for_cons.
      * apply elem_of_cons in Hin as [->|?]; [|done]. rewrite IH2, lookup_insert_eq by done.
        eexists. split; [done|]. do 2 eexists. split; [by left|]. split; [done|].
        split; [apply next_seq_range|done].
    + intros Hk. apply not_elem_of_cons in Hk as [Hne Hk].
      rewrite IH2 by done. by rewrite lookup_insert_ne.
Qed.

(** The data of the stored ConfigMap. *)
Definition cm_data (st : store) (ns : string) : gmap string string :=
  default ∅ (cm ← st KConfigMap (cm_key ns); cm_Data cm).

(** [st'] is [st] with signals for [nodes]. *)
Definition signalled (st st' : store) (cns ip tok ns name : string) (nodes : list string) : Prop :=
  ∀ key,
    (key ∈ (λ n, killKey n ns name) <$> nodes →
       ∃ data, cm_data st' cns !! key = Some data ∧ signal_for ip tok ns name nodes key data)
    ∧ (key ∉ (λ n, killKey n ns name) <$> nodes → cm_data st' cns !! key = cm_data st cns !! key).

Lemma cm_data_put st cns cm data :
  (∀ key, mget (Some data) key = mget (cm_Data cm) key) →
  ∀ key, cm_data (put st KConfigMap (cm_key cns) (Some cm)) cns !! key = data !! key.
Proof.
  intros Hd key. unfold cm_data. rewrite put_eq. simpl. specialize (Hd key). unfold mget in Hd.
  simpl in Hd. rewrite Hd. by destruct (cm_Data cm).
Qed.

Lemma signalled_intro st st' cns ip tok ns name nodes m :
  (∀ key, cm_data st' cns !! key = populateKillSignals m nodes ip tok ns name !! key) →
  m = cm_data st cns → signalled st st' cns ip tok ns name nodes.
Proof. intros Hst' -> key. rewrite Hst'. apply populate_lookup. Qed.

Section signaler.
Context `{KubeLibLaws}.

Lemma signal_attempt_served st cns nodes ip tok ns name :
  served st (signal_attempt cns nodes ip tok ns name) (λ o st', match o with
    | Ret (Some _) => st' = st
    | Ret None => signalled st st' cns ip tok ns name nodes
    | Panic => False
    end).
Proof.
  apply served_keyed; intros Hk. unfold signal_attempt. repeat served_step; try done.
  - eapply signalled_intro; [by apply cm_data_put|]. unfold cm_data. simpl in Hfree.
    change (okey _ _) with (cm_key cns) in Hfree. by rewrite Hfree.
  - pose proof (keyed_key _ _ _ _ Hk Hget) as Hkey. unfold okey in *. simpl in *. rewrite Hkey.
    eapply signalled_intro; [by apply cm_data_put|].
    unfold cm_data. by rewrite Hget.
Qed.
End signaler.

(** ** Which nodes are signalled *)

(** A node that is to be signalled: not being deleted, not cordoned, labelled as
    a Linux node, and ready as far as its first [Ready] condition tells. *)
Definition eligible (n : Node) : Prop :=
  node_DeletionTimestamp n = None ∧ node_Unschedulable n = false
  ∧ mget0 (node_Labels n) "kubernetes.io/os" = "linux"
  ∧ ∀ before c after, node_Conditions n = before ++ c :: after →
      Forall (λ c, pc_Type c ≠ "Ready") before → pc_Type c = "Ready" → pc_Status c = "True".

Lemma isNodeEligible_iff n : isNodeEligible n = true ↔ eligible n.
Proof.
  unfold isNodeEligible, eligible.
  change (mget0 (node_Labels n) LabelOSStable) with (mget0 (node_Labels n) "kubernetes.io/os").
  destruct (node_DeletionTimestamp n) as [x|].
  { rewrite bool_decide_eq_true_2 by (by eexists). simpl. split; [done|by intros [? _]]. }
  rewrite bool_decide_eq_false_2 by (by intros [? [=]]).
  destruct (node_Unschedulable n); [split; [done|by intros (_ & ? & _)]|]. simpl.
  case_bool_decide as Hl; [split; [done|by intros (_ & _ & ? & _)]|].
  destruct (list_find _ (node_Conditions n)) as [[i c]|] eqn:Hf.
  - apply list_find_Some in Hf as (Hi & Hc & Hbefore). rewrite bool_decide_eq_true. split.
    + intros Hs. do 3 (split; [done|]). intros before c' after Hcs Hb Hc'.
      assert (length before = i) as Hlen.
      { destruct (lt_eq_lt_dec (length before) i) as [[Hlt|]|Hgt]; [|done|].
        - exfalso. apply (Hbefore (length before) c'); [|lia|done].
          by rewrite Hcs, list_lookup_middle.
        - exfalso. rewrite Hcs, lookup_app_l in Hi by lia.
          by eapply (Forall_lookup_1 _ _ _ _ Hb). }
      rewrite Hcs, list_lookup_middle in Hi by done. by injection Hi as ->.
    + intros (_ & _ & _ & H). apply (H (take i (node_Conditions n)) c (drop (S i) (node_Conditions n)));
        [by rewrite take_drop_middle| |done].
      apply Forall_lookup. intros j x [Hj Hji]%lookup_take_Some. by apply (Hbefore j x).
  - apply list_find_None in Hf. split; [|done]. intros _. do 3 (split; [done|]).
    intros before c after Hcs _ Hc. rewrite Hcs in Hf. apply Forall_app in Hf as [_ Hf].
    by apply Forall_cons_1 in Hf as [? _].
Qed.

(** The nodes of a listing in [t], in order: the agents' daemon set has pods, and
    the names are those of the eligible nodes. *)
Definition eligible_in (t : hist) (nodes : list string) : Prop :=
  ∃ all, Ev (ListNodes (LabelOSStable, "linux")) (inr all) ∈ t
    ∧ nodes ≡ₚ node_Name <$> filter (λ n, isNodeEligible n = true) all ∧ Sorted String.le nodes
    ∧ ∀ name, name ∈ nodes ↔ ∃ n, n ∈ all ∧ eligible n ∧ node_Name n = name.
(** There is no agent, or no node to signal. *)
Definition no_agents (ns : string) (t : hist) : Prop :=
  Ev (ListPods ns (agentLabelKey, agentLabelVal)) (inr []) ∈ t
  ∨ ∃ all, Ev (ListNodes (LabelOSStable, "linux")) (inr all) ∈ t ∧ Forall (λ n, ¬ eligible n) all.

Lemma eligible_in_app t1 t2 nodes : eligible_in t1 nodes → eligible_in (t1 ++ t2) nodes.
Proof. intros (all & Hin & ?). exists all. split; [|done]. apply elem_of_app. by left. Qed.
Lemma no_agents_more ns t t' : no_agents ns t → (∀ e, e ∈ t → e ∈ t') → no_agents ns t'.
Proof. intros [?|(all & ? & ?)] Hs; [left|right; exists all]; auto. Qed.

Lemma eligible_names (all : list Node) name :
  name ∈ node_Name <$> filter (λ n, isNodeEligible n = true) all
  ↔ ∃ n, n ∈ all ∧ eligible n ∧ node_Name n = name.
Proof.
  rewrite list_elem_of_fmap. setoid_rewrite list_elem_of_filter. setoid_rewrite isNodeEligible_iff.
  split; [intros (n & -> & ? & ?)|intros (n & ? & ? & <-)]; eauto.
Qed.

Lemma discoverAgentNodes_eligible ns :
  wp (discoverAgentNodes ns) (λ o t, ∀ nodes, o = Ret (inr nodes) →
    nodes = [] ∧ no_agents ns t ∨ nodes ≠ [] ∧ eligible_in t nodes).
Proof.
  unfold discoverAgentNodes. wp_op. intros [err|[|pod pods]]; [by apply wp_ret| |].
  { apply wp_ret. intros nodes [= <-]. left. split; [done|]. left. by left. }
  wp_op. intros [err|all]; [by apply wp_ret|].
  pose proof (eligible_names all) as Hnames.
  destruct (node_Name <$> filter (λ n, isNodeEligible n = true) all) as [|n ns'] eqn:Hf;
    apply wp_ret; intros nodes [= <-].
  - left. split; [done|]. right. exists all. split; [right; by left|].
    apply Forall_forall. intros n Hn He. apply (not_elem_of_nil (node_Name n)), Hnames. eauto.
  - right. pose proof (merge_sort_Permutation String.le (n :: ns')) as Hp. split.
    + intros Hs. unfold sort_Strings in Hs. rewrite Hs in Hp. by apply Permutation_nil_l in Hp.
    + exists all. split; [right; by left|]. split; [by rewrite Hf|].
      split; [apply Sorted_merge_sort, _|]. intros name. by rewrite Hp.
Qed.

Section signal_kill.
Context `{KubeLibLaws}.

Lemma SignalKill_served st cns ip tok ns name :
  served st (SignalKill cns ip tok ns name) (λ o st', match o with
    | Ret (inr nodes) => nodes = [] ∧ st' = st
                         ∨ nodes ≠ [] ∧ signalled st st' cns ip tok ns name nodes
    | Ret (inl _) => st' = st
    | Panic => False
    end).
Proof.
  unfold SignalKill. repeat first [progress unfold discoverAgentNodes|served_step]; auto.
  eapply served_mono; [eapply (served_OnError (λ st', st' = st)
    (λ st', signalled st st' cns ip tok ns name _)); [|done]; intros ? ->;
    eapply served_mono; [apply signal_attempt_served|by intros [[]|]]|].
  intros [[err|]|] st' Hst; simpl in *; repeat served_step; auto.
Qed.

Lemma SignalKill_eligible cns ip tok ns name :
  wp (SignalKill cns ip tok ns name) (λ o t, ∀ nodes, o = Ret (inr nodes) →
    nodes = [] ∧ no_agents cns t ∨ nodes ≠ [] ∧ eligible_in t nodes).
Proof.
  unfold SignalKill. apply wp_bind. eapply wp_mono; [apply discoverAgentNodes_eligible|].
  intros [[err|nodes]|] t Ht; simpl; [by apply wp_ret| |done].
  specialize (Ht _ eq_refl). destruct nodes as [|n nodes].
  - apply wp_ret. rewrite app_nil_r. intros nodes [= <-]. by destruct Ht as [|[]]; [left|].
  - apply wp_bind, wp_any. intros [[err|]|] t'; try apply wp_ret; try done.
    intros nodes' [= <-]. destruct Ht as [[? _]|[Hne Ht]]; [done|]. right. split; [done|].
    by apply eligible_in_app.
Qed.

(** C22: signalling names the eligible nodes of the cluster in order (not being
    deleted, not cordoned, Linux, not reported unready) and leaves, for each of
    them, a signal to kill the connections to [ip], every other entry of the
    ConfigMap being kept; it names no node and stores nothing only when it has
    found no agent pod or no eligible node. *)
Theorem SignalKill_signals cns ip tok ns name E h (st st' : store) nodes :
  keyed st → serves st (SignalKill cns ip tok ns name E h).2 st' →
  (SignalKill cns ip tok ns name E h).1 = Ret (inr nodes) →
  nodes = [] ∧ st' = st ∧ no_agents cns (SignalKill cns ip tok ns name E h).2
  ∨ nodes ≠ [] ∧ signalled st st' cns ip tok ns name nodes
    ∧ eligible_in (SignalKill cns ip tok ns name E h).2 nodes.
Proof.
  intros Hk Hs Hr. pose proof (SignalKill_served st cns ip tok ns name Hk E h st' Hs) as H1.
  pose proof (SignalKill_eligible cns ip tok ns name E h nodes Hr) as H2. rewrite Hr in H1.
  destruct H1 as [[? ?]|[? ?]], H2 as [[? ?]|[? ?]]; auto; congruence.
Qed.
End signal_kill.

(** ** Acknowledgments *)

#[export] Instance ack_class_eq_dec : EqDecision ack_class.
Proof. solve_decision. Defined.

Section acks.
Context (data : gomap) (tok ns name : string).

Lemma check_nodes_status nodes status :
  let nodes_of c := filter (λ n, classify data tok ns name n = c) nodes in
  check_nodes data tok ns name nodes status = {|
    as_AllAcked := as_AllAcked status;
    as_AckedNodes := as_AckedNodes status ++ nodes_of Acked;
    as_PendingNodes := as_PendingNodes status ++ nodes_of Pending;
    as_ErrorNodes := as_ErrorNodes status ++ nodes_of Errored |}.
Proof.
  simpl. revert status. induction nodes as [|n nodes IH]; intros status; simpl.
  - rewrite !app_nil_r. by destruct status.
  - rewrite IH, !filter_cons.
    destruct (classify data tok ns name n) eqn:Hc; simpl;
      repeat (rewrite decide_True by done || rewrite decide_False by done);
      by rewrite <- ?app_assoc.
Qed.

(** The three classes partition the nodes. *)
Lemma classes_partition nodes :
  let nodes_of c := filter (λ n, classify data tok ns name n = c) nodes in
  nodes_of Acked ++ nodes_of Pending ++ nodes_of Errored ≡ₚ nodes.
Proof.
  simpl. induction nodes as [|n nodes IH]; [done|]. rewrite !filter_cons.
  destruct (classify data tok ns name n) eqn:Hc;
    repeat (rewrite decide_True by done || rewrite decide_False by done); simpl.
  - by rewrite IH.
  - by rewrite <- Permutation_middle, IH.
  - by rewrite app_assoc, <- Permutation_middle, <- app_assoc, IH.
Qed.

(** A node has acknowledged the kill [tok], without errors. *)
Definition acked_cleanly (n : string) : Prop :=
  ∃ text ack, mget data (ackKey n ns name) = Some text ∧ json_Unmarshal_ack text = Some ack
    ∧ ka_Token ack = tok ∧ (ka_Errors ack <= 0)%Z.

Lemma classify_acked n : classify data tok ns name n = Acked ↔ acked_cleanly n.
Proof.
  unfold classify, acked_cleanly. split.
  - intros Hc. repeat case_match; try done. destruct (decide _); [done|].
    destruct (0 <? _)%Z eqn:He; [done|]. apply Z.ltb_ge in He.
    do 2 eexists. repeat split; try done. by apply dec_stable.
  - intros (text & ack & -> & -> & -> & He%Z.ltb_ge). by rewrite decide_False, He by auto.
Qed.
End acks.

Lemma filters_empty {A} (cls : A → ack_class) (l : list A) :
  (filter (λ x, cls x = Pending) l = [] ∧ filter (λ x, cls x = Errored) l = [])
  ↔ ∀ x, x ∈ l → cls x = Acked.
Proof.
  split.
  - intros [Hp He] x Hx. destruct (cls x) eqn:Hc; [done|exfalso..].
    + apply (not_elem_of_nil x). rewrite <- Hp. by apply list_elem_of_filter.
    + apply (not_elem_of_nil x). rewrite <- He. by apply list_elem_of_filter.
  - intros Hall. split; apply elem_of_nil_inv; intros x [Hc Hx]%list_elem_of_filter;
      by rewrite (Hall x Hx) in Hc.
Qed.

Lemma all_acked_iff data tok ns name nodes :
  let s := check_nodes data tok ns name nodes no_acks in
  bool_decide (length (as_PendingNodes s) = 0) && bool_decide (length (as_ErrorNodes s) = 0) = true
  ↔ ∀ n, n ∈ nodes → acked_cleanly data tok ns name n.
Proof.
  cbv zeta. rewrite check_nodes_status. cbn [as_PendingNodes as_ErrorNodes no_acks app].
  rewrite andb_true_iff, !bool_decide_eq_true, !length_zero_iff_nil, filters_empty.
  by setoid_rewrite classify_acked.
Qed.

(** C21: the kill counts as acknowledged exactly when every expected node has
    stored an acknowledgment of this very kill (its token) that reports no
    errors; until then every node is filed as acknowledged, pending or failed. *)
Theorem CheckAcks_exact cns tok nodes ns name cm (E : Env) h :
  E h (Get local KConfigMap (cm_key cns)) = inr cm → nodes ≠ [] →
  ∃ status, (CheckAcks cns tok nodes ns name E h).1 = Ret (inr status)
    ∧ (as_AllAcked status = true ↔ ∀ n, n ∈ nodes → acked_cleanly (cm_Data cm) tok ns name n)
    ∧ as_AckedNodes status ++ as_PendingNodes status ++ as_ErrorNodes status ≡ₚ nodes
    ∧ ∀ n, n ∈ as_AckedNodes status → acked_cleanly (cm_Data cm) tok ns name n.
Proof.
  intros Hget Hne. unfold CheckAcks, api_get, perform, mbind, IO_bind.
  destruct nodes as [|n nodes]; [done|]. rewrite Hget. eexists. split; [reflexivity|].
  cbn [as_AllAcked as_AckedNodes as_PendingNodes as_ErrorNodes]. split; [apply all_acked_iff|].
  rewrite check_nodes_status. cbn [as_AckedNodes as_PendingNodes as_ErrorNodes no_acks app]. split.
  - apply classes_partition.
  - intros x [Hc _]%list_elem_of_filter. by apply classify_acked.
Qed.

(** ** Cleanup *)

Lemma foldr_delete_lookup (keys : list string) (m : gmap string string) key :
  foldr delete m keys !! key = if decide (key ∈ keys) then None else m !! key.
Proof.
  induction keys as [|k keys IH]; [done|]. cbn [foldr].
  destruct (decide (key = k)) as [->|Hne].
  - by rewrite lookup_delete_eq, decide_True by (by left).
  - rewrite lookup_delete_ne, IH by done. apply decide_ext. rewrite elem_of_cons.
    split; [by right|by intros [?|?]].
Qed.

Lemma elem_of_toDelete d ns name key :
  key ∈ toDelete d ns name
  ↔ ∃ k data, d !! k = Some data ∧ key ∈ condemned ns name (k, data).
Proof.
  unfold toDelete. rewrite list_elem_of_join. split.
  - intros (l & Hin & ([k data] & -> & Hk%elem_of_map_to_list)%list_elem_of_fmap). eauto.
  - intros (k & data & Hk%elem_of_map_to_list & Hin). eexists. split; [done|].
    by apply list_elem_of_fmap_2.
Qed.

(** [st'] is [st] with the condemned entries of the ConfigMap removed. *)
Definition cleaned (st st' : store) (cns ns name : string) : Prop :=
  ∀ key, cm_data st' cns !! key
    = if decide (key ∈ toDelete (cm_data st cns) ns name) then None else cm_data st cns !! key.

Lemma cleaned_refl st cns ns name :
  toDelete (cm_data st cns) ns name = [] → cleaned st st cns ns name.
Proof. intros Hd key. rewrite Hd. by rewrite decide_False by apply not_elem_of_nil. Qed.

Section cleanup.
Context `{KubeLibLaws}.

Lemma cleanup_attempt_served st cns ns name :
  served st (cleanup_attempt cns ns name) (λ o st', match o with
    | Ret (Some _) => st' = st
    | Ret None => cleaned st st' cns ns name
    | Panic => False
    end).
Proof.
  apply served_keyed; intros Hk. unfold cleanup_attempt. repeat served_step; try done.
  - apply cleaned_refl. unfold cm_data. by rewrite Hnf.
  - apply cleaned_refl. unfold cm_data. rewrite Hget. simpl. by rewrite e.
  - apply cleaned_refl. unfold cm_data. by rewrite Hget.
  - pose proof (keyed_key _ _ _ _ Hk Hget) as Hkey. unfold okey in *. simpl in *. rewrite Hkey. intros key.
    rewrite (cm_data_put _ _ _ _ Hspec). unfold cm_data. rewrite Hget. simpl.
    match goal with H : toDelete _ _ _ = _ |- _ => rewrite H end. apply (foldr_delete_lookup (_ :: _)).
Qed.

Lemma CleanupSignals_served st cns ns name :
  served st (CleanupSignals cns ns name) (λ o st', match o with
    | Ret (Some _) => st' = st
    | Ret None => cleaned st st' cns ns name
    | Panic => False
    end).
Proof.
  unfold CleanupSignals. apply (served_OnError (λ st', st' = st)); [|done]. intros ? ->.
  eapply served_mono; [apply cleanup_attempt_served|by intros [[]|]].
Qed.

(** The payload of an entry names its FailoverService; the payloads of older
    versions do not, and their keys end in its namespace and name. *)
Definition named (sns sname : string) : Prop := sns ≠ "" ∨ sname ≠ "".
Definition named_by_key (key ns name : string) : Prop :=
  ∃ p, key = p +:+ "_" +:+ ns +:+ "_" +:+ name.
Definition signal_of (ns name key data : string) : Prop :=
  match json_Unmarshal_signal data with
  | Some sig =>
      named (ks_FSNamespace sig) (ks_FSName sig) ∧ ks_FSNamespace sig = ns ∧ ks_FSName sig = name
      ∨ ¬ named (ks_FSNamespace sig) (ks_FSName sig) ∧ named_by_key key ns name
  | None => named_by_key key ns name
  end.
Definition ack_of (ns name key data : string) : Prop :=
  match json_Unmarshal_ack data with
  | Some ack =>
      named (ka_FSNamespace ack) (ka_FSName ack) ∧ ka_FSNamespace ack = ns ∧ ka_FSName ack = name
      ∨ ¬ named (ka_FSNamespace ack) (ka_FSName ack) ∧ named_by_key key ns name
  | None => named_by_key key ns name
  end.

(** The entries of the FailoverService: its signals, its acknowledgments, and
    the acknowledgments of its signals. *)
Definition entry_of (m : gmap string string) (ns name key data : string) : Prop :=
  (∃ k, key = "kill_" +:+ k ∧ signal_of ns name key data)
  ∨ (∃ k, key = "ack_" +:+ k
     ∧ (ack_of ns name key data
        ∨ ∃ d, m !! ("kill_" +:+ k) = Some d ∧ signal_of ns name ("kill_" +:+ k) d)).

Lemma HasSuffix_iff s t : HasSuffix s t = true ↔ ∃ p, s = p +:+ t.
Proof.
  split.
  - induction s as [|a s IH]; simpl; case_decide as Hd; try done; try (intros _; by exists "").
    intros (p & ->)%IH. by exists (String a p).
  - intros (p & ->). induction p as [|a p IH]; simpl.
    + by destruct t; simpl; rewrite ?decide_True.
    + by case_decide.
Qed.
Lemma HasPrefix_iff s t : HasPrefix s t = true ↔ ∃ k, s = t +:+ k.
Proof.
  split; [|intros (k & ->); apply HasPrefix_app].
  revert s. induction t as [|a t IH]; intros s; [by exists s|].
  destruct s as [|b s]; [done|]. simpl. case_decide as Hd; [|done]. subst b.
  intros (k & ->)%IH. by exists k.
Qed.

Lemma legacy_iff key ns name : HasSuffix key (legacy_suffix ns name) = true ↔ named_by_key key ns name.
Proof. unfold legacy_suffix, named_by_key. apply HasSuffix_iff. Qed.
(** The test of the code, for either payload. *)
Lemma names_iff (sns sname key ns name : string) :
  (if bool_decide (sns ≠ "") || bool_decide (sname ≠ "")
   then bool_decide (sns = ns) && bool_decide (sname = name)
   else HasSuffix key (legacy_suffix ns name)) = true
  ↔ named sns sname ∧ sns = ns ∧ sname = name ∨ ¬ named sns sname ∧ named_by_key key ns name.
Proof.
  rewrite <- legacy_iff. unfold named. destruct (bool_decide_reflect (sns ≠ "")); simpl.
  - rewrite andb_true_iff, !bool_decide_eq_true. tauto.
  - destruct (bool_decide_reflect (sname ≠ "")); [rewrite andb_true_iff, !bool_decide_eq_true|]; tauto.
Qed.
Lemma signalMatchesFS_iff key data ns name :
  signalMatchesFS key data ns name = true ↔ signal_of ns name key data.
Proof.
  unfold signalMatchesFS, signal_of. destruct (json_Unmarshal_signal data); [apply names_iff|apply legacy_iff].
Qed.
Lemma ackMatchesFS_iff key data ns name :
  ackMatchesFS key data ns name = true ↔ ack_of ns name key data.
Proof.
  unfold ackMatchesFS, ack_of. destruct (json_Unmarshal_ack data); [apply names_iff|apply legacy_iff].
Qed.

(** What an entry condemns: itself, and a signal its acknowledgment too. *)
Lemma elem_of_condemned ns name k d key :
  key ∈ condemned ns name (k, d)
  ↔ (∃ x, k = "kill_" +:+ x ∧ signal_of ns name k d ∧ (key = k ∨ key = "ack_" +:+ x))
    ∨ (∃ x, k = "ack_" +:+ x ∧ ack_of ns name k d ∧ key = k).
Proof.
  unfold condemned. destruct (HasPrefix k "kill_") eqn:Hkill.
  { apply HasPrefix_iff in Hkill as (x & ->). rewrite TrimPrefix_app.
    pose proof (signalMatchesFS_iff ("kill_" +:+ x) d ns name) as Hs.
    destruct (signalMatchesFS _ d ns name); rewrite ?elem_of_cons, elem_of_nil; split; try done.
    - intros [->|[->|[]]]; left; exists x; (split; [done|]); split; auto; by apply Hs.
    - intros [(y & Hy & _ & [->| ->])|(y & [=] & _)]; [by left|].
      apply (inj (String.append "kill_")) in Hy as ->. auto.
    - intros [(y & _ & Hn%Hs & _)|(y & [=] & _)]. done. }
  destruct (HasPrefix k "ack_") eqn:Hack.
  - apply HasPrefix_iff in Hack as (x & ->).
    pose proof (ackMatchesFS_iff ("ack_" +:+ x) d ns name) as Hs.
    destruct (ackMatchesFS _ d ns name); rewrite ?elem_of_cons, elem_of_nil; split; try done.
    + intros [->|[]]. right. exists x. split; [done|]. split; [by apply Hs|done].
    + intros [(y & [=] & _)|(y & _ & _ & ->)]. by left.
    + by intros [(y & [=] & _)|(y & _ & Hn%Hs & _)].
  - rewrite elem_of_nil. split; [done|]. intros [(x & -> & _)|(x & -> & _)];
      rewrite HasPrefix_app in *; discriminate.
Qed.

Lemma toDelete_iff m ns name key data :
  m !! key = Some data → key ∈ toDelete m ns name ↔ entry_of m ns name key data.
Proof.
  intros Hd. rewrite elem_of_toDelete. setoid_rewrite elem_of_condemned. unfold entry_of. split.
  - intros (k & d & Hk & [(x & -> & Hs & [->| ->])|(x & -> & Ha & ->)]).
    + left. exists x. by simplify_eq.
    + right. exists x. split; [done|]. eauto.
    + right. exists x. simplify_eq. auto.
  - intros [(k & -> & Hs)|(k & -> & [Ha|(d & Hk & Hs)])]; do 2 eexists; (split; [eassumption|]); eauto 10.
Qed.

(** C25: a successful cleanup removes from the ConfigMap exactly the entries of
    its FailoverService: its kill signals, its acknowledgments and those of its
    signals, the payload telling whose they are (the key, when the payload does
    not); every other entry, be it a signal or an acknowledgment of another
    FailoverService, stays as it is, and none is added. *)
Theorem CleanupSignals_exact cns ns name E h (st st' : store) :
  keyed st → serves st (CleanupSignals cns ns name E h).2 st' →
  (CleanupSignals cns ns name E h).1 = Ret None →
  ∀ key,
    match cm_data st cns !! key with
    | None => cm_data st' cns !! key = None
    | Some data =>
        (entry_of (cm_data st cns) ns name key data → cm_data st' cns !! key = None)
        ∧ (¬ entry_of (cm_data st cns) ns name key data → cm_data st' cns !! key = Some data)
    end.
Proof.
  intros Hk Hs Hr key. pose proof (CleanupSignals_served st cns ns name Hk E h st' Hs) as Hc.
  rewrite Hr in Hc. simpl in Hc. specialize (Hc key).
  destruct (cm_data st cns !! key) as [data|] eqn:Hd; [|rewrite Hc; by case_decide].
  rewrite <- (toDelete_iff _ ns name key data Hd), Hc. by split; intros ?; case_decide.
Qed.
End cleanup.

(** ** Witnesses *)

(** A ConfigMap with the given entries. *)
Definition demo_cm (data : gmap string string) : store :=
  put empty_store KConfigMap (cm_key "failover-system")
    (Some {| cm_meta := new_meta ConfigMapName "failover-system"; cm_Data := Some data |}).
Lemma demo_cm_keyed data : keyed (demo_cm data).
Proof. apply keyed_put; [apply empty_store_keyed|split; reflexivity]. Defined.
Definition demo_suffix := "node-a_default_mysql".
Definition demo_kill_store : store :=
  demo_cm (populateKillSignals ∅ ["node-a"] "10.0.0.7" "42-77" "default" "mysql").

(** A cluster with one eligible node, its agent and a cordoned node. *)
Definition demo_node (name : string) (cordoned : bool) : Node := {|
  node_Name := name; node_DeletionTimestamp := None; node_Unschedulable := cordoned;
  node_Labels := Some {[ LabelOSStable := "linux" ]};
  node_Conditions := [{| pc_Type := "Ready"; pc_Status := "True" |}] |}.
Definition demo_cluster : Env := λ h o,
  match o as o return resp o with
  | ListPods _ _ => inr [{| pod_NodeName := "node-a"; pod_DeletionTimestamp := None;
      pod_Phase := "Running"; pod_Conditions := [{| pc_Type := "Ready"; pc_Status := "True" |}] |}]
  | ListNodes _ => inr [demo_node "node-b" true; demo_node "node-a" false]
  | o => quiet h o
  end.

Lemma SignalKill_signals_witness :
  ∃ st st', signalled st st' "failover-system" "10.0.0.7" "42-77" "default" "mysql" ["node-a"].
Proof.
  exists (demo_cm ∅). eexists.
  edestruct (λ st', SignalKill_signals "failover-system" "10.0.0.7" "42-77" "default" "mysql"
    (sim demo_cluster (demo_cm ∅)) [] (demo_cm ∅) st' ["node-a"]) as [[Hnil _]|(_ & Hs & _)].
  - apply demo_cm_keyed.
  - apply (sim_serves demo_cluster (demo_cm ∅) _ []). check_legit.
  - vm_compute. reflexivity.
  - discriminate.
  - exact Hs.
Defined.

Definition demo_acked : ConfigMap := {|
  cm_meta := new_meta ConfigMapName "failover-system";
  cm_Data := Some {[ ackKey "node-a" "default" "mysql-failover" := json_Marshal_ack demo_ack ]} |}.
Lemma CheckAcks_exact_witness :
  ∃ status, as_AllAcked status = true
    ∧ ∀ n, n ∈ as_AckedNodes status →
        acked_cleanly (cm_Data demo_acked) "42-77" "default" "mysql-failover" n.
Proof.
  edestruct (CheckAcks_exact "failover-system" "42-77" ["node-a"] "default" "mysql-failover"
    demo_acked (sim quiet (put empty_store KConfigMap (cm_key "failover-system") (Some demo_acked))) [])
    as (status & Hr & _ & _ & Ha).
  - reflexivity.
  - discriminate.
  - exists status. split; [|exact Ha]. vm_compute in Hr. injection Hr as <-. reflexivity.
Defined.

(** The signal of the FailoverService goes; the acknowledgment of another one,
    whose name ends alike, stays. *)
Definition demo_other_ack : string := json_Marshal_ack {| ka_Seq := 1; ka_Token := "42-77";
  ka_Node := "node-a"; ka_FSNamespace := "default"; ka_FSName := "old_default_mysql";
  ka_Killed := 3; ka_Errors := 0 |}.
Definition demo_shared_store : store :=
  demo_cm (<["ack_node-a_default_old_default_mysql" := demo_other_ack]>
    (populateKillSignals ∅ ["node-a"] "10.0.0.7" "42-77" "default" "mysql")).
Lemma CleanupSignals_exact_witness :
  ∃ st', cm_data st' "failover-system" !! killKey "node-a" "default" "mysql" = None
    ∧ cm_data st' "failover-system" !! "ack_node-a_default_old_default_mysql" = Some demo_other_ack.
Proof.
  eexists. pose proof (λ st', CleanupSignals_exact "failover-system" "default" "mysql"
    (sim quiet demo_shared_store) [] demo_shared_store st') as H.
  split.
  - refine (proj1 (H _ _ _ _ (killKey "node-a" "default" "mysql")) _).
    + apply demo_cm_keyed.
    + apply (sim_serves quiet demo_shared_store _ []). check_legit.
    + vm_compute. reflexivity.
    + left. exists demo_suffix. split; [vm_compute; reflexivity|].
      apply signalMatchesFS_iff. vm_compute. reflexivity.
  - refine (proj2 (H _ _ _ _ "ack_node-a_default_old_default_mysql") _).
    + apply demo_cm_keyed.
    + apply (sim_serves quiet demo_shared_store _ []). check_legit.
    + vm_compute. reflexivity.
    + intros He. apply (toDelete_iff _ _ _ _ demo_other_ack) in He; [|vm_compute; reflexivity].
      revert He. apply (bool_decide_unpack (_ ∉ _)). vm_compute. exact I.
Defined.
