(* ===== verification/AgentProofs.v ===== *)
(** * What a node agent promises

    The agent acts on the new signals of its own node only, records a signal as
    processed only once its acknowledgment is stored, and otherwise leaves the
    ConfigMap alone; after a restart it does not answer again what it had
    acknowledged.  A signal whose sequence number starts again below the last
    one processed is ignored ([restarted_sequence_ignored]). *)
From Stdlib Require Import NArith Ascii String.
From stdpp Require Import base gmap strings list numbers option sorting.
From S2P Require Import Prelude GoStd GoNetIP GoJSON GoJSONProofs Types Kube Logic ApiServer Fixtures Actions Signaler Netlink NetlinkProofs Agent KillPayloads KillProtocol.

(** ** System calls leave the API objects alone *)

Definition syscall_event (e : event) : Prop :=
  match e with
  | Ev ReadDirProc _ | Ev (StatInode _) _ | Ev (Open _) _ | Ev (Close _) _ | Ev (Setns _) _
  | Ev NetlinkSocket _ | Ev (Bind _) _ | Ev (Write _ _) _ | Ev (SetRecvTimeout _ _) _
  | Ev (Recvfrom _ _) _ | Ev CtxErr _ | Ev (Sleep _) _ | Ev (Wait _) _ | Ev (WatchConfigMap _ _) _
  | Ev (StopWatch _) _ => True
  | _ => False
  end.

Lemma served_syscalls {A} (m : IO A) st (Q : outcome A → store → Prop) :
  emits syscall_event m → (∀ o, Q o st) → served st m Q.
Proof.
  intros Hm HQ _. eapply wp_mono; [exact Hm|]. simpl. intros o t Ht st' Hs.
  assert (st' = st) as ->; [|done]. revert st Hs HQ. clear Hm.
  induction Ht as [|e t He _ IH]; intros st; cbn; [done|]. intros (st1 & Hst & Hs) HQ.
  assert (st1 = st) as -> by (by destruct e as [[] r]). by apply (IH st).
Qed.

Ltac syscalls := repeat emits_step; try exact I; auto.

Lemma DestroySockets_syscalls fuel ip : emits syscall_event (DestroySocketsByDestIP fuel ip).
Proof. apply DestroySockets_emits; try done. by intros [[] r]. Qed.
#[export] Hint Resolve DestroySockets_syscalls : io.
Lemma scan_proc_syscalls entries seen ns : emits syscall_event (scan_proc entries seen ns).
Proof. eapply emits_mono; [apply scan_proc_events|]. by intros [[] r]. Qed.
#[export] Hint Resolve scan_proc_syscalls : io.
Lemma killInNamespace_syscalls fuel path ip : emits syscall_event (killInNamespace fuel path ip).
Proof. unfold killInNamespace. syscalls. Qed.
#[export] Hint Resolve killInNamespace_syscalls : io.
Lemma kill_in_all_syscalls fuel ns ip k e : emits syscall_event (kill_in_all fuel ns ip k e).
Proof. revert k e. induction ns as [|n ns IH]; intros k e; simpl; syscalls. Qed.
#[export] Hint Resolve kill_in_all_syscalls : io.
Lemma KillConnections_syscalls fuel ip :
  emits syscall_event (KillConnectionsAllNamespaces fuel ip).
Proof. unfold KillConnectionsAllNamespaces, enumerateNetworkNamespaces. syscalls. Qed.

(** ** One signal *)

(** The acknowledgment the agent writes for [sig]. *)
Definition ack_of (a : Agent) (sig : KillSignal) (killed errs : Z) : string :=
  json_Marshal_ack {| ka_Seq := ks_Seq sig; ka_Token := ks_Token sig; ka_Node := a_NodeName a;
    ka_FSNamespace := ks_FSNamespace sig; ka_FSName := ks_FSName sig; ka_Killed := killed;
    ka_Errors := errs |}.

(** The same data, and the data with one entry more. *)
Definition same_data (st st' : store) (cns : string) : Prop :=
  ∀ key, cm_data st' cns !! key = cm_data st cns !! key.
Definition data_with (st st' : store) (cns key v : string) : Prop :=
  ∀ key', cm_data st' cns !! key' = <[key := v]> (cm_data st cns) !! key'.

Definition same_agent (a a' : Agent) : Prop :=
  a_NodeName a' = a_NodeName a ∧ a_Namespace a' = a_Namespace a.

Section agent.
Context `{KubeLibLaws} (fuel : nat).

Lemma ack_attempt_served st cns key v :
  served st (ack_attempt cns key v) (λ o st', match o with
    | Ret (Some _) => st' = st | Ret None => data_with st st' cns key v | Panic => False end).
Proof.
  apply served_keyed; intros Hk. unfold ack_attempt. repeat served_step; try done.
  pose proof (keyed_key _ _ _ _ Hk Hget) as Hkey. unfold okey in *. simpl in *. rewrite Hkey. intros key'.
  rewrite (cm_data_put _ _ _ _ Hspec). unfold cm_data. by rewrite Hget.
Qed.
Lemma writeAck_served st a key seq tok ns name killed errs :
  served st (writeAck a key seq tok ns name killed errs) (λ o st', match o with
    | Ret (Some _) => st' = st
    | Ret None => data_with st st' (a_Namespace a) key (json_Marshal_ack {|
        ka_Seq := seq; ka_Token := tok; ka_Node := a_NodeName a; ka_FSNamespace := ns;
        ka_FSName := name; ka_Killed := killed; ka_Errors := errs |})
    | Panic => False end).
Proof.
  unfold writeAck, RetryOnConflict. apply (served_OnError (λ st', st' = st)); [|done]. intros ? ->.
  eapply served_mono; [apply ack_attempt_served|by intros [[]|]].
Qed.

(** A signal is passed over, or killed and acknowledged. *)
Definition entry_step (a : Agent) (key data : string) (st : store) (a' : Agent) (st' : store)
    : Prop :=
  same_agent a a'
  ∧ ((∀ k, last_seq a' k = last_seq a k) ∧ same_data st st' (a_Namespace a)
     ∨ ∃ k sig killed errs, key = "kill_" +:+ k ∧ my_signal a key data = Some sig
         ∧ (last_seq a k < ks_Seq sig)%Z
         ∧ data_with st st' (a_Namespace a) ("ack_" +:+ k) (ack_of a sig killed errs)
         ∧ ∀ k', last_seq a' k' = if decide (k' = k) then ks_Seq sig else last_seq a k').

Lemma last_seq_default a k :
  last_seq {| a with a_lastSeq := Some (default ∅ (a_lastSeq a)) |} k = last_seq a k.
Proof. unfold last_seq. simpl. by destruct (a_lastSeq a). Qed.

Lemma my_signal_key a key data sig :
  my_signal a key data = Some sig → key = "kill_" +:+ TrimPrefix key "kill_".
Proof.
  unfold my_signal. destruct (HasPrefix key "kill_") eqn:Hp; [|done]. intros _.
  by apply HasPrefix_split.
Qed.

Lemma process_entry_served st a key data :
  served st (process_entry fuel a key data) (λ o st', match o with
    | Ret a' => entry_step a key data st a' st' | Panic => True end).
Proof.
  unfold process_entry. destruct (my_signal a key data) as [sig|] eqn:Hsig.
  2:{ apply served_ret. split; [done|]. left. done. }
  pose proof (my_signal_key _ _ _ _ Hsig) as Hkey.
  set (k := TrimPrefix key "kill_") in *. cbv zeta. rewrite last_seq_default.
  destruct (ks_Seq sig <=? last_seq a k)%Z eqn:Hseq.
  { apply served_ret. split; [done|]. left. split; [|done]. intros. apply last_seq_default. }
  apply Z.leb_gt in Hseq. destruct (ParseIP (ks_IP sig)).
  2:{ apply served_ret. split; [done|]. left. split; [|done]. intros. apply last_seq_default. }
  apply served_bind, served_syscalls; [apply KillConnections_syscalls|].
  intros [[[killed errs] err]|]; [|done]. apply served_bind.
  eapply served_mono; [apply writeAck_served|]. intros [[e|]|] st' Hst'; [..|done]; apply served_ret.
  - rewrite Hst'. split; [done|]. left. split; [|done]. intros. apply last_seq_default.
  - split; [done|]. right. exists k, sig. do 2 eexists. repeat split; try done.
    intros k'. unfold last_seq. simpl. case_decide as Hd.
    + subst k'. by rewrite lookup_insert_eq.
    + rewrite lookup_insert_ne by done. by destruct (a_lastSeq a).
Qed.

(** The signal with suffix [k] among [entries] was new to [a0] and is answered:
    its acknowledgment is stored and [a] remembers it. *)
Definition answered (a0 : Agent) (entries : list (string * string)) (a : Agent) (st : store)
    (k : string) : Prop :=
  ∃ data sig killed errs, ("kill_" +:+ k, data) ∈ entries
    ∧ my_signal a0 ("kill_" +:+ k) data = Some sig ∧ (last_seq a0 k < ks_Seq sig)%Z
    ∧ cm_data st (a_Namespace a0) !! ("ack_" +:+ k) = Some (ack_of a0 sig killed errs)
    ∧ last_seq a k = ks_Seq sig.
Definition run_inv (a0 : Agent) (st0 : store) (entries : list (string * string))
    (a : Agent) (st : store) : Prop :=
  same_agent a0 a
  ∧ (∀ key, cm_data st (a_Namespace a0) !! key = cm_data st0 (a_Namespace a0) !! key
       ∨ ∃ k, key = "ack_" +:+ k ∧ answered a0 entries a st k)
  ∧ ∀ k, last_seq a k = last_seq a0 k ∨ answered a0 entries a st k.

Lemma ack_key_inj k k' : "ack_" +:+ k = "ack_" +:+ k' → k = k'.
Proof. by intros [= ?]. Qed.

Lemma same_signal a a' key data :
  same_agent a a' → my_signal a' key data = my_signal a key data.
Proof. intros [Hn _]. unfold my_signal. by rewrite Hn. Qed.
Lemma same_ack a a' sig killed errs :
  same_agent a a' → ack_of a' sig killed errs = ack_of a sig killed errs.
Proof. intros [Hn _]. unfold ack_of. by rewrite Hn. Qed.

Lemma entry_inv a0 st0 entries a st key data a' st' :
  (key, data) ∈ entries → run_inv a0 st0 entries a st → entry_step a key data st a' st' →
  run_inv a0 st0 entries a' st'.
Proof.
  intros Hin (Hsame & Hdata & Hseq) ([Hn Hns] & Hstep). pose proof Hsame as [Hn0 Hns0].
  assert (Hsame' : same_agent a0 a') by (split; congruence).
  destruct Hstep as [[Hl Hd]|(k & sig & killed & errs & -> & Hsig & Hlt & Hd & Hl)];
    unfold data_with, same_data in Hd; rewrite Hns0 in Hd.
  - assert (Hans : ∀ k, answered a0 entries a st k → answered a0 entries a' st' k).
    { intros k (data' & sig & killed & errs & ?). exists data', sig, killed, errs.
      by rewrite Hl, Hd. }
    split; [done|]. split.
    + intros key'. rewrite Hd. destruct (Hdata key') as [?|(k & -> & ?)]; eauto 6.
    + intros k. rewrite Hl. destruct (Hseq k); auto.
  - assert (Hold : (last_seq a0 k <= last_seq a k)%Z).
    { destruct (Hseq k) as [->|(?&?&?&?&?&?&?&?& ->)]; lia. }
    assert (Hk : answered a0 entries a' st' k).
    { exists data, sig, killed, errs. split; [done|]. rewrite (same_signal _ _ _ _ Hsame) in Hsig.
      rewrite Hd, lookup_insert_eq, Hl, decide_True, (same_ack _ _ _ _ _ Hsame) by done.
      repeat split; try done; lia. }
    assert (Hans : ∀ k', k' ≠ k → answered a0 entries a st k' → answered a0 entries a' st' k').
    { intros k' Hne (data' & sig' & killed' & errs' & ?). exists data', sig', killed', errs'.
      rewrite Hd, lookup_insert_ne, Hl, decide_False; [done..|].
      by intros ?%ack_key_inj. }
    split; [done|]. split.
    + intros key'. rewrite Hd. destruct (decide (key' = "ack_" +:+ k)) as [->|Hne]; [eauto|].
      rewrite lookup_insert_ne by done. destruct (Hdata key') as [?|(k' & -> & Ha)]; [auto|].
      right. exists k'. split; [done|]. apply Hans; [|done]. intros ->. done.
    + intros k'. rewrite Hl. case_decide as Hkk; [subst; auto|].
      destruct (Hseq k'); auto.
Qed.

Lemma process_entries_served a0 st0 all entries st a :
  (∀ x, x ∈ entries → x ∈ all) → run_inv a0 st0 all a st →
  served st (process_entries fuel a entries) (λ o st', match o with
    | Ret a' => run_inv a0 st0 all a' st' | Panic => True end).
Proof.
  revert a st. induction entries as [|[key data] entries IH]; intros a st Hall Hinv; simpl.
  { by apply served_ret. }
  apply served_bind. eapply served_mono; [apply process_entry_served|].
  intros [a'|] st' Hst'; [|done]. apply IH.
  - intros x Hx. apply Hall. by right.
  - eapply entry_inv; [|exact Hinv|exact Hst']. apply Hall. by left.
Qed.

Lemma RunOnce_served st a :
  served st (RunOnce fuel a) (λ o st', match o with
    | Ret (a', _) => ∃ entries, (∀ x, x ∈ entries → cm_data st (a_Namespace a) !! x.1 = Some x.2)
        ∧ run_inv a st entries a' st'
    | Panic => True end).
Proof.
  unfold RunOnce. assert (Hrefl : run_inv a st [] a st) by (repeat split; auto).
  repeat (served_step; try (exists []; split; [by intros x ?%not_elem_of_nil|done])).
  destruct Hserved as [-> Hperm].
  eapply served_mono; [apply (process_entries_served a st r); [auto|repeat split; auto]|].
  intros [a'|] st' Hinv; [|done]. apply served_ret. exists r. split; [|done].
  intros [k v] Hx. rewrite Hperm in Hx. apply elem_of_map_to_list in Hx.
  unfold cm_data. by rewrite Hget.
Qed.

(** C24: one pass of an agent changes the ConfigMap only by acknowledgments, and
    what it remembers only by what it has acknowledged: each is the answer to a
    stored signal for this very node that is newer than the last one processed,
    and carries its sequence number and token. *)
Theorem RunOnce_answers a E h (st st' : store) a' e :
  keyed st → serves st (RunOnce fuel a E h).2 st' → (RunOnce fuel a E h).1 = Ret (a', e) →
  ∃ entries, (∀ k data, (k, data) ∈ entries → cm_data st (a_Namespace a) !! k = Some data)
    ∧ (∀ key, cm_data st' (a_Namespace a) !! key = cm_data st (a_Namespace a) !! key
         ∨ ∃ k, key = "ack_" +:+ k ∧ answered a entries a' st' k)
    ∧ ∀ k, last_seq a' k = last_seq a k ∨ answered a entries a' st' k.
Proof.
  intros Hk Hs Hr. pose proof (RunOnce_served st a Hk E h st' Hs) as H1. rewrite Hr in H1.
  destruct H1 as (entries & He & _ & Hd & Hl). exists entries. split; [|done].
  intros k data Hin. by apply (He (k, data)).
Qed.

(** ** Sequence numbers that start again *)

(** The signal stored for [k] is for this node and not newer than the last one
    processed. *)
Definition stale (a : Agent) (st : store) (k data : string) (ack : option string) : Prop :=
  cm_data st (a_Namespace a) !! ("kill_" +:+ k) = Some data
  ∧ (∃ sig, my_signal a ("kill_" +:+ k) data = Some sig ∧ (ks_Seq sig <= last_seq a k)%Z)
  ∧ cm_data st (a_Namespace a) !! ("ack_" +:+ k) = ack.

(** Such a signal is not answered, and stays so. *)
Lemma RunOnce_stale a st k data ack :
  stale a st k data ack →
  served st (RunOnce fuel a) (λ o st', match o with
    | Ret (a', _) => a_Namespace a' = a_Namespace a ∧ stale a' st' k data ack
    | Panic => True end).
Proof.
  intros (Hk & (sig & Hsig & Hle) & Hack).
  eapply served_mono; [apply RunOnce_served|]. intros [[a' e]|] st' Hst'; [|done].
  destruct Hst' as (entries & He & Hsame & Hd & Hl). pose proof Hsame as [Hn Hns].
  assert (Hnot : ¬ answered a entries a' st' k).
  { intros (data' & sig' & ? & ? & Hin & Hsig' & Hlt & _). apply He in Hin. simpl in Hin.
    rewrite Hk in Hin. injection Hin as <-. rewrite Hsig in Hsig'. injection Hsig' as <-. lia. }
  split; [done|]. unfold stale. rewrite Hns. split; [|split].
  - destruct (Hd ("kill_" +:+ k)) as [->|(k' & [=] & _)]. done.
  - exists sig. rewrite (same_signal a a') by done. split; [done|].
    by destruct (Hl k) as [->|?].
  - destruct (Hd ("ack_" +:+ k)) as [->|(k' & ->%ack_key_inj & ?)]; done.
Qed.

(** A property of the agent and the objects that every pass keeps, and that the
    loops keep, whatever wakes the agent up. *)
Section loops.
Context (P : Agent → store → Prop).
Definition keeps_agent (A : Type) (m : IO (Agent * A)) (st : store) : Prop :=
  served st m (λ o st', match o with Ret (a', _) => P a' st' | Panic => True end).
Hypothesis Hpass : ∀ a st, P a st → keeps_agent _ (RunOnce fuel a) st.

Lemma served_quiet {B} (o : op) (f : resp o → IO (Agent * B)) st :
  (∀ r, syscall_event (Ev o r)) → (∀ r, keeps_agent _ (f r) st) → keeps_agent _ (perform o ≫= f) st.
Proof.
  intros Ho Hf. apply served_bind, served_syscalls; [by apply emits_perform|].
  intros [r|]; [apply Hf|done].
Qed.

Ltac quiet_op :=
  lazymatch goal with
  | |- keeps_agent _ (mbind _ ?m) _ => let o := as_op m in apply (served_quiet o); [done|]
  | |- served _ (mbind _ ?m) _ => let o := as_op m in apply (served_quiet o); [done|]
  end.
Lemma watch_events_keeps rounds w a st : P a st → keeps_agent _ (watch_events fuel rounds w a) st.
Proof.
  revert a st. induction rounds as [|n IH]; intros a st HP; simpl; [by apply served_ret|].
  quiet_op. intros [| |e].
  - quiet_op. intros r. by apply served_ret.
  - by apply served_ret.
  - destruct (bool_decide _); [|auto]. apply served_bind.
    eapply served_mono; [by apply Hpass|]. intros [[a' ?]|] st' H'; [|done]. by apply IH.
Qed.

Lemma watchOnce_keeps rounds a st : P a st → keeps_agent _ (watchOnce fuel rounds a) st.
Proof.
  intros HP. unfold watchOnce. quiet_op. intros [err|w]; [by apply served_ret|].
  apply served_bind. eapply served_mono; [by apply Hpass|]. intros [[a' ?]|] st' H'; [|done].
  apply served_bind. eapply served_mono; [by apply watch_events_keeps|].
  intros [[a2 []]|] st2 H2; [by apply served_ret| |done].
  quiet_op. intros r. by apply served_ret.
Qed.

Lemma watch_loop_keeps sessions rounds interval a st :
  P a st → keeps_agent _ (watch_loop fuel sessions rounds interval a) st.
Proof.
  revert a st. induction sessions as [|n IH]; intros a st HP; simpl; [by apply served_ret|].
  apply served_bind. eapply served_mono; [by apply watchOnce_keeps|].
  intros [[a' [|[err|]]]|] st' H'; [by apply served_ret| |by apply IH|done].
  quiet_op. intros [e|]; [by apply served_ret|].
  quiet_op. intros []; [|by apply IH].
  quiet_op. intros r. by apply served_ret.
Qed.
End loops.

(** C23: after a cleanup the next signal for a node starts again at sequence 1;
    an agent that has already processed a signal for the same FailoverService
    takes it for an old one: it never acknowledges it, however often it wakes
    up, and the controller waits until it times out. *)
Theorem restarted_sequence_ignored sessions rounds interval a m ip tok ns name E h (st st' : store) r :
  let node := a_NodeName a in
  let key := killKey node ns name in
  let k := key_suffix node ns name in
  m !! key = None → node ≠ "" →
  plain_signal {| ks_IP := ip; ks_Seq := 1; ks_Token := tok; ks_Node := node;
                  ks_FSNamespace := ns; ks_FSName := name |} →
  cm_data st (a_Namespace a) = populateKillSignals m [node] ip tok ns name →
  (1 <= last_seq a k)%Z →
  keyed st → serves st (watch_loop fuel sessions rounds interval a E h).2 st' →
  (watch_loop fuel sessions rounds interval a E h).1 = Ret r →
  cm_data st' (a_Namespace a) !! ackKey node ns name
  = cm_data st (a_Namespace a) !! ackKey node ns name.
Proof.
  intros node key k Hm Hnode Hplain Hst Hlast Hkeyed Hs Hr.
  assert (Hkey : key = "kill_" +:+ k) by (unfold key, killKey; by rewrite safeKey_suffix).
  assert (Hack : ackKey node ns name = "ack_" +:+ k) by (unfold ackKey; by rewrite safeKey_suffix).
  set (sig := {| ks_IP := ip; ks_Seq := 1; ks_Token := tok; ks_Node := node;
                 ks_FSNamespace := ns; ks_FSName := name |}) in *.
  assert (Hdata : cm_data st (a_Namespace a) !! ("kill_" +:+ k) = Some (json_Marshal_signal sig)).
  { rewrite Hst, <- Hkey. simpl. fold node key. rewrite lookup_insert_eq. do 2 f_equal.
    unfold sig, next_seq. by rewrite Hm. }
  assert (Hsig : my_signal a ("kill_" +:+ k) (json_Marshal_signal sig) = Some sig).
  { unfold my_signal. rewrite HasPrefix_app, signal_roundtrip_aux by done.
    rewrite bool_decide_eq_true_2 by done. by rewrite bool_decide_eq_false_2 by (by intros []). }
  pose proof (watch_loop_keeps (λ a' st', a_Namespace a' = a_Namespace a
    ∧ stale a' st' k (json_Marshal_signal sig) (cm_data st (a_Namespace a) !! ("ack_" +:+ k))))
    as Hloop.
  assert (Hpass : ∀ a1 st1, a_Namespace a1 = a_Namespace a ∧ stale a1 st1 k (json_Marshal_signal sig)
      (cm_data st (a_Namespace a) !! ("ack_" +:+ k)) → served st1 (RunOnce fuel a1) (λ o st',
        match o with Ret (a', _) => a_Namespace a' = a_Namespace a ∧ stale a' st' k
          (json_Marshal_signal sig) (cm_data st (a_Namespace a) !! ("ack_" +:+ k))
        | Panic => True end)).
  { intros a1 st1 [Hns Hst1]. eapply served_mono; [by apply RunOnce_stale|].
    intros [[a2 ?]|] st2; [|done]. intros [Hns2 ?]. split; [congruence|done]. }
  specialize (Hloop Hpass sessions rounds interval a st).
  specialize (Hloop (conj eq_refl (conj Hdata (conj (ex_intro _ sig (conj Hsig Hlast)) eq_refl)))
    Hkeyed E h st' Hs).
  rewrite Hr in Hloop. destruct r as [a' r']. destruct Hloop as (Hns & _ & _ & Ha).
  rewrite Hns in Ha. by rewrite Hack.
Qed.

(** ** Restart *)

Lemma my_ack_key a key data k seq : my_ack a key data = Some (k, seq) → key = "ack_" +:+ k.
Proof.
  unfold my_ack. destruct (HasPrefix key "ack_") eqn:Hp; [|done]. intros Hk.
  pose proof (HasPrefix_split _ _ Hp) as Hkey.
  repeat case_match; try done; by injection Hk as <- _.
Qed.
Lemma seed_other a entries m k :
  (∀ data, ("ack_" +:+ k, data) ∉ entries) → seed a entries m !! k = m !! k.
Proof.
  revert m. induction entries as [|[key data] entries IH]; intros m Hno; simpl; [done|].
  rewrite IH by (intros d Hd; apply (Hno d); by right).
  destruct (my_ack a key data) as [[k' seq]|] eqn:Ha; [|done]. apply my_ack_key in Ha as ->.
  rewrite lookup_insert_ne; [done|]. intros ->. apply (Hno data). by left.
Qed.
Lemma seed_lookup a entries m k data seq :
  NoDup entries.*1 → ("ack_" +:+ k, data) ∈ entries →
  my_ack a ("ack_" +:+ k) data = Some (k, seq) → seed a entries m !! k = Some seq.
Proof.
  intros Hnd Hin Ha. revert m Hnd Hin. induction entries as [|[key d] entries IH]; intros m Hnd Hin.
  { by apply not_elem_of_nil in Hin. }
  apply NoDup_cons in Hnd as [Hkey Hnd]. simpl. apply elem_of_cons in Hin as [Heq|Hin].
  - injection Heq as <- <-. rewrite Ha, seed_other; [by rewrite lookup_insert_eq|].
    intros d Hd. apply Hkey. by apply (list_elem_of_fmap_2 fst) in Hd.
  - by apply IH.
Qed.

Lemma initFromConfigMap_served st a :
  served st (initFromConfigMap a) (λ o st', match o with
    | Ret a' => st' = st ∧ same_agent a a'
        ∧ (a' = a ∨ ∀ k data seq, cm_data st (a_Namespace a) !! ("ack_" +:+ k) = Some data →
             my_ack a ("ack_" +:+ k) data = Some (k, seq) → last_seq a' k = seq)
    | Panic => False end).
Proof.
  unfold initFromConfigMap. repeat served_step; [by repeat split; auto|].
  destruct Hserved as [-> Hperm]. split; [done|]. split; [done|]. right.
  intros k data seq Hd Ha. unfold last_seq. simpl. unfold cm_data in Hd. rewrite Hget in Hd.
  rewrite (seed_lookup a r ∅ k data seq); [done| | |done].
  - rewrite Hperm. apply NoDup_fst_map_to_list.
  - rewrite Hperm. by apply elem_of_map_to_list.
Qed.

(** The agent [a] has acknowledged signal number [seq] under suffix [k]; no newer
    signal for it is stored there. *)
Definition acknowledged (a : Agent) (st : store) (k : string) (seq : Z) : Prop :=
  ∃ sig killed errs, ks_Seq sig = seq
    ∧ plain_ack {| ka_Seq := ks_Seq sig; ka_Token := ks_Token sig; ka_Node := a_NodeName a;
        ka_FSNamespace := ks_FSNamespace sig; ka_FSName := ks_FSName sig; ka_Killed := killed;
        ka_Errors := errs |}
    ∧ cm_data st (a_Namespace a) !! ("ack_" +:+ k) = Some (ack_of a sig killed errs).
Definition none_newer (a : Agent) (st : store) (k : string) (seq : Z) : Prop :=
  ∀ data sig, cm_data st (a_Namespace a) !! ("kill_" +:+ k) = Some data →
    my_signal a ("kill_" +:+ k) data = Some sig → (ks_Seq sig <= seq)%Z.
(** An event that reads the ConfigMap: no kill, no write. *)
Definition only_reads (e : event) : Prop :=
  match e with Ev (Get _ k _) _ => k = KConfigMap | Ev (Range _) _ => True | _ => False end.

Lemma init_remembers a E h (st st' : store) a' k seq :
  keyed st → serves st (initFromConfigMap a E h).2 st' →
  (initFromConfigMap a E h).1 = Ret a' → a_lastSeq a = None → a_lastSeq a' ≠ None →
  a_NodeName a ≠ "" → acknowledged a st k seq → last_seq a' k = seq.
Proof.
  intros Hk Hs Hr Hnone Hne Hnode (sig & killed & errs & <- & Hplain & Hd).
  pose proof (initFromConfigMap_served st a Hk E h st' Hs) as H1. rewrite Hr in H1.
  destruct H1 as (_ & _ & [->|Hall]); [done|]. apply (Hall _ _ _ Hd).
  unfold my_ack, ack_of. rewrite HasPrefix_app, TrimPrefix_app, ack_roundtrip_aux by done. simpl.
  rewrite bool_decide_eq_true_2 by done. by rewrite bool_decide_eq_false_2 by (by intros []).
Qed.

(** Entries with nothing new cause no event. *)
Definition nothing_new (a : Agent) (key data : string) : Prop :=
  ∀ sig, my_signal a key data = Some sig → (ks_Seq sig <= last_seq a (TrimPrefix key "kill_"))%Z.
Lemma process_entries_quiet entries : ∀ a,
  (∀ key data, (key, data) ∈ entries → nothing_new a key data) →
  wp (process_entries fuel a entries) (λ _ t, t = []).
Proof.
  induction entries as [|[key data] entries IH]; intros a Hall; simpl; [by apply wp_ret|].
  assert (Hrest : ∀ a', same_agent a a' → (∀ k, last_seq a' k = last_seq a k) →
    wp (process_entries fuel a' entries) (λ _ t, t = [])).
  { intros a' Ha' Hl. apply IH. intros k d Hin sig. rewrite (same_signal a a') by done. rewrite Hl.
    apply Hall. by right. }
  apply wp_bind. unfold process_entry. destruct (my_signal a key data) as [sig|] eqn:Hsig.
  2:{ apply wp_ret. simpl. by apply Hrest. }
  cbv zeta. rewrite last_seq_default.
  assert (Hle : (ks_Seq sig <=? last_seq a (TrimPrefix key "kill_"))%Z = true).
  { apply Z.leb_le, (Hall key data); [by left|done]. }
  rewrite Hle. apply wp_ret. simpl. apply Hrest; [done|]. intros. apply last_seq_default.
Qed.

Lemma RunOnce_quiet a E h (st st' : store) :
  serves st (RunOnce fuel a E h).2 st' →
  (∀ key data, cm_data st (a_Namespace a) !! key = Some data → nothing_new a key data) →
  Forall only_reads (RunOnce fuel a E h).2.
Proof.
  intros Hs Hall. unfold RunOnce, api_get, perform in *. unfold mbind, IO_bind in *.
  destruct (E h (Get local KConfigMap (cm_key (a_Namespace a)))) as [err|cm]; simpl in *.
  { destruct (IsNotFound err); by repeat constructor. }
  set (h1 := h ++ [_]) in *. set (r := E h1 (Range (default ∅ (cm_Data cm)))) in *.
  pose proof (process_entries_quiet r a) as Hq. unfold wp in Hq.
  specialize (λ H, Hq H E (h1 ++ [Ev (Range (default ∅ (cm_Data cm))) r])).
  destruct (process_entries fuel a r E _) as [[a'|] t]; simpl in *;
    destruct Hs as (s1 & [-> Hget] & s2 & [-> Hperm] & _); specialize (Hget eq_refl);
    rewrite ?app_nil_r; (rewrite Hq; [by repeat constructor|]);
    intros key data Hin; rewrite Hperm in Hin; apply elem_of_map_to_list in Hin; apply Hall;
    unfold cm_data; rewrite Hget; exact Hin.
Qed.

(** C28: a fresh agent that could read the ConfigMap does not replay the signals
    it had acknowledged before: its next pass leaves their acknowledgments as
    they are and goes on remembering their sequence numbers, and when nothing
    newer is stored for this node it only reads, killing no connection and
    writing nothing. *)
Theorem restart_no_replay a E h E2 h2 (st st1 st2 : store) a1 a2 e :
  keyed st → serves st (initFromConfigMap a E h).2 st1 →
  (initFromConfigMap a E h).1 = Ret a1 → a_lastSeq a = None → a_lastSeq a1 ≠ None →
  a_NodeName a ≠ "" →
  serves st1 (RunOnce fuel a1 E2 h2).2 st2 → (RunOnce fuel a1 E2 h2).1 = Ret (a2, e) →
  (∀ k seq, acknowledged a st k seq → none_newer a st k seq →
     cm_data st2 (a_Namespace a) !! ("ack_" +:+ k) = cm_data st (a_Namespace a) !! ("ack_" +:+ k)
     ∧ last_seq a2 k = seq)
  ∧ ((∀ k data sig, cm_data st (a_Namespace a) !! ("kill_" +:+ k) = Some data →
        my_signal a ("kill_" +:+ k) data = Some sig →
        ∃ seq, acknowledged a st k seq ∧ (ks_Seq sig <= seq)%Z) →
     Forall only_reads (RunOnce fuel a1 E2 h2).2).
Proof.
  intros Hk Hs Hr Hnone Hne Hnode Hs2 Hr2.
  pose proof (λ k seq, init_remembers a E h st st1 a1 k seq Hk Hs Hr Hnone Hne Hnode) as Hrem.
  pose proof (initFromConfigMap_served st a Hk E h st1 Hs) as H1. rewrite Hr in H1.
  destruct H1 as (-> & [Hn Hns] & _). rewrite <- Hns.
  pose proof (RunOnce_served st a1 Hk E2 h2 st2 Hs2) as H2. rewrite Hr2 in H2. split.
  - intros k seq Ha Hnew. pose proof (Hrem k seq Ha) as Hseq.
    destruct H2 as (entries & He & _ & Hd & Hl).
    assert (Hnot : ¬ answered a1 entries a2 st2 k).
    { intros (data & sig & ? & ? & Hin%He & Hsig & Hlt & _). simpl in Hin.
      rewrite (same_signal a a1) in Hsig by done. rewrite Hns in Hin.
      pose proof (Hnew _ _ Hin Hsig). lia. }
    split; [|by destruct (Hl k) as [->|?]].
    by destruct (Hd ("ack_" +:+ k)) as [->|(k' & ->%ack_key_inj & ?)].
  - intros Hall. eapply RunOnce_quiet; [exact Hs2|]. intros key data Hin sig Hsig.
    rewrite (same_signal a a1) in Hsig by done. pose proof (my_signal_key _ _ _ _ Hsig) as Hkey.
    rewrite Hkey in Hin, Hsig. rewrite Hns in Hall, Hin. destruct (Hall _ _ _ Hin Hsig) as (seq & Ha & Hle).
    by rewrite (Hrem _ _ Ha).
Qed.
End agent.

(** ** Witnesses *)

Definition demo_agent (seqs : gmap string Z) : Agent :=
  {| a_NodeName := "node-a"; a_Namespace := "failover-system"; a_Clientset := true; a_lastSeq := Some seqs |}.
Definition demo_kill (seq : Z) : KillSignal := {|
  ks_IP := "10.0.0.7"; ks_Seq := seq; ks_Token := "42-77"; ks_Node := "node-a";
  ks_FSNamespace := "default"; ks_FSName := "mysql" |}.
Definition demo_pass : Agent * error :=
  value (demo_agent ∅, None) (RunOnce 3 (demo_agent ∅) (sim quiet demo_kill_store) []).1.

Lemma RunOnce_answers_witness :
  ∃ st' entries, answered (demo_agent ∅) entries demo_pass.1 st' demo_suffix.
Proof.
  edestruct (λ st', RunOnce_answers 3 (demo_agent ∅) (sim quiet demo_kill_store) []
    demo_kill_store st' demo_pass.1 demo_pass.2) as (entries & He & Hd & Hl).
  - apply demo_cm_keyed.
  - apply (sim_serves quiet demo_kill_store _ []). check_legit.
  - etransitivity; [apply (returned_value (demo_agent ∅, None)); vm_compute; reflexivity|].
    unfold demo_pass. by destruct (value _ _).
  - eexists. exists entries. destruct (Hl demo_suffix) as [Hl'|Ha]; [|exact Ha].
    exfalso. vm_compute in Hl'. discriminate.
Defined.

(** The agent has processed the first signal of the service; the next one starts
    again at 1. *)
Lemma restarted_sequence_ignored_witness :
  ∃ st', cm_data st' "failover-system" !! ackKey "node-a" "default" "mysql" = None.
Proof.
  set (a := demo_agent {[ demo_suffix := 1%Z ]}).
  eexists. etransitivity; [eapply (restarted_sequence_ignored 3 2 2 Second a ∅ "10.0.0.7" "42-77" "default"
    "mysql" (sim quiet demo_kill_store) [] demo_kill_store)|].
  - reflexivity.
  - discriminate.
  - repeat split; members_ok; done.
  - reflexivity.
  - vm_compute. discriminate.
  - apply demo_cm_keyed.
  - apply (sim_serves quiet demo_kill_store _ []). check_legit.
  - apply (returned_value (a, Running)). vm_compute. reflexivity.
  - reflexivity.
Defined.

(** A restart after the third signal has been acknowledged. *)
Definition demo_restarted : Agent :=
  {| a_NodeName := "node-a"; a_Namespace := "failover-system"; a_Clientset := true; a_lastSeq := None |}.
Definition demo_acked_store : store := demo_cm
  (<["ack_" +:+ demo_suffix := ack_of demo_restarted (demo_kill 3) 5 0]>
     {[ "kill_" +:+ demo_suffix := json_Marshal_signal (demo_kill 3) ]}).
Definition demo_seeded : Agent :=
  value demo_restarted (initFromConfigMap demo_restarted (sim quiet demo_acked_store) []).1.
Definition demo_again : Agent * error :=
  value (demo_restarted, None) (RunOnce 3 demo_seeded (sim quiet demo_acked_store) []).1.
Lemma demo_acknowledged : acknowledged demo_restarted demo_acked_store demo_suffix 3.
Proof.
  exists (demo_kill 3), 5%Z, 0%Z. split; [reflexivity|]. split; [repeat split; members_ok; done|].
  vm_compute. reflexivity.
Defined.
Lemma demo_none_newer : none_newer demo_restarted demo_acked_store demo_suffix 3.
Proof. intros data sig Hd Hs. vm_compute in Hd. injection Hd as <-. vm_compute in Hs. injection Hs as <-. discriminate. Defined.

Lemma restart_no_replay_witness : last_seq demo_again.1 demo_suffix = 3%Z.
Proof.
  refine (proj2 (proj1 (restart_no_replay 3 demo_restarted (sim quiet demo_acked_store) []
    (sim quiet demo_acked_store) [] demo_acked_store _ _ demo_seeded demo_again.1 demo_again.2
    _ _ _ _ _ _ _ _) demo_suffix 3%Z demo_acknowledged demo_none_newer)).
  - apply demo_cm_keyed.
  - apply (sim_serves quiet demo_acked_store _ []). check_legit.
  - apply (returned_value demo_restarted). vm_compute. reflexivity.
  - reflexivity.
  - intros Hn. apply (f_equal (λ m, bool_decide (m = None))) in Hn. vm_compute in Hn. discriminate.
  - discriminate.
  - apply (sim_serves quiet demo_acked_store _ []). check_legit.
  - etransitivity; [apply (returned_value (demo_restarted, None)); vm_compute; reflexivity|].
    unfold demo_again. by destruct (value _ _).
Defined.
