(* ===== verification/Handshake.v ===== *)
(** * The handshake of the connection kill

    Controller and agent composed through the stored ConfigMap: a signal of the
    controller that an agent has processed is what the controller's next poll
    finds acknowledged. *)
From Stdlib Require Import NArith Ascii String.
From stdpp Require Import base gmap strings list numbers option sorting.
From S2P Require Import Prelude GoStd GoNetIP GoJSON GoJSONProofs Types Kube Logic ApiServer Fixtures Actions Signaler Netlink Agent KillPayloads KillProtocol AgentProofs.

Section handshake.
Context `{KubeLibLaws} (fuel : nat).

(** What the agent takes from a stored signal. *)
Lemma my_signal_payload a k sig sig' :
  plain_signal sig → my_signal a ("kill_" +:+ k) (json_Marshal_signal sig) = Some sig' → sig' = sig.
Proof.
  intros Hp. unfold my_signal. rewrite HasPrefix_app, signal_roundtrip_aux by done.
  repeat case_match; by intros [= <-].
Qed.

(** What the controller makes of the acknowledgment. *)
Lemma classify_ack (data : gmap string string) a sig killed errs ns name :
  plain_signal sig → ascii_bytes (a_NodeName a) → in_i64 killed → in_i64 errs →
  data !! ackKey (a_NodeName a) ns name = Some (ack_of a sig killed errs) →
  classify (Some data) (ks_Token sig) ns name (a_NodeName a)
  = if (0 <? errs)%Z then Errored else Acked.
Proof.
  intros (_ & Ht & _ & Hns & Hname & Hseq) Hn Hk He Hd. unfold classify. simpl. rewrite Hd.
  unfold ack_of. rewrite ack_roundtrip_aux by done. simpl. by rewrite decide_False by auto.
Qed.

(** C20: the handshake closes: once the controller has signalled the kill [tok] to
    [nodes] and the agent of one of them has processed the signal, the stored
    acknowledgment is the agent's answer to this very kill, and the controller's
    poll files the node as acknowledged, or as failed if the agent counted
    errors; it is no longer waited for. *)
Theorem handshake a cns ip tok ns name nodes E1 h1 E2 h2 (st st1 st2 : store) a' e :
  Forall ascii_bytes (ip :: tok :: ns :: name :: nodes) →
  keyed st → serves st (SignalKill cns ip tok ns name E1 h1).2 st1 →
  (SignalKill cns ip tok ns name E1 h1).1 = Ret (inr nodes) →
  a_Namespace a = cns → a_NodeName a ∈ nodes →
  serves st1 (RunOnce fuel a E2 h2).2 st2 → (RunOnce fuel a E2 h2).1 = Ret (a', e) →
  last_seq a' (key_suffix (a_NodeName a) ns name) ≠ last_seq a (key_suffix (a_NodeName a) ns name) →
  ∃ sig killed errs, ks_Token sig = tok ∧ ks_IP sig = ip
    ∧ cm_data st2 cns !! ackKey (a_NodeName a) ns name = Some (ack_of a sig killed errs)
    ∧ (in_i64 killed → in_i64 errs →
         classify (Some (cm_data st2 cns)) tok ns name (a_NodeName a)
         = if (0 <? errs)%Z then Errored else Acked).
Proof.
  intros Hascii Hk Hs1 Hr1 Hcns Hnode Hs2 Hr2 Hseq. set (k := key_suffix (a_NodeName a) ns name) in *.
  pose proof (SignalKill_served st cns ip tok ns name Hk E1 h1 st1 Hs1) as H1. rewrite Hr1 in H1.
  destruct H1 as [[-> _]|[_ Hsig]]; [by apply not_elem_of_nil in Hnode|].
  pose proof (RunOnce_served fuel st1 a (serves_keyed _ _ _ Hk Hs1) E2 h2 st2 Hs2) as H2.
  rewrite Hr2 in H2. destruct H2 as (entries & Hin & _ & _ & Hl).
  destruct (Hl k) as [?|(data & sig & killed & errs & Hdata & Hmine & _ & Hack & _)]; [done|].
  rewrite Hcns in *. apply Hin in Hdata. simpl in Hdata.
  assert (Hkey : killKey (a_NodeName a) ns name = "kill_" +:+ k) by (unfold killKey; by rewrite safeKey_suffix).
  assert (Hakey : ackKey (a_NodeName a) ns name = "ack_" +:+ k) by (unfold ackKey; by rewrite safeKey_suffix).
  destruct (Hsig ("kill_" +:+ k)) as [Hk1 _].
  destruct Hk1 as (data' & Hd' & node & seq & Hn & _ & Hrange & ->).
  { rewrite <- Hkey. by apply (list_elem_of_fmap_2 (λ n, killKey n ns name)). }
  rewrite Hdata in Hd'. injection Hd' as ->.
  apply Forall_cons_1 in Hascii as [Hip [Htok [Hns [Hname Hnodes]%Forall_cons_1]%Forall_cons_1]%Forall_cons_1].
  rewrite Forall_forall in Hnodes.
  assert (Hplain : plain_signal {| ks_IP := ip; ks_Seq := seq; ks_Token := tok; ks_Node := node;
    ks_FSNamespace := ns; ks_FSName := name |}) by (refine (conj _ (conj _ (conj _ (conj _ (conj _ Hrange))))); auto).
  apply my_signal_payload in Hmine; [|done]. subst sig.
  do 3 eexists. split; [|split; [|split; [rewrite Hakey; exact Hack|]]]; [done..|].
  intros Hki Her. apply (classify_ack (cm_data st2 cns) a _ killed errs ns name Hplain); auto.
  by rewrite Hakey.
Qed.
End handshake.

(** ** Witness *)

(** The controller signals one node, whose agent then runs once. *)
Definition demo_signalled : store :=
  replay (demo_cm ∅) (SignalKill "failover-system" "10.0.0.7" "42-77" "default" "mysql"
    (sim demo_cluster (demo_cm ∅)) []).2.
Definition demo_answer : Agent * error :=
  value (demo_agent ∅, None) (RunOnce 3 (demo_agent ∅) (sim quiet demo_signalled) []).1.

Definition demo_answered : store :=
  replay demo_signalled (RunOnce 3 (demo_agent ∅) (sim quiet demo_signalled) []).2.

(** The agent's node has no connection left to kill: it answers the kill without
    errors, and the controller's poll files its node as acknowledged. *)
Lemma handshake_witness :
  (∃ sig killed errs, ks_Token sig = "42-77" ∧ ks_IP sig = "10.0.0.7"
     ∧ cm_data demo_answered "failover-system" !! ackKey "node-a" "default" "mysql"
       = Some (ack_of (demo_agent ∅) sig killed errs))
  ∧ classify (Some (cm_data demo_answered "failover-system")) "42-77" "default" "mysql" "node-a"
    = Acked.
Proof.
  split; [|vm_compute; reflexivity].
  destruct (handshake (H := demo_lib) 3 (demo_agent ∅) "failover-system" "10.0.0.7" "42-77" "default" "mysql"
    ["node-a"] (sim demo_cluster (demo_cm ∅)) [] (sim quiet demo_signalled) [] (demo_cm ∅) demo_signalled
    demo_answered demo_answer.1 demo_answer.2) as (sig & killed & errs & Ht & Hip & Hack & _).
  - repeat constructor.
  - apply demo_cm_keyed.
  - apply (sim_serves demo_cluster (demo_cm ∅) _ []). check_legit.
  - vm_compute. reflexivity.
  - reflexivity.
  - left.
  - apply (sim_serves quiet demo_signalled _ []). check_legit.
  - etransitivity; [apply (returned_value (demo_agent ∅, None)); vm_compute; reflexivity|].
    unfold demo_answer. destruct (value _ _). reflexivity.
  - vm_compute. discriminate.
  - exists sig, killed, errs. split; [exact Ht|]. split; [exact Hip|exact Hack].
Defined.
