(* ===== verification/Controller.v ===== *)
(** * The controller ([src/internal/controller/failoverservice_controller.go])

    The reconciler of FailoverServices.  A reconcile works on a copy [fs] of the
    object that every handler threads through; the answer of a successful
    [Update] or [Status().Update] is decoded over the copy ([decode_over]), and
    through its pointers over the local variables they point to.  (The answer
    of an event's update is also decoded through slices shared with the copy;
    the values are those already there, up to fractions of a second.)  A
    handler answers the reconcile's result and error. *)
From stdpp Require Import base gmap strings list numbers.
From S2P Require Import Prelude GoStd GoNetIP Types Kube Logic ApiServer Decode ServiceManager Actions WaitRemote RemoteCluster Watcher Signaler.

Definition finalizerName := "k8s-failover.zyno.io/finalizer".
Definition forceAdvanceAnnotation := "k8s-failover.zyno.io/force-advance".
Definition antiEntropyInterval : Z := 60 * Second.
Definition defaultBackoffMin : Z := 5 * Second.
Definition defaultRequeueInterval : Z := 5 * Second.
Definition jobRequeueInterval : Z := 30 * Second.
Definition defaultMaxRetries : Z := 5.
Definition connKillPollInterval : Z := 1 * Second.
Definition connKillTimeout : Z := 60 * Second.
Definition directionFailover := "failover".
Definition directionFailback := "failback".
Definition rolePrimary := "primary".
Definition roleFailover := "failover".
Definition triggerManual := "manual".
Definition triggerRemoteSync := "remote-sync".

(** The [RemoteSyncer] interface. *)
Definition RemoteSyncer : Type := FailoverService → IO (goerr + SyncResult).

(** The reconciler's collaborators; a signaler is its namespace. *)
Record FailoverServiceReconciler := {
  fr_ClusterRole : string; fr_ClusterID : string; fr_ServiceManager : Manager;
  fr_Syncer : option RemoteSyncer; fr_ConnSignaler : option string;
  fr_ActionExecutor : option MultiExecutor; fr_RemoteWatcher : option RemoteWatcher }.

(** [ctrl.Result] and the error. *)
Record CtrlResult := { res_Requeue : bool; res_RequeueAfter : Z }.
Definition Answer : Type := CtrlResult * error.
Definition halt : CtrlResult := {| res_Requeue := false; res_RequeueAfter := 0 |}.
Definition requeue : CtrlResult := {| res_Requeue := true; res_RequeueAfter := 0 |}.
Definition requeue_after (d : Z) : CtrlResult := {| res_Requeue := false; res_RequeueAfter := d |}.
Definition failed (err : goerr) : IO Answer := mret (halt, Some err).

Definition decoded (fs : FailoverService) (answer : goerr + FailoverService)
    : goerr + FailoverService :=
  match answer with inl err => inl err | inr resp => inr (decode_over fs resp) end.
Definition update_fs (fs : FailoverService) : IO (goerr + FailoverService) :=
  s ← api_update local KFailoverService fs; mret (decoded fs s).
Definition update_fs_status (fs : FailoverService) : IO (goerr + FailoverService) :=
  s ← api_update_status KFailoverService fs; mret (decoded fs s).

(** Persist the status and answer [res], or the error. *)
Definition persist (fs : FailoverService) (res : CtrlResult) : IO Answer :=
  s ← update_fs_status fs;
  match s with
  | inl err => failed err
  | inr _ => mret (res, None)
  end.

(** ** Pure helpers *)

Definition cluster_target (r : FailoverServiceReconciler) (fs : FailoverService) : ClusterTarget :=
  if decide (fr_ClusterRole r = rolePrimary) then sp_PrimaryCluster (fs_spec fs)
  else sp_FailoverCluster (fs_spec fs).

Definition getTransitionHooks (r : FailoverServiceReconciler) (fs : FailoverService)
    (direction : string) : option TransitionActions :=
  if decide (direction = directionFailover) then ct_OnFailover (cluster_target r fs)
  else ct_OnFailback (cluster_target r fs).

Definition getTransitionAddresses (r : FailoverServiceReconciler) (fs : FailoverService)
    (direction : string) : string * string :=
  let target := cluster_target r fs in
  if decide (direction = directionFailover)
  then (ct_PrimaryModeAddress target, ct_FailoverModeAddress target)
  else (ct_FailoverModeAddress target, ct_PrimaryModeAddress target).

Definition getOldTargetAddress (r : FailoverServiceReconciler) (fs : FailoverService) : string :=
  let target := cluster_target r fs in
  match fs_transition fs with
  | Some t =>
      if decide (ts_OldAddressSnapshot t ≠ "") then ts_OldAddressSnapshot t
      else if decide (ts_TargetDirection t = directionFailover) then ct_PrimaryModeAddress target
      else ct_FailoverModeAddress target
  | None => ct_FailoverModeAddress target
  end.

Definition actionType (a : FailoverAction) : string :=
  if fa_HTTP a is Some _ then "http"
  else if fa_Job a is Some _ then "job"
  else if fa_Scale a is Some _ then "scale"
  else if fa_WaitReady a is Some _ then "waitReady"
  else if fa_WaitRemote a is Some _ then "waitRemote"
  else "unknown".

Definition makeActionResults (actions : list FailoverAction) : list ActionResult :=
  (λ a, {| ar_Name := fa_Name a; ar_Status := ActionStatusPending; ar_Message := "";
           ar_StartedAt := None; ar_CompletedAt := None; ar_JobName := ""; ar_RetryCount := 0 |})
    <$> actions.

Definition actionRequeueInterval (a : FailoverAction) : Z :=
  match fa_RetryIntervalSeconds a with
  | Some s => seconds s
  | None => if fa_Job a is Some _ then jobRequeueInterval else defaultRequeueInterval
  end.

Definition actionMaxRetries (a : FailoverAction) : Z :=
  match fa_MaxRetries a with Some n => n | None => defaultMaxRetries end.

Definition failoverEventName (fs : FailoverService) (direction : string) (startedAt : time)
    : string :=
  let raw := om_Name (fs_meta fs) +:+ "-" +:+ direction +:+ "-" +:+ itoa startedAt in
  if len raw <=? 63 then raw
  else
    let suffix := short_hash 4 raw in
    let maxPrefix := 63 - 1 - len suffix in
    str_take maxPrefix raw +:+ "-" +:+ suffix.

(** [meta.SetStatusCondition] with a condition of the object's generation. *)
Section conditions.
Context `{KubeLib}.

Definition set_condition_at (now : time) (ty status reason msg : string) (fs : FailoverService)
    : FailoverService :=
  set_Conditions (SetStatusCondition (st_Conditions (fs_status fs)) {|
    c_Type := ty; c_Status := status; c_ObservedGeneration := om_Generation (fs_meta fs);
    c_LastTransitionTime := now; c_Reason := reason; c_Message := msg |}) fs.

Definition remove_condition (ty : string) (fs : FailoverService) : FailoverService :=
  set_Conditions (RemoveStatusCondition (st_Conditions (fs_status fs)) ty) fs.

(** The same with [LastTransitionTime: metav1.Now()]. *)
Definition set_condition (ty status reason msg : string) (fs : FailoverService)
    : IO FailoverService :=
  n ← now;
  mret (set_condition_at n ty status reason msg fs).
End conditions.

Fixpoint update_cluster (clusters : list ClusterStatus) (entry : ClusterStatus)
    : list ClusterStatus :=
  match clusters with
  | [] => [entry]
  | c :: clusters =>
      if decide (cs_ClusterID c = cs_ClusterID entry) then entry :: clusters
      else c :: update_cluster clusters entry
  end.

Definition updateClusterStatus (r : FailoverServiceReconciler) (phase : FailoverPhase)
    (fs : FailoverService) : IO FailoverService :=
  n ← now;
  mret (set_Clusters (update_cluster (st_Clusters (fs_status fs)) {|
          cs_ClusterID := fr_ClusterID r;
          cs_AppliedGeneration := st_ActiveGeneration (fs_status fs);
          cs_LastAppliedTime := Some n; cs_Phase := phase |}) fs).

Definition applyRemoteWinnerState (remoteState : option RemoteState)
    (previousFailoverActive : bool) (fs : FailoverService) : FailoverService :=
  let fs := set_LastKnown (Some previousFailoverActive) fs in
  let fs := set_ObservedGeneration (om_Generation (fs_meta fs)) fs in
  let fs := set_RemoteState remoteState fs in
  match remoteState with
  | None => fs
  | Some rs =>
      let fs := set_SpecChangeTime (rs_SpecChangeTime rs) fs in
      let fs := set_ActiveGeneration (rs_ActiveGeneration rs) fs in
      if decide (rs_ActiveCluster rs ≠ "") then set_ActiveCluster (rs_ActiveCluster rs) fs else fs
  end.

(** ** FailoverEvents *)

Section events.
Context `{KubeLib}.

Definition createFailoverEvent (fs : FailoverService) (direction trigger : string)
    (startedAt : time) : IO unit :=
  t ← deref (fs_transition fs);
  s ← api_create KFailoverEvent {|
    fe_meta := {| (new_meta (ts_EventName t) (om_Namespace (fs_meta fs))) with
                  om_OwnerReferences := [NewControllerRef (fs_meta fs)] |};
    fe_spec := {| es_FailoverServiceRef := om_Name (fs_meta fs); es_Direction := direction;
                  es_TriggeredBy := trigger |};
    fe_status := empty_event_status |};
  match s with
  | inl _ => mret tt
  | inr event =>
      _ ← api_update_status KFailoverEvent {| event with
            fe_status := {| empty_event_status with
              ev_StartedAt := Some startedAt; ev_Outcome := EventOutcomeInProgress;
              ev_ActiveGenerationBefore := st_ActiveGeneration (fs_status fs) |} |};
      mret tt
  end.
End events.

(** Whether an event with outcome [current] takes a new outcome. *)
Definition outcome_allowed (current outcome : EventOutcome) : bool :=
  if bool_decide (current ≠ OutcomeUnset) && bool_decide (current ≠ EventOutcomeInProgress) then
    (bool_decide (current = EventOutcomeFailed) && bool_decide (outcome = EventOutcomeForceAdvanced))
    || (bool_decide (current = EventOutcomeForceAdvanced) && bool_decide (outcome = EventOutcomeFailed))
    || (bool_decide (current = EventOutcomeForceAdvanced)
        && bool_decide (outcome = EventOutcomeSucceeded))
  else true.

(** The event status [updateFailoverEvent] writes, before [CompletedAt]. *)
Definition event_status_after (fs : FailoverService) (t : TransitionStatus)
    (outcome : EventOutcome) (s : FailoverEventStatus) : FailoverEventStatus :=
  {| s with
     ev_PreActionResults := ts_PreActionResults t;
     ev_PostActionResults := ts_PostActionResults t;
     ev_ConnectionKillResult := ts_ConnectionKill t;
     ev_Outcome := if decide (outcome = EventOutcomeSucceeded
                              ∧ ev_Outcome s = EventOutcomeForceAdvanced)
                   then ev_Outcome s else outcome;
     ev_ActiveGenerationAfter := st_ActiveGeneration (fs_status fs) |}.

Definition updateFailoverEvent (fs : FailoverService) (outcome : EventOutcome) : IO unit :=
  match fs_transition fs with
  | None => mret tt
  | Some t =>
      if decide (ts_EventName t = "") then mret tt
      else
        s ← api_get local KFailoverEvent
              {| nn_Name := ts_EventName t; nn_Namespace := om_Namespace (fs_meta fs) |};
        match s with
        | inl _ => mret tt
        | inr event =>
            if negb (outcome_allowed (ev_Outcome (fe_status event)) outcome) then mret tt
            else
              let status := event_status_after fs t outcome (fe_status event) in
              status ← (if decide (outcome ≠ EventOutcomeForceAdvanced) then
                          n ← now; mret {| status with ev_CompletedAt := Some n |}
                        else mret status);
              _ ← api_update_status KFailoverEvent {| event with fe_status := status |};
              mret tt
        end
  end.

Section reconciler.
Context `{KubeLib} (r : FailoverServiceReconciler).

(** ** Beginning a transition *)

Definition initial_transition (fs : FailoverService) (direction : string) (now : time)
    : TransitionStatus :=
  let '(oldAddress, newAddress) := getTransitionAddresses r fs direction in
  let hooks := getTransitionHooks r fs direction in
  {| ts_Phase := match hooks with
                 | Some h => match ta_PreActions h with
                             | [] => PhaseUpdatingResources
                             | _ => PhaseExecutingPreActions
                             end
                 | None => PhaseUpdatingResources
                 end;
     ts_TargetDirection := direction;
     ts_OldAddressSnapshot := oldAddress; ts_NewAddressSnapshot := newAddress;
     ts_TransitionID := itoa now; ts_CurrentActionIndex := 0;
     ts_PreActionResults := match hooks with
                            | Some h => makeActionResults (ta_PreActions h) | None => [] end;
     ts_PostActionResults := match hooks with
                             | Some h => makeActionResults (ta_PostActions h) | None => [] end;
     ts_StartedAt := Some now; ts_ConnectionKill := None;
     ts_EventName := failoverEventName fs direction now |}.

Definition beginTransition (fs : FailoverService) (trigger : string) : IO Answer :=
  let direction := if sp_FailoverActive (fs_spec fs) then directionFailover
                   else directionFailback in
  let metricDirection := if decide (direction = directionFailback) then "to-primary"
                         else "to-failover" in
  _ ← emit (FailoverTransitionsTotal (om_Name (fs_meta fs)) (om_Namespace (fs_meta fs))
              metricDirection);
  n ← now;
  let transition := initial_transition fs direction n in
  let fs := set_Transition (Some transition) fs in
  let fs := set_condition_at n ConditionTransitionInProgress ConditionTrue "TransitionStarted"
              ("Transition to " +:+ direction +:+ " started") fs in
  fs ← updateClusterStatus r (ts_Phase transition) fs;
  s ← update_fs_status fs;
  match s with
  | inl err => failed err
  | inr fs =>
      _ ← createFailoverEvent fs direction trigger n;
      mret (requeue, None)
  end.

(** ** Completing a transition *)

Fixpoint cleanup_jobs (exec : MultiExecutor) (namespace : string) (results : list ActionResult)
    : IO unit :=
  match results with
  | [] => mret tt
  | result :: results =>
      _ ← (if decide (ar_JobName result ≠ "")
           then MultiExecutor_Cleanup exec (ar_JobName result) namespace else mret None);
      cleanup_jobs exec namespace results
  end.

Definition cleanupTransitionJobs (fs : FailoverService) (t : TransitionStatus) : IO unit :=
  match fr_ActionExecutor r with
  | None => mret tt
  | Some exec =>
      cleanup_jobs exec (om_Namespace (fs_meta fs))
        (ts_PreActionResults t ++ ts_PostActionResults t)
  end.

Definition service_error (fs : FailoverService) (phase : string) : IO unit :=
  emit (ReconcileErrorsTotal (om_Name (fs_meta fs)) (om_Namespace (fs_meta fs)) phase).

(** The metric and the clean-up before the status changes. *)
Definition complete_cleanup (fs : FailoverService) : IO unit :=
  match fs_transition fs with
  | None => mret tt
  | Some t =>
      _ ← match ts_StartedAt t with
          | Some startedAt =>
              n ← now;
              emit (TransitionDuration (om_Name (fs_meta fs)) (om_Namespace (fs_meta fs))
                      (ts_TargetDirection t) (n - startedAt)%Z)
          | None => mret tt
          end;
      _ ← cleanupTransitionJobs fs t;
      match fr_ConnSignaler r with
      | Some ns =>
          _ ← CleanupSignals ns (om_Namespace (fs_meta fs)) (om_Name (fs_meta fs));
          mret tt
      | None => mret tt
      end
  end.

(** The new status of a completed transition, before the remote sync. *)
Definition completed_status (transitionedToFailover : bool) (now : time) (fs : FailoverService)
    : FailoverService :=
  let fs := set_LastKnown (Some transitionedToFailover) fs in
  let fs := set_LastTransitionTime (Some now) fs in
  let fs := set_ObservedGeneration (om_Generation (fs_meta fs)) fs in
  let fs := set_Transition None fs in
  let fs := set_ActiveGeneration (i64 (st_ActiveGeneration (fs_status fs) + 1)) fs in
  set_ActiveCluster (fr_ClusterID r) fs.

(** The variables that [fs.Status.LastKnownFailoverActive] and
    [fs.Status.RemoteState] point to, which decoding a response writes. *)
Definition LastKnown_target (transitionedToFailover : bool) (fs : FailoverService) : bool :=
  default transitionedToFailover (st_LastKnownFailoverActive (fs_status fs)).
Definition RemoteState_target (remote : RemoteState) (fs : FailoverService) : RemoteState :=
  default remote (st_RemoteState (fs_status fs)).

(** Adoption of a winning remote state at the end of a transition.  The status
    in memory points to the local variables [transitionedToFailover] and
    [syncResult.RemoteState], so the update of the object writes what is
    stored over them. *)
Definition adopt_remote_completed (fs : FailoverService) (remote : RemoteState)
    (savedTransition : TransitionStatus) (transitionedToFailover : bool) : IO Answer :=
  let fs := set_FailoverActive (rs_FailoverActive remote) fs in
  s ← update_fs fs;
  match s with
  | inl err => failed err
  | inr fs =>
      let transitionedToFailover := LastKnown_target transitionedToFailover fs in
      let remote := RemoteState_target remote fs in
      let fs := applyRemoteWinnerState (Some remote) transitionedToFailover fs in
      let fs := set_Transition None fs in
      let fs := remove_condition ConditionTransitionInProgress fs in
      let fs := remove_condition ConditionActionFailed fs in
      fs ← updateClusterStatus r PhaseIdle fs;
      s ← update_fs_status fs;
      match s with
      | inl err => failed err
      | inr fs =>
          _ ← updateFailoverEvent (set_Transition (Some savedTransition) fs) EventOutcomeSucceeded;
          let fs := set_Transition None fs in
          if eqb transitionedToFailover (sp_FailoverActive (fs_spec fs)) then mret (requeue, None)
          else beginTransition fs triggerRemoteSync
      end
  end.

Definition sync_failed (err : goerr) (fs : FailoverService) : IO FailoverService :=
  _ ← service_error fs "remote-sync";
  set_condition ConditionRemoteSynced ConditionFalse "SyncFailed" (err_msg err) fs.
Definition sync_done (fs : FailoverService) : IO FailoverService :=
  set_condition ConditionRemoteSynced ConditionTrue "Synced" "Remote cluster state is in sync" fs.

(** The last writes of [completeTransition]. *)
Definition finish_transition (fs : FailoverService) (savedTransition : TransitionStatus)
    : IO Answer :=
  s ← update_fs_status fs;
  match s with
  | inl err => failed err
  | inr fs =>
      _ ← updateFailoverEvent (set_Transition (Some savedTransition) fs) EventOutcomeSucceeded;
      mret (requeue_after antiEntropyInterval, None)
  end.

Definition completeTransition (fs : FailoverService) : IO Answer :=
  _ ← complete_cleanup fs;
  savedTransition ← deref (fs_transition fs);
  let transitionedToFailover :=
    bool_decide (ts_TargetDirection savedTransition = directionFailover) in
  _ ← emit (FailoverActive (om_Name (fs_meta fs)) (om_Namespace (fs_meta fs))
              (if transitionedToFailover then 1 else 0)%Z);
  n ← now;
  let fs := completed_status transitionedToFailover n fs in
  fs ← updateClusterStatus r PhaseIdle fs;
  let fs := remove_condition ConditionTransitionInProgress fs in
  let fs := remove_condition ConditionActionFailed fs in
  match fr_Syncer r with
  | None => finish_transition fs savedTransition
  | Some Sync =>
      s ← Sync fs;
      match s with
      | inl err =>
          fs ← sync_failed err fs;
          finish_transition fs savedTransition
      | inr syncResult =>
          let fs := set_RemoteState (sr_RemoteState syncResult) fs in
          if sr_RemoteWins syncResult then
            remote ← deref (sr_RemoteState syncResult);
            adopt_remote_completed fs remote savedTransition transitionedToFailover
          else
            fs ← sync_done fs;
            finish_transition fs savedTransition
      end
  end.

(** ** The steady state *)

Definition steady_status (fs : FailoverService) : FailoverService :=
  let fs := set_ObservedGeneration (om_Generation (fs_meta fs)) fs in
  set_LastKnown (Some (sp_FailoverActive (fs_spec fs))) fs.

Definition finish_steady (fs : FailoverService) : IO Answer :=
  let fs := steady_status fs in
  fs ← updateClusterStatus r PhaseIdle fs;
  _ ← emit (FailoverActive (om_Name (fs_meta fs)) (om_Namespace (fs_meta fs))
              (if sp_FailoverActive (fs_spec fs) then 1 else 0)%Z);
  persist fs (requeue_after antiEntropyInterval).

Definition adopt_remote_steady (fs : FailoverService) (remote : RemoteState)
    (currentFailoverActive : bool) : IO Answer :=
  let fs := set_FailoverActive (rs_FailoverActive remote) fs in
  s ← update_fs fs;
  match s with
  | inl err => failed err
  | inr fs =>
      let remote := RemoteState_target remote fs in
      let fs := applyRemoteWinnerState (Some remote) currentFailoverActive fs in
      fs ← updateClusterStatus r PhaseIdle fs;
      s ← update_fs_status fs;
      match s with
      | inl err => failed err
      | inr fs =>
          if eqb currentFailoverActive (sp_FailoverActive (fs_spec fs)) then mret (requeue, None)
          else beginTransition fs triggerRemoteSync
      end
  end.

Definition reconcileSteadyState (fs : FailoverService) : IO Answer :=
  let currentFailoverActive := sp_FailoverActive (fs_spec fs) in
  match fr_Syncer r with
  | None => finish_steady fs
  | Some Sync =>
      s ← Sync fs;
      match s with
      | inl err => fs ← sync_failed err fs; finish_steady fs
      | inr syncResult =>
          let fs := set_RemoteState (sr_RemoteState syncResult) fs in
          if sr_RemoteWins syncResult then
            remote ← deref (sr_RemoteState syncResult);
            adopt_remote_steady fs remote currentFailoverActive
          else
            fs ← sync_done fs;
            finish_steady fs
      end
  end.

(** ** Idle *)

Definition service_ready (fs : FailoverService) : IO FailoverService :=
  set_condition ConditionServiceReady ConditionTrue "Reconciled"
    "Service is correctly configured" fs.

(** A transition is pending: the spec's direction differs from the last one
    applied. *)
Definition transition_pending (fs : FailoverService) : bool :=
  match st_LastKnownFailoverActive (fs_status fs) with
  | Some known => negb (eqb known (sp_FailoverActive (fs_spec fs)))
  | None => false
  end.

Definition reconcileIdle (fs : FailoverService) : IO Answer :=
  if transition_pending fs then
    n ← now;
    beginTransition (set_SpecChangeTime (Some n) fs) triggerManual
  else
    e ← ServiceManager.Reconcile (fr_ServiceManager r) fs;
    match e with
    | Some err =>
        _ ← service_error fs "service";
        fs ← set_condition ConditionServiceReady ConditionFalse "ReconcileFailed" (err_msg err) fs;
        _ ← update_fs_status fs;
        mret (requeue_after defaultBackoffMin, None)
    | None =>
        fs ← service_ready fs;
        reconcileSteadyState fs
    end.

(** ** Executing actions *)

Definition phase_actions (isPrePhase : bool) (h : TransitionActions) : list FailoverAction :=
  if isPrePhase then ta_PreActions h else ta_PostActions h.
Definition phase_results (isPrePhase : bool) (t : TransitionStatus) : list ActionResult :=
  if isPrePhase then ts_PreActionResults t else ts_PostActionResults t.
Definition set_phase_results (isPrePhase : bool) (rs : list ActionResult) (t : TransitionStatus)
    : TransitionStatus :=
  if isPrePhase then {| t with ts_PreActionResults := rs |}
  else {| t with ts_PostActionResults := rs |}.

(** Assignment through the pointer to the current result: [idx] is in range. *)
Definition put_result (isPrePhase : bool) (idx : nat) (result : ActionResult)
    (fs : FailoverService) : FailoverService :=
  upd_Transition (λ t, set_phase_results isPrePhase
    (<[idx := result]> (phase_results isPrePhase t)) t) fs.
Definition advance_index (fs : FailoverService) : FailoverService :=
  upd_Transition (λ t, set_ActionIndex (ts_CurrentActionIndex t + 1)%Z t) fs.

Definition count_action (fs : FailoverService) (a : FailoverAction) (outcome : string) : IO unit :=
  emit (ActionExecutionsTotal (om_Name (fs_meta fs)) (om_Namespace (fs_meta fs)) (fa_Name a)
          (actionType a) outcome).

(** The controller's deadline of an action of a waiting kind, and the message
    of its expiry. *)
Definition waitready_timeout (a : FailoverAction) : option (Z * (Z → string)) :=
  match fa_WaitReady a with
  | Some w => Some (match wr_TimeoutSeconds w with Some s => s | None => 300%Z end,
                    λ s, "Timed out after " +:+ itoa s +:+ "s")
  | None => None
  end.
Definition scale_timeout (a : FailoverAction) : option (Z * (Z → string)) :=
  match fa_Scale a with
  | Some c =>
      if sa_WaitReady c then
        Some (match sa_TimeoutSeconds c with Some s => s | None => 300%Z end,
              λ s, "Timed out waiting for readiness after " +:+ itoa s +:+ "s")
      else None
  | None => None
  end.
Definition waitremote_timeout (a : FailoverAction) : option (Z * (Z → string)) :=
  match fa_WaitRemote a with
  | Some w => Some (match wm_ActionTimeoutSeconds w with Some s => s | None => 300%Z end,
                    λ s, "Timed out waiting for remote after " +:+ itoa s +:+ "s")
  | None => None
  end.

(** One of the three timeout checks: [Some] answer when it fired. *)
Definition check_action_timeout (fs : FailoverService) (isPrePhase : bool) (idx : nat)
    (a : FailoverAction) (result : ActionResult) (limit : option (Z * (Z → string)))
    : IO (option Answer) :=
  match limit, ar_StartedAt result with
  | Some (timeout, msg), Some _ =>
      expired ← CheckTimeout (ar_StartedAt result) timeout;
      if (expired : bool) then
        n ← now;
        _ ← count_action fs a "failure";
        ans ← persist (put_result isPrePhase idx
                {| result with ar_Status := ActionStatusFailed; ar_CompletedAt := Some n;
                               ar_Message := msg timeout |} fs) requeue;
        mret (Some ans)
      else mret None
  | _, _ => mret None
  end.

(** [Some] answer when the state was handled. *)
Definition handleActionState (fs : FailoverService) (isPrePhase : bool) (idx : nat)
    (currentAction : FailoverAction) (result : ActionResult) : IO (option Answer) :=
  match ar_Status result with
  | ActionStatusSucceeded | ActionStatusSkipped =>
      ans ← persist (advance_index fs) requeue; mret (Some ans)
  | ActionStatusFailed =>
      if fa_IgnoreFailure currentAction then
        n ← now;
        let fs := put_result isPrePhase idx
                    {| result with ar_Status := ActionStatusSkipped; ar_CompletedAt := Some n |} fs in
        ans ← persist (advance_index fs) requeue; mret (Some ans)
      else
        _ ← updateFailoverEvent fs EventOutcomeFailed;
        fs ← set_condition ConditionActionFailed ConditionTrue "ActionFailed"
               ("Action " +:+ fmt_q (fa_Name currentAction) +:+ " failed: "
                +:+ ar_Message result) fs;
        ans ← persist fs halt; mret (Some ans)
  | ActionStatusPending =>
      n ← now;
      let fs := put_result isPrePhase idx
                  {| result with ar_Status := ActionStatusRunning; ar_StartedAt := Some n |} fs in
      ans ← persist fs requeue; mret (Some ans)
  | _ =>
      h ← check_action_timeout fs isPrePhase idx currentAction result
            (waitready_timeout currentAction);
      match h with
      | Some ans => mret (Some ans)
      | None =>
          h ← check_action_timeout fs isPrePhase idx currentAction result
                (scale_timeout currentAction);
          match h with
          | Some ans => mret (Some ans)
          | None =>
              check_action_timeout fs isPrePhase idx currentAction result
                (waitremote_timeout currentAction)
          end
      end
  end.

(** The context of an action and the prefix of its names. *)
Definition action_ctx (fs : FailoverService) (t : TransitionStatus) : Ctx := {|
  ctx_OwnerRef := Some (NewControllerRef (fs_meta fs));
  ctx_TransitionStartedAt := ts_StartedAt t;
  ctx_TransitionDirection := Some (ts_TargetDirection t) |}.
Definition action_prefix (fs : FailoverService) (t : TransitionStatus) : string :=
  om_Name (fs_meta fs) +:+ "-" +:+ ts_TargetDirection t +:+ "-" +:+ ts_TransitionID t.

(** An execution error: retried until the retries are used up. *)
Definition action_error (fs : FailoverService) (isPrePhase : bool) (idx : nat)
    (currentAction : FailoverAction) (result : ActionResult) (err : goerr) : IO Answer :=
  let retries := i64 (ar_RetryCount result + 1) in
  let result := {| result with ar_RetryCount := retries |} in
  let maxRetries := actionMaxRetries currentAction in
  if (maxRetries <? retries)%Z then
    n ← now;
    let result := {| result with
      ar_Status := ActionStatusFailed; ar_CompletedAt := Some n;
      ar_Message := "failed after " +:+ itoa retries +:+ " retries: " +:+ err_msg err |} in
    _ ← count_action fs currentAction "failure";
    persist (put_result isPrePhase idx result fs) requeue
  else
    let result := {| result with
      ar_Message := "transient error (retry " +:+ itoa retries +:+ "/" +:+ itoa maxRetries
                    +:+ "): " +:+ err_msg err |} in
    persist (put_result isPrePhase idx result fs)
      (requeue_after (actionRequeueInterval currentAction)).

(** The result of a completed execution. *)
Definition action_completed (fs : FailoverService) (isPrePhase : bool) (idx : nat)
    (currentAction : FailoverAction) (result : ActionResult) (succeeded : bool) : IO Answer :=
  n ← now;
  let result := {| result with ar_CompletedAt := Some n;
    ar_Status := if succeeded then ActionStatusSucceeded else ActionStatusFailed |} in
  _ ← match ar_StartedAt result with
      | Some startedAt =>
          if succeeded then
            _ ← emit (ActionExecutionDuration (om_Name (fs_meta fs)) (om_Namespace (fs_meta fs))
                        (fa_Name currentAction) (actionType currentAction) (n - startedAt)%Z);
            count_action fs currentAction "success"
          else count_action fs currentAction "failure"
      | None => mret tt
      end;
  let fs := put_result isPrePhase idx result fs in
  persist (if succeeded then advance_index fs else fs) requeue.

Definition runAction (fs : FailoverService) (isPrePhase : bool) (idx : nat)
    (currentAction : FailoverAction) (result : ActionResult) (t : TransitionStatus) : IO Answer :=
  exec ← deref (fr_ActionExecutor r);
  x ← MultiExecutor_Execute exec (action_ctx fs t) currentAction (om_Namespace (fs_meta fs))
        (action_prefix fs t) (ts_CurrentActionIndex t);
  match x with
  | inl err => action_error fs isPrePhase idx currentAction result err
  | inr execResult =>
      let result := {| result with ar_JobName := JobName execResult;
                                   ar_Message := Message execResult |} in
      if negb (Completed execResult) then
        persist (put_result isPrePhase idx result fs)
          (requeue_after (actionRequeueInterval currentAction))
      else action_completed fs isPrePhase idx currentAction result (Succeeded execResult)
  end.

(** The end of an action phase: on to the resources, or done. *)
Definition end_action_phase (fs : FailoverService) (isPrePhase : bool) : IO Answer :=
  if isPrePhase then
    let fs := upd_Transition (λ t, set_ActionIndex 0 (set_Phase PhaseUpdatingResources t)) fs in
    fs ← updateClusterStatus r PhaseUpdatingResources fs;
    persist fs requeue
  else completeTransition fs.

Definition executeActionPhase (fs : FailoverService) (isPrePhase : bool) : IO Answer :=
  transition ← deref (fs_transition fs);
  let actions := match getTransitionHooks r fs (ts_TargetDirection transition) with
                 | Some h => phase_actions isPrePhase h
                 | None => []
                 end in
  let results := phase_results isPrePhase transition in
  (* a negative index is reset *)
  let negative := (ts_CurrentActionIndex transition <? 0)%Z in
  let transition := if negative then set_ActionIndex 0 transition else transition in
  let fs := if negative then set_Transition (Some transition) fs else fs in
  let idx := Z.to_nat (ts_CurrentActionIndex transition) in
  (* the results have diverged from the actions, or all actions are done *)
  match actions !! idx, results !! idx with
  | Some currentAction, Some result =>
      h ← handleActionState fs isPrePhase idx currentAction result;
      match h with
      | Some ans => mret ans
      | None => runAction fs isPrePhase idx currentAction result transition
      end
  | _, _ => end_action_phase fs isPrePhase
  end.

(** ** Updating the resources *)

Definition target_address (fs : FailoverService) (t : TransitionStatus) : string :=
  if decide (ts_NewAddressSnapshot t = "")
  then (getTransitionAddresses r fs (ts_TargetDirection t)).2 else ts_NewAddressSnapshot t.

Definition enter_phase (p : FailoverPhase) (fs : FailoverService) : FailoverService :=
  upd_Transition (λ t, set_ActionIndex 0 (set_Phase p t)) fs.

Definition reconcileUpdatingResources (fs : FailoverService) : IO Answer :=
  t ← deref (fs_transition fs);
  e ← ReconcileWithAddress fs (target_address fs t);
  match e with
  | Some err =>
      _ ← service_error fs "service";
      mret (requeue_after defaultBackoffMin, None)
  | None =>
      fs ← service_ready fs;
      let fs := enter_phase PhaseFlushingConnections fs in
      fs ← updateClusterStatus r PhaseFlushingConnections fs;
      persist fs requeue
  end.

(** ** Flushing the connections

    A step of the flush either answers the reconcile or goes on with the object
    and whether the kill has been applied or skipped. *)
Definition flush_step : Type := Answer + FailoverService * bool.

Definition killed_condition (status reason msg : string) (fs : FailoverService)
    : IO FailoverService :=
  set_condition ConditionConnectionsKilled status reason msg fs.

(** Step 1: send the signal. *)
Definition flush_signal (fs : FailoverService) (ns oldAddress : string) (t : TransitionStatus)
    : IO flush_step :=
  n ← now;
  let killToken := ts_TransitionID t +:+ "-" +:+ itoa n in
  s ← SignalKill ns oldAddress killToken (om_Namespace (fs_meta fs)) (om_Name (fs_meta fs));
  match s with
  | inl err =>
      _ ← service_error fs "connkill";
      fs ← killed_condition ConditionFalse "SignalFailed" (err_msg err) fs;
      _ ← update_fs_status fs;
      mret (inl (requeue_after defaultBackoffMin, None))
  | inr [] =>
      let fs := upd_Transition (set_ConnectionKill None) fs in
      fs ← killed_condition ConditionTrue "Skipped"
             "No ready connection-killer agents available; connection kill skipped" fs;
      mret (inr (fs, true))
  | inr nodeNames =>
      n ← now;
      let fs := upd_Transition (set_ConnectionKill (Some {|
                  ck_SignalSent := true; ck_KillToken := killToken;
                  ck_ExpectedNodes := nodeNames; ck_AckedNodes := []; ck_SignaledAt := Some n |})) fs in
      let fs := set_condition_at n ConditionConnectionsKilled ConditionFalse "WaitingForAcks"
                  ("Kill signal sent for " +:+ oldAddress +:+ ", waiting for "
                   +:+ itoa (Z.of_nat (length nodeNames)) +:+ " node ACKs") fs in
      fs ← updateClusterStatus r PhaseFlushingConnections fs;
      _ ← update_fs_status fs;
      mret (inl (requeue_after connKillPollInterval, None))
  end.

(** [SignaledAt != nil && time.Since(SignaledAt) > connKillTimeout]. *)
Definition ack_timeout (ck : ConnectionKillStatus) : IO bool :=
  match ck_SignaledAt ck with
  | None => mret false
  | Some at_ => n ← now; mret (connKillTimeout <? n - at_)%Z
  end.

(** Record the timeout and wait for a force-advance. *)
Definition ack_timed_out (fs : FailoverService) (msg : string) : IO flush_step :=
  fs ← killed_condition ConditionFalse "AckTimeout" msg fs;
  s ← update_fs_status fs;
  match s with
  | inl _ => mret (inl (requeue_after connKillPollInterval, None))
  | inr _ => mret (inl (halt, None))
  end.

(** Step 2: poll for the acknowledgments. *)
Definition flush_acks (fs : FailoverService) (ns oldAddress : string) (ck : ConnectionKillStatus)
    : IO flush_step :=
  s ← CheckAcks ns (ck_KillToken ck) (ck_ExpectedNodes ck) (om_Namespace (fs_meta fs))
        (om_Name (fs_meta fs));
  match s with
  | inl err =>
      late ← ack_timeout ck;
      if (late : bool) then ack_timed_out fs ("Timed out checking ACKs: " +:+ err_msg err)
      else mret (inl (requeue_after defaultBackoffMin, None))
  | inr ackStatus =>
      let ck := {| ck with ck_AckedNodes := as_AckedNodes ackStatus |} in
      let fs := upd_Transition (set_ConnectionKill (Some ck)) fs in
      if negb (as_AllAcked ackStatus) then
        late ← ack_timeout ck;
        if (late : bool) then
          ack_timed_out fs ("Timed out waiting for ACKs from nodes: "
                            +:+ fmt_strings (as_PendingNodes ackStatus))
        else
          _ ← update_fs_status fs;
          mret (inl (requeue_after connKillPollInterval, None))
      else
        _ ← emit ConnectionsKilledTotal;
        fs ← killed_condition ConditionTrue "AllNodesAcked"
               ("All " +:+ itoa (Z.of_nat (length (ck_ExpectedNodes ck)))
                +:+ " nodes confirmed connection kill for " +:+ oldAddress) fs;
        mret (inr (fs, true))
  end.

(** The connection kill, when there is a signaler and the old address is an
    IP. *)
Definition flush_kill (fs : FailoverService) (t : TransitionStatus) : IO flush_step :=
  match fr_ConnSignaler r with
  | None => mret (inr (fs, false))
  | Some ns =>
      let oldAddress := getOldTargetAddress r fs in
      if bool_decide (oldAddress ≠ "") && bool_decide (is_Some (ParseIP oldAddress)) then
        match ts_ConnectionKill t with
        | Some ck =>
            if ck_SignalSent ck then flush_acks fs ns oldAddress ck
            else flush_signal fs ns oldAddress t
        | None => flush_signal fs ns oldAddress t
        end
      else mret (inr (fs, false))
  end.

(** On to the post-actions, or done. *)
Definition flush_advance (fs : FailoverService) : IO Answer :=
  t ← deref (fs_transition fs);
  match getTransitionHooks r fs (ts_TargetDirection t) with
  | Some {| ta_PostActions := _ :: _ |} =>
      let fs := enter_phase PhaseExecutingPostActions fs in
      fs ← updateClusterStatus r PhaseExecutingPostActions fs;
      persist fs requeue
  | _ => completeTransition fs
  end.

Definition reconcileFlushingConnections (fs : FailoverService) : IO Answer :=
  t ← deref (fs_transition fs);
  step ← flush_kill fs t;
  match step with
  | inl ans => mret ans
  | inr (fs, connKillApplied) =>
      fs ← (if (connKillApplied : bool) then mret fs
            else killed_condition ConditionTrue "Skipped"
                   "Connection kill not applicable for this transition" fs);
      flush_advance fs
  end.

(** ** Force-advance *)

Definition forceAdvanceActionPhase (isPrePhase : bool) (t : TransitionStatus)
    : IO TransitionStatus :=
  let idx := ts_CurrentActionIndex t in
  if (0 <=? idx)%Z then
    match phase_results isPrePhase t !! Z.to_nat idx with
    | Some result =>
        n ← now;
        let result := {| result with ar_Status := ActionStatusSkipped;
                                     ar_CompletedAt := Some n;
                                     ar_Message := "Force-advanced by operator" |} in
        mret (set_ActionIndex (idx + 1)%Z
          (set_phase_results isPrePhase (<[Z.to_nat idx := result]> (phase_results isPrePhase t)) t))
    | None => mret t
    end
  else mret t.

(** Whether the status was modified, and the object. *)
Definition handleForceAdvance (fs : FailoverService) : IO (bool * FailoverService) :=
  match fs_transition fs with
  | None => mret (false, fs)
  | Some t =>
      _ ← updateFailoverEvent fs EventOutcomeForceAdvanced;
      t ← match ts_Phase t with
          | PhaseExecutingPreActions => forceAdvanceActionPhase true t
          | PhaseExecutingPostActions => forceAdvanceActionPhase false t
          | PhaseUpdatingResources => mret (set_ActionIndex 0 (set_Phase PhaseFlushingConnections t))
          | PhaseFlushingConnections =>
              mret (set_ActionIndex 0 (set_Phase PhaseExecutingPostActions t))
          | _ => mret t
          end;
      let fs := set_Transition (Some t) fs in
      mret (true, remove_condition ConditionActionFailed fs)
  end.

(** ** Reconcile *)

Definition delete_annotation (key : string) (m : ObjectMeta) : ObjectMeta :=
  {| m with om_Annotations := delete key <$> om_Annotations m |}.

(** The block that handles the force-advance annotation. *)
Definition reconcile_force_advance (fs : FailoverService) : IO Answer :=
  '(modified, fs) ← handleForceAdvance fs;
  s ← (if (modified : bool) then update_fs_status fs else mret (inr fs));
  match s with
  | inl err => failed err
  | inr fs =>
      s ← update_fs (set_meta (delete_annotation forceAdvanceAnnotation (fs_meta fs)) fs);
      match s with
      | inl err => failed err
      | inr _ => mret (requeue, None)
      end
  end.

(** A phase outside the enumeration: the transition is reset. *)
Definition reset_unknown_phase (fs : FailoverService) (p : FailoverPhase) : IO Answer :=
  fs ← set_condition ConditionActionFailed ConditionTrue "UnknownPhase"
         ("Unknown transition phase " +:+ fmt_q (phase_string p) +:+ "; transition was reset") fs;
  let fs := remove_condition ConditionTransitionInProgress fs in
  let fs := set_Transition None fs in
  fs ← updateClusterStatus r PhaseIdle fs;
  persist fs requeue.

Definition dispatch (fs : FailoverService) : IO Answer :=
  let phase := match fs_transition fs with Some t => ts_Phase t | None => PhaseIdle end in
  match phase with
  | PhaseIdle => reconcileIdle fs
  | PhaseExecutingPreActions => executeActionPhase fs true
  | PhaseUpdatingResources => reconcileUpdatingResources fs
  | PhaseFlushingConnections => reconcileFlushingConnections fs
  | PhaseExecutingPostActions => executeActionPhase fs false
  | PhaseOther _ => reset_unknown_phase fs phase
  end.

Definition reconcile_deletion (fs : FailoverService) : IO Answer :=
  if ContainsFinalizer (fs_meta fs) finalizerName then
    _ ← match fr_ConnSignaler r with
        | Some ns => CleanupSignals ns (om_Namespace (fs_meta fs)) (om_Name (fs_meta fs))
        | None => mret None
        end;
    s ← update_fs (set_meta (RemoveFinalizer (fs_meta fs) finalizerName) fs);
    match s with
    | inl err => failed err
    | inr _ => mret (halt, None)
    end
  else mret (halt, None).

(** Add the finalizer and the cluster identity when missing. *)
Definition ensure_finalizer (fs : FailoverService) : IO (goerr + FailoverService) :=
  if negb (ContainsFinalizer (fs_meta fs) finalizerName)
  then update_fs (set_meta (AddFinalizer (fs_meta fs) finalizerName) fs)
  else mret (inr fs).
Definition ensure_cluster_id (fs : FailoverService) : IO (goerr + FailoverService) :=
  if bool_decide (om_Annotations (fs_meta fs) = None)
     || bool_decide (mget0 (om_Annotations (fs_meta fs)) cluster_id_annotation ≠ fr_ClusterID r)
  then update_fs (set_meta (SetClusterIDAnnotation (fs_meta fs) (fr_ClusterID r)) fs)
  else mret (inr fs).

Definition force_requested (fs : FailoverService) : bool :=
  bool_decide (mget0 (om_Annotations (fs_meta fs)) forceAdvanceAnnotation ≠ "").

Definition Reconcile (req : NamespacedName) : IO Answer :=
  s ← api_get local KFailoverService req;
  match s with
  | inl err => if IsNotFound err then mret (halt, None) else failed err
  | inr fs =>
      if negb (time_ptr_IsZero (om_DeletionTimestamp (fs_meta fs))) then reconcile_deletion fs
      else
        s ← ensure_finalizer fs;
        match s with
        | inl err => failed err
        | inr fs =>
            s ← ensure_cluster_id fs;
            match s with
            | inl err => failed err
            | inr fs =>
                if force_requested fs then reconcile_force_advance fs else dispatch fs
            end
        end
  end.

End reconciler.

(** ** Configuration *)

Definition NewReconcilerFromEnv `{KubeLib} (Getenv : string → string) (provider : ClientProvider)
    : goerr + FailoverServiceReconciler :=
  let clusterRole := if decide (Getenv "CLUSTER_ROLE" = "") then rolePrimary
                     else Getenv "CLUSTER_ROLE" in
  if decide (clusterRole ≠ rolePrimary ∧ clusterRole ≠ roleFailover) then
    inl (Errorf ("CLUSTER_ROLE must be 'primary' or 'failover', got " +:+ fmt_q clusterRole))
  else if decide (Getenv "CLUSTER_ID" = "") then inl (Errorf "CLUSTER_ID is required")
  else if decide (Getenv "REMOTE_KUBECONFIG_SECRET" = "") then
    inl (Errorf "REMOTE_KUBECONFIG_SECRET is required")
  else if decide (Getenv "REMOTE_KUBECONFIG_NAMESPACE" = "") then
    inl (Errorf "REMOTE_KUBECONFIG_NAMESPACE is required")
  else
    let clusterID := Getenv "CLUSTER_ID" in
    let controllerNamespace :=
      if decide (Getenv "CONTROLLER_NAMESPACE" = "") then "k8s-failover-manager-system"
      else Getenv "CONTROLLER_NAMESPACE" in
    let provider := {| provider with
      cp_SecretName := Getenv "REMOTE_KUBECONFIG_SECRET";
      cp_SecretNamespace := Getenv "REMOTE_KUBECONFIG_NAMESPACE" |} in
    inr {| fr_ClusterRole := clusterRole; fr_ClusterID := clusterID;
           fr_ServiceManager := {| m_ClusterRole := clusterRole |};
           fr_Syncer := Some (Sync {| sy_ClusterID := clusterID; sy_SyncTimeout := 0 |}
                                (provider_at provider));
           fr_ConnSignaler := Some controllerNamespace;
           fr_ActionExecutor := Some (NewMultiExecutor (Some (provider_at provider)));
           fr_RemoteWatcher := Some {| rw_ClientProvider := provider; rw_lastConfigVer := "";
                                       rw_listClient := None; rw_watchClient := None |} |}.
