(* ===== verification/ControllerSpec.v ===== *)
(** * What the controller promises

    The state machine of a transition as a relation between the FailoverService
    the controller has last observed and the status it writes ([edge]), the
    conditions under which it may cause its other effects ([ok_event]), and the
    triples [tracks] in which the handlers are proved to follow it. *)
From stdpp Require Import base gmap strings list numbers.
From S2P Require Import Prelude GoStd GoNetIP Types Kube Logic ApiServer ServiceManager Actions WaitRemote RemoteCluster Signaler Controller.

(** ** The machine *)

Definition phase_of (fs : FailoverService) : FailoverPhase :=
  match fs_transition fs with Some t => ts_Phase t | None => PhaseIdle end.

Definition action_phase (isPrePhase : bool) : FailoverPhase :=
  if isPrePhase then PhaseExecutingPreActions else PhaseExecutingPostActions.

(** The status of an action that is being executed. *)
Definition in_progress (s : ActionStatus) : Prop :=
  match s with
  | ActionStatusRunning | StatusOther _ => True
  | _ => False
  end.

(** One write of an action's result; the flag says whether the machine goes on
    to the next action. *)
Inductive result_step (a : FailoverAction) (x : ActionResult) : ActionResult → bool → Prop :=
  | RS_start n : ar_Status x = ActionStatusPending →
      result_step a x {| x with ar_Status := ActionStatusRunning; ar_StartedAt := Some n |} false
  | RS_done : ar_Status x = ActionStatusSucceeded ∨ ar_Status x = ActionStatusSkipped →
      result_step a x x true
  | RS_ignore n : ar_Status x = ActionStatusFailed → fa_IgnoreFailure a = true →
      result_step a x {| x with ar_Status := ActionStatusSkipped; ar_CompletedAt := Some n |} true
  | RS_halt : ar_Status x = ActionStatusFailed → fa_IgnoreFailure a = false →
      result_step a x x false
  | RS_running job msg : in_progress (ar_Status x) →
      result_step a x {| x with ar_JobName := job; ar_Message := msg |} false
  | RS_retry n msg : in_progress (ar_Status x) → n = i64 (ar_RetryCount x + 1) →
      (n <= actionMaxRetries a)%Z →
      result_step a x {| x with ar_RetryCount := n; ar_Message := msg |} false
  | RS_exhausted n now msg : in_progress (ar_Status x) → n = i64 (ar_RetryCount x + 1) →
      (actionMaxRetries a < n)%Z →
      result_step a x {| x with ar_RetryCount := n; ar_Status := ActionStatusFailed;
                                ar_CompletedAt := Some now; ar_Message := msg |} false
  | RS_timeout now msg : in_progress (ar_Status x) → is_Some (ar_StartedAt x) →
      result_step a x {| x with ar_Status := ActionStatusFailed; ar_CompletedAt := Some now;
                                ar_Message := msg |} false
  | RS_completed now job msg (ok : bool) : in_progress (ar_Status x) →
      result_step a x {| x with ar_JobName := job; ar_Message := msg; ar_CompletedAt := Some now;
        ar_Status := if ok then ActionStatusSucceeded else ActionStatusFailed |} ok.

(** One write of the connection-kill record. *)
Inductive kill_step (ck : option ConnectionKillStatus) : option ConnectionKillStatus → Prop :=
  | KS_same : kill_step ck ck
  | KS_none : (∀ c, ck = Some c → ck_SignalSent c = false) → kill_step ck None
  | KS_signal c : (∀ c, ck = Some c → ck_SignalSent c = false) →
      ck_SignalSent c = true → ck_ExpectedNodes c ≠ [] → ck_AckedNodes c = [] →
      kill_step ck (Some c)
  | KS_acks c acked : ck = Some c → ck_SignalSent c = true →
      kill_step ck (Some {| c with ck_AckedNodes := acked |}).

Section machine.
Context (r : FailoverServiceReconciler).

Definition current_actions (fs : FailoverService) (isPrePhase : bool) (t : TransitionStatus)
    : list FailoverAction :=
  match getTransitionHooks r fs (ts_TargetDirection t) with
  | Some h => phase_actions isPrePhase h
  | None => []
  end.
Definition current_index (t : TransitionStatus) : nat := Z.to_nat (ts_CurrentActionIndex t).

(** No action is left to execute at the current index. *)
Definition phase_over (fs : FailoverService) (isPrePhase : bool) (t : TransitionStatus) : Prop :=
  current_actions fs isPrePhase t !! current_index t = None
  ∨ phase_results isPrePhase t !! current_index t = None.

(** The direction, generation and owner of the last applied state. *)
Definition same_baseline (s s' : FailoverServiceStatus) : Prop :=
  st_LastKnownFailoverActive s' = st_LastKnownFailoverActive s
  ∧ st_ActiveGeneration s' = st_ActiveGeneration s ∧ st_ActiveCluster s' = st_ActiveCluster s.

(** What a force-advance does to a transition. *)
Inductive force_step (t : TransitionStatus) : TransitionStatus → Prop :=
  | FS_skip isPrePhase x n msg : ts_Phase t = action_phase isPrePhase →
      (0 <= ts_CurrentActionIndex t)%Z → phase_results isPrePhase t !! current_index t = Some x →
      force_step t (set_ActionIndex (ts_CurrentActionIndex t + 1)%Z
        (set_phase_results isPrePhase
           (<[current_index t := {| x with ar_Status := ActionStatusSkipped;
                                           ar_CompletedAt := Some n; ar_Message := msg |}]>
              (phase_results isPrePhase t)) t))
  | FS_flush : ts_Phase t = PhaseUpdatingResources →
      force_step t (set_ActionIndex 0 (set_Phase PhaseFlushingConnections t))
  | FS_post : ts_Phase t = PhaseFlushingConnections →
      force_step t (set_ActionIndex 0 (set_Phase PhaseExecutingPostActions t))
  | FS_none : ts_Phase t ≠ PhaseUpdatingResources → ts_Phase t ≠ PhaseFlushingConnections →
      (∀ isPrePhase, ts_Phase t = action_phase isPrePhase →
         (ts_CurrentActionIndex t < 0)%Z ∨ phase_results isPrePhase t !! current_index t = None) →
      force_step t t.

(** The transition has nothing left to do. *)
Definition completable (fs : FailoverService) (t : TransitionStatus) : Prop :=
  ts_Phase t = PhaseFlushingConnections ∧ current_actions fs false t = []
  ∨ ts_Phase t = PhaseExecutingPostActions ∧ phase_over fs false t.

(** [edge fs s]: having observed [fs], the controller may write the status [s]. *)
Inductive edge (fs : FailoverService) (s : FailoverServiceStatus) : Prop :=
  | E_begin n : phase_of fs = PhaseIdle → transition_pending fs = true →
      st_Transition s = Some (initial_transition r fs
        (if sp_FailoverActive (fs_spec fs) then directionFailover else directionFailback) n) →
      same_baseline (fs_status fs) s → edge fs s
  | E_idle : phase_of fs = PhaseIdle →
      st_Transition s = fs_transition fs →
      (st_LastKnownFailoverActive (fs_status fs) = None
       ∨ st_LastKnownFailoverActive s = st_LastKnownFailoverActive (fs_status fs)) →
      (st_ActiveGeneration s = st_ActiveGeneration (fs_status fs)
         ∧ st_ActiveCluster s = st_ActiveCluster (fs_status fs)
       ∨ ∃ rs, st_RemoteState s = Some rs ∧ st_ActiveGeneration s = rs_ActiveGeneration rs) →
      edge fs s
  | E_result t isPrePhase a x x' (adv : bool) : fs_transition fs = Some t →
      ts_Phase t = action_phase isPrePhase →
      current_actions fs isPrePhase t !! current_index t = Some a →
      phase_results isPrePhase t !! current_index t = Some x →
      result_step a x x' adv →
      st_Transition s = Some (set_ActionIndex (Z.of_nat (current_index t + if adv then 1 else 0))
        (set_phase_results isPrePhase (<[current_index t := x']> (phase_results isPrePhase t)) t)) →
      same_baseline (fs_status fs) s → edge fs s
  | E_pre_done t : fs_transition fs = Some t → ts_Phase t = PhaseExecutingPreActions →
      phase_over fs true t →
      st_Transition s = Some (set_ActionIndex 0 (set_Phase PhaseUpdatingResources t)) →
      same_baseline (fs_status fs) s → edge fs s
  | E_resources t : fs_transition fs = Some t → ts_Phase t = PhaseUpdatingResources →
      st_Transition s = Some (set_ActionIndex 0 (set_Phase PhaseFlushingConnections t)) →
      same_baseline (fs_status fs) s → edge fs s
  | E_flush t ck : fs_transition fs = Some t → ts_Phase t = PhaseFlushingConnections →
      kill_step (ts_ConnectionKill t) ck →
      st_Transition s = Some (set_ConnectionKill ck t) →
      same_baseline (fs_status fs) s → edge fs s
  | E_flushed t ck : fs_transition fs = Some t → ts_Phase t = PhaseFlushingConnections →
      kill_step (ts_ConnectionKill t) ck → current_actions fs false t ≠ [] →
      st_Transition s = Some (set_ActionIndex 0 (set_Phase PhaseExecutingPostActions
                                (set_ConnectionKill ck t))) →
      same_baseline (fs_status fs) s → edge fs s
  | E_complete t : fs_transition fs = Some t → completable fs t →
      st_Transition s = None →
      st_LastKnownFailoverActive s
        = Some (bool_decide (ts_TargetDirection t = directionFailover)) →
      st_ActiveGeneration s = i64 (st_ActiveGeneration (fs_status fs) + 1) →
      st_ActiveCluster s = fr_ClusterID r → edge fs s
  | E_adopt t rs : fs_transition fs = Some t → completable fs t →
      st_Transition s = None →
      st_LastKnownFailoverActive s
        = Some (default (bool_decide (ts_TargetDirection t = directionFailover))
                  (st_LastKnownFailoverActive (fs_status fs))) →
      st_RemoteState s = Some rs → st_ActiveGeneration s = rs_ActiveGeneration rs → edge fs s
  | E_force t t' : force_requested fs = true → fs_transition fs = Some t → force_step t t' →
      st_Transition s = Some t' → same_baseline (fs_status fs) s → edge fs s
  | E_reset p : phase_of fs = PhaseOther p → st_Transition s = None →
      same_baseline (fs_status fs) s → edge fs s.

(** ** The other effects *)

(** The managed service may be written: in the steady state, or in the phase
    that updates the resources. *)
Definition may_route (fs : FailoverService) : Prop :=
  phase_of fs = PhaseIdle ∧ transition_pending fs = false
  ∨ phase_of fs = PhaseUpdatingResources.

(** The current action is recorded as being executed. *)
Definition may_execute (fs : FailoverService) : Prop :=
  ∃ t isPrePhase x, fs_transition fs = Some t ∧ ts_Phase t = action_phase isPrePhase
    ∧ phase_results isPrePhase t !! current_index t = Some x ∧ in_progress (ar_Status x).

(** The transition is in its last phases, when kill signals are sent and its
    signals and jobs are cleaned up. *)
Definition may_clean (fs : FailoverService) : Prop :=
  phase_of fs = PhaseFlushingConnections ∨ phase_of fs = PhaseExecutingPostActions.
Definition deleting (fs : FailoverService) : Prop :=
  time_ptr_IsZero (om_DeletionTimestamp (fs_meta fs)) = false.

Definition event_of (fs : FailoverService) (o : FailoverEvent) : Prop :=
  ∃ t, fs_transition fs = Some t ∧ om_Name (fe_meta o) = ts_EventName t
    ∧ es_Direction (fe_spec o) = ts_TargetDirection t
    ∧ es_FailoverServiceRef (fe_spec o) = om_Name (fs_meta fs).

(** An update of the object changes its metadata, or the direction. *)
Definition spec_edge (fs o : FailoverService) : Prop :=
  fs_spec o = fs_spec fs
  ∨ ∃ b, fs_spec o = fs_spec (set_FailoverActive b fs) ∧ fs_meta o = fs_meta fs.

Definition ok_write (fs : FailoverService) (k : kind) : kobj k → Prop :=
  match k with
  | KFailoverService => λ o, spec_edge fs o
  | KService | KEndpointSlice => λ _, may_route fs
  | KConfigMap => λ _, may_clean fs ∨ deleting fs
  | _ => λ _, False
  end.
Definition ok_create (fs : FailoverService) (k : kind) : kobj k → Prop :=
  match k with
  | KService | KEndpointSlice => λ _, may_route fs
  | KConfigMap => λ _, phase_of fs = PhaseFlushingConnections
  | KFailoverEvent => λ o, event_of fs o
  | KJob => λ _, may_execute fs
  | _ => λ _, False
  end.
Definition ok_status (fs : FailoverService) (k : kind) : kobj k → Prop :=
  match k with
  | KFailoverService => λ o, edge fs (fs_status o)
  | KFailoverEvent => λ _, True
  | _ => λ _, False
  end.

Definition ok_event (fs : FailoverService) (e : event) : Prop :=
  match e with
  | Ev (Update t k o) _ =>
      match t_site t with
      | Local => ok_write fs k o
      | Remote _ => k = KFailoverService
      end
  | Ev (Create k o) _ => ok_create fs k o
  | Ev (UpdateStatus k o) _ => ok_status fs k o
  | Ev (Delete k o _) _ =>
      (k = KService ∨ k = KEndpointSlice) ∧ may_route fs ∨ k = KJob ∧ may_clean fs
  | Ev (HTTPDo _ _) _ | Ev (ScaleUpdate _ _ _) _ => may_execute fs
  | _ => True
  end.

(** ** Observation *)

Definition observed (k : kind) : kobj k → FailoverService → FailoverService :=
  match k with
  | KFailoverService => λ o _, o
  | _ => λ _ fs, fs
  end.
(** The object as the controller knows it after an event. *)
Definition observe (fs : FailoverService) (e : event) : FailoverService :=
  match e with
  | Ev (Update t k _) (inr o') =>
      match t_site t with Local => observed k o' fs | Remote _ => fs end
  | Ev (UpdateStatus k _) (inr o') => observed k o' fs
  | _ => fs
  end.

Definition same_ident (m m' : ObjectMeta) : Prop :=
  om_Name m = om_Name m' ∧ om_Namespace m = om_Namespace m'.

(** The answers of a server that stores what it is given: an update answers the
    stored status, a status update the stored specification. *)
Definition update_answer (fs : FailoverService) (k : kind) : kobj k → kobj k → Prop :=
  match k with
  | KFailoverService => λ o o',
      fs_status o' = fs_status fs ∧ fs_spec o' = fs_spec o
      ∧ same_ident (fs_meta o') (fs_meta fs)
      ∧ om_Annotations (fs_meta o') = om_Annotations (fs_meta o)
      ∧ om_DeletionTimestamp (fs_meta o') = om_DeletionTimestamp (fs_meta fs)
  | _ => λ _ _, True
  end.
Definition status_answer (fs : FailoverService) (k : kind) : kobj k → kobj k → Prop :=
  match k with
  | KFailoverService => λ o o',
      fs_status o' = trunc_status (fs_status o) ∧ fs_spec o' = fs_spec fs
      ∧ same_ident (fs_meta o') (fs_meta fs)
      ∧ om_Annotations (fs_meta o') = om_Annotations (fs_meta fs)
      ∧ om_DeletionTimestamp (fs_meta o') = om_DeletionTimestamp (fs_meta fs)
  | _ => λ _ _, True
  end.
Definition answer_ok (fs : FailoverService) (e : event) : Prop :=
  match e with
  | Ev (Update t k o) (inr o') =>
      match t_site t with Local => update_answer fs k o o' | Remote _ => True end
  | Ev (UpdateStatus k o) (inr o') => status_answer fs k o o'
  | _ => True
  end.

(** Every event is allowed, as long as the answers before it were right. *)
Fixpoint follows (fs : FailoverService) (t : hist) : Prop :=
  match t with
  | [] => True
  | e :: t => ok_event fs e ∧ (answer_ok fs e → follows (observe fs e) t)
  end.
Fixpoint answers_ok (fs : FailoverService) (t : hist) : Prop :=
  match t with
  | [] => True
  | e :: t => answer_ok fs e ∧ answers_ok (observe fs e) t
  end.
Definition after (fs : FailoverService) (t : hist) : FailoverService := foldl observe fs t.

(** The answers' correctness is decidable. *)
#[export] Instance answer_ok_dec fs e : Decision (answer_ok fs e).
Proof.
  destruct e as [[] y]; simpl; try (left; exact I).
  - destruct y as [|o']; [left; exact I|]. destruct (t_site t); [|left; exact I].
    destruct k; simpl; unfold same_ident; apply _.
  - destruct y as [|o']; [left; exact I|]. destruct k; simpl; unfold same_ident; apply _.
Defined.
#[export] Instance answers_ok_dec fs t : Decision (answers_ok fs t).
Proof. revert fs; induction t as [|e t IH]; intros fs; simpl; apply _. Defined.

Lemma follows_app fs t1 t2 :
  follows fs t1 → (answers_ok fs t1 → follows (after fs t1) t2) → follows fs (t1 ++ t2).
Proof.
  revert fs; induction t1 as [|e t1 IH]; simpl; intros fs; [auto|].
  intros [He Ht] H2. split; [done|]. intros Ha. auto.
Qed.
Lemma answers_ok_app fs t1 t2 :
  answers_ok fs (t1 ++ t2) → answers_ok fs t1 ∧ answers_ok (after fs t1) t2.
Proof.
  revert fs; induction t1 as [|e t1 IH]; simpl; intros fs; [auto|].
  intros [He Ht]. destruct (IH _ Ht). auto.
Qed.

(** ** Triples

    [tracks fs m Q]: started when [fs] is the object observed, [m] follows the
    machine, and, if the answers are right, does not panic and answers a value
    [a] with [Q a fs'] for the object [fs'] then observed. *)
Definition tracks {A} (fs : FailoverService) (m : IO A) (Q : A → FailoverService → Prop) : Prop :=
  wp m (λ o t, follows fs t ∧ (answers_ok fs t → returns (λ a, Q a (after fs t)) o)).

Section tracks_rules.
Context {A B : Type}.

Lemma tracks_ret fs (a : A) (Q : A → FailoverService → Prop) : Q a fs → tracks fs (mret a) Q.
Proof. intros HQ. by apply wp_ret. Qed.

Lemma tracks_mono fs (m : IO A) (Q Q' : A → FailoverService → Prop) :
  tracks fs m Q → (∀ a fs', Q a fs' → Q' a fs') → tracks fs m Q'.
Proof.
  intros H HQ. eapply wp_mono; [exact H|]. intros [a|] t [Hf Hr]; (split; [done|]);
    intros Ha; specialize (Hr Ha); simpl in *; auto.
Qed.

Lemma tracks_bind fs (m : IO A) (f : A → IO B) (Q : B → FailoverService → Prop) :
  tracks fs m (λ a fs', tracks fs' (f a) Q) → tracks fs (m ≫= f) Q.
Proof.
  intros H E h. specialize (H E h). unfold mbind, IO_bind.
  destruct (m E h) as [[a|] t1]; simpl in *.
  - destruct H as [Hf Ha].
    destruct (f a E (h ++ t1)) as [o t2] eqn:He. simpl.
    assert (Hok : answers_ok fs t1 → follows (after fs t1) t2
        ∧ (answers_ok (after fs t1) t2 → returns (λ b, Q b (after (after fs t1) t2)) o)).
    { intros H1. specialize (Ha H1 E (h ++ t1)). by rewrite He in Ha. }
    split; [apply follows_app; [done|]; intros H1; by apply Hok|].
    intros [H1 H2]%answers_ok_app. unfold after. rewrite foldl_app. by apply Hok.
  - destruct H as [Hf Ha]. split; [done|]. intros H1. by apply Ha.
Qed.

Lemma tracks_perform fs (o : op) (Q : resp o → FailoverService → Prop) :
  (∀ x, ok_event fs (Ev o x)) →
  (∀ x, answer_ok fs (Ev o x) → Q x (observe fs (Ev o x))) → tracks fs (perform o) Q.
Proof.
  intros Hok HQ. apply wp_perform. intros x. split; [split; [apply Hok|done]|].
  intros [? _]. by apply HQ.
Qed.

Lemma tracks_deref fs (x : option A) (a : A) (Q : A → FailoverService → Prop) :
  x = Some a → Q a fs → tracks fs (deref x) Q.
Proof. intros -> HQ. by apply tracks_ret. Qed.

(** A component whose events are all allowed and leave the object alone. *)
Lemma tracks_rg (G : event → Prop) fs (m : IO A) (Φ : A → Prop) (Q : A → FailoverService → Prop) :
  rg any_event G m Φ → (∀ e, G e → ok_event fs e ∧ observe fs e = fs) →
  (∀ a, Φ a → Q a fs) → tracks fs m Q.
Proof.
  intros Hm HG HQ. eapply wp_mono; [exact Hm|]. intros o t Ht.
  destruct Ht as [Ht Ho]; [by apply Forall_true|].
  assert (follows fs t ∧ after fs t = fs) as [Hf Hafter].
  { clear Ho. induction Ht as [|e t He Ht IH]; [done|]. destruct (HG e He) as [Hok Hobs].
    destruct IH. unfold after in *. simpl. rewrite Hobs. auto. }
  split; [done|]. intros _. destruct o; simpl in *; [|done]. rewrite Hafter. auto.
Qed.
End tracks_rules.
End machine.
