(* ===== verification/ControllerProofs.v ===== *)
(** * The controller follows its machine

    One lemma per handler: started on a copy of the observed object, it follows
    the machine of [ControllerSpec] and does not panic. *)
From stdpp Require Import base gmap strings list numbers.
From S2P Require Import Prelude GoStd GoNetIP Types Kube Logic ApiServer Decode ServiceManager Actions WaitRemote RemoteCluster Signaler Controller ControllerSpec.

(** What the controller expects of its collaborators; the executor must be
    configured. *)
Class WellWired (r : FailoverServiceReconciler) : Prop := {
  wired_executor : is_Some (fr_ActionExecutor r);
  wired_actions exec : fr_ActionExecutor r = Some exec → ActionExecutor exec;
  wired_sync Sync fs : fr_Syncer r = Some Sync →
    rg any_event remote_event (Sync fs) sync_answer }.

(** A primitive operation. *)
Ltac tracks_op :=
  lazymatch goal with
  | |- tracks ?r ?cur ?m _ => let o := as_op m in apply (tracks_perform r cur o)
  end.

Section proofs.
Context `{KubeLibLaws} (r : FailoverServiceReconciler) `{!WellWired r}.
Abbreviation tracks := (tracks r).
Implicit Types (cur fs : FailoverService).

#[local] Arguments applyRemoteWinnerState : simpl never.

(** ** Primitive steps *)

Lemma tracks_now cur (Q : time → FailoverService → Prop) :
  (∀ n, Q n cur) → tracks cur now Q.
Proof. intros HQ. apply (tracks_perform r cur Now); [done|]. intros n _. apply HQ. Qed.

Lemma tracks_emit cur m (Q : unit → FailoverService → Prop) :
  Q tt cur → tracks cur (emit m) Q.
Proof. intros HQ. apply (tracks_perform r cur (Metric m)); [done|]. by intros [] _. Qed.

Lemma tracks_set_condition cur ty st reason msg fs (Q : FailoverService → FailoverService → Prop) :
  (∀ n, Q (set_condition_at n ty st reason msg fs) cur) →
  tracks cur (set_condition ty st reason msg fs) Q.
Proof. intros HQ. apply tracks_bind, tracks_now. intros n. apply tracks_ret, HQ. Qed.

Lemma tracks_updateClusterStatus cur p fs (Q : FailoverService → FailoverService → Prop) :
  (∀ cl, Q (set_Clusters cl fs) cur) → tracks cur (updateClusterStatus r p fs) Q.
Proof. intros HQ. apply tracks_bind, tracks_now. intros n. apply tracks_ret, HQ. Qed.

Lemma tracks_update_fs_status cur fs (Q : goerr + FailoverService → FailoverService → Prop) :
  edge r cur (fs_status fs) → (∀ err, Q (inl err) cur) →
  (∀ o, status_answer cur KFailoverService fs o → Q (inr o) o) →
  tracks cur (update_fs_status fs) Q.
Proof.
  intros He H1 H2. apply tracks_bind, (tracks_perform r cur (UpdateStatus KFailoverService fs)); [done|].
  intros [err|o]; [intros _; apply tracks_ret, H1|]. intros Ho. apply tracks_ret. simpl.
  rewrite decode_over_status by apply Ho. by apply H2.
Qed.

Lemma tracks_update_fs cur fs (Q : goerr + FailoverService → FailoverService → Prop) :
  spec_edge cur fs → (∀ err, Q (inl err) cur) →
  (∀ o, update_answer cur KFailoverService fs o → Q (inr (decode_over fs o)) o) →
  tracks cur (update_fs fs) Q.
Proof.
  intros He H1 H2. apply tracks_bind, (tracks_perform r cur (Update local KFailoverService fs)); [done|].
  intros [err|o]; [intros _; apply tracks_ret, H1|]. intros Ho. by apply tracks_ret, H2.
Qed.
(** An update of an object whose status is the stored one. *)
Lemma tracks_update_meta cur fs (Q : goerr + FailoverService → FailoverService → Prop) :
  spec_edge cur fs → fs_status fs = fs_status cur → (∀ err, Q (inl err) cur) →
  (∀ o, update_answer cur KFailoverService fs o → Q (inr o) o) →
  tracks cur (update_fs fs) Q.
Proof.
  intros He Hs H1 H2. apply tracks_update_fs; [done..|]. intros o Ho.
  rewrite decode_over_stored; [by apply H2|]. rewrite Hs. apply Ho.
Qed.

Lemma tracks_persist cur fs res :
  edge r cur (fs_status fs) → tracks cur (persist fs res) (λ _ _, True).
Proof.
  intros He. apply tracks_bind, tracks_update_fs_status; [done|..]; intros; by apply tracks_ret.
Qed.

Lemma tracks_service_error cur fs p (Q : unit → FailoverService → Prop) :
  Q tt cur → tracks cur (service_error fs p) Q.
Proof. apply tracks_emit. Qed.

(** A component's events are allowed in the object's state. *)
Lemma action_event_ok cur e :
  may_execute cur → action_event e → ok_event r cur e ∧ observe cur e = cur.
Proof.
  intros Hm. destruct e as [[] x]; simpl; try done.
  intros ->. done.
Qed.
Lemma cleanup_event_ok cur e :
  may_clean cur → cleanup_event e → ok_event r cur e ∧ observe cur e = cur.
Proof. intros Hm. destruct e as [[] x]; simpl; try done. intros ->. auto. Qed.
Lemma service_event_ok cur e :
  may_route cur → service_event e → ok_event r cur e ∧ observe cur e = cur.
Proof.
  intros Hm. destruct e as [[] x]; simpl; try done.
  - by intros [->| ->].
  - intros [-> [->| ->]]; simpl; (split; [done|]); by destruct x.
  - intros [->| ->]; auto.
Qed.
Lemma remote_event_ok cur e : remote_event e → ok_event r cur e ∧ observe cur e = cur.
Proof.
  destruct e as [[] x]; simpl; try done. intros [Ht ->].
  destruct (t_site t); [done|]. split; [done|]. by destruct x.
Qed.
Lemma cleaning_event_ok cur e :
  may_clean cur ∨ deleting cur → cleaning_event e → ok_event r cur e ∧ observe cur e = cur.
Proof.
  intros Hm. destruct e as [[] x]; simpl; try done. intros [-> ->]. simpl.
  split; [done|by destruct x].
Qed.
Lemma signal_event_ok cur e :
  phase_of cur = PhaseFlushingConnections → signal_event e →
  ok_event r cur e ∧ observe cur e = cur.
Proof.
  intros Hm. destruct e as [[] x]; simpl; try done; [by intros ->|].
  intros [-> ->]. simpl. split; [left; by left|by destruct x].
Qed.

(** Calls of the components. *)
Lemma tracks_service cur fs address (Q : error → FailoverService → Prop) :
  may_route cur → (∀ e, Q e cur) → tracks cur (ReconcileWithAddress fs address) Q.
Proof.
  intros Hm HQ. eapply tracks_rg; [apply ReconcileWithAddress_safe|..]; [|auto].
  intros e. by apply service_event_ok.
Qed.
Lemma tracks_sync cur Sync fs (Q : goerr + SyncResult → FailoverService → Prop) :
  fr_Syncer r = Some Sync → (∀ x, sync_answer x → Q x cur) → tracks cur (Sync fs) Q.
Proof.
  intros Hs HQ. eapply tracks_rg; [by apply wired_sync|..]; [|auto].
  intros e. apply remote_event_ok.
Qed.
Lemma tracks_cleanup_signals cur ns fns name (Q : error → FailoverService → Prop) :
  may_clean cur ∨ deleting cur → (∀ e, Q e cur) → tracks cur (CleanupSignals ns fns name) Q.
Proof.
  intros Hm HQ. eapply tracks_rg; [apply CleanupSignals_safe|..]; [|auto].
  intros e. by apply cleaning_event_ok.
Qed.

(** ** Copies of the observed object

    What the handlers keep of the object until they write it. *)
Definition copy cur fs : Prop :=
  fs_spec fs = fs_spec cur ∧ fs_meta fs = fs_meta cur
  ∧ same_baseline (fs_status cur) (fs_status fs).

Lemma copy_refl cur : copy cur cur.
Proof. done. Qed.

Lemma phase_trunc fs fs' :
  fs_transition fs' = trunc_transition <$> fs_transition fs → phase_of fs' = phase_of fs.
Proof. unfold phase_of. intros ->. by destruct (fs_transition fs). Qed.

(** Hooks and addresses depend on the cluster targets only. *)
Definition same_targets fs fs' : Prop :=
  sp_PrimaryCluster (fs_spec fs) = sp_PrimaryCluster (fs_spec fs')
  ∧ sp_FailoverCluster (fs_spec fs) = sp_FailoverCluster (fs_spec fs').
Lemma same_targets_cluster fs fs' :
  same_targets fs fs' → cluster_target r fs = cluster_target r fs'.
Proof. unfold cluster_target. intros [-> ->]. done. Qed.
Lemma same_targets_actions fs fs' p t :
  same_targets fs fs' → current_actions r fs p t = current_actions r fs' p t.
Proof.
  intros Ht%same_targets_cluster. unfold current_actions, getTransitionHooks. by rewrite Ht.
Qed.
Lemma same_targets_initial fs fs' d n :
  same_targets fs fs' → om_Name (fs_meta fs) = om_Name (fs_meta fs') →
  initial_transition r fs d n = initial_transition r fs' d n.
Proof.
  intros Ht%same_targets_cluster Hn.
  unfold initial_transition, getTransitionAddresses, getTransitionHooks, failoverEventName.
  by rewrite Ht, Hn.
Qed.

(** ** FailoverEvents *)

Lemma tracks_updateFailoverEvent cur fs o (Q : unit → FailoverService → Prop) :
  Q tt cur → tracks cur (updateFailoverEvent fs o) Q.
Proof.
  intros HQ. unfold updateFailoverEvent.
  destruct (fs_transition fs) as [t|]; [|by apply tracks_ret].
  destruct (decide _); [by apply tracks_ret|].
  apply tracks_bind. tracks_op; [done|]. intros [err|ev] _; [by apply tracks_ret|].
  destruct (negb _); [by apply tracks_ret|].
  apply tracks_bind. cut (∀ s : FailoverEventStatus, tracks cur
    (_ ← api_update_status KFailoverEvent {| ev with fe_status := s |}; mret tt) Q).
  { intros Hs. destruct (decide _); [apply tracks_bind, tracks_now; intros m|]; by apply tracks_ret. }
  intros s. apply tracks_bind. tracks_op; [done|].
  intros x _. apply tracks_ret. by destruct x.
Qed.

Lemma tracks_createFailoverEvent cur d trigger n t (Q : unit → FailoverService → Prop) :
  fs_transition cur = Some t → ts_TargetDirection t = d → Q tt cur →
  tracks cur (createFailoverEvent cur d trigger n) Q.
Proof.
  intros Ht Hd HQ. unfold createFailoverEvent. rewrite Ht.
  apply tracks_bind, tracks_ret, tracks_bind. tracks_op.
  { intros x. simpl. exists t. auto. }
  intros [err|ev] _; [by apply tracks_ret|].
  apply tracks_bind. tracks_op; [done|].
  intros x _. apply tracks_ret. by destruct x.
Qed.

(** ** Beginning *)

Lemma beginTransition_follows cur fs trigger :
  copy cur fs → phase_of cur = PhaseIdle → transition_pending cur = true →
  tracks cur (beginTransition r fs trigger) (λ _ _, True).
Proof.
  intros (Hspec & Hmeta & Hbase) Hidle Hp. unfold beginTransition.
  apply tracks_bind, tracks_emit, tracks_bind, tracks_now. intros n.
  apply tracks_bind, tracks_updateClusterStatus. intros cl.
  apply tracks_bind, tracks_update_fs_status; [|intros; by apply tracks_ret|].
  - eapply (E_begin _ _ _ n); [done|done| |done]. simpl. f_equal. rewrite Hspec.
    apply same_targets_initial; [by split; rewrite Hspec|by rewrite Hmeta].
  - intros o (Hst & _). eapply tracks_bind, tracks_createFailoverEvent; [|
      |by apply tracks_ret].
    + unfold fs_transition. rewrite Hst. done.
    + unfold initial_transition. simpl. by destruct (getTransitionAddresses _ _ _).
Qed.

(** ** Completing *)

(** The transition of the observed object may end. *)
Definition may_complete fs (t : TransitionStatus) : Prop :=
  fs_transition fs = Some t
  ∧ completable r fs t.

Lemma may_complete_clean cur t : may_complete cur t → may_clean cur.
Proof. unfold may_complete, may_clean, phase_of. intros [-> [[? _]|[? _]]]; auto. Qed.

Lemma may_complete_same cur cur' t :
  may_complete cur t → same_targets cur cur' → fs_status cur' = fs_status cur →
  may_complete cur' t.
Proof.
  intros [Ht Hc] Hs Hst. split; [unfold fs_transition in *; by rewrite Hst|].
  unfold completable, phase_over in *. rewrite <- !(same_targets_actions cur cur') by done. done.
Qed.

Lemma cleanup_jobs_follows cur exec ns rs :
  fr_ActionExecutor r = Some exec → may_clean cur →
  tracks cur (cleanup_jobs exec ns rs) (λ _ cur', cur' = cur).
Proof.
  intros He Hc. induction rs as [|x rs IH]; simpl; [by apply tracks_ret|].
  apply tracks_bind. destruct (decide _); [|by apply tracks_ret].
  pose proof (wired_actions _ He).
  eapply tracks_rg; [apply cleanup_safe|..]; [|auto]. intros e. by apply cleanup_event_ok.
Qed.

Lemma complete_cleanup_follows cur fs (Q : unit → FailoverService → Prop) :
  may_clean cur → Q tt cur → tracks cur (complete_cleanup r fs) Q.
Proof.
  intros Hc HQ. unfold complete_cleanup. destruct (fs_transition fs) as [t|]; [|by apply tracks_ret].
  apply tracks_bind. eapply (tracks_mono r cur _ (λ _ cur', cur' = cur)).
  { destruct (ts_StartedAt t); [|by apply tracks_ret].
    apply tracks_bind, tracks_now. intros n. by apply tracks_emit. }
  intros _ ? ->. apply tracks_bind. eapply (tracks_mono r cur _ (λ _ cur', cur' = cur)).
  { unfold cleanupTransitionJobs. destruct (fr_ActionExecutor r) eqn:He; [|by apply tracks_ret].
    by apply cleanup_jobs_follows. }
  intros _ ? ->. destruct (fr_ConnSignaler r); [|by apply tracks_ret].
  apply tracks_bind, tracks_cleanup_signals; [by left|]. intros _. by apply tracks_ret.
Qed.

Lemma finish_transition_follows cur fs saved :
  edge r cur (fs_status fs) → tracks cur (finish_transition fs saved) (λ _ _, True).
Proof.
  intros He. apply tracks_bind, tracks_update_fs_status; [done|intros; by apply tracks_ret|].
  intros o _. apply tracks_bind, tracks_updateFailoverEvent. by apply tracks_ret.
Qed.

(** The status of a completed transition. *)
Lemma complete_edge cur fs t :
  may_complete cur t →
  st_Transition (fs_status fs) = None →
  st_LastKnownFailoverActive (fs_status fs)
    = Some (bool_decide (ts_TargetDirection t = directionFailover)) →
  st_ActiveGeneration (fs_status fs) = i64 (st_ActiveGeneration (fs_status cur) + 1) →
  st_ActiveCluster (fs_status fs) = fr_ClusterID r →
  edge r cur (fs_status fs).
Proof. intros [Ht Hc] H1 H2 H3 H4. by eapply E_complete. Qed.

Lemma applyRemoteWinnerState_fields rs prev fs :
  let fs' := applyRemoteWinnerState (Some rs) prev fs in
  fs_spec fs' = fs_spec fs ∧ fs_meta fs' = fs_meta fs
  ∧ st_Transition (fs_status fs') = st_Transition (fs_status fs)
  ∧ st_LastKnownFailoverActive (fs_status fs') = Some prev
  ∧ st_RemoteState (fs_status fs') = Some rs
  ∧ st_ActiveGeneration (fs_status fs') = rs_ActiveGeneration rs.
Proof. unfold applyRemoteWinnerState. by destruct (decide _). Qed.

Lemma update_answer_same cur fs o :
  update_answer cur KFailoverService fs o →
  sp_PrimaryCluster (fs_spec fs) = sp_PrimaryCluster (fs_spec cur) →
  sp_FailoverCluster (fs_spec fs) = sp_FailoverCluster (fs_spec cur) →
  fs_status o = fs_status cur ∧ same_targets cur o.
Proof. intros (Hst & Hspec & _) H1 H2. split; [done|]. split; by rewrite Hspec. Qed.

(** The write after an adopted direction leaves the machine idle, with the new
    direction pending unless it was the old one. *)
Lemma pending_after o prev :
  st_LastKnownFailoverActive (fs_status o) = Some prev →
  eqb prev (sp_FailoverActive (fs_spec o)) = false → transition_pending o = true.
Proof. unfold transition_pending. intros -> ->. done. Qed.

Lemma adopt_remote_completed_follows cur fs remote saved t :
  fs_spec fs = fs_spec cur → fs_meta fs = fs_meta cur → may_complete cur t →
  st_LastKnownFailoverActive (fs_status fs)
    = Some (bool_decide (ts_TargetDirection t = directionFailover)) →
  tracks cur (adopt_remote_completed r fs remote saved
    (bool_decide (ts_TargetDirection t = directionFailover))) (λ _ _, True).
Proof.
  intros Hspec Hmeta Hc Hlk0. unfold adopt_remote_completed. cbv zeta.
  apply tracks_bind, tracks_update_fs; [|intros; by apply tracks_ret|].
  { right. exists (rs_FailoverActive remote). simpl. by rewrite Hspec. }
  intros o Ho. destruct (update_answer_same _ _ _ Ho) as [Hst Hsame]; [by simpl; rewrite Hspec..|].
  generalize (RemoteState_target remote (decode_over (set_FailoverActive (rs_FailoverActive remote) fs) o)).
  intros rs. set (fs1 := decode_over _ o).
  assert (Hd : st_LastKnownFailoverActive (fs_status fs1)
    = Some (default (bool_decide (ts_TargetDirection t = directionFailover))
              (st_LastKnownFailoverActive (fs_status o)))).
  { unfold fs1. simpl. rewrite Hlk0. by destruct (st_LastKnownFailoverActive (fs_status o)). }
  unfold LastKnown_target. rewrite Hd. simpl default at 1. set (d := default _ _).
  destruct (applyRemoteWinnerState_fields rs d fs1) as (Hs&Hm&Htr&Hlk&Hrs&Hg).
  apply tracks_bind, tracks_updateClusterStatus. intros cl.
  apply tracks_bind, tracks_update_fs_status; [|intros; by apply tracks_ret|].
  { destruct (may_complete_same _ _ _ Hc Hsame Hst) as [Ht Hcs]. by eapply E_adopt. }
  intros o2 (Hst2 & Hspec2 & _). apply tracks_bind, tracks_updateFailoverEvent.
  destruct (eqb _ _) eqn:Heq; [by apply tracks_ret|].
  assert (Htr2 : fs_transition o2 = None) by (unfold fs_transition; by rewrite Hst2).
  apply beginTransition_follows.
  - done.
  - unfold phase_of. by rewrite Htr2.
  - eapply pending_after; [|exact Heq]. rewrite Hst2. simpl. done.
Qed.

Lemma completeTransition_follows cur fs t t' :
  fs_spec fs = fs_spec cur → fs_meta fs = fs_meta cur →
  st_ActiveGeneration (fs_status fs) = st_ActiveGeneration (fs_status cur) →
  fs_transition fs = Some t' → ts_TargetDirection t' = ts_TargetDirection t →
  may_complete cur t → tracks cur (completeTransition r fs) (λ _ _, True).
Proof.
  intros Hspec Hmeta Hgen Ht' Hd Hc. unfold completeTransition. rewrite Ht'.
  apply tracks_bind, complete_cleanup_follows; [by eapply may_complete_clean|].
  apply tracks_bind, tracks_ret, tracks_bind, tracks_emit, tracks_bind, tracks_now. intros n.
  apply tracks_bind, tracks_updateClusterStatus. intros cl. rewrite Hd.
  assert (Hfin : ∀ f, st_Transition (fs_status f) = None →
    st_LastKnownFailoverActive (fs_status f)
      = Some (bool_decide (ts_TargetDirection t = directionFailover)) →
    st_ActiveGeneration (fs_status f) = i64 (st_ActiveGeneration (fs_status cur) + 1) →
    st_ActiveCluster (fs_status f) = fr_ClusterID r →
    tracks cur (finish_transition f t') (λ _ _, True)).
  { intros f ????. by apply finish_transition_follows, (complete_edge _ _ t). }
  destruct (fr_Syncer r) as [Sync|] eqn:Hsync; [|apply Hfin; simpl; by rewrite ?Hgen].
  apply tracks_bind, (tracks_sync _ Sync); [done|]. intros [err|res] Hres.
  - apply tracks_bind, tracks_bind, tracks_service_error, tracks_set_condition. intros m.
    apply Hfin; simpl; by rewrite ?Hgen.
  - cbv zeta. destruct (sr_RemoteWins res) eqn:Hw.
    + destruct (Hres Hw) as [st Hst]. rewrite Hst. apply tracks_bind, tracks_ret.
      by apply (adopt_remote_completed_follows _ _ _ _ t).
    + apply tracks_bind, tracks_set_condition. intros m. apply Hfin; simpl; by rewrite ?Hgen.
Qed.

(** ** The steady state *)

Lemma idle_edge cur fs :
  phase_of cur = PhaseIdle → fs_transition fs = fs_transition cur →
  (st_LastKnownFailoverActive (fs_status cur) = None
   ∨ st_LastKnownFailoverActive (fs_status fs) = st_LastKnownFailoverActive (fs_status cur)) →
  (st_ActiveGeneration (fs_status fs) = st_ActiveGeneration (fs_status cur)
     ∧ st_ActiveCluster (fs_status fs) = st_ActiveCluster (fs_status cur)
   ∨ ∃ rs, st_RemoteState (fs_status fs) = Some rs
       ∧ st_ActiveGeneration (fs_status fs) = rs_ActiveGeneration rs) →
  edge r cur (fs_status fs).
Proof. intros. by apply E_idle. Qed.

(** Not pending: the direction of the spec is the one last applied, if any. *)
Lemma not_pending fs :
  transition_pending fs = false →
  st_LastKnownFailoverActive (fs_status fs) = None
  ∨ Some (sp_FailoverActive (fs_spec fs)) = st_LastKnownFailoverActive (fs_status fs).
Proof.
  unfold transition_pending. destruct (st_LastKnownFailoverActive (fs_status fs)); [|by left].
  intros Hp%negb_false_iff%eqb_prop. right. by rewrite Hp.
Qed.

Lemma finish_steady_follows cur fs :
  copy cur fs → phase_of cur = PhaseIdle → fs_transition fs = fs_transition cur →
  transition_pending cur = false → tracks cur (finish_steady r fs) (λ _ _, True).
Proof.
  intros (Hspec & Hmeta & Hlk & Hg & Ha) Hi Ht Hp. unfold finish_steady.
  apply tracks_bind, tracks_updateClusterStatus. intros cl.
  apply tracks_bind, tracks_emit, tracks_persist, idle_edge; simpl; [done|done| |by left].
  rewrite Hspec. by apply not_pending.
Qed.

Lemma adopt_remote_steady_follows cur fs remote :
  copy cur fs → phase_of cur = PhaseIdle → fs_transition fs = fs_transition cur →
  transition_pending cur = false →
  tracks cur (adopt_remote_steady r fs remote (sp_FailoverActive (fs_spec cur))) (λ _ _, True).
Proof.
  intros (Hspec & Hmeta & _) Hi Ht Hp. unfold adopt_remote_steady.
  apply tracks_bind, tracks_update_fs; [|intros; by apply tracks_ret|].
  { right. exists (rs_FailoverActive remote). simpl. by rewrite Hspec. }
  intros o (Hst & _).
  generalize (RemoteState_target remote (decode_over (set_FailoverActive (rs_FailoverActive remote) fs) o)).
  intros rs. set (fs1 := decode_over _ o).
  assert (Htr1 : fs_transition fs1 = fs_transition o).
  { apply decode_over_transition. unfold fs_transition in Ht. simpl. by rewrite Ht, Hst. }
  destruct (applyRemoteWinnerState_fields rs (sp_FailoverActive (fs_spec cur)) fs1)
    as (Hs&Hm&Htr&Hlk&Hrs&Hg).
  assert (Hio : phase_of o = PhaseIdle).
  { unfold phase_of, fs_transition in *. by rewrite Hst. }
  apply tracks_bind, tracks_updateClusterStatus. intros cl.
  apply tracks_bind, tracks_update_fs_status; [|intros; by apply tracks_ret|].
  { apply idle_edge; [done| | |right; by eexists].
    - unfold fs_transition in *. simpl. by rewrite Htr.
    - simpl. rewrite Hlk, Hst. by apply not_pending. }
  intros o2 (Hst2 & _).
  destruct (eqb _ _) eqn:Heq; [by apply tracks_ret|].
  apply beginTransition_follows; [done| |].
  - rewrite <- Hio. apply phase_trunc. unfold fs_transition in *. rewrite Hst2, <- Htr1. simpl. by rewrite Htr.
  - eapply pending_after; [|exact Heq]. rewrite Hst2. simpl. done.
Qed.

Lemma reconcileSteadyState_follows cur fs :
  copy cur fs → phase_of cur = PhaseIdle → fs_transition fs = fs_transition cur →
  transition_pending cur = false → tracks cur (reconcileSteadyState r fs) (λ _ _, True).
Proof.
  intros Hc Hi Ht Hp. pose proof Hc as (Hspec & _). unfold reconcileSteadyState.
  destruct (fr_Syncer r) as [Sync|] eqn:Hsync; [|by apply finish_steady_follows].
  apply tracks_bind, (tracks_sync _ Sync); [done|]. intros [err|res] Hres.
  - apply tracks_bind, tracks_bind, tracks_service_error, tracks_set_condition. intros m.
    by apply finish_steady_follows.
  - cbv zeta. destruct (sr_RemoteWins res) eqn:Hw.
    + destruct (Hres Hw) as [st Hst]. rewrite Hst. apply tracks_bind, tracks_ret.
      rewrite Hspec. by apply adopt_remote_steady_follows.
    + apply tracks_bind, tracks_set_condition. intros m. by apply finish_steady_follows.
Qed.

Lemma reconcileIdle_follows cur :
  phase_of cur = PhaseIdle → tracks cur (reconcileIdle r cur) (λ _ _, True).
Proof.
  intros Hi. unfold reconcileIdle. destruct (transition_pending cur) eqn:Hp.
  - apply tracks_bind, tracks_now. intros n. by apply beginTransition_follows.
  - apply tracks_bind, tracks_service; [by left|]. intros [err|].
    + apply tracks_bind, tracks_service_error, tracks_bind, tracks_set_condition. intros n.
      apply tracks_bind, tracks_update_fs_status; [|intros; by apply tracks_ret..].
      apply idle_edge; simpl; auto.
    + apply tracks_bind, tracks_set_condition. intros n.
      by apply reconcileSteadyState_follows.
Qed.

(** ** Updating the resources *)

Lemma reconcileUpdatingResources_follows cur :
  phase_of cur = PhaseUpdatingResources →
  tracks cur (reconcileUpdatingResources r cur) (λ _ _, True).
Proof.
  intros Hph. unfold reconcileUpdatingResources, phase_of in *.
  destruct (fs_transition cur) as [t|] eqn:Ht; [|done].
  apply tracks_bind, tracks_ret, tracks_bind, tracks_service.
  { right. unfold phase_of. by rewrite Ht. }
  intros [err|].
  - apply tracks_bind, tracks_service_error. by apply tracks_ret.
  - apply tracks_bind, tracks_set_condition. intros n.
    apply tracks_bind, tracks_updateClusterStatus. intros cl. apply tracks_persist.
    eapply E_resources; [done|done| |done]. unfold enter_phase, upd_Transition. simpl.
    unfold fs_transition in Ht |- *. simpl. by rewrite Ht.
Qed.

(** ** Executing actions *)

(** The handlers of an action work on [fs], a copy of [cur] whose index, if it
    was negative, has been reset. *)
Record at_action cur fs (isPre : bool) (t : TransitionStatus) (idx : nat) (a : FailoverAction)
    (x : ActionResult) : Prop := {
  aa_copy : copy cur fs;
  aa_transition : fs_transition cur = Some t;
  aa_phase : ts_Phase t = action_phase isPre;
  aa_idx : idx = current_index t;
  aa_action : current_actions r cur isPre t !! idx = Some a;
  aa_result : phase_results isPre t !! idx = Some x;
  aa_fs : fs_transition fs = Some (set_ActionIndex (Z.of_nat idx) t) }.

Lemma result_edge cur fs fs' isPre t idx a x x' (adv : bool) :
  at_action cur fs isPre t idx a x → result_step a x x' adv →
  fs_transition fs' = Some (set_ActionIndex (Z.of_nat (idx + if adv then 1 else 0))
    (set_phase_results isPre (<[idx := x']> (phase_results isPre t)) t)) →
  same_baseline (fs_status fs) (fs_status fs') → edge r cur (fs_status fs').
Proof.
  intros [(?&?&Hb) ? ? -> ? ? ?] Hs Ht Hb'. eapply E_result; try done.
  unfold same_baseline in *. destruct Hb as (<-&<-&<-). done.
Qed.

Lemma put_result_transition isPre idx x fs t :
  fs_transition fs = Some (set_ActionIndex (Z.of_nat idx) t) →
  fs_transition (put_result isPre idx x fs)
  = Some (set_ActionIndex (Z.of_nat idx)
      (set_phase_results isPre (<[idx := x]> (phase_results isPre t)) t)).
Proof.
  intros Ht. unfold put_result, upd_Transition. unfold fs_transition at 1. simpl.
  rewrite Ht. by destruct isPre.
Qed.
Lemma advance_index_transition idx fs t :
  fs_transition fs = Some (set_ActionIndex (Z.of_nat idx) t) →
  fs_transition (advance_index fs) = Some (set_ActionIndex (Z.of_nat (idx + 1)) t).
Proof.
  intros Ht. unfold advance_index, upd_Transition. unfold fs_transition at 1. simpl.
  rewrite Ht. simpl. unfold set_ActionIndex. simpl. by rewrite Nat2Z.inj_add.
Qed.

(** The result is written back unchanged. *)
Lemma unchanged_result isPre idx (x : ActionResult) t :
  phase_results isPre t !! idx = Some x →
  set_phase_results isPre (<[idx := x]> (phase_results isPre t)) t = t.
Proof. intros Hx. rewrite list_insert_id by done. by destruct isPre, t. Qed.

Section at_action.
Context cur fs isPre t idx a x (Hat : at_action cur fs isPre t idx a x).

Lemma persist_result x' res :
  result_step a x x' false → tracks cur (persist (put_result isPre idx x' fs) res) (λ _ _, True).
Proof.
  intros Hs. apply tracks_persist. eapply result_edge; [done..| |done].
  rewrite Nat.add_0_r. apply put_result_transition, Hat.
Qed.
Lemma persist_result_advance x' res :
  result_step a x x' true →
  tracks cur (persist (advance_index (put_result isPre idx x' fs)) res) (λ _ _, True).
Proof.
  intros Hs. apply tracks_persist. eapply result_edge; [done..| |done].
  apply advance_index_transition, put_result_transition, Hat.
Qed.
Lemma persist_advance res :
  result_step a x x true → tracks cur (persist (advance_index fs) res) (λ _ _, True).
Proof.
  intros Hs. apply tracks_persist. eapply result_edge; [done..| |done].
  rewrite unchanged_result by apply Hat. apply advance_index_transition, Hat.
Qed.

Lemma check_action_timeout_follows limit (Q : option Answer → FailoverService → Prop) :
  in_progress (ar_Status x) → Q None cur → (∀ ans fs', Q (Some ans) fs') →
  tracks cur (check_action_timeout fs isPre idx a x limit) Q.
Proof.
  intros Hp HN HS. unfold check_action_timeout.
  destruct limit as [[timeout msg]|]; [|by apply tracks_ret].
  destruct (ar_StartedAt x) as [st|] eqn:Hst; [|by apply tracks_ret].
  apply tracks_bind. unfold CheckTimeout. apply tracks_bind, tracks_now. intros n.
  apply tracks_ret. destruct (After _ _); [|by apply tracks_ret].
  apply tracks_bind, tracks_now. intros m. apply tracks_bind, tracks_emit, tracks_bind.
  rewrite <- Hst. eapply tracks_mono; [apply persist_result|].
  - apply RS_timeout; [done|by rewrite Hst].
  - intros ans ? _. by apply tracks_ret.
Qed.

(** Unless it answers, the action is being executed and nothing was written. *)
Lemma handleActionState_follows :
  tracks cur (handleActionState fs isPre idx a x)
    (λ h cur', h = None → cur' = cur ∧ in_progress (ar_Status x)).
Proof.
  unfold handleActionState.
  assert (Hdone : ∀ m : IO Answer, tracks cur m (λ _ _, True) →
    tracks cur (ans ← m; mret (Some ans))
      (λ h cur', h = None → cur' = cur ∧ in_progress (ar_Status x))).
  { intros m Hm. apply tracks_bind. eapply tracks_mono; [exact Hm|].
    intros ans ? _. by apply tracks_ret. }
  assert (Htimeouts : in_progress (ar_Status x) →
    tracks cur (
      h ← check_action_timeout fs isPre idx a x (waitready_timeout a);
      match h with
      | Some ans => mret (Some ans)
      | None =>
          h ← check_action_timeout fs isPre idx a x (scale_timeout a);
          match h with
          | Some ans => mret (Some ans)
          | None => check_action_timeout fs isPre idx a x (waitremote_timeout a)
          end
      end) (λ h cur', h = None → cur' = cur ∧ in_progress (ar_Status x))).
  { intros Hp. apply tracks_bind, check_action_timeout_follows; [done| |by intros; apply tracks_ret].
    apply tracks_bind, check_action_timeout_follows; [done| |by intros; apply tracks_ret].
    by apply check_action_timeout_follows. }
  destruct (ar_Status x) eqn:Hx.
  - apply tracks_bind, tracks_now. intros n. apply Hdone, persist_result. by apply RS_start.
  - by apply Htimeouts.
  - apply Hdone, persist_advance, RS_done. by left.
  - destruct (fa_IgnoreFailure a) eqn:Hi.
    + apply tracks_bind, tracks_now. intros n.
      apply Hdone, persist_result_advance. by apply RS_ignore.
    + apply tracks_bind, tracks_updateFailoverEvent, tracks_bind, tracks_set_condition. intros n.
      apply Hdone, tracks_persist. eapply (result_edge _ fs _ _ _ _ _ _ x false); [done| | |done].
      * by apply RS_halt.
      * rewrite unchanged_result by apply Hat. rewrite Nat.add_0_r. apply Hat.
  - apply Hdone, persist_advance, RS_done. by right.
  - by apply Htimeouts.
Qed.

Lemma action_error_follows err :
  in_progress (ar_Status x) → tracks cur (action_error fs isPre idx a x err) (λ _ _, True).
Proof.
  intros Hp. unfold action_error. cbv zeta. destruct (Z.ltb_spec (actionMaxRetries a)
    (i64 (ar_RetryCount x + 1))) as [Hn|Hn].
  - apply tracks_bind, tracks_now. intros n. apply tracks_bind, tracks_emit, persist_result.
    exact (RS_exhausted a x _ n _ Hp eq_refl Hn).
  - apply persist_result. exact (RS_retry a x _ _ Hp eq_refl Hn).
Qed.

Lemma action_completed_follows job msg ok :
  in_progress (ar_Status x) →
  tracks cur (action_completed fs isPre idx a
    {| x with ar_JobName := job; ar_Message := msg |} ok) (λ _ _, True).
Proof.
  intros Hp. unfold action_completed. apply tracks_bind, tracks_now. intros n.
  apply tracks_bind. eapply (tracks_mono r cur _ (λ _ cur', cur' = cur)).
  { simpl. destruct (ar_StartedAt x); [|by apply tracks_ret].
    destruct ok; [apply tracks_bind, tracks_emit|]; by apply tracks_emit. }
  intros _ ? ->. destruct ok; [apply persist_result_advance|apply persist_result].
  - exact (RS_completed a x n job msg true Hp).
  - exact (RS_completed a x n job msg false Hp).
Qed.

Lemma runAction_follows :
  in_progress (ar_Status x) →
  tracks cur (runAction r fs isPre idx a x (set_ActionIndex (Z.of_nat idx) t)) (λ _ _, True).
Proof.
  intros Hp. unfold runAction. destruct wired_executor as [exec He].
  apply tracks_bind, (tracks_deref r cur _ exec); [done|].
  apply tracks_bind. pose proof (wired_actions _ He).
  eapply (tracks_rg r action_event); [apply execute_safe| |].
  - intros e. apply action_event_ok. exists t, isPre, x. destruct Hat; subst; auto.
  - intros [err|res] _; [by apply action_error_follows|]. cbv zeta.
    destruct (negb (Completed res)); [|by apply action_completed_follows].
    apply persist_result. by apply RS_running.
Qed.
End at_action.

Lemma end_action_phase_follows cur fs isPre t t' :
  copy cur fs → fs_transition cur = Some t → ts_Phase t = action_phase isPre →
  phase_over r cur isPre t → fs_transition fs = Some t' →
  set_ActionIndex 0 t' = set_ActionIndex 0 t →
  tracks cur (end_action_phase r fs isPre) (λ _ _, True).
Proof.
  intros (Hspec & Hmeta & Hb) Ht Hp Ho Ht' Htt. unfold end_action_phase. destruct isPre.
  - apply tracks_bind, tracks_updateClusterStatus. intros cl. apply tracks_persist.
    eapply E_pre_done; [done..| |exact Hb]. unfold upd_Transition. simpl. rewrite Ht'. simpl.
    f_equal. change (set_Phase PhaseUpdatingResources (set_ActionIndex 0 t')
      = set_Phase PhaseUpdatingResources (set_ActionIndex 0 t)). by rewrite Htt.
  - destruct Hb as (_ & Hg & _). eapply (completeTransition_follows _ _ t t'); try done.
    + change (ts_TargetDirection (set_ActionIndex 0 t') = ts_TargetDirection (set_ActionIndex 0 t)).
      by rewrite Htt.
    + split; [done|]. by right.
Qed.

Lemma executeActionPhase_follows cur isPre :
  phase_of cur = action_phase isPre →
  tracks cur (executeActionPhase r cur isPre) (λ _ _, True).
Proof.
  intros Hph. unfold executeActionPhase, phase_of in *.
  destruct (fs_transition cur) as [t|] eqn:Ht; [|by destruct isPre].
  apply tracks_bind, tracks_ret. cbv zeta.
  change (match getTransitionHooks r cur (ts_TargetDirection t) with
          | Some h => phase_actions isPre h | None => [] end) with (current_actions r cur isPre t).
  set (t0 := if (ts_CurrentActionIndex t <? 0)%Z then set_ActionIndex 0 t else t).
  set (fs := if (ts_CurrentActionIndex t <? 0)%Z then set_Transition (Some t0) cur else cur).
  assert (Ht0 : t0 = set_ActionIndex (Z.of_nat (current_index t)) t).
  { unfold t0, current_index. destruct (Z.ltb_spec (ts_CurrentActionIndex t) 0).
    - rewrite Z2Nat.nonpos; [done|lia].
    - rewrite Z2Nat.id by done. by destruct t. }
  assert (Hidx : Z.to_nat (ts_CurrentActionIndex t0) = current_index t).
  { rewrite Ht0. simpl. apply Nat2Z.id. }
  assert (Hfs : fs_transition fs = Some t0 ∧ copy cur fs).
  { unfold fs, t0. destruct (ts_CurrentActionIndex t <? 0)%Z; [done|]. by rewrite Ht. }
  destruct Hfs as [Hfs Hcopy]. rewrite Hidx. clearbody fs t0. subst t0.
  assert (Hend : phase_over r cur isPre t → tracks cur (end_action_phase r fs isPre) (λ _ _, True)).
  { intros Ho. by eapply end_action_phase_follows. }
  destruct (current_actions r cur isPre t !! current_index t) as [a|] eqn:Ha;
    [|by apply Hend; left].
  destruct (phase_results isPre t !! current_index t) as [x|] eqn:Hx; [|by apply Hend; right].
  assert (Hat : at_action cur fs isPre t (current_index t) a x) by done.
  apply tracks_bind. eapply tracks_mono; [eapply handleActionState_follows, Hat|].
  intros [ans|] cur' Hh; [by apply tracks_ret|]. destruct (Hh eq_refl) as [-> Hp].
  by eapply runAction_follows.
Qed.

(** ** Flushing *)

(** A copy of [cur], in its flushing phase with transition [t], whose kill record
    is [ck]. *)
Definition flush_copy cur t fs (ck : option ConnectionKillStatus) : Prop :=
  copy cur fs ∧ fs_transition fs = Some (set_ConnectionKill ck t)
  ∧ kill_step (ts_ConnectionKill t) ck.

Section flush.
Context cur t (Ht : fs_transition cur = Some t) (Hph : ts_Phase t = PhaseFlushingConnections).

Lemma flush_copy_refl : flush_copy cur t cur (ts_ConnectionKill t).
Proof. split; [done|]. split; [by rewrite Ht; destruct t|constructor]. Qed.

Lemma flush_edge fs ck : flush_copy cur t fs ck → edge r cur (fs_status fs).
Proof. intros ((_&_&Hb) & Hf & Hk). by eapply E_flush. Qed.

Lemma upd_kill fs ck' ck :
  copy cur fs → fs_transition fs = Some (set_ConnectionKill ck' t) →
  kill_step (ts_ConnectionKill t) ck →
  flush_copy cur t (upd_Transition (set_ConnectionKill ck) fs) ck.
Proof.
  intros Hc Hf Hk. split; [done|]. split; [|done].
  unfold upd_Transition. unfold fs_transition at 1. simpl. by rewrite Hf.
Qed.

(** Goes on with a copy, or has answered. *)
Definition flushed (step : flush_step) cur' : Prop :=
  match step with
  | inl _ => True
  | inr (fs, _) => cur' = cur ∧ ∃ ck, flush_copy cur t fs ck
  end.

Lemma tracks_flush_status fs ck ans :
  flush_copy cur t fs ck →
  tracks cur (_ ← update_fs_status fs; mret (inl ans)) flushed.
Proof.
  intros Hf. apply tracks_bind, tracks_update_fs_status; [by eapply flush_edge|..];
    intros; by apply tracks_ret.
Qed.

Lemma flush_signal_follows ns addr :
  (∀ c, ts_ConnectionKill t = Some c → ck_SignalSent c = false) →
  tracks cur (flush_signal r cur ns addr t) flushed.
Proof.
  intros Hns. unfold flush_signal. apply tracks_bind, tracks_now. intros n. cbv zeta.
  apply tracks_bind.
  eapply (tracks_rg r signal_event); [apply SignalKill_safe| |].
  { intros e. apply signal_event_ok. unfold phase_of. by rewrite Ht. }
  destruct flush_copy_refl as (Hc & Hf & _).
  intros [err|[|node nodes]] _.
  - apply tracks_bind, tracks_service_error, tracks_bind, tracks_set_condition. intros m.
    eapply tracks_flush_status, flush_copy_refl.
  - apply tracks_bind, tracks_set_condition. intros m. apply tracks_ret. split; [done|].
    exists None. apply (upd_kill cur _ None Hc Hf), KS_none, Hns.
  - apply tracks_bind, tracks_now. intros m. apply tracks_bind, tracks_updateClusterStatus.
    intros cl. eapply tracks_flush_status, (upd_kill cur); [done|done|]. by apply KS_signal.
Qed.

Lemma ack_timed_out_follows fs ck msg :
  flush_copy cur t fs ck → tracks cur (ack_timed_out fs msg) flushed.
Proof.
  intros Hf. unfold ack_timed_out. apply tracks_bind, tracks_set_condition. intros n.
  apply tracks_bind, tracks_update_fs_status; [apply (flush_edge _ ck); exact Hf|..];
    intros; by apply tracks_ret.
Qed.

Lemma tracks_ack_timeout ck (Q : bool → FailoverService → Prop) :
  (∀ b, Q b cur) → tracks cur (ack_timeout ck) Q.
Proof.
  intros HQ. unfold ack_timeout. destruct (ck_SignaledAt ck); [|by apply tracks_ret].
  apply tracks_bind, tracks_now. intros n. by apply tracks_ret.
Qed.

Lemma flush_acks_follows ns addr ck :
  ts_ConnectionKill t = Some ck → ck_SignalSent ck = true →
  tracks cur (flush_acks cur ns addr ck) flushed.
Proof.
  intros Hck Hsent. unfold flush_acks. apply tracks_bind.
  eapply (tracks_rg r cleaning_event); [apply CheckAcks_safe| |].
  { intros e. apply cleaning_event_ok. left. unfold may_clean, phase_of. rewrite Ht. by left. }
  destruct flush_copy_refl as (Hc & Hf & _).
  intros [err|acks] _; cbv zeta.
  - apply tracks_bind, tracks_ack_timeout. intros [|]; [|by apply tracks_ret].
    eapply ack_timed_out_follows, flush_copy_refl.
  - assert (Hup : flush_copy cur t (upd_Transition (set_ConnectionKill
        (Some {| ck with ck_AckedNodes := as_AckedNodes acks |})) cur)
        (Some {| ck with ck_AckedNodes := as_AckedNodes acks |})).
    { apply (upd_kill cur _ _ Hc Hf). by apply KS_acks. }
    destruct (negb (as_AllAcked acks)).
    + apply tracks_bind, tracks_ack_timeout.
      intros [|]; [by eapply ack_timed_out_follows|by eapply tracks_flush_status].
    + apply tracks_bind, tracks_emit, tracks_bind, tracks_set_condition. intros n.
      apply tracks_ret. split; [done|]. by eexists.
Qed.

Lemma flush_kill_follows : tracks cur (flush_kill r cur t) flushed.
Proof.
  assert (Hstay : flushed (inr (cur, false)) cur).
  { split; [done|]. eexists. apply flush_copy_refl. }
  unfold flush_kill. destruct (fr_ConnSignaler r) as [ns|]; [|by apply tracks_ret].
  cbv zeta. destruct (_ && _); [|by apply tracks_ret].
  destruct (ts_ConnectionKill t) as [ck|] eqn:Hck; [destruct (ck_SignalSent ck) eqn:Hs|].
  - by apply flush_acks_follows.
  - apply flush_signal_follows. rewrite Hck. by intros ? [= <-].
  - apply flush_signal_follows. by rewrite Hck.
Qed.

Lemma flush_advance_follows fs ck :
  flush_copy cur t fs ck → tracks cur (flush_advance r fs) (λ _ _, True).
Proof.
  intros ((Hspec & Hmeta & Hb) & Hf & Hk). unfold flush_advance. rewrite Hf.
  apply tracks_bind, tracks_ret.
  assert (Hacts : ∀ l, match getTransitionHooks r fs (ts_TargetDirection t) with
    | Some h => ta_PostActions h | None => [] end = l → current_actions r cur false t = l).
  { intros l <-. assert (same_targets fs cur) as Hs by (by split; rewrite Hspec).
    rewrite <- (same_targets_actions fs cur false t Hs). done. }
  assert (Hcomplete : current_actions r cur false t = [] →
    tracks cur (completeTransition r fs) (λ _ _, True)).
  { intros Hnil. eapply (completeTransition_follows cur fs t); try done; [apply Hb|].
    split; [done|]. by left. }
  change (ts_TargetDirection (set_ConnectionKill ck t)) with (ts_TargetDirection t).
  destruct (getTransitionHooks r fs (ts_TargetDirection t)) as [[pre [|p post]]|];
    [by apply Hcomplete, Hacts| |by apply Hcomplete, Hacts].
  apply tracks_bind, tracks_updateClusterStatus. intros cl. apply tracks_persist.
  eapply E_flushed; [done|done|exact Hk| | |done].
  - by rewrite (Hacts _ eq_refl).
  - unfold enter_phase, upd_Transition. simpl. by rewrite Hf.
Qed.
End flush.

Lemma reconcileFlushingConnections_follows cur :
  phase_of cur = PhaseFlushingConnections →
  tracks cur (reconcileFlushingConnections r cur) (λ _ _, True).
Proof.
  intros Hph. unfold reconcileFlushingConnections, phase_of in *.
  destruct (fs_transition cur) as [t|] eqn:Ht; [|done].
  apply tracks_bind, tracks_ret, tracks_bind.
  eapply tracks_mono; [by apply flush_kill_follows|].
  intros [ans|[fs applied]] cur' Hstep; [by apply tracks_ret|].
  destruct Hstep as [-> [ck Hf]]. apply tracks_bind.
  destruct applied; [apply tracks_ret|apply tracks_set_condition; intros n];
    by eapply flush_advance_follows.
Qed.

(** ** Force-advance and reset *)

Lemma forceAdvanceActionPhase_follows cur t isPre (Q : TransitionStatus → FailoverService → Prop) :
  ts_Phase t = action_phase isPre → (∀ t', force_step t t' → Q t' cur) →
  tracks cur (forceAdvanceActionPhase isPre t) Q.
Proof.
  intros Hp HQ. unfold forceAdvanceActionPhase. cbv zeta.
  assert (Hnone : (ts_CurrentActionIndex t < 0)%Z
    ∨ phase_results isPre t !! current_index t = None → force_step t t).
  { intros Hn. apply FS_none; [by rewrite Hp; destruct isPre..|].
    intros p. rewrite Hp. by destruct isPre, p. }
  destruct (Z.leb_spec 0 (ts_CurrentActionIndex t)); [|apply tracks_ret, HQ, Hnone; by left].
  destruct (phase_results isPre t !! Z.to_nat (ts_CurrentActionIndex t)) as [x|] eqn:Hx;
    [|apply tracks_ret, HQ, Hnone; by right].
  apply tracks_bind, tracks_now. intros n. apply tracks_ret, HQ. by apply FS_skip.
Qed.

Lemma reconcile_force_advance_follows cur :
  force_requested cur = true → tracks cur (reconcile_force_advance cur) (λ _ _, True).
Proof.
  intros Hreq. unfold reconcile_force_advance. apply tracks_bind.
  eapply (tracks_mono r cur _ (λ (x : bool * FailoverService) cur', cur' = cur ∧ if x.1 then edge r cur (fs_status x.2)
    else x.2 = cur)).
  { unfold handleForceAdvance. destruct (fs_transition cur) as [t|] eqn:Ht; [|by apply tracks_ret].
    apply tracks_bind, tracks_updateFailoverEvent, tracks_bind.
    assert (Hstep : ∀ t', force_step t t' → tracks cur
      (mret (true, remove_condition ConditionActionFailed (set_Transition (Some t') cur)))
      (λ (x : bool * FailoverService) cur', cur' = cur ∧ if x.1 then edge r cur (fs_status x.2) else x.2 = cur)).
    { intros t' Hs. apply tracks_ret. split; [done|]. by eapply E_force. }
    assert (Hother : (∀ p, ts_Phase t ≠ action_phase p) → ts_Phase t ≠ PhaseUpdatingResources →
      ts_Phase t ≠ PhaseFlushingConnections → force_step t t).
    { intros Ha ??. apply FS_none; [done..|]. by intros p ?%Ha. }
    destruct (ts_Phase t) eqn:Hp;
      [|by apply (forceAdvanceActionPhase_follows cur t true)| | |
       by apply (forceAdvanceActionPhase_follows cur t false)|];
      apply tracks_ret, Hstep.
    - apply Hother; [by intros []|done..].
    - by apply FS_flush.
    - by apply FS_post.
    - apply Hother; [by intros []|done..]. }
  intros [modified fs] ? [-> Hm]; simpl in *. apply tracks_bind.
  assert (Hrest : ∀ f, tracks f (s ← update_fs (set_meta (delete_annotation
      forceAdvanceAnnotation (fs_meta f)) f);
      match s with inl err => failed err | inr _ => mret (requeue, None) end) (λ _ _, True)).
  { intros f. apply tracks_bind, tracks_update_fs; [by left|..]; intros; by apply tracks_ret. }
  destruct modified.
  - apply tracks_update_fs_status; [done|intros; by apply tracks_ret|]. intros o _. apply Hrest.
  - subst. apply tracks_ret, Hrest.
Qed.

Lemma reset_unknown_phase_follows cur p :
  phase_of cur = PhaseOther p →
  tracks cur (reset_unknown_phase r cur (PhaseOther p)) (λ _ _, True).
Proof.
  intros Hp. unfold reset_unknown_phase. apply tracks_bind, tracks_set_condition. intros n.
  apply tracks_bind, tracks_updateClusterStatus. intros cl. apply tracks_persist.
  by eapply E_reset.
Qed.

(** ** Reconcile *)

Lemma dispatch_follows cur : tracks cur (dispatch r cur) (λ _ _, True).
Proof.
  unfold dispatch. cbv zeta. fold (phase_of cur). destruct (phase_of cur) eqn:Hp.
  - by apply reconcileIdle_follows.
  - by apply executeActionPhase_follows.
  - by apply reconcileUpdatingResources_follows.
  - by apply reconcileFlushingConnections_follows.
  - by apply executeActionPhase_follows.
  - by apply reset_unknown_phase_follows.
Qed.

Lemma reconcile_deletion_follows cur :
  deleting cur → tracks cur (reconcile_deletion r cur) (λ _ _, True).
Proof.
  intros Hd. unfold reconcile_deletion. destruct (ContainsFinalizer _ _); [|by apply tracks_ret].
  apply tracks_bind. eapply (tracks_mono r cur _ (λ _ cur', cur' = cur)).
  { destruct (fr_ConnSignaler r); [|by apply tracks_ret].
    apply tracks_cleanup_signals; [by right|done]. }
  intros _ ? ->. apply tracks_bind, tracks_update_fs; [by left|..]; intros; by apply tracks_ret.
Qed.

(** The part of a reconcile after the object has been fetched. *)
Lemma reconcile_object_follows cur :
  tracks cur (if negb (time_ptr_IsZero (om_DeletionTimestamp (fs_meta cur)))
    then reconcile_deletion r cur
    else s ← ensure_finalizer cur;
         match s with
         | inl err => failed err
         | inr fs =>
             s ← ensure_cluster_id r fs;
             match s with
             | inl err => failed err
             | inr fs => if force_requested fs then reconcile_force_advance fs else dispatch r fs
             end
         end) (λ _ _, True).
Proof.
  destruct (negb _) eqn:Hd; [apply reconcile_deletion_follows; by apply negb_true_iff|].
  assert (Hensure : ∀ fs (b : bool) m (Q : goerr + FailoverService → FailoverService → Prop),
    (∀ err, Q (inl err) fs) → (∀ o, Q (inr o) o) →
    tracks fs (if b then update_fs (set_meta m fs) else mret (inr fs)) Q).
  { intros fs b m Q H1 H2. destruct b; [|by apply tracks_ret].
    apply tracks_update_meta; [by left|done|done|auto]. }
  apply tracks_bind, Hensure; [intros; by apply tracks_ret|]. intros fs.
  apply tracks_bind, Hensure; [intros; by apply tracks_ret|]. intros fs'.
  destruct (force_requested fs') eqn:Hf; [by apply reconcile_force_advance_follows|].
  apply dispatch_follows.
Qed.
End proofs.
