(* ===== verification/ControllerProps.v ===== *)
(** * Properties of the controller

    Consequences of the refinement for whole reconciles of the configured
    controller: the conditions of its effects, and what the statuses it writes
    do to a transition; with runs of the code against an in-memory API server as
    witnesses. *)
From stdpp Require Import base gmap strings list numbers.
From S2P Require Import Prelude GoStd GoNetIP Types Kube Logic ApiServer Fixtures ServiceManager Actions WaitRemote RemoteCluster Watcher Signaler Controller ControllerSpec ControllerProofs.

(** ** The configured reconciler *)

Lemma new_reconciler_wired `{KubeLibLaws} Getenv provider r :
  NewReconcilerFromEnv Getenv provider = inr r → WellWired r.
Proof.
  unfold NewReconcilerFromEnv. cbv zeta. generalize (if decide (Getenv "CONTROLLER_NAMESPACE" = "")
    then "k8s-failover-manager-system" else Getenv "CONTROLLER_NAMESPACE") as ns.
  generalize (if decide (Getenv "CLUSTER_ROLE" = "") then rolePrimary else Getenv "CLUSTER_ROLE")
    as role.
  intros role ns. do 4 (case_decide; [done|]). intros [= <-]. split; simpl.
  - by eexists.
  - intros exec [= <-]. apply NewMultiExecutor_safe. apply provider_at_safe.
  - intros Sync fs [= <-]. apply Sync_safe.
Qed.

(** The events of a reconcile of [req] that has fetched [fs]. *)
Definition run_after_get `{KubeLib} (r : FailoverServiceReconciler) (req : NamespacedName)
    (E : Env) (h : hist) (fs : FailoverService) (t : hist) : Prop :=
  (Reconcile r req E h).2 = Ev (Get local KFailoverService req) (inr fs) :: t.

(** The object an event fetched. *)
Definition fetched (e : event) : option (goerr + FailoverService) :=
  match e with
  | Ev (Get _ k _) x =>
      match k as k return goerr + kobj k → option (goerr + FailoverService) with
      | KFailoverService => λ x, Some x
      | _ => λ _, None
      end x
  | _ => None
  end.

Lemma run_after_get_inv `{KubeLib} r req E h fs t :
  run_after_get r req E h fs t →
  head (Reconcile r req E h).2 ≫= fetched = Some (inr fs) ∧ tail (Reconcile r req E h).2 = t.
Proof. unfold run_after_get. intros ->. done. Qed.

Section properties.
Context `{KubeLibLaws}.

Lemma Reconcile_follows r req :
  WellWired r →
  wp (Reconcile r req) (λ o t, ∃ x t', t = Ev (Get local KFailoverService req) x :: t'
    ∧ match x with
      | inl _ => t' = [] ∧ o ≠ Panic
      | inr fs => follows r fs t' ∧ (answers_ok fs t' → o ≠ Panic)
      end).
Proof.
  intros Hw. unfold Reconcile. wp_step. destruct r0 as [err|fs].
  - destruct (IsNotFound err); apply wp_ret; do 2 eexists; done.
  - eapply wp_mono; [apply (reconcile_object_follows r fs)|].
    intros o t [Hf Ha]. eexists _, t. split; [done|]. split; [done|].
    intros Hok. by destruct o; [|destruct (Ha Hok)].
Qed.

Lemma run_follows r req E h fs t :
  WellWired r → run_after_get r req E h fs t → follows r fs t.
Proof.
  intros Hw Hrun. destruct (Reconcile_follows r req Hw E h) as (x & t' & Ht & Hx).
  destruct (run_after_get_inv _ _ _ _ _ _ Hrun) as [Hf <-]. rewrite Ht in Hf |- *.
  simpl in *. simplify_eq. apply Hx.
Qed.

(** Every event of the run was allowed when it happened, the object then known
    being the one fetched as changed by the events before. *)
Lemma follows_event r fs t1 e t2 :
  follows r fs (t1 ++ e :: t2) → answers_ok fs t1 → ok_event r (after fs t1) e.
Proof.
  revert fs; induction t1 as [|e1 t1 IH]; simpl; intros fs; [by intros []|].
  intros [_ Hf] [Ha Hok]. by apply IH; [apply Hf|].
Qed.

Lemma run_event r req E h fs t1 e t2 :
  WellWired r → run_after_get r req E h fs (t1 ++ e :: t2) → answers_ok fs t1 →
  ok_event r (after fs t1) e.
Proof. intros Hw Hrun. eapply follows_event, run_follows; done. Qed.

(** ** Effects *)

Definition writes_service (e : event) : Prop :=
  match e with
  | Ev (Create k _) _ | Ev (Delete k _ _) _ => k = KService ∨ k = KEndpointSlice
  | Ev (Update t k _) _ => t_site t = Local ∧ (k = KService ∨ k = KEndpointSlice)
  | _ => False
  end.
Definition side_effect (e : event) : Prop :=
  match e with
  | Ev (HTTPDo _ _) _ | Ev (ScaleUpdate _ _ _) _ => True
  | Ev (Create k _) _ => k = KJob
  | _ => False
  end.

(** C1: the controller implements its state machine: every status a reconcile
    writes is one an edge of the machine allows from the object as it was last
    observed, whatever the environment answers (as long as the API server stores
    what it was given). *)
Theorem Reconcile_refines_machine Getenv provider r req E h fs t1 o x t2 :
  NewReconcilerFromEnv Getenv provider = inr r →
  run_after_get r req E h fs (t1 ++ Ev (UpdateStatus KFailoverService o) x :: t2) →
  answers_ok fs t1 → edge r (after fs t1) (fs_status o).
Proof.
  intros Hr%new_reconciler_wired Hrun Hok. exact (run_event _ _ _ _ _ _ _ _ Hr Hrun Hok).
Qed.

(** C4: the managed Service and its EndpointSlice are written only in the steady
    state with no change of direction pending, or in the phase that updates the
    resources: traffic is never switched before the pre-actions are over. *)
Theorem traffic_switched_in_its_phase Getenv provider r req E h fs t1 e t2 :
  NewReconcilerFromEnv Getenv provider = inr r →
  run_after_get r req E h fs (t1 ++ e :: t2) → answers_ok fs t1 →
  writes_service e → may_route (after fs t1).
Proof.
  intros Hr%new_reconciler_wired Hrun Hok. pose proof (run_event _ _ _ _ _ _ _ _ Hr Hrun Hok) as He.
  destruct e as [[] y]; simpl in *; try done.
  - by intros [->| ->].
  - intros [Ht Hk]. rewrite Ht in He. by destruct Hk as [->| ->].
  - by destruct He as [[? ?]|[-> _]]; [|intros [|]].
Qed.

(** C5: crash safety: an HTTP request is sent, a job created or a workload scaled
    only while the stored status records the current action as being executed,
    so a restarted controller knows that it may have happened. *)
Theorem side_effects_recorded Getenv provider r req E h fs t1 e t2 :
  NewReconcilerFromEnv Getenv provider = inr r →
  run_after_get r req E h fs (t1 ++ e :: t2) → answers_ok fs t1 →
  side_effect e → may_execute (after fs t1).
Proof.
  intros Hr%new_reconciler_wired Hrun Hok. pose proof (run_event _ _ _ _ _ _ _ _ Hr Hrun Hok) as He.
  destruct e as [[] y]; simpl in *; try done. intros ->. done.
Qed.

(** C10: a reconcile never panics. *)
Theorem Reconcile_no_panic Getenv provider r req E h :
  NewReconcilerFromEnv Getenv provider = inr r →
  (∀ fs t, run_after_get r req E h fs t → answers_ok fs t) →
  ∃ ans, (Reconcile r req E h).1 = Ret ans.
Proof.
  intros Hr%new_reconciler_wired Hok.
  destruct (Reconcile_follows r req Hr E h) as (x & t & Ht & Hx).
  destruct (Reconcile r req E h).1 as [ans|] eqn:Ho; [by eexists|].
  destruct x as [err|fs]; [by destruct Hx|]. destruct Hx as [_ Hx].
  by destruct (Hx (Hok fs t Ht)).
Qed.

(** A FailoverEvent is created only once its transition is stored, with the
    name, the direction and the FailoverService of that transition. *)
Theorem events_belong_to_transitions Getenv provider r req E h fs t1 o x t2 :
  NewReconcilerFromEnv Getenv provider = inr r →
  run_after_get r req E h fs (t1 ++ Ev (Create KFailoverEvent o) x :: t2) → answers_ok fs t1 →
  event_of (after fs t1) o.
Proof.
  intros Hr%new_reconciler_wired Hrun Hok. exact (run_event _ _ _ _ _ _ _ _ Hr Hrun Hok).
Qed.
End properties.

(** ** The machine *)

(** What a transition keeps from its beginning to its end. *)
Definition same_transition (t t' : TransitionStatus) : Prop :=
  ts_TargetDirection t' = ts_TargetDirection t
  ∧ ts_OldAddressSnapshot t' = ts_OldAddressSnapshot t
  ∧ ts_NewAddressSnapshot t' = ts_NewAddressSnapshot t
  ∧ ts_TransitionID t' = ts_TransitionID t ∧ ts_StartedAt t' = ts_StartedAt t
  ∧ ts_EventName t' = ts_EventName t
  ∧ length (ts_PreActionResults t') = length (ts_PreActionResults t)
  ∧ length (ts_PostActionResults t') = length (ts_PostActionResults t).

Lemma set_phase_results_same isPre idx x i t :
  same_transition t (set_ActionIndex i
    (set_phase_results isPre (<[idx := x]> (phase_results isPre t)) t)).
Proof. unfold same_transition. destruct isPre; simpl; rewrite length_insert; auto 10. Qed.

Lemma edge_forward r fs s t t' :
  edge r fs s → fs_transition fs = Some t → ts_Phase t ≠ PhaseIdle →
  st_Transition s = Some t' →
  same_transition t t' ∧ (PhaseOrder (ts_Phase t) <= PhaseOrder (ts_Phase t'))%Z.
Proof.
  intros He Ht Hp Ht'.
  assert (Hph : phase_of fs = ts_Phase t) by (unfold phase_of; by rewrite Ht).
  destruct He as [| |t0 isPre a x x' adv Ht0 ? ? ? ? Hs|t0 Ht0 Hq ? Hs|t0 Ht0 Hq Hs|t0 ck Ht0 Hq ? Hs
    |t0 ck Ht0 Hq ? ? Hs| | |t0 t1 ? Ht0 Hf Hs|]; try congruence;
    rewrite Ht in Ht0; rewrite Ht' in Hs; simplify_eq.
  - split; [apply set_phase_results_same|]. by destruct isPre.
  - simpl. rewrite Hq. done.
  - simpl. rewrite Hq. done.
  - done.
  - simpl. rewrite Hq. done.
  - destruct Hf as [isPre x n msg Hq|Hq|Hq|]; [|simpl; by rewrite Hq..|done].
    split; [apply set_phase_results_same|]. by destruct isPre.
Qed.

(** The direction a transition leads to. *)
Definition leads_to_failover (t : TransitionStatus) : bool :=
  bool_decide (ts_TargetDirection t = directionFailover).

(** The remote cluster's state has been adopted: its generation is taken over,
    the direction recorded as applied is the one that was recorded before. *)
Definition adopted (fs : FailoverService) (t : TransitionStatus) (s : FailoverServiceStatus) : Prop :=
  st_LastKnownFailoverActive s
    = Some (default (leads_to_failover t) (st_LastKnownFailoverActive (fs_status fs)))
  ∧ ∃ rs, st_RemoteState s = Some rs ∧ st_ActiveGeneration s = rs_ActiveGeneration rs.
(** The transition's own outcome has been recorded, as the next generation. *)
Definition concluded (r : FailoverServiceReconciler) (fs : FailoverService) (t : TransitionStatus)
    (s : FailoverServiceStatus) : Prop :=
  st_LastKnownFailoverActive s = Some (leads_to_failover t)
  ∧ st_ActiveGeneration s = i64 (st_ActiveGeneration (fs_status fs) + 1)
  ∧ st_ActiveCluster s = fr_ClusterID r.

Lemma edge_completion r fs s t :
  edge r fs s → fs_transition fs = Some t → st_Transition s = None →
  (0 < PhaseOrder (ts_Phase t))%Z → completable r fs t ∧ (concluded r fs t s ∨ adopted fs t s).
Proof.
  intros He Ht Hs Hp. assert (Hph : phase_of fs = ts_Phase t) by (unfold phase_of; by rewrite Ht).
  destruct He as [| | | | | | |t0 Ht0 Hc _ Hlk|t0 rs Ht0 Hc _ Hlk Hrs| |q Hq]; try congruence.
  - rewrite Ht in Ht0. simplify_eq. split; [done|]. by left.
  - rewrite Ht in Ht0. simplify_eq. split; [done|]. right. split; [done|]. by exists rs.
  - by rewrite <- Hph, Hq in Hp.
Qed.

Section transitions.
Context `{KubeLibLaws}.

(** C6: inside a transition every status a reconcile writes keeps the direction,
    the addresses and the identity the transition was started with, whatever
    happens to the spec, and never goes back to an earlier phase, unless it ends
    the transition. *)
Theorem transition_forward Getenv provider r req E h fs t1 o x t2 t t' :
  NewReconcilerFromEnv Getenv provider = inr r →
  run_after_get r req E h fs (t1 ++ Ev (UpdateStatus KFailoverService o) x :: t2) →
  answers_ok fs t1 →
  fs_transition (after fs t1) = Some t → ts_Phase t ≠ PhaseIdle → fs_transition o = Some t' →
  same_transition t t' ∧ (PhaseOrder (ts_Phase t) <= PhaseOrder (ts_Phase t'))%Z.
Proof.
  intros Hr%new_reconciler_wired Hrun Hok. pose proof (run_event _ _ _ _ _ _ _ _ Hr Hrun Hok) as He.
  by eapply edge_forward.
Qed.

(** C9: a reconcile ends a transition only when it is complete (the flush is
    reached and there is no post-action, or no post-action is left), and records
    its direction as the applied one, as the next generation of this cluster;
    only when the remote cluster's state is adopted at that moment, the
    direction recorded is the one recorded before the transition.  In both cases
    a spec that asks for another direction than the recorded one is pending. *)
Theorem transition_ends_by_completion Getenv provider r req E h fs t1 o x t2 t :
  NewReconcilerFromEnv Getenv provider = inr r →
  run_after_get r req E h fs (t1 ++ Ev (UpdateStatus KFailoverService o) x :: t2) →
  answers_ok fs t1 →
  fs_transition (after fs t1) = Some t → (0 < PhaseOrder (ts_Phase t))%Z → fs_transition o = None →
  completable r (after fs t1) t
  ∧ (concluded r (after fs t1) t (fs_status o) ∨ adopted (after fs t1) t (fs_status o))
  ∧ ∃ applied, st_LastKnownFailoverActive (fs_status o) = Some applied
    ∧ ∀ fs', fs_status fs' = fs_status o →
        transition_pending fs' = negb (eqb applied (sp_FailoverActive (fs_spec fs'))).
Proof.
  intros Hr%new_reconciler_wired Hrun Hok Ht Hp Hs.
  pose proof (run_event _ _ _ _ _ _ _ _ Hr Hrun Hok) as He.
  destruct (edge_completion r _ _ t He Ht Hs Hp) as [Hc Ho]. split; [done|]. split; [done|].
  assert (Hlk : is_Some (st_LastKnownFailoverActive (fs_status o))).
  { destruct Ho as [[-> _]|[-> _]]; by eexists. }
  destruct Hlk as [b Hb]. exists b. split; [done|]. intros fs' Hfs'.
  unfold transition_pending. by rewrite Hfs', Hb.
Qed.
End transitions.

(** ** Witnesses *)

Definition demo_getenv (name : string) : string :=
  if decide (name = "CLUSTER_ID") then "us-east-1"
  else if decide (name = "REMOTE_KUBECONFIG_SECRET") then "remote-kubeconfig"
  else if decide (name = "REMOTE_KUBECONFIG_NAMESPACE") then "failover-system"
  else "".
Definition demo_reconciler : FailoverServiceReconciler :=
  let provider := {| demo_cp with
    cp_SecretName := "remote-kubeconfig"; cp_SecretNamespace := "failover-system" |} in
  {| fr_ClusterRole := rolePrimary; fr_ClusterID := "us-east-1";
     fr_ServiceManager := {| m_ClusterRole := rolePrimary |};
     fr_Syncer := Some (Sync {| sy_ClusterID := "us-east-1"; sy_SyncTimeout := 0 |}
                          (provider_at provider));
     fr_ConnSignaler := Some "k8s-failover-manager-system";
     fr_ActionExecutor := Some (NewMultiExecutor (Some (provider_at provider)));
     fr_RemoteWatcher := Some {| rw_ClientProvider := provider; rw_lastConfigVer := "";
                                 rw_listClient := None; rw_watchClient := None |} |}.
Lemma demo_reconciler_configured : NewReconcilerFromEnv demo_getenv demo_cp = inr demo_reconciler.
Proof. reflexivity. Defined.

Definition demo_req : NamespacedName :=
  {| nn_Name := "mysql-failover"; nn_Namespace := "default" |}.
(** The demo service in transition [t]. *)
Definition demo_moving (t : TransitionStatus) : FailoverService :=
  {| (demo_fs true) with fs_status := {| demo_status with st_Transition := Some t |} |}.
Definition demo_world (fs : FailoverService) : Env :=
  sim quiet (put empty_store KFailoverService demo_req (Some fs)).
(** The events after the reconcile has fetched its object. *)
Definition demo_trace (fs : FailoverService) : hist :=
  tail (Reconcile demo_reconciler demo_req (demo_world fs) []).2.
(** Evaluates [answers_ok] by its decision procedure. *)
Ltac check_answers := apply (bool_decide_unpack _); vm_compute; exact I.

(** Applies a theorem about an event of a run to event [n] of the run on
    [fs]. *)
Ltac run_witness T fs n :=
  eapply (T demo_getenv demo_cp demo_reconciler demo_req (demo_world fs) [] fs
            (take n (demo_trace fs)));
  [exact demo_reconciler_configured|vm_compute; reflexivity|check_answers|..].

(** Failover is requested in the steady state: the reconcile stores a
    transition. *)
Lemma Reconcile_refines_machine_witness :
  ∃ o, edge demo_reconciler (demo_fs true) (fs_status o) ∧ is_Some (fs_transition o).
Proof.
  eexists. split.
  - run_witness (Reconcile_refines_machine (H := demo_lib)) (demo_fs true) 4.
  - vm_compute. eexists. reflexivity.
Defined.

(** Transition events: the traffic of the phase that updates the resources. *)
Lemma traffic_switched_in_its_phase_witness :
  may_route (demo_moving (demo_transition PhaseUpdatingResources 7)).
Proof.
  run_witness (traffic_switched_in_its_phase (H := demo_lib))
    (demo_moving (demo_transition PhaseUpdatingResources 7)) 1.
  left. reflexivity.
Defined.

(** A transition that notifies an HTTP endpoint before the switch. *)
Definition demo_notify : FailoverAction := {| demo_action with
  fa_HTTP := Some {| ha_URL := "https://hooks.example.com/failover"; ha_Method := "POST";
                     ha_Headers := ∅; ha_Body := None; ha_TimeoutSeconds := None |} |}.
Definition demo_hooked (status : ActionStatus) : FailoverService :=
  let fs := demo_moving {| (demo_transition PhaseExecutingPreActions 7) with
    ts_PreActionResults := [{|
      ar_Name := "notify"; ar_Status := status; ar_Message := ""; ar_StartedAt := Some 8%Z;
      ar_CompletedAt := None; ar_JobName := ""; ar_RetryCount := 0 |}] |} in
  {| fs with fs_spec := {| (fs_spec fs) with
       sp_PrimaryCluster := {| (sp_PrimaryCluster (fs_spec fs)) with
         ct_OnFailover := Some {| ta_PreActions := [demo_notify]; ta_PostActions := [] |} |} |} |}.

Lemma side_effects_recorded_witness : may_execute (demo_hooked ActionStatusRunning).
Proof.
  run_witness (side_effects_recorded (H := demo_lib)) (demo_hooked ActionStatusRunning) 2.
  exact I.
Defined.

Lemma Reconcile_no_panic_witness :
  ∃ ans, (Reconcile demo_reconciler demo_req (demo_world (demo_fs false)) []).1 = Ret ans.
Proof.
  apply (Reconcile_no_panic (H := demo_lib) demo_getenv demo_cp).
  - exact demo_reconciler_configured.
  - intros fs t Hrun.
    destruct (run_after_get_inv _ _ _ _ _ _ Hrun) as [Hf <-]. vm_compute in Hf.
    injection Hf as <-. check_answers.
Defined.

Lemma events_belong_to_transitions_witness :
  ∃ fs o, event_of fs o ∧ om_Name (fe_meta o) = "mysql-failover-failover-3000000000".
Proof.
  do 2 eexists. split.
  - run_witness (events_belong_to_transitions (H := demo_lib)) (demo_fs true) 5.
  - reflexivity.
Defined.

(** The status that ends the phase updating the resources, and the one that
    ends the transition: nothing has to be flushed here. *)
Lemma transition_forward_witness : ∃ t',
  same_transition (demo_transition PhaseUpdatingResources 7) t' ∧ ts_Phase t' = PhaseFlushingConnections.
Proof.
  refine (ex_intro _ ?[t'] _). split.
  - refine (proj1 (_ : _ ∧ (PhaseOrder PhaseUpdatingResources <= PhaseOrder (ts_Phase ?t'))%Z)).
    run_witness (transition_forward (H := demo_lib))
      (demo_moving (demo_transition PhaseUpdatingResources 7)) 6;
      [vm_compute; reflexivity|discriminate|vm_compute; reflexivity].
  - reflexivity.
Defined.

Lemma transition_ends_by_completion_witness : ∃ o,
  completable demo_reconciler (demo_moving (demo_transition PhaseFlushingConnections 7))
    (demo_transition PhaseFlushingConnections 7)
  ∧ st_LastKnownFailoverActive (fs_status o) = Some true ∧ st_ActiveGeneration (fs_status o) = 2%Z.
Proof.
  refine (ex_intro _ ?[o] _). split.
  - refine (proj1 (_ : _ ∧ (_ ∨ adopted _ _ (fs_status ?o)) ∧ _)).
    run_witness (transition_ends_by_completion (H := demo_lib))
      (demo_moving (demo_transition PhaseFlushingConnections 7)) 13;
      [vm_compute; reflexivity|reflexivity|vm_compute; reflexivity].
  - split; reflexivity.
Defined.
