(* ===== verification/WellFormed.v ===== *)
(** * Well-formed transitions

    The type of the state a transition keeps in the FailoverService's status: the
    values the schema's strings and integers really take, and the order in which
    the actions are worked through.  Every status a reconcile stores has it. *)
From stdpp Require Import base gmap strings list numbers.
From S2P Require Import Prelude GoStd GoNetIP Types Kube Logic ApiServer Fixtures ServiceManager Actions WaitRemote RemoteCluster Signaler Controller ControllerSpec ControllerProofs ControllerProps.

Definition pending (x : ActionResult) : Prop := ar_Status x = ActionStatusPending.
Definition settled_result (x : ActionResult) : Prop :=
  ar_Status x = ActionStatusSucceeded ∨ ar_Status x = ActionStatusSkipped.
Definition known_status (x : ActionResult) : Prop := ∀ s, ar_Status x ≠ StatusOther s.

(** The actions before the current one are settled, those after it untouched. *)
Definition in_order (rs : list ActionResult) (i : nat) : Prop :=
  i ≤ length rs ∧ ∀ j x, rs !! j = Some x →
    known_status x ∧ (j < i → settled_result x) ∧ (i < j → pending x).

Record well_formed (t : TransitionStatus) : Prop := {
  wf_index : (0 <= ts_CurrentActionIndex t)%Z;
  wf_phase :
    match ts_Phase t with
    | PhaseExecutingPreActions => in_order (ts_PreActionResults t) (current_index t)
    | PhaseUpdatingResources | PhaseFlushingConnections => current_index t = 0
    | PhaseExecutingPostActions => in_order (ts_PostActionResults t) (current_index t)
    | PhaseIdle | PhaseOther _ => False
    end;
  wf_post : ts_Phase t ≠ PhaseExecutingPostActions → Forall pending (ts_PostActionResults t);
  wf_direction : ts_TargetDirection t = directionFailover ∨ ts_TargetDirection t = directionFailback;
  wf_kill c : ts_ConnectionKill t = Some c →
    ck_SignalSent c = true ∧ ck_ExpectedNodes c ≠ []
    ∧ (ts_Phase t = PhaseFlushingConnections ∨ ts_Phase t = PhaseExecutingPostActions) }.
Definition well_formed_status (s : FailoverServiceStatus) : Prop :=
  ∀ t, st_Transition s = Some t → well_formed t.

(** ** Results *)

Lemma pending_in_order rs : Forall pending rs → in_order rs 0.
Proof.
  intros Hp. split; [lia|]. intros j x Hj. pose proof (Forall_lookup_1 _ _ _ _ Hp Hj) as Hx.
  split; [by intros s; rewrite Hx|]. split; [lia|done].
Qed.

Lemma in_order_step rs i x' (adv : bool) :
  in_order rs i → i < length rs → known_status x' → (adv = true → settled_result x') →
  in_order (<[i := x']> rs) (i + if adv then 1 else 0).
Proof.
  intros [Hl Hrs] Hi Hk Hadv. split; [rewrite length_insert; case_match; lia|].
  intros j y [(<- & -> & _)|[Hne Hj]]%list_lookup_insert_Some.
  - split; [done|]. split; destruct adv; intros; try lia; auto.
  - destruct (Hrs j y Hj) as (Hy & H1 & H2). split; [done|].
    split; intros; [apply H1|apply H2]; destruct adv; lia.
Qed.

Lemma result_step_known a x x' adv :
  result_step a x x' adv → known_status x → known_status x' ∧ (adv = true → settled_result x').
Proof.
  unfold known_status, settled_result. intros Hstep Hk.
  destruct Hstep as [ |[]| | | | | | |? ? ? []]; simpl; split; auto; congruence.
Qed.

Lemma set_phase_results_wf isPre i x' (adv : bool) t :
  well_formed t → ts_Phase t = action_phase isPre → i = current_index t →
  i < length (phase_results isPre t) → known_status x' → (adv = true → settled_result x') →
  well_formed (set_ActionIndex (Z.of_nat (i + if adv then 1 else 0))
    (set_phase_results isPre (<[i := x']> (phase_results isPre t)) t)).
Proof.
  intros [H1 H2 H3 H4 H5] Hp -> Hi Hk Hadv. rewrite Hp in *.
  destruct isPre; simpl in *; split; simpl; try rewrite Hp; try done; try lia.
  1, 2: unfold current_index; simpl; rewrite Nat2Z.id; by apply in_order_step.
Qed.

(** A transition that enters a phase after the pre-actions. *)
Lemma enter_wf p ck t :
  well_formed t → ts_Phase t ≠ PhaseExecutingPostActions →
  p = PhaseUpdatingResources ∧ ck = None
  ∨ (p = PhaseFlushingConnections ∨ p = PhaseExecutingPostActions)
    ∧ (∀ c, ck = Some c → ck_SignalSent c = true ∧ ck_ExpectedNodes c ≠ []) →
  well_formed (set_ActionIndex 0 (set_Phase p (set_ConnectionKill ck t))).
Proof.
  intros [H1 H2 H3 H4 H5] Hp Hck. specialize (H3 Hp).
  destruct Hck as [[-> ->]|[[-> | ->] Hck]]; split; simpl; try done.
  all: try (intros c Hc; destruct (Hck c Hc); auto).
  unfold current_index. simpl. by apply pending_in_order.
Qed.

Lemma kill_step_wf t ck :
  well_formed t → kill_step (ts_ConnectionKill t) ck →
  ∀ c, ck = Some c → ck_SignalSent c = true ∧ ck_ExpectedNodes c ≠ [].
Proof.
  intros [_ _ _ _ Hk] Hstep c Hc. destruct Hstep as [|Hn|c1 Hn Hs He Ha|c1 acked Hc1 Hs];
    simplify_eq; [|auto|].
  - destruct (Hk c Hc) as (?&?&?). auto.
  - destruct (Hk c1 Hc1) as (?&?&?). auto.
Qed.

(** A write of the record that changes nothing else. *)
Lemma set_ConnectionKill_id t : t = set_ConnectionKill (ts_ConnectionKill t) t.
Proof. by destruct t. Qed.

(** ** The machine *)

Section machine.
Context (r : FailoverServiceReconciler).

Lemma initial_transition_wf fs d n :
  d = directionFailover ∨ d = directionFailback → well_formed (initial_transition r fs d n).
Proof.
  intros Hd. unfold initial_transition. destruct (getTransitionAddresses r fs d) as [o a].
  assert (Hp : ∀ l, Forall pending (makeActionResults l))
    by (intros l; unfold makeActionResults; by apply Forall_fmap, Forall_true).
  split; simpl; try done.
  - destruct (getTransitionHooks r fs d) as [[[|x l] post]|]; try done. by apply pending_in_order.
  - intros _. destruct (getTransitionHooks r fs d) as [h|]; [apply Hp|constructor].
Qed.

Lemma force_step_wf t t' : well_formed t → force_step t t' → well_formed t'.
Proof.
  intros Hw Hf. destruct Hf as [isPre x n msg Hp H0 Hx|Hp|Hp|]; [..|done].
  - replace (ts_CurrentActionIndex t + 1)%Z with (Z.of_nat (current_index t + 1))
      by (unfold current_index; lia).
    apply (set_phase_results_wf isPre _ _ true); simpl; auto.
    + by eapply lookup_lt_Some.
    + by intros s.
    + by right.
  - rewrite (set_ConnectionKill_id t). apply enter_wf; [done|simpl; congruence|].
    right. split; [by left|]. apply (kill_step_wf t); [done|constructor].
  - rewrite (set_ConnectionKill_id t). apply enter_wf; [done|simpl; congruence|].
    right. split; [by right|]. apply (kill_step_wf t); [done|constructor].
Qed.

Lemma edge_wf fs s : edge r fs s → well_formed_status (fs_status fs) → well_formed_status s.
Proof.
  intros He Hw t' Ht'. destruct He as [n _ _ Hs|Hi Hs|t isPre a x x' adv Ht Hp Ha Hx Hr Hs|t Ht Hp _ Hs
    |t Ht Hp Hs|t ck Ht Hp Hk Hs|t ck Ht Hp Hk _ Hs|t Ht _ Hs|t rs Ht _ Hs|t t1 _ Ht Hf Hs|p Hp Hs];
    rewrite Ht' in Hs; simplify_eq; try specialize (Hw _ Ht).
  - apply initial_transition_wf. case_match; auto.
  - by apply Hw.
  - assert (Hkn : known_status x).
    { destruct Hw as [_ Hph _ _ _]. rewrite Hp in Hph. destruct isPre; destruct Hph as [_ Hph]; by destruct (Hph _ _ Hx). }
    destruct (result_step_known _ _ _ _ Hr Hkn).
    apply (set_phase_results_wf isPre _ _ adv); [done|done|done|by eapply lookup_lt_Some|done|done].
  - rewrite (set_ConnectionKill_id t). apply enter_wf; [done|congruence|]. left. split; [done|].
    destruct (ts_ConnectionKill t) as [c|] eqn:Hc; [|done].
    destruct (wf_kill _ Hw c Hc) as (_ & _ & [?|?]); congruence.
  - rewrite (set_ConnectionKill_id t). apply enter_wf; [done|congruence|]. right.
    split; [by left|]. apply (kill_step_wf t); [done|constructor].
  - pose proof (kill_step_wf t ck Hw Hk) as Hck. destruct Hw as [H1 H2 H3 H4 H5].
    split; simpl; try done. intros c Hc. destruct (Hck c Hc). auto.
  - apply enter_wf; [done|congruence|]. right. split; [by right|]. by apply (kill_step_wf t).
  - by eapply force_step_wf.
Qed.
End machine.

(** ** A reconcile *)

Lemma trunc_transition_wf t : well_formed t → well_formed (trunc_transition t).
Proof.
  assert (Ht : ∀ rs i, in_order rs i → in_order (trunc_result <$> rs) i).
  { intros rs i [Hl Hrs]. split; [by rewrite length_fmap|].
    intros j x (y & -> & Hy)%list_lookup_fmap_Some. exact (Hrs j y Hy). }
  intros [H1 H2 H3 H4 H5]. split; simpl; try done.
  - destruct (ts_Phase t); first [exact H2|exact (Ht _ _ H2)].
  - intros Hp. apply Forall_fmap. exact (H3 Hp).
  - intros c (c0 & Hc & ->)%fmap_Some. exact (H5 c0 Hc).
Qed.

(** A status update of the FailoverService. *)
Definition written_status (e : event) : option FailoverServiceStatus :=
  match e with
  | Ev (UpdateStatus k o) _ =>
      match k as k return kobj k → option FailoverServiceStatus with
      | KFailoverService => λ o, Some (fs_status o)
      | _ => λ _, None
      end o
  | _ => None
  end.

Lemma observe_wf fs e :
  answer_ok fs e → well_formed_status (fs_status fs) →
  (∀ s, written_status e = Some s → well_formed_status s) →
  well_formed_status (fs_status (observe fs e)).
Proof.
  intros Ha Hf Hs. destruct e as [[] x]; simpl in *; try done.
  - destruct x as [|o']; [done|]. destruct (t_site t); [|done]. destruct k; try done.
    simpl in *. destruct Ha as [-> _]. done.
  - destruct x as [|o']; [done|]. destruct k; try done. simpl in *. destruct Ha as [-> _].
    intros t' (t0 & Ht & ->)%fmap_Some. by apply trunc_transition_wf, (Hs _ eq_refl).
Qed.

Lemma follows_wf r fs t :
  follows r fs t → answers_ok fs t → well_formed_status (fs_status fs) →
  ∀ s, Some s ∈ (written_status <$> t) → well_formed_status s.
Proof.
  revert fs. induction t as [|e t IH]; simpl; intros fs Hfol Hok Hw; [by intros s ?%not_elem_of_nil|].
  destruct Hfol as [He Hfol], Hok as [Ha Hok].
  assert (Hs : ∀ s, written_status e = Some s → well_formed_status s).
  { intros s Hws. destruct e as [[] x]; try done. destruct k; try done. simpl in *. simplify_eq.
    by eapply edge_wf. }
  intros s [Hse|Hin]%elem_of_cons; [by apply Hs|].
  eapply (IH (observe fs e)); auto. by apply observe_wf.
Qed.

(** C7: the status keeps its type: as long as the stored transition is well
    formed (a phase of the enumeration, an index within its results, the actions
    before it settled and those after it untouched, the post-actions untouched
    until their phase, a kill record only from the flush on and with nodes to
    wait for) every status a reconcile stores is, and so is the object it goes
    on with. *)
Theorem transitions_well_formed `{KubeLibLaws} Getenv provider r req E h fs t :
  NewReconcilerFromEnv Getenv provider = inr r →
  run_after_get r req E h fs t → answers_ok fs t →
  well_formed_status (fs_status fs) →
  (∀ s, Some s ∈ (written_status <$> t) → well_formed_status s)
  ∧ well_formed_status (fs_status (after fs t)).
Proof.
  intros Hr%new_reconciler_wired Hrun Hok Hw. pose proof (run_follows _ _ _ _ _ _ Hr Hrun) as Hfol.
  split; [by eapply follows_wf|]. clear Hrun. revert fs Hok Hw Hfol.
  induction t as [|e t IH]; simpl; [done|intros fs [Ha Hok] Hw [He Hfol]].
  apply IH; auto. apply observe_wf; [done..|].
  intros s Hs. eapply (follows_wf r fs [e]); simpl; auto. rewrite Hs. constructor.
Qed.

(** ** Witness *)

(** The first pre-action is being executed. *)
Lemma demo_hooked_wf : well_formed_status (fs_status (demo_hooked ActionStatusRunning)).
Proof.
  intros t Ht. apply (inj Some) in Ht. subst t. split; simpl; try done; [|by left].
  split; [unfold current_index; simpl; lia|]. intros [|j] x Hx; [|done]. injection Hx as <-.
  split; [by intros s|]. unfold current_index. simpl. split; intros; lia.
Defined.

(** The status written when it has succeeded. *)
Lemma transitions_well_formed_witness : ∃ s t,
  well_formed_status s ∧ st_Transition s = Some t ∧ ts_CurrentActionIndex t = 1%Z.
Proof.
  do 2 eexists. split; [|split].
  - refine (proj1 (transitions_well_formed (H := demo_lib) demo_getenv demo_cp demo_reconciler demo_req
      (demo_world (demo_hooked ActionStatusRunning)) [] (demo_hooked ActionStatusRunning)
      (demo_trace (demo_hooked ActionStatusRunning)) demo_reconciler_configured _ _ demo_hooked_wf) _ _).
    + vm_compute. reflexivity.
    + check_answers.
    + apply (list_elem_of_lookup_2 _ 6). vm_compute. reflexivity.
  - reflexivity.
  - reflexivity.
Defined.
