(* ===== verification/ControllerProgress.v ===== *)
(** * Every transition comes to rest

    Each status a reconcile writes inside a transition either leaves a measure of
    what remains to be done as it is (a poll, a wait) or makes it smaller: over
    the [life] of a transition, the writes of any reconciles with whatever answers
    and whatever edits of the object in between, the number of those that move it
    on is bounded. *)
From Stdlib Require Import Wellfounded Zwf.
From stdpp Require Import base gmap strings list numbers option.
From S2P Require Import Prelude GoStd GoNetIP Types Kube Logic ApiServer Fixtures ServiceManager Actions WaitRemote RemoteCluster Signaler Controller ControllerSpec ControllerProofs ControllerProps.
Local Open Scope Z_scope.

(** ** The measure *)

(** The greatest value of the [int32] field [maxRetries]. *)
Definition retryCap : Z := 2 ^ 31 - 1.

(** What is left of an action: to be started, retries left, over. *)
Definition action_rank (x : ActionResult) : Z :=
  match ar_Status x with
  | ActionStatusPending => 2 ^ 32
  | ActionStatusRunning | StatusOther _ => 2 ^ 31 - ar_RetryCount x
  | _ => 0
  end.
Definition kill_rank (ck : option ConnectionKillStatus) : Z :=
  match ck with
  | Some c => if ck_SignalSent c then 0 else 1
  | None => 1
  end.

Lemma current_index_set n t : current_index (set_ActionIndex (Z.of_nat n) t) = n.
Proof. apply Nat2Z.id. Qed.

(** Actions left in a phase. *)
Definition left_in (t : TransitionStatus) (results : list ActionResult) : Z :=
  Z.of_nat (length results - current_index t).
Definition stages_left (t : TransitionStatus) : Z :=
  let post := Z.of_nat (length (ts_PostActionResults t)) in
  match ts_Phase t with
  | PhaseExecutingPreActions => left_in t (ts_PreActionResults t) + post + 3
  | PhaseUpdatingResources => post + 2
  | PhaseFlushingConnections => post + 1
  | PhaseExecutingPostActions => left_in t (ts_PostActionResults t)
  | _ => 0
  end.
(** What is left of the current stage. *)
Definition stage_rank (t : TransitionStatus) : Z :=
  match ts_Phase t with
  | PhaseExecutingPreActions => from_option action_rank 0 (ts_PreActionResults t !! current_index t)
  | PhaseExecutingPostActions => from_option action_rank 0 (ts_PostActionResults t !! current_index t)
  | PhaseFlushingConnections => kill_rank (ts_ConnectionKill t)
  | _ => 0
  end.
Definition work_left (t : TransitionStatus) : Z := stages_left t * 2 ^ 33 + stage_rank t.

(** Retry counters within the range of [maxRetries], until the action is over. *)
Definition typed_retries (t : TransitionStatus) : Prop :=
  Forall (λ x, ar_Status x = ActionStatusPending ∨ in_progress (ar_Status x) →
    0 <= ar_RetryCount x <= retryCap) (ts_PreActionResults t ++ ts_PostActionResults t).
(** [maxRetries] is an [int32]. *)
Definition typed_hooks (r : FailoverServiceReconciler) (fs : FailoverService) : Prop :=
  ∀ isPrePhase t a, a ∈ current_actions r fs isPrePhase t → actionMaxRetries a <= retryCap.

Lemma typed_result t isPre i x :
  typed_retries t → phase_results isPre t !! i = Some x →
  ar_Status x = ActionStatusPending ∨ in_progress (ar_Status x) → 0 <= ar_RetryCount x <= retryCap.
Proof.
  intros Ht Hx. unfold typed_retries in Ht. rewrite Forall_forall in Ht. apply Ht, list_elem_of_In.
  apply elem_of_app. destruct isPre; [left|right]; by eapply list_elem_of_lookup_2.
Qed.

Lemma action_rank_bounds x :
  (ar_Status x = ActionStatusPending ∨ in_progress (ar_Status x) → 0 <= ar_RetryCount x <= retryCap) →
  0 <= action_rank x <= 2 ^ 32.
Proof.
  unfold action_rank, retryCap, in_progress. intros H. destruct (ar_Status x); try lia;
    specialize (H (or_intror I)); lia.
Qed.

Lemma stage_rank_bounds t : typed_retries t → 0 <= stage_rank t <= 2 ^ 32.
Proof.
  intros Ht. unfold stage_rank. destruct (ts_Phase t); try lia.
  - destruct (ts_PreActionResults t !! _) as [x|] eqn:Hx; simpl; [|lia].
    apply action_rank_bounds. by apply (typed_result t true (current_index t)).
  - unfold kill_rank. destruct (ts_ConnectionKill t) as [c|]; [destruct (ck_SignalSent c)|]; lia.
  - destruct (ts_PostActionResults t !! _) as [x|] eqn:Hx; simpl; [|lia].
    apply action_rank_bounds. by apply (typed_result t false (current_index t)).
Qed.

Lemma stages_left_nonneg t : 0 <= stages_left t.
Proof. unfold stages_left, left_in. destruct (ts_Phase t); lia. Qed.

(** A later stage has less work left, whatever its rank. *)
Lemma later_stage t t' :
  typed_retries t → typed_retries t' → stages_left t' < stages_left t → work_left t' < work_left t.
Proof.
  intros Ht Ht' Hs. pose proof (stage_rank_bounds t Ht). pose proof (stage_rank_bounds t' Ht').
  unfold work_left. lia.
Qed.

(** ** One result *)

Lemma result_step_rank a x x' adv :
  result_step a x x' adv → actionMaxRetries a <= retryCap →
  (ar_Status x = ActionStatusPending ∨ in_progress (ar_Status x) → 0 <= ar_RetryCount x <= retryCap) →
  (ar_Status x' = ActionStatusPending ∨ in_progress (ar_Status x') → 0 <= ar_RetryCount x' <= retryCap)
  ∧ action_rank x' <= action_rank x.
Proof.
  intros Hs Hmax Hx. unfold retryCap in *.
  assert (Hwrap : ∀ n, n = i64 (ar_RetryCount x + 1) → in_progress (ar_Status x) →
    n = ar_RetryCount x + 1 ∧ 0 <= ar_RetryCount x).
  { intros n -> Hp. destruct (Hx (or_intror Hp)). rewrite i64_id; [done|unfold in_i64; lia]. }
  destruct Hs as [n Hp|Hp|n Hp|Hp|job msg Hp|n msg Hp Hn|n now msg Hp Hn|now msg Hp|now job msg ok Hp];
    unfold action_rank, in_progress in *; simpl.
  - destruct (Hx (or_introl Hp)). rewrite Hp. split; [done|lia].
  - split; [done|lia].
  - rewrite Hp. split; [by intros [|]|lia].
  - split; [done|lia].
  - split; [done|lia].
  - destruct (Hwrap n Hn Hp) as [-> ?]. destruct (ar_Status x); try done; (split; [intros _|]; lia).
  - split; [by intros [|]|]. destruct (ar_Status x); try done; specialize (Hx (or_intror I)); lia.
  - split; [by intros [|]|]. destruct (ar_Status x); try done; specialize (Hx (or_intror I)); lia.
  - destruct ok; (split; [by intros [|]|]); destruct (ar_Status x); try done;
      specialize (Hx (or_intror I)); lia.
Qed.

Lemma kill_step_rank ck ck' : kill_step ck ck' → kill_rank ck' <= kill_rank ck.
Proof.
  unfold kill_rank. destruct 1 as [|Hn|c Hn Hs|c acked -> Hs]; simpl; [lia| | |by rewrite Hs].
  - destruct ck as [c|]; [by rewrite (Hn c eq_refl)|lia].
  - rewrite Hs. destruct ck as [c'|]; [destruct (ck_SignalSent c')|]; lia.
Qed.

(** ** One edge *)

Lemma typed_set_phase_results isPre i x t j :
  typed_retries t → (ar_Status x = ActionStatusPending ∨ in_progress (ar_Status x) →
    0 <= ar_RetryCount x <= retryCap) →
  typed_retries (set_ActionIndex j (set_phase_results isPre (<[i := x]> (phase_results isPre t)) t)).
Proof.
  unfold typed_retries. rewrite !Forall_app. intros [Hpre Hpost] Hx.
  destruct isPre; simpl; (split; [|]); auto; by apply Forall_insert.
Qed.

(** Writing a result at the current index. *)
Lemma write_result_work isPre t x x' (adv : bool) :
  ts_Phase t = action_phase isPre → phase_results isPre t !! current_index t = Some x →
  typed_retries t →
  (ar_Status x' = ActionStatusPending ∨ in_progress (ar_Status x') → 0 <= ar_RetryCount x' <= retryCap) →
  (adv = false → action_rank x' <= action_rank x) →
  let t' := set_ActionIndex (Z.of_nat (current_index t + if adv then 1 else 0))
    (set_phase_results isPre (<[current_index t := x']> (phase_results isPre t)) t) in
  work_left t' <= work_left t.
Proof.
  intros Hp Hx Ht Hx' Hr t'.
  assert (Ht' : typed_retries t') by (by apply typed_set_phase_results).
  pose proof (lookup_lt_Some _ _ _ Hx) as Hlt.
  assert (Hi : current_index t' = (current_index t + if adv then 1 else 0)%nat)
    by apply current_index_set.
  destruct adv.
  - apply Z.lt_le_incl, later_stage; [done..|]. unfold stages_left, left_in. rewrite Hi.
    destruct isPre; simpl in *; rewrite Hp; simpl; rewrite !length_insert; lia.
  - specialize (Hr eq_refl). unfold work_left, stages_left, left_in, stage_rank. rewrite Hi.
    rewrite Nat.add_0_r. destruct isPre; simpl in *; rewrite Hp; simpl;
      rewrite !length_insert, list_lookup_insert_eq, Hx by done; simpl; lia.
Qed.

(** A stage is left for a later one. *)
Lemma enter_stage_work t p ck :
  typed_retries t → stages_left (set_ActionIndex 0 (set_Phase p (set_ConnectionKill ck t))) < stages_left t →
  typed_retries (set_ActionIndex 0 (set_Phase p (set_ConnectionKill ck t)))
  ∧ work_left (set_ActionIndex 0 (set_Phase p (set_ConnectionKill ck t))) <= work_left t.
Proof. intros Ht Hs. split; [done|]. by apply Z.lt_le_incl, later_stage. Qed.

Lemma edge_work_aux r fs s t t' :
  edge r fs s → typed_hooks r fs → fs_transition fs = Some t → ts_Phase t ≠ PhaseIdle →
  typed_retries t → st_Transition s = Some t' →
  typed_retries t' ∧ work_left t' <= work_left t.
Proof.
  intros He Hh Ht Hp Hty Ht'.
  assert (Hph : phase_of fs = ts_Phase t) by (unfold phase_of; by rewrite Ht).
  destruct He as [| |t0 isPre a x x' adv Ht0 Hq Ha Hx Hs Hs'|t0 Ht0 Hq ? Hs|t0 Ht0 Hq Hs|t0 ck Ht0 Hq Hk Hs
    |t0 ck Ht0 Hq ? ? Hs| | |t0 t1 ? Ht0 Hf Hs|]; try congruence;
    rewrite Ht in Ht0; injection Ht0 as <-; try rewrite Ht' in Hs; try rewrite Ht' in Hs';
    try injection Hs as ->; try injection Hs' as ->.
  - destruct (result_step_rank a x x' adv Hs) as [Hx' Hr].
    { eapply Hh, list_elem_of_lookup_2, Ha. }
    { by apply (typed_result t isPre (current_index t)). }
    split; [by apply typed_set_phase_results|]. by eapply write_result_work.
  - split; [done|]. apply Z.lt_le_incl, later_stage; [done..|].
    unfold stages_left, left_in. simpl. rewrite Hq. lia.
  - split; [done|]. apply Z.lt_le_incl, later_stage; [done..|]. unfold stages_left. simpl. rewrite Hq. lia.
  - split; [done|]. unfold work_left, stages_left, stage_rank. simpl. rewrite Hq.
    pose proof (kill_step_rank _ _ Hk). lia.
  - split; [done|]. apply Z.lt_le_incl, later_stage; [done..|].
    unfold stages_left, left_in. simpl. rewrite Hq. lia.
  - destruct Hf as [isPre x n msg Hq Hi Hx|Hq|Hq|].
    + assert (Hend : ¬ (ActionStatusSkipped = ActionStatusPending ∨ in_progress ActionStatusSkipped))
        by (by intros [|]).
      split; [by apply typed_set_phase_results|].
      replace (ts_CurrentActionIndex t + 1) with (Z.of_nat (current_index t + 1))
        by (unfold current_index; lia).
      by eapply (write_result_work isPre t x _ true).
    + split; [done|]. apply Z.lt_le_incl, later_stage; [done..|]. unfold stages_left. simpl. rewrite Hq. lia.
    + split; [done|]. apply Z.lt_le_incl, later_stage; [done..|].
      unfold stages_left, left_in. simpl. rewrite Hq. lia.
    + done.
Qed.

(** ** Waiting *)

(** The same phase, action and statuses: only messages, job names, timestamps and
    the record of the kill may differ. *)
Definition same_progress (t t' : TransitionStatus) : Prop :=
  ts_Phase t' = ts_Phase t ∧ current_index t' = current_index t
  ∧ ar_Status <$> ts_PreActionResults t' = ar_Status <$> ts_PreActionResults t
  ∧ ar_Status <$> ts_PostActionResults t' = ar_Status <$> ts_PostActionResults t.

Lemma result_step_waits a x x' :
  result_step a x x' false →
  (ar_Status x = ActionStatusPending ∨ in_progress (ar_Status x) → 0 <= ar_RetryCount x <= retryCap) →
  action_rank x <= action_rank x' → ar_Status x' = ar_Status x.
Proof.
  intros Hs Hx. unfold retryCap in *. unfold action_rank, in_progress in *.
  inversion Hs; subst; simpl in *; try done; repeat case_match; try done;
    try specialize (Hx (or_intror I)); try specialize (Hx (or_introl eq_refl)); try lia; try congruence.
Qed.

Lemma insert_statuses (l : list ActionResult) i x x' :
  l !! i = Some x → ar_Status x' = ar_Status x → ar_Status <$> <[i := x']> l = ar_Status <$> l.
Proof. intros Hx Hs. rewrite list_fmap_insert, Hs. apply list_insert_id. by rewrite list_lookup_fmap, Hx. Qed.

Lemma edge_waits r fs s t t' :
  edge r fs s → typed_hooks r fs → fs_transition fs = Some t → ts_Phase t ≠ PhaseIdle →
  typed_retries t → st_Transition s = Some t' → work_left t' = work_left t → same_progress t t'.
Proof.
  intros He Hh Ht Hp Hty Ht' Hw.
  pose proof (edge_work_aux _ _ _ _ _ He Hh Ht Hp Hty Ht') as [Hty' _].
  assert (Hlater : ¬ stages_left t' < stages_left t).
  { intros Hlt. pose proof (later_stage t t' Hty Hty' Hlt). lia. }
  assert (Hph : phase_of fs = ts_Phase t) by (unfold phase_of; by rewrite Ht).
  destruct He as [| |t0 isPre a x x' adv Ht0 Hq Ha Hx Hs Hs'|t0 Ht0 Hq ? Hs|t0 Ht0 Hq Hs|t0 ck Ht0 Hq Hk Hs
    |t0 ck Ht0 Hq ? ? Hs| | |t0 t1 ? Ht0 Hf Hs|]; try congruence;
    rewrite Ht in Ht0; injection Ht0 as <-; try rewrite Ht' in Hs; try rewrite Ht' in Hs';
    try injection Hs as ->; try injection Hs' as ->.
  - pose proof (lookup_lt_Some _ _ _ Hx) as Hlt. destruct adv.
    + destruct Hlater. unfold stages_left, left_in. rewrite current_index_set.
      destruct isPre; simpl in *; rewrite Hq; simpl; rewrite !length_insert; lia.
    + assert (Hx' : ar_Status x' = ar_Status x).
      { eapply result_step_waits; [done|by apply (typed_result t isPre (current_index t))|].
        unfold work_left, stages_left, left_in, stage_rank in Hw.
        rewrite current_index_set, Nat.add_0_r in Hw.
        destruct isPre; simpl in *; rewrite Hq in Hw; simpl in Hw;
          rewrite !length_insert, (list_lookup_insert_eq _ _ _ Hlt), Hx in Hw; simpl in Hw; lia. }
      split; [by destruct isPre|]. split; [by rewrite current_index_set, Nat.add_0_r|].
      destruct isPre; simpl in *; by erewrite insert_statuses.
  - destruct Hlater. unfold stages_left, left_in. simpl. rewrite Hq. lia.
  - destruct Hlater. unfold stages_left, left_in. simpl. rewrite Hq. lia.
  - done.
  - destruct Hlater. unfold stages_left, left_in. simpl. rewrite Hq. lia.
  - destruct Hf as [isPre x n msg Hq Hi Hx|Hq|Hq|]; [..|done].
    + destruct Hlater. pose proof (lookup_lt_Some _ _ _ Hx) as Hlt. unfold stages_left, left_in.
      replace (ts_CurrentActionIndex t + 1) with (Z.of_nat (current_index t + 1))
        by (unfold current_index; lia). rewrite current_index_set.
      destruct isPre; simpl in *; rewrite Hq; simpl; rewrite !length_insert; lia.
    + destruct Hlater. unfold stages_left, left_in. simpl. rewrite Hq. lia.
    + destruct Hlater. unfold stages_left, left_in. simpl. rewrite Hq. lia.
Qed.

(** ** Chains of edges *)

Lemma trunc_work t :
  work_left (trunc_transition t) = work_left t ∧ (typed_retries t → typed_retries (trunc_transition t))
  ∧ same_progress t (trunc_transition t).
Proof.
  assert (Hl : ∀ (l : list ActionResult) (i : nat), from_option action_rank 0 ((trunc_result <$> l) !! i) = from_option action_rank 0 (l !! i)).
  { intros l i. rewrite list_lookup_fmap. by destruct (l !! i). }
  split; [|split].
  - unfold work_left, stages_left, left_in, stage_rank. simpl. rewrite !length_fmap, !Hl.
    by destruct (ts_ConnectionKill t).
  - unfold typed_retries. simpl. rewrite <- fmap_app. intros Ht. by apply Forall_fmap.
  - unfold same_progress. simpl. rewrite <- !list_fmap_compose. done.
Qed.

(** ** Reconciles *)

Lemma initial_typed r fs direction n : typed_retries (initial_transition r fs direction n).
Proof.
  assert (H : ∀ l, Forall (λ x, ar_Status x = ActionStatusPending ∨ in_progress (ar_Status x) →
    0 <= ar_RetryCount x <= retryCap) (makeActionResults l)).
  { intros l. unfold makeActionResults. apply Forall_fmap, Forall_true. intros a _. unfold retryCap. simpl. lia. }
  unfold typed_retries, initial_transition. destruct (getTransitionAddresses r fs direction).
  simpl. apply Forall_app. destruct (getTransitionHooks r fs direction); split; auto; constructor.
Qed.

Section runs.
Context `{KubeLibLaws}.

(** A status write of a configured controller: some reconcile, knowing the
    object as [fs], stored a status, and the server answered [fs']. *)
Definition written (fs fs' : FailoverService) : Prop :=
  ∃ Getenv provider r req E h fs0 t1 o t2, NewReconcilerFromEnv Getenv provider = inr r
    ∧ run_after_get r req E h fs0 (t1 ++ Ev (UpdateStatus KFailoverService o) (inr fs') :: t2)
    ∧ answers_ok fs0 t1 ∧ after fs0 t1 = fs ∧ status_answer fs KFailoverService o fs'
    ∧ typed_hooks r fs.

#[export] Instance same_progress_dec t t' : Decision (same_progress t t').
Proof. unfold same_progress. apply _. Defined.
(** 1 for a write that moves on, 0 for one that waits. *)
Definition productive (t t' : TransitionStatus) : nat :=
  if decide (same_progress t t') then 0 else 1.

(** The life of a stored transition: each write starts from the transition the
    one before has stored; the specification and the metadata may have been
    edited in between, and the controller may have been restarted. *)
Inductive life (t0 : TransitionStatus) : nat → TransitionStatus → Prop :=
  | L_begin : life t0 0 t0
  | L_write n t fs fs' t' : life t0 n t → written fs fs' → fs_transition fs = Some t →
      ts_Phase t ≠ PhaseIdle → fs_transition fs' = Some t' → life t0 (n + productive t t') t'.

Lemma written_edge fs fs' : written fs fs' →
  ∃ r o, edge r fs (fs_status o) ∧ typed_hooks r fs
    ∧ fs_transition fs' = trunc_transition <$> fs_transition o.
Proof.
  intros (G & p & r & req & E & h & fs0 & t1 & o & t2 & Hr%new_reconciler_wired & Hrun & Hok & <- & Ho & Hh).
  exists r, o. split; [exact (run_event _ _ _ _ _ _ _ _ Hr Hrun Hok)|]. split; [done|].
  unfold fs_transition. destruct Ho as [-> _]. done.
Qed.

Lemma written_work fs fs' t t' :
  written fs fs' → fs_transition fs = Some t → ts_Phase t ≠ PhaseIdle → fs_transition fs' = Some t' →
  typed_retries t → typed_retries t' ∧ Z.of_nat (productive t t') + work_left t' <= work_left t.
Proof.
  intros (r & o & He & Hh & Ho)%written_edge Ht Hp Ht' Hty. rewrite Ho in Ht'.
  apply fmap_Some in Ht' as (t1 & Ht1 & ->).
  destruct (edge_work_aux _ _ _ _ _ He Hh Ht Hp Hty Ht1) as [Hty1 Hw].
  destruct (trunc_work t1) as (Hw1 & Hty2 & Hsame). rewrite Hw1. split; [auto|].
  unfold productive. case_decide as Hd; [lia|].
  destruct (decide (work_left t1 = work_left t)) as [Heq|]; [|simpl; lia]. destruct Hd.
  destruct (edge_waits _ _ _ _ _ He Hh Ht Hp Hty Ht1 Heq) as (H1 & H2 & H3 & H4).
  destruct Hsame as (? & ? & ? & ?). repeat split; congruence.
Qed.

Lemma begun_typed fs fs' t :
  written fs fs' → fs_transition fs = None → fs_transition fs' = Some t → typed_retries t.
Proof.
  intros (r & o & He & _ & Ho)%written_edge Ht Ht'. rewrite Ho in Ht'.
  apply fmap_Some in Ht' as (t1 & Ht1 & ->). apply trunc_work.
  unfold fs_transition in Ht1. destruct He; try congruence.
  assert (t1 = initial_transition r fs (if sp_FailoverActive (fs_spec fs)
    then directionFailover else directionFailback) n) as -> by congruence. apply initial_typed.
Qed.

Lemma life_work t0 n t :
  life t0 n t → typed_retries t0 → typed_retries t ∧ Z.of_nat n + work_left t <= work_left t0.
Proof.
  induction 1 as [|n t fs fs' t' _ IH Hw Ht Hp Ht']; intros Hty; [split; [done|lia]|].
  destruct (IH Hty) as [Hty1 Hn]. destruct (written_work _ _ _ _ Hw Ht Hp Ht' Hty1). split; [done|lia].
Qed.

Lemma work_left_bounds t : typed_retries t →
  0 <= work_left t
  <= Z.of_nat (length (ts_PreActionResults t) + length (ts_PostActionResults t) + 4) * 2 ^ 33.
Proof.
  intros Ht. pose proof (stage_rank_bounds t Ht). unfold work_left, stages_left, left_in.
  destruct (ts_Phase t); lia.
Qed.

(** C8: a transition comes to rest: of the status writes that reconciles make
    from the one that begins a transition, with whatever answers, edits of the
    object in between, force-advances and restarts, at most [2^33] for each
    action and each of four stages move it on; every other one is a wait that
    leaves the phase, the current action and the statuses as they are. *)
Theorem transition_terminates fs0 fs1 t0 n t :
  written fs0 fs1 → fs_transition fs0 = None → fs_transition fs1 = Some t0 → life t0 n t →
  Z.of_nat n
  <= Z.of_nat (length (ts_PreActionResults t0) + length (ts_PostActionResults t0) + 4) * 2 ^ 33.
Proof.
  intros Hw Ht0 Ht1 Hl. pose proof (begun_typed _ _ _ Hw Ht0 Ht1) as Hty.
  destruct (life_work _ _ _ Hl Hty) as [Hty' Hn].
  pose proof (work_left_bounds _ Hty). pose proof (work_left_bounds _ Hty'). lia.
Qed.
End runs.

(** ** Witness: the demo service fails over, and its first pre-phase ends *)

(** The object after the first [n] events of a reconcile of [fs]. *)
Definition demo_known (fs : FailoverService) (n : nat) : FailoverService :=
  after fs (take n (demo_trace fs)).
Definition demo_begun : FailoverService := demo_known (demo_fs true) 5.

Ltac written_demo fs n :=
  exists demo_getenv, demo_cp, demo_reconciler, demo_req, (demo_world fs), [], fs,
    (take n (demo_trace fs));
  do 2 eexists; split; [exact demo_reconciler_configured|];
  split; [vm_compute; reflexivity|]; split; [check_answers|]; split; [vm_compute; reflexivity|];
  split; [apply (bool_decide_unpack (answer_ok _ (Ev (UpdateStatus KFailoverService _) (inr _))));
          vm_compute; exact I|].

Lemma demo_typed fs : fs_spec fs = demo_spec true → typed_hooks demo_reconciler fs.
Proof.
  intros Hs isPre t a. unfold current_actions, getTransitionHooks, cluster_target. rewrite Hs.
  simpl. case_decide; intros []%elem_of_nil.
Qed.

(** The transition begun, which moves on to the flush: one productive write. *)
Definition demo_t0 : TransitionStatus :=
  default (demo_transition PhaseIdle 7) (fs_transition demo_begun).
Definition demo_t1 : TransitionStatus :=
  default (demo_transition PhaseIdle 7) (fs_transition (demo_known demo_begun 7)).
Lemma demo_life : life (H := demo_lib) demo_t0 1 demo_t1.
Proof.
  replace 1%nat with (0 + productive demo_t0 demo_t1)%nat by (vm_compute; reflexivity).
  eapply (L_write (H := demo_lib) _ 0 _ demo_begun (demo_known demo_begun 7));
    [constructor| |vm_compute; reflexivity|vm_compute; discriminate|vm_compute; reflexivity].
  written_demo demo_begun 6%nat. apply demo_typed. vm_compute. reflexivity.
Qed.
Lemma transition_terminates_witness :
  ts_Phase demo_t0 = PhaseUpdatingResources ∧ ts_Phase demo_t1 = PhaseFlushingConnections
  ∧ Z.of_nat 1 <= Z.of_nat (length (ts_PreActionResults demo_t0)
                            + length (ts_PostActionResults demo_t0) + 4) * 2 ^ 33.
Proof.
  split; [vm_compute; reflexivity|]. split; [vm_compute; reflexivity|].
  eapply (transition_terminates (H := demo_lib) (demo_fs true) demo_begun demo_t0 1 demo_t1);
    [|reflexivity|vm_compute; reflexivity|exact demo_life].
  written_demo (demo_fs true) 4%nat. by apply demo_typed.
Defined.
