(* ===== verification/ControllerGates.v ===== *)
(** * What must have happened before a transition goes on

    Two gates of a transition, which only a force-advance passes by: the status leaves the phase that updates the
    resources only once the stored objects send the traffic to the new address,
    and it leaves the flush only once the kill of the old connections has been
    acknowledged by every expected node, or does not apply. *)
From Stdlib Require Import Sorted.
From stdpp Require Import base gmap strings list numbers option sorting.
From S2P Require Import Prelude GoStd GoNetIP Types Kube Logic ApiServer Decode Fixtures ServiceManager Actions WaitRemote RemoteCluster Signaler KillPayloads KillProtocol Controller ControllerSpec ControllerProofs ControllerProps.

(** ** Events guarded by what precedes them *)

(** Whenever an event satisfies [W], the history before it satisfies [P]. *)
Definition guards (W : event → Prop) (P : hist → Prop) (t : hist) : Prop :=
  ∀ t1 e t2, t = t1 ++ e :: t2 → W e → P t1.

Section guards.
Context (W : event → Prop).

Lemma guards_app P t1 t2 :
  Forall (λ e, ¬ W e) t1 → guards W (λ t, P (t1 ++ t)) t2 → guards W P (t1 ++ t2).
Proof.
  intros Hn H2 l1 e l2 Heq He. apply app_eq_inv in Heq as [(k & -> & Hk)|(k & -> & Hk)].
  - destruct k as [|e' k].
    + simpl in Hk. subst t2. rewrite app_nil_r in H2. rewrite <- (app_nil_r l1). by eapply (H2 []).
    + injection Hk as <- ->. apply Forall_app in Hn as [_ Hn]. by apply Forall_cons_1 in Hn as [].
  - by eapply H2.
Qed.
Lemma guards_mono (P P' : hist → Prop) t : (∀ t, P t → P' t) → guards W P t → guards W P' t.
Proof. intros HP Hg t1 e t2 Heq He. by eapply HP, Hg. Qed.
Lemma guards_forall {X} (C : X → Prop) (P : X → hist → Prop) t :
  (∀ x, C x → guards W (P x) t) → guards W (λ t, ∀ x, C x → P x t) t.
Proof. intros HP t1 e t2 Heq He x Hx. by eapply HP. Qed.
Lemma guards_all (P : hist → Prop) t : (∀ t, P t) → guards W P t.
Proof. intros HP t1 e t2 _ _. apply HP. Qed.
Lemma guards_split P t1 e t2 : guards W P (t1 ++ e :: t2) → W e → P t1.
Proof. intros Hg. by apply (Hg t1 e t2). Qed.
Lemma guards_nil P : guards W P [].
Proof. intros t1 e t2 Heq. by destruct t1. Qed.
Lemma guards_none P t : Forall (λ e, ¬ W e) t → guards W P t.
Proof. intros H. rewrite <- (app_nil_r t). apply guards_app; [done|apply guards_nil]. Qed.
Lemma guards_cons P e t : ¬ W e → guards W (λ t, P (e :: t)) t → guards W P (e :: t).
Proof. intros He. apply (guards_app P [e]). by constructor. Qed.
(** The first write, after which none follows. *)
Lemma guards_last (P : hist → Prop) e t : P [] → Forall (λ e, ¬ W e) t → guards W P (e :: t).
Proof.
  intros HP Hn t1 e' t2 Heq He. destruct t1 as [|e1 t1]; [done|]. injection Heq as -> ->.
  apply Forall_app in Hn as [_ Hn]. by apply Forall_cons_1 in Hn as [].
Qed.
(** A condition that, once it holds, goes on to hold. *)
Lemma guards_open (P : hist → Prop) t1 t2 :
  (∀ t t', P t → P (t ++ t')) → Forall (λ e, ¬ W e) t1 → P t1 → guards W P (t1 ++ t2).
Proof. intros Hm Hn HP. apply guards_app; [done|]. intros l1 e l2 -> _. by apply Hm. Qed.
End guards.
#[global] Opaque guards.

(** A write of the status of the FailoverService, of a phase other than [p]. *)
Definition leaves_phase (p : FailoverPhase) (e : event) : Prop :=
  match e with
  | Ev (UpdateStatus k o) _ =>
      match k return kobj k → Prop with
      | KFailoverService => λ o, phase_of o ≠ p
      | _ => λ _, False
      end o
  | _ => False
  end.
Definition stays_in (p : FailoverPhase) (e : event) : Prop := ¬ leaves_phase p e.

Lemma service_event_stays p e : service_event e → stays_in p e.
Proof. unfold stays_in. destruct e as [[] r]; simpl; tauto. Qed.
Lemma signal_event_stays p e : signal_event e → stays_in p e.
Proof. unfold stays_in. destruct e as [[] r]; simpl; tauto. Qed.
Lemma cleaning_event_stays p e : cleaning_event e → stays_in p e.
Proof. unfold stays_in. destruct e as [[] r]; simpl; tauto. Qed.

(** The events a triple without assumptions guarantees. *)
Lemma rg_emits {A} (G P : event → Prop) (m : IO A) (Φ : A → Prop) :
  rg any_event G m Φ → (∀ e, G e → P e) → emits P m.
Proof.
  intros Hm HP. eapply wp_mono; [exact Hm|]. intros o t Ht.
  destruct Ht as [HG _]; [by apply Forall_true|]. by eapply Forall_impl.
Qed.

(** ** The reconcile of an object that is not force-advanced *)

Section gates.
Context `{KubeLibLaws} (r : FailoverServiceReconciler).

(** Nothing precedes the dispatch: no deletion, finalizer and identity in place,
    no force-advance. *)
Definition settled (fs : FailoverService) : Prop :=
  time_ptr_IsZero (om_DeletionTimestamp (fs_meta fs)) = true
  ∧ ContainsFinalizer (fs_meta fs) finalizerName = true
  ∧ om_Annotations (fs_meta fs) ≠ None
  ∧ mget0 (om_Annotations (fs_meta fs)) cluster_id_annotation = fr_ClusterID r
  ∧ force_requested fs = false.

(** The same object, up to the metadata the controller maintains. *)
Definition same_object (fs fs' : FailoverService) : Prop :=
  fs_spec fs' = fs_spec fs ∧ fs_status fs' = fs_status fs
  ∧ same_ident (fs_meta fs') (fs_meta fs).

Section unforced.
Context (p : FailoverPhase) (P : FailoverService → hist → Prop).

(** The writes past [p] of a run on [fs] that is served rightly. *)
Definition gated (fs : FailoverService) (t : hist) : Prop :=
  force_requested fs = false → ∀ t1 e t2, t = t1 ++ e :: t2 → answers_ok fs t1 →
  leaves_phase p e → P fs t1.

Lemma gated_stays fs t : Forall (stays_in p) t → gated fs t.
Proof. intros Ht _ t1 e t2 -> _ He. apply Forall_app in Ht as [_ Ht]. by apply Forall_cons_1 in Ht as []. Qed.
Lemma gated_guards fs t : guards (leaves_phase p) (P fs) t → gated fs t.
Proof. intros Hg _ t1 e t2 -> _ He. by apply (guards_split _ _ _ _ _ Hg He). Qed.

(** An update of the metadata before it. *)
Context (HP : ∀ fs fs' m t, same_object fs fs' → P fs' t →
  P fs (Ev (Update local KFailoverService m) (inr fs') :: t)).

Lemma gated_update fs m o t :
  force_requested (set_meta m fs) = force_requested fs →
  update_answer fs KFailoverService (set_meta m fs) o → gated o t →
  gated fs (Ev (Update local KFailoverService (set_meta m fs)) (inr o) :: t).
Proof.
  intros Hm Ho Hg Hf t1 e t2 Heq Hok He. destruct t1 as [|e1 t1]; injection Heq as <- Ht; [done|].
  destruct Ho as (Hst & Hsp & Hi & Ha & _), Hok as [_ Hok]. apply HP; [done|]. eapply Hg; [|done..].
  unfold force_requested in *. rewrite Ha. etransitivity; [exact Hm|exact Hf].
Qed.

Lemma gated_ensure fs (b : bool) m f :
  force_requested (set_meta m fs) = force_requested fs →
  (∀ err, emits (stays_in p) (f (inl err))) →
  (∀ fs', same_object fs fs' → wp (f (inr fs')) (λ _ t, gated fs' t)) →
  wp ((if b then update_fs (set_meta m fs) else mret (inr fs)) ≫= f : IO Answer) (λ _ t, gated fs t).
Proof.
  intros Hm Herr Hf. destruct b; [|apply wp_bind, wp_ret; by apply Hf].
  unfold update_fs. apply wp_bind, wp_bind, wp_perform. intros [err|o]; apply wp_ret; cbn [decoded app].
  - eapply wp_mono; [apply Herr|]. intros o t Ht. apply gated_stays. by constructor; [intros []|].
  - destruct (decide (update_answer fs KFailoverService (set_meta m fs) o)) as [Ho|Ho].
    + rewrite decode_over_stored by apply Ho. eapply wp_mono; [apply Hf|].
      * destruct Ho as (? & ? & ? & _). done.
      * intros o' t Hg. by apply gated_update.
    + apply wp_any. intros o' t Hfr t1 e t2 Heq Hok He.
      destruct t1 as [|e1 t1]; injection Heq as <- Ht; [done|]. by destruct Hok.
Qed.

Lemma reconcile_deletion_stays_in fs : emits (stays_in p) (reconcile_deletion r fs).
Proof.
  unfold reconcile_deletion. destruct (ContainsFinalizer _ _); [|apply emits_ret].
  apply emits_bind.
  - destruct (fr_ConnSignaler r); [|apply emits_ret].
    eapply rg_emits; [apply CleanupSignals_safe|apply cleaning_event_stays].
  - intros _. unfold update_fs, failed. repeat emits_step; by intros [].
Qed.

(** The whole reconcile, the dispatch being gated. *)
Lemma unforced_run req E h fs t1 e t2 :
  (∀ fs, wp (dispatch r fs) (λ _, guards (leaves_phase p) (P fs))) →
  force_requested fs = false → run_after_get r req E h fs (t1 ++ e :: t2) → answers_ok fs t1 →
  leaves_phase p e → P fs t1.
Proof.
  intros Hd Hforce Hrun Hok He.
  enough (Hg : wp (Reconcile r req) (λ _ t, ∀ fs, head t ≫= fetched = Some (inr fs) → gated fs (tail t))).
  { destruct (run_after_get_inv _ _ _ _ _ _ Hrun) as [Hf Ht].
    by apply (Hg E h fs Hf Hforce t1 e t2). }
  clear Hforce Hrun Hok He t1 e t2 fs E h. unfold Reconcile. wp_op. intros [err|fs].
  { destruct (IsNotFound err); by apply wp_ret. }
  apply (wp_mono _ (λ _ t, gated fs t)); [|by intros o t Ht fs0 [= <-]].
  destruct (negb _).
  { eapply wp_mono; [apply reconcile_deletion_stays_in|]. intros o t. apply gated_stays. }
  unfold ensure_finalizer. apply gated_ensure; [|intros; apply emits_ret|].
  { by destruct (add_finalizers_only (fs_meta fs) finalizerName) as [l ->]. }
  intros fs1 _. unfold ensure_cluster_id. apply gated_ensure; [|intros; apply emits_ret|].
  { unfold force_requested, SetClusterIDAnnotation, mget0, mget. simpl.
    rewrite lookup_insert_ne by done. by destruct (om_Annotations (fs_meta fs1)). }
  intros fs2 _. destruct (force_requested fs2) eqn:Hf.
  { apply wp_any. intros o t Hf'. congruence. }
  eapply wp_mono; [apply Hd|]. intros o t. apply gated_guards.
Qed.
End unforced.

(** ** The resources *)

(** The stored objects route the service to the new address of the transition. *)
Definition routed_to_new (st : store) (fs : FailoverService) (seen : hist) : Prop :=
  ∀ t st', fs_transition fs = Some t → serves st seen st' → routes st' fs (target_address r fs t).

Lemma ReconcileWithAddress_stays p fs address : emits (stays_in p) (ReconcileWithAddress fs address).
Proof.
  eapply wp_mono; [apply ReconcileWithAddress_safe|]. intros o t Ht.
  destruct Ht as [HG _]; [by apply Forall_true|]. eapply Forall_impl; [exact HG|].
  apply service_event_stays.
Qed.

Lemma serves_now st t n st' : serves st (t ++ [Ev Now n]) st' ↔ serves st t st'.
Proof.
  rewrite serves_app. simpl. split.
  - by intros (st1 & ? & st2 & -> & ->).
  - intros Hs. exists st'. split; [done|]. by exists st'.
Qed.

Lemma resources_gate_aux st fs t :
  keyed st → fs_transition fs = Some t →
  wp (reconcileUpdatingResources r fs)
    (λ _, guards (leaves_phase PhaseUpdatingResources) (routed_to_new st fs)).
Proof.
  intros Hk Ht. unfold reconcileUpdatingResources. rewrite Ht. apply wp_bind, wp_ret, wp_bind.
  eapply wp_mono; [apply wp_conj; [apply (ReconcileWithAddress_served st fs); exact Hk
    |apply (ReconcileWithAddress_stays PhaseUpdatingResources)]|].
  intros [[err|]|] t1 [Hs Hst]; simpl in Hs, Hst; [| |by apply guards_none].
  - unfold service_error. repeat wp_step. cbn [app]. apply guards_app; [done|].
    apply guards_cons; [by intros []|apply guards_nil].
  - assert (Hgate : ∀ n1 n2, routed_to_new st fs (t1 ++ [Ev Now n1; Ev Now n2])).
    { intros n1 n2 t' st' Ht' Hserved. rewrite Ht in Ht'. injection Ht' as <-.
      change [Ev Now n1; Ev Now n2] with ([Ev Now n1] ++ [Ev Now n2]) in Hserved.
      rewrite app_assoc, !serves_now in Hserved. by apply Hs. }
    unfold service_ready, set_condition, updateClusterStatus, persist, update_fs_status, failed.
    repeat wp_step; cbn [app];
      (apply guards_app; [done|]; do 2 (apply guards_cons; [by intros []|]);
       apply guards_last; [apply Hgate|constructor]).
Qed.

(** ** The flush *)

(** Every expected node of the kill [ck] has acknowledged it without errors, as
    read from the ConfigMap. *)
Definition all_acked (fs : FailoverService) (ck : ConnectionKillStatus) (seen : hist) : Prop :=
  ck_ExpectedNodes ck = []
  ∨ ∃ ns cm, Ev (Get local KConfigMap (cm_key ns)) (inr cm) ∈ seen
    ∧ ∀ n, n ∈ ck_ExpectedNodes ck →
        acked_cleanly (cm_Data cm) (ck_KillToken ck) (om_Namespace (fs_meta fs))
          (om_Name (fs_meta fs)) n.

(** The signal of the transition, if it has been sent. *)
Definition sent_kill (t : TransitionStatus) : option ConnectionKillStatus :=
  ck ← ts_ConnectionKill t; if ck_SignalSent ck then Some ck else None.

(** The kill of the old connections is over: it does not apply, or it was to be
    sent and there was no agent, or it was sent and every node has
    acknowledged it. *)
Definition kill_over (fs : FailoverService) (t : TransitionStatus) (seen : hist) : Prop :=
  fr_ConnSignaler r = None ∨ ParseIP (getOldTargetAddress r fs) = None
  ∨ match sent_kill t with
    | None => ∃ ns, fr_ConnSignaler r = Some ns ∧ no_agents ns seen
    | Some ck => all_acked fs ck seen
    end.

(** More history does not undo it. *)
Lemma all_acked_more fs ck t t' : all_acked fs ck t → (∀ e, e ∈ t → e ∈ t') → all_acked fs ck t'.
Proof. intros [|(ns & cm & ? & ?)] Hs; [by left|right]. exists ns, cm. auto. Qed.
Lemma kill_over_more fs t h h' : kill_over fs t h → (∀ e, e ∈ h → e ∈ h') → kill_over fs t h'.
Proof.
  unfold kill_over. intros [?|[?|Hk]] Hs; [auto|auto|]. do 2 right.
  destruct (sent_kill t); [by eapply all_acked_more|].
  destruct Hk as (ns & ? & ?). exists ns. split; [done|]. by eapply no_agents_more.
Qed.

Lemma SignalKill_none ns ip tok fns name :
  wp (SignalKill ns ip tok fns name) (λ o h, o = Ret (inr []) → no_agents ns h).
Proof.
  eapply wp_mono; [apply SignalKill_eligible|]. intros o h Ho ->.
  by destruct (Ho _ eq_refl) as [[_ ?]|[[] _]].
Qed.

Lemma CheckAcks_all ns fs ck :
  wp (CheckAcks ns (ck_KillToken ck) (ck_ExpectedNodes ck) (om_Namespace (fs_meta fs))
        (om_Name (fs_meta fs)))
    (λ o h, ∀ status, o = Ret (inr status) → as_AllAcked status = true → all_acked fs ck h).
Proof.
  unfold CheckAcks, all_acked. destruct (ck_ExpectedNodes ck) as [|n nodes].
  { apply wp_ret. auto. }
  wp_op. intros [err|cm].
  { destruct (IsNotFound err); apply wp_ret; by intros status [= <-]. }
  apply wp_ret. intros status [= <-]. intros Hall. right. exists ns, cm.
  split; [by left|]. exact (proj1 (all_acked_iff _ _ _ _ (n :: nodes)) Hall).
Qed.

(** A write that keeps the transition in the flush. *)
Lemma flush_write_stays (fs : FailoverService) x :
  phase_of fs = PhaseFlushingConnections →
  stays_in PhaseFlushingConnections (Ev (UpdateStatus KFailoverService fs) x).
Proof. intros Hp Hl. by apply Hl. Qed.

Lemma set_condition_phase n ty st rs msg fs :
  phase_of (set_condition_at n ty st rs msg fs) = phase_of fs.
Proof. done. Qed.
Lemma set_kill_phase ck fs : phase_of (upd_Transition (set_ConnectionKill ck) fs) = phase_of fs.
Proof. unfold phase_of, upd_Transition, fs_transition. simpl. by destruct (st_Transition (fs_status fs)). Qed.

Lemma SignalKill_stays ns ip tok fns name :
  emits (stays_in PhaseFlushingConnections) (SignalKill ns ip tok fns name).
Proof. eapply rg_emits; [apply SignalKill_safe|apply signal_event_stays]. Qed.
#[local] Hint Resolve SignalKill_stays : io.
Lemma CheckAcks_stays ns tok nodes fns name :
  emits (stays_in PhaseFlushingConnections) (CheckAcks ns tok nodes fns name).
Proof. eapply rg_emits; [apply CheckAcks_safe|apply cleaning_event_stays]. Qed.
#[local] Hint Resolve CheckAcks_stays : io.

Lemma set_clusters_phase cs fs : phase_of (set_Clusters cs fs) = phase_of fs.
Proof. done. Qed.

(** Closes the claim that every event of a history stays in the flush. *)
Ltac flush_stays Hp :=
  repeat ((apply Forall_app; split) || constructor || assumption);
  try (by intros []);
  try (apply flush_write_stays; rewrite ?set_clusters_phase, ?set_condition_phase, ?set_kill_phase; exact Hp).

Definition flush_gate (fs : FailoverService) (t : TransitionStatus) (o : outcome flush_step) (h : hist)
    : Prop :=
  Forall (stays_in PhaseFlushingConnections) h
  ∧ ∀ fs' b, o = Ret (inr (fs', b)) → kill_over fs t h.

Lemma flush_signal_gate fs ns old t :
  fr_ConnSignaler r = Some ns →
  phase_of fs = PhaseFlushingConnections → sent_kill t = None →
  wp (flush_signal r fs ns old t) (flush_gate fs t).
Proof.
  intros Hns Hp Hs. unfold flush_signal. wp_op. intros n. apply wp_bind.
  eapply wp_mono; [apply wp_conj; [apply SignalKill_none|apply SignalKill_stays]|].
  intros [[err|[|node nodes]]|] h [Hn Hst]; simpl in Hst.
  - unfold service_error, killed_condition, set_condition, update_fs_status.
    repeat wp_step; (split; [flush_stays Hp|done]).
  - unfold killed_condition, set_condition. repeat wp_step. split; [flush_stays Hp|].
    intros _ _ _. do 2 right. rewrite Hs. exists ns. split; [done|]. eapply no_agents_more; [by apply Hn|].
    intros e He. apply elem_of_cons; right. apply elem_of_app; by left.
  - unfold updateClusterStatus, update_fs_status. repeat wp_step. split; [flush_stays Hp|done].
  - split; [flush_stays Hp|done].
Qed.

Lemma ack_timed_out_stays fs msg (h : hist) :
  phase_of fs = PhaseFlushingConnections → Forall (stays_in PhaseFlushingConnections) h →
  wp (ack_timed_out fs msg) (λ o h', Forall (stays_in PhaseFlushingConnections) (h ++ h')
    ∧ ∃ ans, o = Ret (inl ans)).
Proof.
  intros Hp Hh. unfold ack_timed_out, killed_condition, set_condition, update_fs_status.
  repeat wp_step; (split; [flush_stays Hp|by eexists]).
Qed.

Lemma flush_acks_gate fs ns old t ck :
  phase_of fs = PhaseFlushingConnections → sent_kill t = Some ck →
  wp (flush_acks fs ns old ck) (flush_gate fs t).
Proof.
  intros Hp Hs. unfold flush_acks. apply wp_bind.
  eapply wp_mono; [apply wp_conj; [apply (CheckAcks_all ns fs ck)|apply CheckAcks_stays]|].
  assert (Hlate : ∀ h msg fs0, Forall (stays_in PhaseFlushingConnections) h →
    phase_of fs0 = PhaseFlushingConnections →
    wp (ack_timed_out fs0 msg) (λ o h', flush_gate fs t o (h ++ h'))).
  { intros h msg fs0 Hh Hp0. eapply wp_mono; [by apply (ack_timed_out_stays _ _ h)|].
    intros o h' [Hst (ans & ->)]. by split. }
  (* the timeout test, and what follows it *)
  assert (Hcheck : ∀ h msg fs0 ck0 (m : IO flush_step), Forall (stays_in PhaseFlushingConnections) h →
    phase_of fs0 = PhaseFlushingConnections →
    (∀ h', Forall (stays_in PhaseFlushingConnections) h' → wp m (λ o h2, flush_gate fs t o (h' ++ h2))) →
    wp (late ← ack_timeout ck0; if (late : bool) then ack_timed_out fs0 msg else m)
      (λ o h', flush_gate fs t o (h ++ h'))).
  { intros h msg fs0 ck0 m Hh Hp0 Hm. unfold ack_timeout. destruct (ck_SignaledAt ck0) as [at_|].
    - do 2 wp_step. wp_step. cbv zeta.
      assert (Hh' : Forall (stays_in PhaseFlushingConnections) (h ++ [Ev Now r0])) by flush_stays Hp.
      destruct (connKillTimeout <? r0 - at_)%Z;
        (eapply wp_mono; [by first [apply (Hlate _ _ _ Hh' Hp0)|apply (Hm _ Hh')]|]);
        intros o h' Hg; cbv beta in Hg |- *; by rewrite <- app_assoc in Hg.
    - apply wp_bind, wp_ret. eapply wp_mono; [by apply (Hm _ Hh)|]. done. }
  intros [[err|status]|] h [Ha Hst]; simpl in Hst; [| |split; [done|done]].
  - apply Hcheck; [done..|]. intros h' Hh'. apply wp_ret. split; [|done]. by rewrite app_nil_r.
  - cbv zeta. destruct (as_AllAcked status) eqn:Hall; cbn [negb].
    + unfold killed_condition, set_condition. repeat wp_step. split; [flush_stays Hp|].
      intros _ _ _. do 2 right. rewrite Hs. eapply all_acked_more; [by apply (Ha status)|].
      intros e He. apply elem_of_app; by left.
    + apply Hcheck; [done|by rewrite set_kill_phase|]. intros h' Hh'. unfold update_fs_status.
      repeat wp_step. split; [flush_stays Hp|done].
Qed.

Lemma flush_kill_gate fs t :
  phase_of fs = PhaseFlushingConnections → wp (flush_kill r fs t) (flush_gate fs t).
Proof.
  intros Hp. unfold flush_kill.
  destruct (fr_ConnSignaler r) as [ns|] eqn:Hns; [|apply wp_ret; split; [done|by left]].
  cbv zeta. destruct (ParseIP (getOldTargetAddress r fs)) as [ip|] eqn:Hip.
  2:{ rewrite (bool_decide_eq_false_2 (is_Some None)) by (by intros [? [=]]).
      rewrite andb_false_r. apply wp_ret. split; [done|]. right; by left. }
  destruct (bool_decide (getOldTargetAddress r fs ≠ "")) eqn:Hne; cbn [andb].
  2:{ apply bool_decide_eq_false in Hne. apply dec_stable in Hne. by rewrite Hne in Hip. }
  rewrite bool_decide_eq_true_2 by (by eexists).
  destruct (ts_ConnectionKill t) as [ck|] eqn:Hck.
  - destruct (ck_SignalSent ck) eqn:Hsent.
    + apply flush_acks_gate; [done|]. unfold sent_kill. by rewrite Hck; simpl; rewrite Hsent.
    + apply flush_signal_gate; [done..|]. unfold sent_kill. by rewrite Hck; simpl; rewrite Hsent.
  - apply flush_signal_gate; [done..|]. unfold sent_kill. by rewrite Hck.
Qed.

Lemma flushing_gate_aux fs t :
  fs_transition fs = Some t → phase_of fs = PhaseFlushingConnections →
  wp (reconcileFlushingConnections r fs)
    (λ _, guards (leaves_phase PhaseFlushingConnections) (kill_over fs t)).
Proof.
  intros Ht Hp. unfold reconcileFlushingConnections. rewrite Ht. apply wp_bind, wp_ret, wp_bind.
  eapply wp_mono; [by apply flush_kill_gate|]. intros [[ans|[fs' b]]|] h [Hst Hover]; cbn [app].
  - apply wp_ret. rewrite app_nil_r. by apply guards_none.
  - apply wp_any. intros o h'. apply guards_open; [|done|by eapply Hover].
    intros h1 h2 Hk. eapply kill_over_more; [exact Hk|]. intros e He. apply elem_of_app. by left.
  - by apply guards_none.
Qed.

(** ** The gates of a reconcile *)

Definition resources_routed (st : store) (fs : FailoverService) (seen : hist) : Prop :=
  phase_of fs = PhaseUpdatingResources → routed_to_new st fs seen.
Definition connections_flushed (fs : FailoverService) (seen : hist) : Prop :=
  ∀ t, fs_transition fs = Some t → phase_of fs = PhaseFlushingConnections → kill_over fs t seen.

Lemma phase_of_transition fs p : phase_of fs = p → p ≠ PhaseIdle → is_Some (fs_transition fs).
Proof. unfold phase_of. destruct (fs_transition fs); [by eexists|by intros <-]. Qed.

Lemma resources_dispatch st fs :
  keyed st →
  wp (dispatch r fs) (λ _, guards (leaves_phase PhaseUpdatingResources) (resources_routed st fs)).
Proof.
  intros Hk. destruct (decide (phase_of fs = PhaseUpdatingResources)) as [Hp|Hp].
  - destruct (phase_of_transition fs _ Hp) as [t Ht]; [done|].
    unfold dispatch. fold (phase_of fs). cbv zeta. rewrite Hp.
    eapply wp_mono; [by apply (resources_gate_aux st fs t)|]. intros o h. apply guards_mono.
    by intros t' Hr _.
  - apply wp_any. intros o t. apply guards_all. by intros t1 ?.
Qed.
Lemma resources_dispatch_all fs :
  wp (dispatch r fs) (λ _, guards (leaves_phase PhaseUpdatingResources)
    (λ h, ∀ st, keyed st → resources_routed st fs h)).
Proof. intros E h. apply guards_forall. intros st Hk. by apply resources_dispatch. Qed.
Lemma flush_dispatch fs :
  wp (dispatch r fs) (λ _, guards (leaves_phase PhaseFlushingConnections) (connections_flushed fs)).
Proof.
  destruct (decide (phase_of fs = PhaseFlushingConnections)) as [Hp|Hp].
  - destruct (phase_of_transition fs _ Hp) as [t Ht]; [done|].
    unfold dispatch. fold (phase_of fs). cbv zeta. rewrite Hp.
    eapply wp_mono; [by apply (flushing_gate_aux fs t)|]. intros o h. apply guards_mono.
    intros t' Hr t2 Ht2 _. rewrite Ht in Ht2. by injection Ht2 as <-.
  - apply wp_any. intros o t. apply guards_all. by intros t1 t2 _ ?.
Qed.

(** The conditions are the same for the same object. *)
Lemma routes_same st fs fs' address : same_object fs fs' → routes st fs' address → routes st fs address.
Proof. intros (Hs & _ & [_ Hn]). unfold routes, slice_routes, svc_key, slice_key. by rewrite Hs, Hn. Qed.
Lemma target_address_same fs fs' t :
  same_object fs fs' → target_address r fs' t = target_address r fs t.
Proof. intros (Hs & _). unfold target_address, getTransitionAddresses, cluster_target. by rewrite Hs. Qed.
Lemma phase_same fs fs' : same_object fs fs' → phase_of fs' = phase_of fs ∧ fs_transition fs' = fs_transition fs.
Proof. intros (_ & Hs & _). unfold phase_of, fs_transition. by rewrite Hs. Qed.
Lemma kill_over_same fs fs' t h : same_object fs fs' → kill_over fs' t h → kill_over fs t h.
Proof.
  intros Ho. pose proof (phase_same _ _ Ho) as [_ Ht]. destruct Ho as (Hs & _ & [Hn Hns]).
  unfold kill_over, all_acked, getOldTargetAddress, cluster_target. by rewrite Hs, Hn, Hns, Ht.
Qed.

(** C2: traffic before connections: unless a force-advance is requested, when a
    reconcile writes a status past the phase that updates the resources, the
    stored Service and EndpointSlice route to the transition's new address. *)
Theorem resources_before_flush req E h (st st1 : store) fs tr t1 e t2 :
  keyed st → force_requested fs = false → answers_ok fs t1 →
  fs_transition fs = Some tr → ts_Phase tr = PhaseUpdatingResources →
  run_after_get r req E h fs (t1 ++ e :: t2) →
  leaves_phase PhaseUpdatingResources e → serves st t1 st1 →
  routes st1 fs (target_address r fs tr).
Proof.
  intros Hk Hf Hok Ht Hp Hrun He Hs.
  assert (HR : ∀ st, keyed st → resources_routed st fs t1).
  { eapply (unforced_run PhaseUpdatingResources (λ fs h, ∀ st, keyed st → resources_routed st fs h));
      [|apply resources_dispatch_all|done..].
    intros f f' m t Ho HP s1 Hk1 Hph tr' s' Ht' (s2 & Hstep & Hs').
    pose proof (phase_same _ _ Ho) as [Hph' Htr'].
    apply (routes_same _ _ _ _ Ho). rewrite <- (target_address_same _ _ _ Ho).
    apply (HP s2); [by eapply step_keyed|congruence|congruence|done]. }
  apply (HR st Hk); [|done..]. unfold phase_of. by rewrite Ht.
Qed.

(** C3: connections before the post-actions: unless a force-advance is requested,
    when a reconcile writes a status past the flush, the kill of the old
    connections does not apply, or found no agent, or every expected node has
    acknowledged it without errors in the ConfigMap the reconcile has read. *)
Theorem flush_before_completion req E h fs tr t1 e t2 :
  force_requested fs = false → answers_ok fs t1 →
  fs_transition fs = Some tr → ts_Phase tr = PhaseFlushingConnections →
  run_after_get r req E h fs (t1 ++ e :: t2) →
  leaves_phase PhaseFlushingConnections e → kill_over fs tr t1.
Proof.
  intros Hf Hok Ht Hp Hrun He.
  assert (HF : connections_flushed fs t1).
  { eapply (unforced_run PhaseFlushingConnections); [|apply flush_dispatch|done..].
    intros f f' m t Ho HP t' Ht' Hph. pose proof (phase_same _ _ Ho) as [Hph' Htr'].
    apply (kill_over_same _ _ _ _ Ho). eapply kill_over_more; [apply HP; congruence|].
    intros e' He'. by right. }
  apply HF; [done|]. unfold phase_of. by rewrite Ht.
Qed.
End gates.

(** ** Witnesses *)

Definition demo_switching : FailoverService := demo_moving (demo_transition PhaseUpdatingResources 7).
Lemma demo_settled t : settled demo_reconciler (demo_moving t).
Proof.
  split; [reflexivity|]. split; [reflexivity|]. split; [discriminate|]. split; reflexivity.
Defined.

(** The seventh event of the run is the write that enters the flush. *)
Lemma resources_before_flush_witness :
  ∃ st, routes st demo_switching
    (target_address demo_reconciler demo_switching (demo_transition PhaseUpdatingResources 7)).
Proof.
  set (st0 := put empty_store KFailoverService demo_req (Some demo_switching)).
  eexists. eapply (resources_before_flush (H := demo_lib) demo_reconciler demo_req
    (demo_world demo_switching) [] st0 _ demo_switching (demo_transition PhaseUpdatingResources 7)
    (take 6 (demo_trace demo_switching))).
  - apply keyed_put; [exact empty_store_keyed|split; reflexivity].
  - reflexivity.
  - check_answers.
  - reflexivity.
  - reflexivity.
  - vm_compute. reflexivity.
  - vm_compute. discriminate.
  - apply (sim_serves quiet st0 _ [Ev (Get local KFailoverService demo_req) (inr demo_switching)]).
    check_legit.
Defined.

(** A kill without agents. *)
Definition demo_flushing : FailoverService :=
  demo_moving {| (demo_transition PhaseFlushingConnections 7) with ts_OldAddressSnapshot := "10.0.0.7" |}.

(** The reconcile completes the transition, the last write of its trace. *)
Lemma flush_before_completion_witness :
  ∃ seen, kill_over demo_reconciler demo_flushing
    {| (demo_transition PhaseFlushingConnections 7) with ts_OldAddressSnapshot := "10.0.0.7" |} seen.
Proof.
  exists (take 15 (demo_trace demo_flushing)).
  eapply (flush_before_completion (H := demo_lib) demo_reconciler demo_req
    (demo_world demo_flushing) [] demo_flushing).
  - reflexivity.
  - check_answers.
  - reflexivity.
  - reflexivity.
  - vm_compute. reflexivity.
  - vm_compute. discriminate.
Defined.

(** ** A force-advance whose annotation stays

    The operator asks to skip the update of the resources; the status is written,
    the removal of the annotation fails.  The next reconcile takes the annotation
    for a new request and skips the flush as well, so the connections to the old
    address are never killed. *)
Definition demo_forced : FailoverService :=
  let fs := demo_moving {| (demo_transition PhaseUpdatingResources 7) with
              ts_OldAddressSnapshot := "10.0.0.7" |} in
  set_meta {| (fs_meta fs) with om_Annotations :=
    Some (<[forceAdvanceAnnotation := "true"]> (default ∅ (om_Annotations (fs_meta fs)))) |} fs.
(** The first update of the object is refused. *)
Definition demo_refusing : Env := λ h o,
  match o as o return resp o with
  | Update t KFailoverService fs =>
      if existsb (λ e, match e with Ev (Update _ _ _) _ => true | _ => false end) h
      then demo_world demo_forced h (Update t KFailoverService fs)
      else inl (api_err ReasonConflict "the object has been modified")
  | o => demo_world demo_forced h o
  end.
(** The phase stored after [n] reconciles. *)
Fixpoint reconciles (n : nat) (h : hist) : hist :=
  match n with
  | O => h
  | S n => reconciles n (h ++ (Reconcile demo_reconciler demo_req demo_refusing h).2)
  end.
Definition stored_phase (h : hist) : option FailoverPhase :=
  phase_of <$> replay (put empty_store KFailoverService demo_req (Some demo_forced)) h
                 KFailoverService demo_req.

Example force_advance_repeats :
  stored_phase (reconciles 0 []) = Some PhaseUpdatingResources
  ∧ stored_phase (reconciles 1 []) = Some PhaseFlushingConnections
  ∧ stored_phase (reconciles 2 []) = Some PhaseExecutingPostActions.
Proof. vm_compute. repeat split. Qed.
