(* ===== verification/ControllerEvents.v ===== *)
(** * The record of a transition

    The outcome of a FailoverEvent as a state machine: what an update of the
    event may turn it into, and what every sequence of updates keeps. *)
From stdpp Require Import base gmap strings list numbers option relations.
From S2P Require Import Prelude GoStd GoNetIP Types Kube Logic ApiServer Fixtures ServiceManager Actions WaitRemote RemoteCluster Signaler Controller ControllerProps.

(** The moves of an outcome. *)
Inductive outcome_edge : EventOutcome → EventOutcome → Prop :=
  | OE_same o : outcome_edge o o
  | OE_start o : outcome_edge OutcomeUnset o
  | OE_progress o : outcome_edge EventOutcomeInProgress o
  | OE_force : outcome_edge EventOutcomeFailed EventOutcomeForceAdvanced
  | OE_fail : outcome_edge EventOutcomeForceAdvanced EventOutcomeFailed.

Lemma event_status_after_edge fs t outcome s :
  outcome_allowed (ev_Outcome s) outcome = true →
  outcome_edge (ev_Outcome s) (ev_Outcome (event_status_after fs t outcome s)).
Proof.
  unfold outcome_allowed, event_status_after. simpl. destruct (decide _) as [[-> ->]|Hne]; [constructor|].
  destruct (ev_Outcome s); simpl; try constructor; destruct outcome; simpl; try done; try constructor.
  intros _. exfalso. by apply Hne.
Qed.

(** The events of a store and those of a later one. *)
Definition events_evolve (st st' : store) : Prop :=
  ∀ key ev, st KFailoverEvent key = Some ev →
    ∃ ev', st' KFailoverEvent key = Some ev' ∧ fe_spec ev' = fe_spec ev
      ∧ outcome_edge (ev_Outcome (fe_status ev)) (ev_Outcome (fe_status ev')).
Lemma events_evolve_refl st : events_evolve st st.
Proof. intros key ev Hev. exists ev. split; [done|]. split; [done|constructor]. Qed.

Lemma updateFailoverEvent_served st fs outcome :
  served st (updateFailoverEvent fs outcome) (λ o st', returned o = true ∧ events_evolve st st').
Proof.
  apply served_keyed; intros Hk. pose proof (events_evolve_refl st) as Hrefl.
  unfold updateFailoverEvent. destruct (fs_transition fs) as [t|]; [|by apply served_ret].
  destruct (decide (ts_EventName t = "")); [by apply served_ret|].
  do 2 served_step; [by apply served_ret|].
  destruct (outcome_allowed (ev_Outcome (fe_status o)) outcome) eqn:Ha; cbn [negb]; [|by apply served_ret].
  pose proof (event_status_after_edge fs t outcome (fe_status o) Ha) as Hedge. cbv zeta.
  apply served_bind.
  apply (served_mono _ _ (λ x st', st' = st ∧ ∃ s, x = Ret s
    ∧ outcome_edge (ev_Outcome (fe_status o)) (ev_Outcome s))).
  { destruct (decide (outcome ≠ EventOutcomeForceAdvanced)).
    - do 2 served_step. apply served_ret. split; [done|]. by eexists.
    - apply served_ret. split; [done|]. by eexists. }
  intros x st' [-> (s & -> & Hs)]. do 2 served_step; apply served_ret; [done|].
  split; [done|]. intros key ev Hev.
  pose proof (keyed_key _ _ _ _ Hk Hget) as Hkey. unfold okey in *. simpl in *.
  match goal with Hold : st KFailoverEvent (meta_key (fe_meta _)) = Some ?old |- _ =>
    rewrite Hkey, Hget in Hold; injection Hold as <- end.
  destruct (decide (key = meta_key (fe_meta o))) as [->|Hne].
  - rewrite Hkey, Hget in Hev. injection Hev as <-. rewrite put_eq. eexists. split; [done|].
    split; [done|]. by rewrite Hst.
  - rewrite put_ne by auto. by apply Hrefl.
Qed.

(** An event that records manual intervention or failure. *)
Definition marked (o : EventOutcome) : Prop :=
  o = EventOutcomeFailed ∨ o = EventOutcomeForceAdvanced.

(** C12: the record of a transition is never embellished: an update keeps every
    event and its spec and moves an outcome along [outcome_edge] only, and along
    these edges an event that has failed or was force-advanced is never
    reported as succeeded, nor one that succeeded as anything else. *)
Theorem event_outcomes fs outcome E h (st st' : store) :
  keyed st → serves st (updateFailoverEvent fs outcome E h).2 st' →
  events_evolve st st'
  ∧ ∀ o o', rtc outcome_edge o o' →
      (marked o → marked o') ∧ (o = EventOutcomeSucceeded → o' = EventOutcomeSucceeded).
Proof.
  intros Hk Hs. split; [apply (updateFailoverEvent_served st fs outcome Hk E h st' Hs)|].
  induction 1 as [|o o1 o' Hedge _ [IH1 IH2]]; [done|]. unfold marked in *.
  inversion Hedge; subst; (split; [intros [Ho|Ho]; try discriminate; apply IH1; auto
    |intros Ho; try discriminate; auto]).
Qed.

(** ** Witness *)

Definition demo_event (outcome : EventOutcome) : FailoverEvent := {|
  fe_meta := new_meta "mysql-failover-failover-7" "default";
  fe_spec := {| es_FailoverServiceRef := "mysql-failover"; es_Direction := directionFailover;
                es_TriggeredBy := triggerManual |};
  fe_status := {| empty_event_status with ev_Outcome := outcome |} |}.
Definition demo_event_store : store :=
  put empty_store KFailoverEvent (okey KFailoverEvent (demo_event EventOutcomeForceAdvanced))
    (Some (demo_event EventOutcomeForceAdvanced)).
Definition demo_recorded : FailoverService :=
  demo_moving {| (demo_transition PhaseExecutingPostActions 7) with
    ts_EventName := "mysql-failover-failover-7" |}.

(** The completion of a force-advanced transition. *)
Lemma event_outcomes_witness : ∃ st', events_evolve demo_event_store st'.
Proof.
  eexists. eapply (event_outcomes demo_recorded EventOutcomeSucceeded (sim quiet demo_event_store) []).
  - apply keyed_put; [exact empty_store_keyed|split; reflexivity].
  - apply (sim_serves quiet demo_event_store _ []). check_legit.
Defined.
