(* ===== verification/TwoClusters.v ===== *)
(** * Agreement of the two clusters

    The composition of two managers, each reconciling its own cluster and
    synchronising with the other's: what one reconcile does to the directions
    stored in both.  Once they agree they stay in agreement, whatever fails; a
    disagreement is resolved by one reconcile in the steady state, the same way
    whichever cluster comes first.  The examples at the end run two defects of the
    adoption of a winning remote state, whose update decodes what is stored over
    what was just computed. *)
From stdpp Require Import base gmap strings list numbers.
From S2P Require Import Prelude GoStd GoNetIP Types Kube Logic ApiServer Decode Fixtures ServiceManager Actions WaitRemote RemoteCluster Worlds Signaler Controller ControllerSpec ControllerProofs ControllerProps ControllerGates.

(** ** The synchronisation *)

Section sync.
Context `{KubeLibLaws} (R : event → Prop).

Lemma provider_reads p timeout : emits reads_only (provider_at p timeout).
Proof. unfold provider_at, GetClient. repeat emits_step; exact I. Qed.

(** An update that keeps the metadata of the object read at the peer stores it. *)
Lemma update_kept st st' key b o o' :
  keyed st → st KFailoverService key = Some b → fs_meta o = fs_meta b →
  step_ok st st' (Ev (Update local KFailoverService o) (inr o')) →
  stored_direction key st' = Some (direction o).
Proof.
  intros Hk Hb Hm Hs. destruct (update_standing _ _ _ _ Hs) as [_ Hto].
  destruct Hs as (old & Hold & Hmeta & Hl & Hspec & _ & ->).
  pose proof (keyed_key _ _ _ _ Hk Hb) as Hkey. unfold okey in *. simpl in *.
  rewrite Hm, Hkey in *. rewrite Hb in Hold. injection Hold as <-.
  unfold stored_direction. rewrite (stored_as_same KFailoverService b o o'), put_eq; simpl.
  - by unfold direction; rewrite Hspec.
  - by eapply (keyed_unfinished _ KFailoverService).
  - by simpl; rewrite Hm.
  - by simpl; rewrite Hm.
  - done.
Qed.

Lemma push_shared w tc c loc :
  t_site tc = Remote c →
  shared R w (push_direction tc loc) (λ o w', match o with
    | Ret None => directions (meta_key (fs_meta loc)) w'
        = ((directions (meta_key (fs_meta loc)) w).1, Some (direction loc))
    | Ret (Some _) => w' = w
    | Panic => False end).
Proof.
  intros Ht. apply shared_keyed. intros [_ Hk]. unfold push_direction.
  eapply shared_bind, shared_get_peer; [done|intros err _; by apply shared_ret|].
  intros o Ho. eapply shared_bind, shared_update_peer; [done|intros err _; by apply shared_ret|].
  intros o' w' _ Hw Hs. apply shared_ret. unfold directions. rewrite Hw. f_equal.
  exact (update_kept _ _ _ o (set_FailoverActive (direction loc) o) o' Hk Ho eq_refl Hs).
Qed.

(** What a successful synchronisation of [loc] has decided and done, [b] being
    the peer's object. *)
Definition sync_decided (id : string) (loc b : FailoverService) (res : SyncResult) (w w' : world)
    : Prop :=
  let key := meta_key (fs_meta loc) in
  ∃ st, sr_RemoteState res = Some st
  ∧ if sr_RemoteWins res then
      direction b ≠ direction loc ∧ remote_wins id loc b = true
      ∧ rs_FailoverActive st = direction b ∧ w' = w
    else
      (direction b = direction loc ∧ w' = w
       ∨ direction b ≠ direction loc ∧ remote_wins id loc b = false
         ∧ directions key w' = ((directions key w).1, Some (direction loc))).

Definition sync_post (id : string) (loc : FailoverService) (w : world)
    (o : outcome (goerr + SyncResult)) (w' : world) : Prop :=
  match o with
  | Ret (inr res) => ∃ b, w_peer w KFailoverService (meta_key (fs_meta loc)) = Some b
                       ∧ sync_decided id loc b res w w'
  | Ret (inl _) => w' = w
  | Panic => w' = w
  end.

Lemma Sync_body_shared w s p loc :
  shared R w (Sync_body s (provider_at p) loc) (sync_post (sy_ClusterID s) loc w).
Proof.
  unfold Sync_body. apply shared_bind, shared_reads; [apply provider_reads|].
  intros [[err|c]|]; [by apply shared_ret| |done].
  cbv zeta. eapply shared_bind, shared_get_peer; [done|intros err _; by apply shared_ret|].
  intros b Hb. apply shared_bind, shared_now. intros n.
  destruct (eqb (sp_FailoverActive (fs_spec b)) (sp_FailoverActive (fs_spec loc))) eqn:Heq.
  { apply eqb_prop in Heq. apply shared_ret. exists b. split; [done|]. eexists. split; [done|].
    simpl. by left. }
  apply eqb_false_iff in Heq. destruct (remote_wins (sy_ClusterID s) loc b) eqn:Hwins.
  { apply shared_ret. exists b. split; [done|]. eexists. done. }
  apply shared_bind. destruct on_error_attempts as [k Hn].
  eapply shared_ext; [apply Hn|]. eapply shared_mono.
  { apply (shared_attempts R w k IsConflict _ (λ w', directions (meta_key (fs_meta loc)) w'
        = ((directions (meta_key (fs_meta loc)) w).1, Some (direction loc)))).
    by eapply push_shared. }
  intros [[err|]|] w' Hw; [|apply shared_ret|done].
  - destruct (IsConflict err); by apply shared_ret.
  - exists b. split; [done|]. eexists. split; [done|]. simpl. right. done.
Qed.

Lemma Sync_shared w s p loc :
  shared R w (Sync s (provider_at p) loc) (sync_post (sy_ClusterID s) loc w).
Proof.
  unfold Sync. apply shared_bind, shared_now. intros n.
  apply shared_bind. eapply shared_mono; [apply Sync_body_shared|].
  intros [res|] w' Hpost; [|done].
  apply shared_bind, shared_now. intros m. by apply shared_bind, shared_emit, shared_ret.
Qed.

(** ** A reachable peer *)

(** FailoverServices can be read and written, here and at the peer, and the Secret
    has a kubeconfig from which a client can be made. *)
Definition answered {A} (r : goerr + A) : Prop :=
  match r with inl _ => False | inr _ => True end.
Definition reachable (e : event) : Prop :=
  match e with
  | Ev (Get _ k _) r =>
      match k return goerr + kobj k → Prop with
      | KSecret => λ r, match r with
                        | inl _ => False
                        | inr s => sec_Data s !! "kubeconfig" ≠ None
                        end
      | KFailoverService => λ r, answered r
      | _ => λ _, True
      end r
  | Ev (Update _ k _) r => k = KFailoverService → answered r
  | Ev (RESTConfigFromKubeConfig _) r => answered r
  | Ev (NewClient _) r => answered r
  | _ => True
  end.

(** The answers seen so far are those of a reachable peer. *)
Ltac reached :=
  intros Hreach; simpl in Hreach;
  repeat (let He := fresh "He" in apply Forall_cons_1 in Hreach as [He Hreach]; simpl in He);
  first [done | by eexists | exfalso; by eauto].

Lemma provider_reaches p timeout :
  wp (provider_at p timeout) (λ o t, Forall reachable t → ∃ c, o = Ret (inr c)).
Proof. unfold provider_at, GetClient. repeat wp_step; reached. Qed.

Lemma push_reaches tc c loc : t_site tc = Remote c →
  wp (push_direction tc loc) (λ o t, Forall reachable t → o = Ret None).
Proof.
  intros Ht. unfold push_direction. wp_step. destruct r; [wp_step; reached|]. do 2 wp_step. destruct r; reached.
Qed.

Lemma attempts_reaches n retriable fn :
  wp fn (λ o t, Forall reachable t → o = Ret None) →
  wp (attempts n retriable fn) (λ o t, Forall reachable t → o = Ret None).
Proof.
  intros Hfn. destruct n as [|n]; simpl; apply wp_bind; (eapply wp_mono; [exact Hfn|]);
    intros o t Ht; (destruct o as [[err|]|]; [|by apply wp_ret|by intros ?%Ht]).
  - apply wp_ret. rewrite app_nil_r. by intros ?%Ht.
  - destruct (retriable err).
    + apply wp_any. by intros o' t' [?%Ht _]%Forall_app.
    + apply wp_ret. rewrite app_nil_r. by intros ?%Ht.
Qed.

Lemma Sync_reaches s p loc :
  wp (Sync s (provider_at p) loc) (λ o t, Forall reachable t → ∃ res, o = Ret (inr res)).
Proof.
  assert (Hbody : wp (Sync_body s (provider_at p) loc)
    (λ o t, Forall reachable t → ∃ res, o = Ret (inr res))).
  { unfold Sync_body. apply wp_bind. eapply wp_mono; [apply provider_reaches|].
    intros [[err|c]|] t Ht; [apply wp_ret; rewrite app_nil_r; by intros [? ?]%Ht| |by intros [? ?]%Ht].
    generalize (syncTimeout s). intros tm. cbv zeta. wp_op. intros [err|b].
    { apply wp_ret. intros [_ HF]%Forall_app. revert HF. reached. }
    wp_op. intros n. repeat case_match; try (apply wp_ret; by eexists).
    apply wp_bind. destruct on_error_attempts as [k Hn]. eapply wp_ext; [apply Hn|].
    eapply wp_mono; [apply attempts_reaches; by eapply push_reaches|].
    intros [[err|]|] t2 Ht2; [|apply wp_ret; by eexists|].
    - destruct (IsConflict err); apply wp_ret; rewrite app_nil_r; rewrite Forall_app;
        intros [_ HF]; repeat (apply Forall_cons_1 in HF as [_ HF]); by apply Ht2 in HF.
    - rewrite Forall_app. intros [_ HF]; repeat (apply Forall_cons_1 in HF as [_ HF]). by apply Ht2 in HF. }
  unfold Sync. wp_op. intros n. apply wp_bind. eapply wp_mono; [exact Hbody|].
  intros [res|] t Ht.
  - do 2 (wp_op; intros ?). apply wp_ret. simpl.
    intros [_ [HF _]%Forall_app]%Forall_cons_1. destruct (Ht HF) as [res' [= ->]]. by eexists.
  - intros [_ HF]%Forall_cons_1. by destruct (Ht HF).
Qed.
End sync.

(** ** What never writes a specification *)

(** The syncer of the controller, if there is one, is the one of [RemoteCluster]
    under the cluster's own identity. *)
Class SyncConfigured `{KubeLib} (r : FailoverServiceReconciler) : Prop :=
  sync_configured S : fr_Syncer r = Some S →
    ∃ s p, S = Sync s (provider_at p) ∧ sy_ClusterID s = fr_ClusterID r.

Lemma emits_some {A B} (P : event → Prop) (a : A) (f : A → IO B) :
  emits P (f a) → emits P (deref (Some a) ≫= f).
Proof. intros Hf. by apply wp_bind, wp_ret. Qed.

Section controller.
Context `{KubeLibLaws} (r : FailoverServiceReconciler) `{!WellWired r} `{!SyncConfigured r}.

Lemma service_event_keeps e : service_event e → keeps_specs e.
Proof. destruct e as [[] x]; simpl; try done; try (by intros [->| ->]). by intros [_ [->| ->]]. Qed.
Lemma action_event_keeps e : action_event e → keeps_specs e.
Proof. destruct e as [[] x]; simpl; try done. by intros ->. Qed.
Lemma cleanup_event_keeps e : cleanup_event e → keeps_specs e.
Proof. destruct e as [[] x]; simpl; try done. by intros ->. Qed.
Lemma signal_event_keeps e : signal_event e → keeps_specs e.
Proof. destruct e as [[] x]; simpl; try done; [by intros ->|]. by intros [_ ->]. Qed.
Lemma cleaning_event_keeps e : cleaning_event e → keeps_specs e.
Proof. destruct e as [[] x]; simpl; try done. by intros [_ ->]. Qed.

Lemma ReconcileWithAddress_keeps fs address : emits keeps_specs (ReconcileWithAddress fs address).
Proof. eapply rg_emits; [apply ReconcileWithAddress_safe|apply service_event_keeps]. Qed.
Lemma CleanupSignals_keeps ns fns name : emits keeps_specs (CleanupSignals ns fns name).
Proof. eapply rg_emits; [apply CleanupSignals_safe|apply cleaning_event_keeps]. Qed.
Lemma SignalKill_keeps ns ip tok fns name : emits keeps_specs (SignalKill ns ip tok fns name).
Proof. eapply rg_emits; [apply SignalKill_safe|apply signal_event_keeps]. Qed.
Lemma CheckAcks_keeps ns tok nodes fns name : emits keeps_specs (CheckAcks ns tok nodes fns name).
Proof. eapply rg_emits; [apply CheckAcks_safe|apply cleaning_event_keeps]. Qed.
Lemma Execute_keeps exec ctx a ns p i :
  fr_ActionExecutor r = Some exec → emits keeps_specs (MultiExecutor_Execute exec ctx a ns p i).
Proof.
  intros He. pose proof (wired_actions _ He).
  eapply rg_emits; [apply execute_safe|apply action_event_keeps].
Qed.
Lemma Cleanup_keeps exec job ns :
  fr_ActionExecutor r = Some exec → emits keeps_specs (MultiExecutor_Cleanup exec job ns).
Proof.
  intros He. pose proof (wired_actions _ He).
  eapply rg_emits; [apply cleanup_safe|apply cleanup_event_keeps].
Qed.
#[local] Hint Resolve ReconcileWithAddress_keeps CleanupSignals_keeps SignalKill_keeps
  CheckAcks_keeps Execute_keeps Cleanup_keeps : io.

Ltac keeps := repeat emits_step; try done; solve [auto with io].

Lemma updateFailoverEvent_keeps fs o : emits keeps_specs (updateFailoverEvent fs o).
Proof. unfold updateFailoverEvent. keeps. Qed.
Lemma createFailoverEvent_keeps fs d trigger n :
  emits keeps_specs (createFailoverEvent fs d trigger n).
Proof. unfold createFailoverEvent. keeps. Qed.
Lemma update_fs_status_keeps fs : emits keeps_specs (update_fs_status fs).
Proof. by apply (emits_perform _ (UpdateStatus KFailoverService fs)). Qed.
Lemma updateClusterStatus_keeps p fs : emits keeps_specs (updateClusterStatus r p fs).
Proof. unfold updateClusterStatus. keeps. Qed.
Lemma set_condition_keeps ty s reason msg fs :
  emits keeps_specs (set_condition ty s reason msg fs).
Proof. unfold set_condition. keeps. Qed.
#[local] Hint Resolve updateFailoverEvent_keeps createFailoverEvent_keeps update_fs_status_keeps
  updateClusterStatus_keeps set_condition_keeps : io.
Lemma persist_keeps fs res : emits keeps_specs (persist fs res).
Proof. unfold persist, failed. keeps. Qed.
Lemma service_error_keeps fs p : emits keeps_specs (service_error fs p).
Proof. unfold service_error. keeps. Qed.
Lemma beginTransition_keeps fs trigger : emits keeps_specs (beginTransition r fs trigger).
Proof. unfold beginTransition, failed. keeps. Qed.
Lemma cleanup_jobs_keeps exec ns rs :
  fr_ActionExecutor r = Some exec → emits keeps_specs (cleanup_jobs exec ns rs).
Proof. intros He. induction rs as [|x rs IH]; simpl; keeps. Qed.
#[local] Hint Resolve persist_keeps service_error_keeps beginTransition_keeps cleanup_jobs_keeps : io.
Lemma complete_cleanup_keeps fs : emits keeps_specs (complete_cleanup r fs).
Proof. unfold complete_cleanup, cleanupTransitionJobs. keeps. Qed.
Lemma finish_transition_keeps fs t : emits keeps_specs (finish_transition fs t).
Proof. unfold finish_transition, failed. keeps. Qed.
Lemma sync_failed_keeps err fs : emits keeps_specs (sync_failed err fs).
Proof. unfold sync_failed. keeps. Qed.
Lemma finish_steady_keeps fs : emits keeps_specs (finish_steady r fs).
Proof. unfold finish_steady. keeps. Qed.
#[local] Hint Resolve complete_cleanup_keeps finish_transition_keeps sync_failed_keeps
  finish_steady_keeps : io.

(** ** Agreement is kept *)

Section agreement.
Context (R : event → Prop) (d : bool) (key : NamespacedName).

(** The object stored at a place stands for [d], its deletion being requested as
    [del] tells; a deleted one may be gone. *)
Definition holds (del : bool) (x : option (bool * bool)) : Prop :=
  x = Some (d, del) ∨ del = true ∧ x = None.
Context (del_here del_peer : bool).
Definition agreed (w : world) : Prop :=
  holds del_here (standing key (w_here w)) ∧ holds del_peer (standing key (w_peer w)).
Definition in_hand (fs : FailoverService) : Prop :=
  direction fs = d ∧ meta_key (fs_meta fs) = key.
Abbreviation stays w m := (shared R w m (λ _ w', agreed w')).

Lemma agreed_same w w' :
  (∀ key, standings key w' = standings key w) → agreed w → agreed w'.
Proof. unfold agreed. intros Hs. specialize (Hs key). unfold standings in Hs. by injection Hs as -> ->. Qed.

(** What is stored stands for [d]. *)
Lemma holds_direction del st o :
  holds del (standing key st) → st KFailoverService key = Some o → direction o = d.
Proof. unfold holds, standing. intros [Hs|[_ Hs]] Ho; rewrite Ho in Hs; [by injection Hs|done]. Qed.
Lemma holds_update del x x' : holds del x → updated_to d x x' → holds del x'.
Proof.
  unfold holds. intros Hx (d0 & del0 & -> & Hx'). destruct Hx as [[= -> ->]|[_ [=]]].
  destruct Hx' as [->|[-> ->]]; auto.
Qed.

Lemma stays_keeps {A} w (m : IO A) : emits keeps_specs m → agreed w → stays w m.
Proof. intros Hm Hw. apply shared_keeps; [done|]. intros o w' Hs. by eapply agreed_same. Qed.
Lemma stays_bind {A B} w (m : IO A) (f : A → IO B) :
  emits keeps_specs m → agreed w → (∀ a w', agreed w' → stays w' (f a)) → stays w (m ≫= f).
Proof.
  intros Hm Hw Hf. apply shared_bind_keeps; [done|..]; intros; [by eapply agreed_same|].
  apply Hf. by eapply agreed_same.
Qed.

(** Whatever the response is decoded over, it is the object in hand. *)
Lemma decode_in_hand fs o : in_hand o → in_hand (decode_over fs o).
Proof. done. Qed.
Lemma stays_update {B} w fs (f : goerr + FailoverService → IO B) :
  in_hand fs → agreed w → (∀ err w', agreed w' → stays w' (f (inl err))) →
  (∀ o w', in_hand o → agreed w' → stays w' (f (inr o))) → stays w (update_fs fs ≫= f).
Proof.
  intros [Hd Hk] [Hh Hp] H1 H2. unfold update_fs.
  apply shared_bind, shared_bind, (shared_update_here R w fs).
  - intros err _. by apply shared_ret, H1.
  - intros o w' [Hspec Hm] Hpeer Hto. rewrite Hk in Hto, Hm. rewrite Hd in Hto.
    apply shared_ret, H2.
    + apply decode_in_hand. split; [|done]. unfold direction. by rewrite Hspec.
    + split; [by eapply holds_update|by rewrite Hpeer].
Qed.

Lemma stays_sync {B} w S fs (f : goerr + SyncResult → IO B) :
  fr_Syncer r = Some S → in_hand fs → agreed w →
  (∀ err w', agreed w' → stays w' (f (inl err))) →
  (∀ res w', agreed w' → sr_RemoteWins res = false → stays w' (f (inr res))) →
  stays w (S fs ≫= f).
Proof.
  intros HS [Hd Hk] Hw H1 H2. destruct (sync_configured _ HS) as (s & p & -> & _).
  apply shared_bind. eapply shared_mono; [apply (Sync_shared R w s p fs)|].
  intros [[err|res]|] w' Hpost; [by simpl in Hpost; subst; apply H1| |by simpl in Hpost; subst].
  destruct Hpost as (b & Hb & st & Hst & Hcase). rewrite Hk in Hb.
  assert (Hbd : direction b = d) by exact (holds_direction _ _ _ (proj2 Hw) Hb).
  destruct (sr_RemoteWins res) eqn:Hwins; [by destruct Hcase as [[] _]; rewrite Hbd, Hd|].
  destruct Hcase as [[_ ->]|[[] _]]; [by apply H2|by rewrite Hbd, Hd].
Qed.

Lemma completeTransition_stays w fs : in_hand fs → agreed w → stays w (completeTransition r fs).
Proof.
  intros Hfs Hw. unfold completeTransition.
  apply stays_bind; [keeps|done|]. intros _ w1 Hw1. apply stays_bind; [keeps|done|].
  intros t w2 Hw2. cbv zeta. apply stays_bind; [by apply (emits_perform _ (Metric _))|done|].
  intros _ w3 Hw3. apply shared_bind, shared_now. intros n.
  apply shared_bind, shared_bind, shared_now. intros m. apply shared_ret.
  destruct (fr_Syncer r) as [S|] eqn:HS; [|apply stays_keeps; [keeps|done]].
  apply (stays_sync _ S); [done..|intros err w4 Hw4; apply stays_keeps; [keeps|done]|].
  intros res w4 Hw4 ->. apply stays_keeps; [|done]. unfold sync_done. keeps.
Qed.

Lemma reconcileSteadyState_stays w fs : in_hand fs → agreed w → stays w (reconcileSteadyState r fs).
Proof.
  intros Hfs Hw. unfold reconcileSteadyState.
  destruct (fr_Syncer r) as [S|] eqn:HS; [|apply stays_keeps; [keeps|done]].
  apply (stays_sync _ S); [done..|intros err w4 Hw4; apply stays_keeps; [keeps|done]|].
  intros res w4 Hw4 ->. apply stays_keeps; [|done]. unfold sync_done. keeps.
Qed.

Lemma reconcileIdle_stays w fs : in_hand fs → agreed w → stays w (reconcileIdle r fs).
Proof.
  intros Hfs Hw. unfold reconcileIdle, ServiceManager.Reconcile, ReconcileWithDirection.
  destruct (transition_pending fs); [apply stays_keeps; [keeps|done]|].
  apply stays_bind; [keeps|done|]. intros [err|] w1 Hw1; [apply stays_keeps; [keeps|done]|].
  apply shared_bind, shared_bind, shared_now. intros n. apply shared_ret.
  by apply reconcileSteadyState_stays.
Qed.

Lemma runAction_keeps fs isPre idx a x t : emits keeps_specs (runAction r fs isPre idx a x t).
Proof.
  destruct (wired_executor (r := r)) as [exec He]. unfold runAction. rewrite He.
  apply emits_some. unfold action_error, action_completed, count_action. keeps.
Qed.
Lemma handleActionState_keeps fs isPre idx a x :
  emits keeps_specs (handleActionState fs isPre idx a x).
Proof. unfold handleActionState, check_action_timeout, CheckTimeout, count_action. keeps. Qed.

Lemma executeActionPhase_stays w fs isPre :
  in_hand fs → agreed w → stays w (executeActionPhase r fs isPre).
Proof.
  intros Hfs Hw. unfold executeActionPhase. apply stays_bind; [keeps|done|].
  intros t w1 Hw1. cbv zeta.
  set (fs' := if (ts_CurrentActionIndex t <? 0)%Z then _ else fs).
  assert (Hfs' : in_hand fs') by (unfold fs'; by case_match).
  assert (Hend : stays w1 (end_action_phase r fs' isPre)).
  { unfold end_action_phase. destruct isPre; [apply stays_keeps; [keeps|done]|].
    by apply completeTransition_stays. }
  repeat case_match; try done; (apply stays_keeps; [|done]);
    (apply emits_bind; [apply handleActionState_keeps|]);
    (intros [ans|]; [keeps|apply runAction_keeps]).
Qed.

(** The value of a computation, together with its quietness. *)
Lemma stays_bind_value {A B} w (m : IO A) (f : A → IO B) (Φ : A → Prop) :
  emits keeps_specs m → wp m (λ o _, ∀ a, o = Ret a → Φ a) → agreed w →
  (∀ a w', Φ a → agreed w' → stays w' (f a)) → stays w (m ≫= f).
Proof.
  intros Hm HΦ Hw Hf. apply shared_bind. eapply shared_mono.
  - apply shared_conj; [exact (stays_keeps w m Hm Hw)|].
    apply (shared_wp R w m (λ o _, ∀ a, o = Ret a → Φ a)).
    eapply wp_mono; [exact HΦ|]. by intros o t Ho _ w' _.
  - intros [a|] w' [Hw' Ha]; [by apply Hf; [apply Ha|]|done].
Qed.

Definition flush_value (fs : FailoverService) (step : flush_step) : Prop :=
  match step with
  | inl _ => True
  | inr (fs', _) => fs_spec fs' = fs_spec fs ∧ fs_meta fs' = fs_meta fs
  end.
Lemma flush_kill_keeps fs t : emits keeps_specs (flush_kill r fs t).
Proof.
  unfold flush_kill, flush_signal, flush_acks, ack_timed_out, ack_timeout, killed_condition. keeps.
Qed.
Lemma flush_kill_value fs t :
  wp (flush_kill r fs t) (λ o _, ∀ step, o = Ret step → flush_value fs step).
Proof.
  unfold flush_kill, flush_signal, flush_acks, ack_timed_out, ack_timeout, killed_condition,
    set_condition, updateClusterStatus.
  repeat first [wp_step | by intros ? [= <-] | eapply wp_any; intros [?|] ?].
Qed.

Lemma flush_advance_stays w fs : in_hand fs → agreed w → stays w (flush_advance r fs).
Proof.
  intros Hfs Hw. unfold flush_advance. apply stays_bind; [keeps|done|]. intros t w1 Hw1.
  assert (stays w1 (completeTransition r fs)) by (by apply completeTransition_stays).
  repeat case_match; try done. apply stays_keeps; [keeps|done].
Qed.

Lemma reconcileFlushingConnections_stays w fs :
  in_hand fs → agreed w → stays w (reconcileFlushingConnections r fs).
Proof.
  intros Hfs Hw. unfold reconcileFlushingConnections. apply stays_bind; [keeps|done|].
  intros t w1 Hw1. eapply stays_bind_value; [apply flush_kill_keeps|apply flush_kill_value|done|].
  intros [ans|[fs' applied]] w2 Hv Hw2; [by apply stays_keeps; [keeps|]|].
  destruct Hv as [Hspec Hmeta]. apply shared_bind.
  assert (Hin : ∀ fs2, fs_spec fs2 = fs_spec fs' → fs_meta fs2 = fs_meta fs' → in_hand fs2).
  { intros fs2 H1 H2. unfold in_hand, direction in *. by rewrite H1, H2, Hspec, Hmeta. }
  destruct applied; [apply shared_ret|apply shared_bind, shared_now; intros n; apply shared_ret];
    by apply flush_advance_stays; [apply Hin|].
Qed.

Lemma handleForceAdvance_value fs :
  wp (handleForceAdvance fs) (λ o _, ∀ x, o = Ret x →
    fs_spec x.2 = fs_spec fs ∧ fs_meta x.2 = fs_meta fs).
Proof.
  unfold handleForceAdvance, forceAdvanceActionPhase.
  repeat first [wp_step | by intros ? [= <-] | eapply wp_any; intros [?|] ?].
Qed.
Lemma handleForceAdvance_keeps fs : emits keeps_specs (handleForceAdvance fs).
Proof. unfold handleForceAdvance, forceAdvanceActionPhase. keeps. Qed.

(** The writes of the metadata of an object at hand. *)
Lemma stays_update_meta fs m : in_hand fs → meta_key m = meta_key (fs_meta fs) → in_hand (set_meta m fs).
Proof. intros [Hd Hk] Hm. split; [done|]. simpl. by rewrite Hm. Qed.

Lemma reconcile_force_advance_stays w fs :
  in_hand fs → agreed w → stays w (reconcile_force_advance fs).
Proof.
  intros Hfs Hw. unfold reconcile_force_advance.
  eapply stays_bind_value; [apply handleForceAdvance_keeps|apply handleForceAdvance_value|done|].
  intros [modified fs'] w1 [Hspec Hmeta] Hw1. simpl in Hspec, Hmeta.
  assert (Hin : in_hand fs').
  { unfold in_hand, direction in *. by rewrite Hspec, Hmeta. }
  assert (Hrest : ∀ f w2, in_hand f → agreed w2 → stays w2 (s ← update_fs (set_meta
      (delete_annotation forceAdvanceAnnotation (fs_meta f)) f);
      match s with inl err => failed err | inr _ => mret (requeue, None) end)).
  { intros f w2 Hf Hw2. apply stays_update; [by apply stays_update_meta|done|..]; intros;
      by apply shared_ret. }
  apply shared_bind. destruct modified; [|by apply shared_ret, Hrest].
  apply shared_bind, shared_update_status; [intros err _; by apply shared_ret, shared_ret|].
  intros o w2 Hm Hs Ho. apply shared_ret, Hrest; [|by eapply agreed_same].
  apply decode_in_hand. destruct Hin as [_ Hk]. rewrite Hk in Hm, Ho. split; [|done].
  rewrite stored_direction_standing in Ho. destruct Hw1 as [[Hh|[_ Hh]] _]; rewrite Hh in Ho;
    [by injection Ho|done].
Qed.

Lemma reconcile_deletion_stays w fs : in_hand fs → agreed w → stays w (reconcile_deletion r fs).
Proof.
  intros Hfs Hw. unfold reconcile_deletion. destruct (ContainsFinalizer _ _); [|by apply shared_ret].
  apply stays_bind; [keeps|done|]. intros _ w1 Hw1.
  apply stays_update; [|done|intros; by apply shared_ret..].
  apply stays_update_meta; [done|]. by destruct (remove_finalizers_only (fs_meta fs) finalizerName) as [l ->].
Qed.

Lemma ensure_stays {B} w fs (b : bool) m (f : goerr + FailoverService → IO B) :
  in_hand fs → agreed w → meta_key m = meta_key (fs_meta fs) →
  (∀ err w', agreed w' → stays w' (f (inl err))) →
  (∀ o w', in_hand o → agreed w' → stays w' (f (inr o))) →
  stays w ((if b then update_fs (set_meta m fs) else mret (inr fs)) ≫= f).
Proof.
  intros Hfs Hw Hm H1 H2. destruct b; [|by apply shared_bind, shared_ret, H2].
  apply stays_update; [by apply stays_update_meta|done..].
Qed.

Lemma Reconcile_stays w : agreed w → stays w (Reconcile r key).
Proof.
  intros Hw. apply shared_keyed. intros [Hk _]. unfold Reconcile. apply shared_bind, shared_get_here.
  { intros err _. destruct (IsNotFound err); by apply shared_ret. }
  intros fs Hget. assert (Hfs : in_hand fs).
  { split; [|by apply (keyed_key _ KFailoverService _ _ Hk)].
    exact (holds_direction _ _ _ (proj1 Hw) Hget). }
  destruct (negb _); [by apply reconcile_deletion_stays|].
  apply ensure_stays; [done..| |intros; by apply shared_ret|].
  { by destruct (add_finalizers_only (fs_meta fs) finalizerName) as [l ->]. }
  intros fs1 w1 Hfs1 Hw1. unfold ensure_cluster_id.
  apply ensure_stays; [done..|intros; by apply shared_ret|].
  intros fs2 w2 Hfs2 Hw2. destruct (force_requested fs2); [by apply reconcile_force_advance_stays|].
  unfold dispatch. cbv zeta. repeat case_match;
    first [by apply reconcileIdle_stays | by apply executeActionPhase_stays
          | by apply reconcileFlushingConnections_stays | apply stays_keeps; [|done]];
    unfold reconcileUpdatingResources, reset_unknown_phase, service_ready; keeps.
Qed.
End agreement.

(** ** A disagreement is resolved *)

Section convergence.
Context (key : NamespacedName).

Lemma stays_home_service e : service_event e → stays_home e.
Proof. destruct e as [[] x]; simpl; try done. by intros [? _]. Qed.

(** The directions stored after the steady state has synchronised [a], [b] being
    the peer's object. *)
Definition resolved (a b : FailoverService) : bool :=
  if remote_wins (fr_ClusterID r) a b then direction b else direction a.

Lemma adopt_remote_steady_resolves w fs rs cur d :
  meta_key (fs_meta fs) = key → standing key (w_here w) = Some (d, false) →
  (directions key w).2 = Some (rs_FailoverActive rs) →
  shared reachable w (adopt_remote_steady r fs rs cur)
    (λ _ w', directions key w' = (Some (rs_FailoverActive rs), Some (rs_FailoverActive rs))).
Proof.
  intros Hk Hh Hp. unfold adopt_remote_steady, update_fs. cbv zeta.
  apply shared_bind, shared_bind, shared_update_here; [intros err Hr; by destruct (Hr eq_refl)|].
  intros o w1 _ Hpeer Hto. apply shared_ret, shared_keeps; [unfold failed; keeps|].
  change (meta_key (fs_meta (set_FailoverActive (rs_FailoverActive rs) fs)))
    with (meta_key (fs_meta fs)) in Hto. rewrite Hk, Hh in Hto.
  intros o' w' Hs. rewrite (directions_standings _ _ _ (Hs key)).
  unfold directions in *. simpl in Hp. rewrite Hpeer, Hp, stored_direction_standing.
  destruct Hto as (d0 & del & [= <- <-] & [->|[[=] _]]). done.
Qed.

Lemma steady_resolves w a b fs :
  is_Some (fr_Syncer r) → fs_spec fs = fs_spec a → meta_key (fs_meta fs) = key →
  st_ActiveGeneration (fs_status fs) = st_ActiveGeneration (fs_status a) →
  st_SpecChangeTime (fs_status fs) = st_SpecChangeTime (fs_status a) →
  standing key (w_here w) = Some (direction a, false) → w_peer w KFailoverService key = Some b →
  shared reachable w (reconcileSteadyState r fs)
    (λ _ w', directions key w' = (Some (resolved a b), Some (resolved a b))).
Proof.
  intros [S HS] Hspec Hk Hg Ht Hstand Hb. unfold reconcileSteadyState. rewrite HS.
  assert (Ha : (directions key w).1 = Some (direction a)).
  { simpl. by rewrite stored_direction_standing, Hstand. }
  destruct (sync_configured _ HS) as (s & p & -> & Hid).
  assert (Hda : direction fs = direction a) by (unfold direction; by rewrite Hspec).
  assert (Hwins : remote_wins (sy_ClusterID s) fs b = remote_wins (fr_ClusterID r) a b).
  { unfold remote_wins. by rewrite Hid, Hg, Ht. }
  assert (Hp : (directions key w).2 = Some (direction b)).
  { unfold directions, stored_direction. simpl. by rewrite Hb. }
  apply shared_bind. eapply shared_mono.
  { apply shared_conj; [apply (Sync_shared _ w s p fs)|].
    apply (shared_wp reachable w _ (λ o _, ∃ res, o = Ret (inr res))).
    eapply wp_mono; [apply Sync_reaches|]. intros o t Hr HR w' _. by apply Hr. }
  intros o w1 [Hpost [res ->]]. destruct Hpost as (b' & Hb' & st & Hst & Hcase).
  rewrite Hk, Hb in Hb'. injection Hb' as <-. rewrite Hwins, Hk in Hcase. cbv zeta.
  unfold resolved. rewrite Hst. destruct (sr_RemoteWins res).
  - destruct Hcase as (_ & -> & Hrs & ->). rewrite <- Hrs. apply shared_bind, shared_deref.
    apply (adopt_remote_steady_resolves _ _ _ _ (direction a)); [done|done|]. by rewrite Hrs.
  - apply shared_keeps; [unfold sync_done; keeps|]. intros o w' Hs.
    rewrite (directions_standings _ _ _ (Hs key)).
    destruct Hcase as [[Hd ->]|(_ & -> & ->)]; [|by rewrite Ha, Hda].
    rewrite (surjective_pairing (directions key w)), Ha, Hp, Hd, Hda. by case_match.
Qed.

(** The reconcile has given up on a Service it could not write. *)
Definition gave_up (o : outcome Answer) : Prop := o = Ret (requeue_after defaultBackoffMin, None).

Lemma reconcileIdle_resolves w a b :
  is_Some (fr_Syncer r) → transition_pending a = false → being_deleted a = false →
  meta_key (fs_meta a) = key → w_here w KFailoverService key = Some a → w_peer w KFailoverService key = Some b →
  shared reachable w (reconcileIdle r a) (λ o w',
    gave_up o ∧ directions key w' = directions key w
    ∨ directions key w' = (Some (resolved a b), Some (resolved a b))).
Proof.
  intros HS Hp Hdel Hk Ha Hb. unfold reconcileIdle. rewrite Hp.
  unfold ServiceManager.Reconcile, ReconcileWithDirection. generalize (ResolveActiveAddressWithDirection
    (fr_ServiceManager r) a (sp_FailoverActive (fs_spec a))). intros address.
  apply shared_bind. eapply (shared_mono _ _ _ (λ o w1, returns (λ _, True) o
    ∧ (∀ key, standings key w1 = standings key w) ∧ w_peer w1 = w_peer w)).
  { apply shared_wp. eapply wp_mono; [apply ReconcileWithAddress_safe|]. intros o t Ht _ w1 Hw1.
    destruct Ht as [HG Ho]; [by apply Forall_true|]. split; [done|]. split.
    - intros k. eapply (world_serves_standings k t); [|exact Hw1].
      eapply Forall_impl; [apply service_event_keeps|exact HG].
    - eapply (world_serves_home t); [|exact Hw1]. eapply Forall_impl; [apply stays_home_service|exact HG]. }
  intros [[err|]|] w1 (Ho & Hd & Hpeer); [| |done].
  - eapply shared_mono; [apply shared_conj|].
    + apply (shared_keeps reachable w1 _ (λ _ w2, directions key w2 = directions key w1)); [keeps|].
      intros o w2 Hs. by apply directions_standings.
    + apply (shared_wp reachable w1 _ (λ o _, gave_up o)).
      unfold service_error, set_condition, update_fs_status. by repeat wp_step.
    + intros o w2 [Hw2 Hg]. left. split; [done|]. by rewrite Hw2, (directions_standings _ _ _ (Hd key)).
  - apply shared_bind, shared_bind, shared_now. intros n. apply shared_ret.
    eapply shared_mono; [apply (steady_resolves w1 a b); try done|by right].
    + specialize (Hd key). unfold standings in Hd. injection Hd as -> _.
      unfold standing. by rewrite Ha; simpl; rewrite Hdel.
    + by rewrite Hpeer.
Qed.

Lemma Reconcile_resolves w a b :
  settled r a → phase_of a = PhaseIdle → transition_pending a = false → is_Some (fr_Syncer r) →
  w_here w KFailoverService key = Some a → w_peer w KFailoverService key = Some b →
  shared reachable w (Reconcile r key) (λ o w',
    gave_up o ∧ directions key w' = directions key w
    ∨ directions key w' = (Some (resolved a b), Some (resolved a b))).
Proof.
  intros (Hdel & Hfin & Hann & Hid & Hforce) Hi Hp HS Ha Hb.
  apply shared_keyed. intros [Hk _]. pose proof (keyed_key _ _ _ _ Hk Ha) as Hkey. unfold Reconcile.
  apply shared_bind, shared_get_here; [by intros err []|]. intros fs Hfs.
  rewrite Ha in Hfs. injection Hfs as <-. rewrite Hdel. cbn [negb].
  unfold ensure_finalizer. rewrite Hfin. apply shared_bind, shared_ret.
  unfold ensure_cluster_id. rewrite Hid, !bool_decide_eq_false_2 by auto.
  apply shared_bind, shared_ret. rewrite Hforce. unfold dispatch. fold (phase_of a). rewrite Hi.
  apply reconcileIdle_resolves; try done. unfold being_deleted. by rewrite Hdel.
Qed.
End convergence.
End controller.

(** ** The system of two clusters *)

Lemma configured_sync `{KubeLib} Getenv provider r :
  NewReconcilerFromEnv Getenv provider = inr r → SyncConfigured r ∧ is_Some (fr_Syncer r).
Proof.
  unfold NewReconcilerFromEnv. cbv zeta.
  generalize (if decide (Getenv "CONTROLLER_NAMESPACE" = "")
    then "k8s-failover-manager-system" else Getenv "CONTROLLER_NAMESPACE") as ns.
  generalize (if decide (Getenv "CLUSTER_ROLE" = "") then rolePrimary else Getenv "CLUSTER_ROLE")
    as role.
  intros role ns. do 4 (case_decide; [done|]). intros [= <-].
  split; [|by eexists]. intros S [= <-]. do 2 eexists. split; reflexivity.
Qed.

Section system.
Context `{KubeLibLaws} (rA rB : FailoverServiceReconciler) (key : NamespacedName).

(** One of the managers reconciles its object; [w] is seen from the first. *)
Inductive system_step (w w' : world) : Prop :=
  | S_here E h : world_serves w (Reconcile rA key E h).2 w' → system_step w w'
  | S_peer E h : world_serves (flip w) (Reconcile rB key E h).2 (flip w') → system_step w w'.

(** The object [o] was stored and stood for [d]: it still does, or it is gone,
    having been deleted. *)
Definition stays_stored (d : bool) (o : FailoverService) (x : option FailoverService) : Prop :=
  match x with
  | Some o' => direction o' = d ∧ being_deleted o' = being_deleted o
  | None => being_deleted o = true
  end.
Lemma holds_stays d o st :
  holds d (being_deleted o) (standing key st) → stays_stored d o (st KFailoverService key).
Proof.
  unfold holds, standing, stays_stored. destruct (st KFailoverService key); simpl;
    intros [Hs|[? Hs]]; try done. by injection Hs.
Qed.

(** C13: agreement is stable: once the two clusters store the same direction for
    a FailoverService, any sequence of reconciles of either manager, in any phase
    and whatever fails in between, leaves that direction stored in both; only an
    object whose deletion had been requested may be gone. *)
Theorem agreement_stable getA cpA getB cpB d w w' a b :
  NewReconcilerFromEnv getA cpA = inr rA → NewReconcilerFromEnv getB cpB = inr rB →
  world_keyed w → rtc system_step w w' →
  w_here w KFailoverService key = Some a → w_peer w KFailoverService key = Some b →
  direction a = d → direction b = d →
  stays_stored d a (w_here w' KFailoverService key)
  ∧ stays_stored d b (w_peer w' KFailoverService key).
Proof.
  intros HA HB Hk Hsteps Ha Hb Hda Hdb. pose proof (new_reconciler_wired _ _ _ HA).
  pose proof (new_reconciler_wired _ _ _ HB).
  destruct (configured_sync _ _ _ HA) as [? _], (configured_sync _ _ _ HB) as [? _].
  assert (Hany : ∀ t, Forall any_event t) by (intros t; by apply Forall_true).
  enough (Hag : agreed d key (being_deleted a) (being_deleted b) w').
  { destruct Hag as [Hh Hp]. split; by apply holds_stays. }
  assert (Hag : agreed d key (being_deleted a) (being_deleted b) w).
  { split; left; unfold standing; [by rewrite Ha; simpl; rewrite Hda|by rewrite Hb; simpl; rewrite Hdb]. }
  clear Ha Hb. induction Hsteps as [|w w1 w' [E h Hs|E h Hs] _ IH]; [done| |]; apply IH.
  - by eapply world_serves_keyed.
  - by eapply (Reconcile_stays rA any_event d key _ _ w Hag Hk E h).
  - destruct Hk as [Hh Hp]. destruct (world_serves_keyed (flip w) _ _ (conj Hp Hh) Hs). done.
  - destruct Hk as [Hh Hp], Hag as [Hag1 Hag2].
    destruct (Reconcile_stays rB any_event d key _ _ (flip w) (conj Hag2 Hag1) (conj Hp Hh) E h (Hany _) _ Hs).
    done.
Qed.

(** The object of [r]'s cluster, [a], is in the steady state; [b] is its peer's. *)
Definition at_rest (r : FailoverServiceReconciler) (w : world) (a b : FailoverService) : Prop :=
  settled r a ∧ phase_of a = PhaseIdle ∧ transition_pending a = false
  ∧ w_here w KFailoverService key = Some a ∧ w_peer w KFailoverService key = Some b.

(** What a reconcile of [r] makes of the directions of [w]: both [d], or nothing
    when it gave up on the Service. *)
Definition settles_on (r : FailoverServiceReconciler) (d : bool) (w : world) : Prop :=
  ∀ E h w', Forall reachable (Reconcile r key E h).2 →
    world_serves w (Reconcile r key E h).2 w' →
    gave_up (Reconcile r key E h).1 ∧ directions key w' = directions key w
    ∨ directions key w' = (Some d, Some d).

Lemma at_rest_settles r getR cp w a b :
  NewReconcilerFromEnv getR cp = inr r → world_keyed w → at_rest r w a b →
  settles_on r (resolved r a b) w.
Proof.
  intros Hr Hk (Hs & Hi & Hp & Ha & Hb) E h w' HR Hw.
  pose proof (new_reconciler_wired _ _ _ Hr). destruct (configured_sync _ _ _ Hr) as [? ?].
  by apply (Reconcile_resolves r key w a b).
Qed.

Lemma settled_identity r a : settled r a → remoteClusterID a = fr_ClusterID r.
Proof.
  intros (_ & _ & _ & Hid & _). unfold remoteClusterID, mget0 in *.
  by destruct (mget (om_Annotations (fs_meta a)) cluster_id_annotation).
Qed.

(** C14: a disagreement is resolved, and the clusters agree on how: with both
    objects in the steady state, one reconcile by either manager that reaches
    the other cluster leaves the same direction stored in both, and it is the
    same direction whichever manager comes first (unless the reconcile stops
    early because it cannot write the managed Service). *)
Theorem clusters_converge getA cpA getB cpB w a b :
  NewReconcilerFromEnv getA cpA = inr rA → NewReconcilerFromEnv getB cpB = inr rB →
  fr_ClusterID rA ≠ fr_ClusterID rB → world_keyed w →
  at_rest rA w a b → at_rest rB (flip w) b a →
  ∃ d, (d = direction a ∨ d = direction b) ∧ settles_on rA d w ∧ settles_on rB d (flip w).
Proof.
  intros HA HB Hne Hk Ha Hb. exists (resolved rA a b).
  assert (Hopp : resolved rB b a = resolved rA a b).
  { unfold resolved. rewrite (remote_wins_opposite (fr_ClusterID rB) (fr_ClusterID rA));
      [by destruct (remote_wins _ a b)|apply settled_identity, Hb|apply settled_identity, Ha|done]. }
  split; [unfold resolved; case_match; auto|]. split; [by eapply at_rest_settles|].
  rewrite <- Hopp. eapply at_rest_settles; [done| |done]. by destruct Hk.
Qed.

(** C35: an edit of the direction that its own manager has not yet seen can be
    undone by the other one: when the generations and the recorded times of the
    last change are equal and the peer's identity is not the smaller one, a
    steady-state reconcile of the peer that comes first restores the old
    direction in both clusters. *)
Theorem unseen_edit_lost getB cpB w a b :
  NewReconcilerFromEnv getB cpB = inr rB → world_keyed w → at_rest rB (flip w) b a →
  st_ActiveGeneration (fs_status a) = st_ActiveGeneration (fs_status b) →
  st_SpecChangeTime (fs_status a) = st_SpecChangeTime (fs_status b) →
  str_ltb (fr_ClusterID rB) (remoteClusterID a) = false →
  settles_on rB (direction b) (flip w).
Proof.
  intros HB Hk Hb Hg Ht Hid.
  assert (Hd : resolved rB b a = direction b).
  { unfold resolved, remote_wins. rewrite Hg, Ht, Hid, Z.ltb_irrefl, Z.eqb_refl.
    destruct (st_SpecChangeTime (fs_status b)) as [t|]; [|done].
    unfold After. by rewrite !bool_decide_eq_false_2 by lia. }
  rewrite <- Hd. eapply at_rest_settles; [done| |done]. by destruct Hk.
Qed.
End system.

(** ** Witnesses *)

Definition demo_getenv_west (name : string) : string :=
  if decide (name = "CLUSTER_ID") then "us-west-2"
  else if decide (name = "CLUSTER_ROLE") then "failover" else demo_getenv name.
Definition demo_west : FailoverServiceReconciler :=
  match NewReconcilerFromEnv demo_getenv_west demo_cp with
  | inr r => r
  | inl _ => demo_reconciler
  end.
Lemma demo_west_configured : NewReconcilerFromEnv demo_getenv_west demo_cp = inr demo_west.
Proof. reflexivity. Defined.

(** The object of the western cluster. *)
Definition demo_west_fs (active applied : bool) (gen : Z) : FailoverService :=
  set_LastKnown (Some applied) (set_ActiveGeneration gen
    (set_meta (SetClusterIDAnnotation demo_meta "us-west-2") (demo_fs active))).
(** A cluster that stores [fs] and the Secret. *)
Definition demo_store (fs : FailoverService) : store :=
  put (put empty_store KFailoverService demo_req (Some fs))
    KSecret (okey KSecret demo_secret) (Some demo_secret).
Lemma demo_store_keyed fs :
  okey KFailoverService fs = demo_req ∧ finished (fs_meta fs) = false → keyed (demo_store fs).
Proof.
  intros Hk. apply keyed_put; [|split; reflexivity]. apply keyed_put; [exact empty_store_keyed|exact Hk].
Defined.

(** The east still runs on its primary, the west has failed over since. *)
Definition demo_pair : world := {|
  w_here := demo_store (demo_fs false); w_peer := demo_store (demo_west_fs true true 2) |}.
Lemma demo_pair_keyed : world_keyed demo_pair.
Proof. split; apply demo_store_keyed; split; reflexivity. Defined.

(** A decision procedure for [gave_up]. *)
Definition backoff (o : outcome Answer) : bool :=
  match o with Ret (res, None) => (res_RequeueAfter res =? defaultBackoffMin)%Z | _ => false end.
Lemma backoff_spec o : gave_up o → backoff o = true.
Proof. by intros ->. Qed.

Ltac at_rest_demo :=
  split; [|split; [reflexivity|split; [reflexivity|split; reflexivity]]];
  split; [reflexivity|]; split; [reflexivity|]; split; [discriminate|]; split; reflexivity.

(** A reconcile against the pair of servers, its events and the pair after it. *)
Definition demo_run (r : FailoverServiceReconciler) (w : world) : outcome Answer * hist :=
  Reconcile r demo_req (world_sim quiet w) [].
Definition demo_after (r : FailoverServiceReconciler) (w : world) : world :=
  world_replay w (demo_run r w).2.
Lemma demo_run_served r w :
  legitb (world_sim quiet w) [] (demo_run r w).2 = true →
  world_serves w (Reconcile r demo_req (world_sim quiet w) []).2 (demo_after r w).
Proof. intros Hl. by apply (world_sim_run quiet w), legitb_legit. Qed.

Definition answeredb {A} (r : goerr + A) : bool := match r with inl _ => false | inr _ => true end.
Definition reachableb (e : event) : bool :=
  match e with
  | Ev (Get _ k _) r =>
      match k return goerr + kobj k → bool with
      | KSecret => λ r, match r with
                        | inl _ => false
                        | inr s => bool_decide (is_Some (sec_Data s !! "kubeconfig"))
                        end
      | KFailoverService => answeredb
      | _ => λ _, true
      end r
  | Ev (Update _ k _) r => bool_decide (k ≠ KFailoverService) || answeredb r
  | Ev (RESTConfigFromKubeConfig _) r => answeredb r
  | Ev (NewClient _) r => answeredb r
  | _ => true
  end.
Lemma answeredb_answered {A} (r : goerr + A) : answeredb r = true → answered r.
Proof. by destruct r. Qed.
Lemma reachableb_reachable t : forallb reachableb t = true → Forall reachable t.
Proof.
  induction t as [|e t IH]; simpl; [constructor|]. intros [He Ht]%andb_prop.
  constructor; [|by apply IH]. clear IH Ht. destruct e as [[] r]; simpl in *; try done;
    try by apply answeredb_answered.
  - destruct k; try done; [by apply answeredb_answered|]. destruct r; [done|].
    apply bool_decide_eq_true in He as [? ->]. done.
  - intros ->. by apply answeredb_answered.
Qed.

(** The reconcile in the east adopts the west's direction. *)
Lemma clusters_converge_witness :
  ∃ d, directions demo_req (demo_after demo_reconciler demo_pair) = (Some d, Some d).
Proof.
  destruct (clusters_converge (H := demo_lib) demo_reconciler demo_west demo_req
    demo_getenv demo_cp demo_getenv_west demo_cp demo_pair (demo_fs false) (demo_west_fs true true 2))
    as (d & _ & Hs & _).
  - exact demo_reconciler_configured.
  - exact demo_west_configured.
  - discriminate.
  - exact demo_pair_keyed.
  - at_rest_demo.
  - at_rest_demo.
  - exists d. destruct (Hs (world_sim quiet demo_pair) [] (demo_after demo_reconciler demo_pair))
      as [[Hg _]|Hd]; [| |apply backoff_spec in Hg; vm_compute in Hg; discriminate|exact Hd].
    + apply reachableb_reachable. vm_compute. reflexivity.
    + apply demo_run_served. vm_compute. reflexivity.
Defined.

(** The east's spec has just been edited; the west's manager reconciles first. *)
Definition demo_edited : world := {|
  w_here := demo_store (demo_fs true); w_peer := demo_store (demo_west_fs false false 1) |}.
Lemma unseen_edit_lost_witness :
  directions demo_req (demo_after demo_west (flip demo_edited)) = (Some false, Some false).
Proof.
  destruct (unseen_edit_lost (H := demo_lib) demo_west demo_req
    demo_getenv_west demo_cp demo_edited (demo_fs true) (demo_west_fs false false 1))
    with (E := world_sim quiet (flip demo_edited)) (h := @nil event)
         (w' := demo_after demo_west (flip demo_edited)) as [[Hg _]|Hd];
    [..|apply backoff_spec in Hg; vm_compute in Hg; discriminate|exact Hd].
  - exact demo_west_configured.
  - split; apply demo_store_keyed; split; reflexivity.
  - at_rest_demo.
  - reflexivity.
  - reflexivity.
  - reflexivity.
  - apply reachableb_reachable. vm_compute. reflexivity.
  - apply demo_run_served. vm_compute. reflexivity.
Defined.

(** Agreed clusters and a reconcile in the east. *)
Definition demo_agreed : world := {|
  w_here := demo_store (demo_fs false); w_peer := demo_store (demo_west_fs false false 1) |}.
Lemma demo_agreed_keyed : world_keyed demo_agreed.
Proof. split; apply demo_store_keyed; split; reflexivity. Defined.
Lemma demo_agreed_step :
  rtc (system_step (H := demo_lib) demo_reconciler demo_west demo_req) demo_agreed
    (demo_after demo_reconciler demo_agreed).
Proof.
  apply rtc_once. apply (S_here _ _ _ _ _ (world_sim quiet demo_agreed) []).
  apply demo_run_served. vm_compute. reflexivity.
Defined.
Lemma agreement_stable_witness :
  stays_stored false (demo_fs false) (w_here (demo_after demo_reconciler demo_agreed) KFailoverService demo_req)
  ∧ stays_stored false (demo_west_fs false false 1)
      (w_peer (demo_after demo_reconciler demo_agreed) KFailoverService demo_req).
Proof.
  apply (agreement_stable (H := demo_lib) demo_reconciler demo_west demo_req
    demo_getenv demo_cp demo_getenv_west demo_cp false demo_agreed).
  - exact demo_reconciler_configured.
  - exact demo_west_configured.
  - exact demo_agreed_keyed.
  - exact demo_agreed_step.
  - reflexivity.
  - reflexivity.
  - reflexivity.
  - reflexivity.
Defined.

(** ** What the decode of a response undoes

    When the remote wins at the end of a transition, the update of the object
    decodes the direction stored before over the one just recorded; the new
    direction then is the recorded one, so no transition leads to it: the next
    reconcile moves the traffic back as if nothing had happened, without its
    actions and without killing the connections. *)
Definition demo_switched_store (fs : FailoverService) : store :=
  put (put (demo_store fs) KService (svc_key fs)
         (Some {| (buildClusterIPService fs) with svc_ClusterIP := "10.43.0.7" |}))
    KEndpointSlice (slice_key fs) (Some (desired_slice fs "192.168.50.60")).
Definition demo_contested : world := {|
  w_here := demo_switched_store (demo_moving (demo_transition PhaseFlushingConnections 7));
  w_peer := demo_store (demo_west_fs false false 5) |}.
Definition demo_forgotten : world := demo_after demo_reconciler demo_contested.
Definition moves (o : FailoverService) : bool * option bool * bool * bool :=
  (direction o, st_LastKnownFailoverActive (fs_status o),
   bool_decide (is_Some (fs_transition o)), transition_pending o).
Definition external_name (w : world) : option string :=
  svc_ExternalName <$> w_here w KService (svc_key (demo_fs true)).

Example remote_win_forgets_transition :
  (* the transition to the failover address is being completed *)
  moves <$> w_here demo_contested KFailoverService demo_req = Some (true, Some false, true, true)
  (* the reconcile adopts the remote's direction, and sees nothing to do *)
  ∧ moves <$> w_here demo_forgotten KFailoverService demo_req = Some (false, Some false, false, false)
  (* the traffic still goes to the failover address; the next reconcile
     redirects it, outside of any transition *)
  ∧ external_name demo_forgotten = Some ""
  ∧ external_name (demo_after demo_reconciler demo_forgotten)
    = Some "mysql-primary.mysql.svc.cluster.local"
  ∧ moves <$> w_here (demo_after demo_reconciler demo_forgotten) KFailoverService demo_req
    = Some (false, Some false, false, false).
Proof. vm_compute. repeat split. Qed.

(** Likewise the remote state stored before is decoded over the winner's: the
    generation adopted is the one recorded at an earlier synchronisation. *)
Definition demo_seen : RemoteState := {|
  rs_FailoverActive := false; rs_ActiveCluster := "us-west-2"; rs_ActiveGeneration := 1;
  rs_LastSyncTime := Some 3; rs_ClusterID := "us-west-2"; rs_SpecChangeTime := None |}%Z.
Definition demo_outdated : world := {|
  w_here := demo_store (set_RemoteState (Some demo_seen) (demo_fs false));
  w_peer := demo_store (demo_west_fs true true 5) |}.
Definition generation (w : world) : option Z :=
  (λ o, st_ActiveGeneration (fs_status o)) <$> w_here w KFailoverService demo_req.
Example remote_win_adopts_old_generation :
  generation (demo_after demo_reconciler demo_pair) = Some 2%Z
  ∧ generation (demo_after demo_reconciler demo_outdated) = Some 1%Z.
Proof. vm_compute. repeat split. Qed.
