(* ===== verification/Main.v ===== *)
(** * The two programs ([src/cmd/main.go], [src/cmd/connection-killer/main.go])

    The manager's [main]: the options it builds from its flags, the sequence of
    set-up steps, the registration of the controller ([SetupWithManager]), and
    the way every failure ends the process.  The connection killer's [main].
    controller-runtime and client-go are the answers to the set-up steps. *)
From stdpp Require Import base gmap strings list numbers.
From S2P Require Import Prelude GoStd GoNetIP Types Kube Logic ApiServer Fixtures ServiceManager Actions WaitRemote RemoteCluster Watcher Signaler Netlink Agent Controller ControllerSpec ControllerProofs ControllerProps.

(** ** Flags, after [flag.Parse] *)

Record Flags := {
  metricsAddr : string; metricsCertPath : string; metricsCertName : string;
  metricsCertKey : string; webhookCertPath : string; webhookCertName : string;
  webhookCertKey : string; enableLeaderElection : bool; probeAddr : string;
  secureMetrics : bool; enableHTTP2 : bool }.
Definition default_flags : Flags := {|
  metricsAddr := "0"; probeAddr := ":8081"; enableLeaderElection := false;
  secureMetrics := true; webhookCertPath := ""; webhookCertName := "tls.crt";
  webhookCertKey := "tls.key"; metricsCertPath := ""; metricsCertName := "tls.crt";
  metricsCertKey := "tls.key"; enableHTTP2 := false |}.

(** ** Options *)

(** [tls.Config], the field the program sets. *)
Record tlsConfig := { NextProtos : list string }.
Definition disableHTTP2 (c : tlsConfig) : tlsConfig := {| NextProtos := ["http/1.1"] |}.

Record WebhookOptions := {
  wo_TLSOpts : list (tlsConfig → tlsConfig); wo_CertDir : string; wo_CertName : string;
  wo_KeyName : string }.
Record MetricsOptions := {
  mo_BindAddress : string; mo_SecureServing : bool; mo_TLSOpts : list (tlsConfig → tlsConfig);
  mo_FilterProvider : option string; mo_CertDir : string; mo_CertName : string;
  mo_KeyName : string }.
Record ManagerOptions := {
  mgo_Scheme : list string; mgo_Metrics : MetricsOptions; mgo_WebhookServer : WebhookOptions;
  mgo_HealthProbeBindAddress : string; mgo_LeaderElection : bool; mgo_LeaderElectionID : string }.

Definition tls_options (f : Flags) : list (tlsConfig → tlsConfig) :=
  if negb (enableHTTP2 f) then [disableHTTP2] else [].
Definition webhook_options (f : Flags) : WebhookOptions :=
  let o := {| wo_TLSOpts := tls_options f; wo_CertDir := ""; wo_CertName := ""; wo_KeyName := "" |} in
  if decide (0 < String.length (webhookCertPath f)) then
    {| o with wo_CertDir := webhookCertPath f; wo_CertName := webhookCertName f;
              wo_KeyName := webhookCertKey f |}
  else o.
Definition metrics_options (f : Flags) : MetricsOptions :=
  let o := {| mo_BindAddress := metricsAddr f; mo_SecureServing := secureMetrics f;
              mo_TLSOpts := tls_options f; mo_FilterProvider := None;
              mo_CertDir := ""; mo_CertName := ""; mo_KeyName := "" |} in
  let o := if secureMetrics f
           then {| o with mo_FilterProvider := Some "WithAuthenticationAndAuthorization" |} else o in
  if decide (0 < String.length (metricsCertPath f)) then
    {| o with mo_CertDir := metricsCertPath f; mo_CertName := metricsCertName f;
              mo_KeyName := metricsCertKey f |}
  else o.

(** The scheme: what [init] registers in it. *)
Definition scheme_groups : list string := ["clientgoscheme"; "batchv1"; "k8sfailoverv1alpha1"].
Definition manager_options (f : Flags) : ManagerOptions := {|
  mgo_Scheme := scheme_groups; mgo_Metrics := metrics_options f;
  mgo_WebhookServer := webhook_options f; mgo_HealthProbeBindAddress := probeAddr f;
  mgo_LeaderElection := enableLeaderElection f; mgo_LeaderElectionID := "e40b61bb.zyno.io" |}.

(** ** Set-up steps *)

(** What [SetupWithManager] registers. *)
Record ControllerSetup := {
  cs_Named : string; cs_For : kind; cs_Owns : list kind;
  cs_RawSources : list RemoteWatcher; cs_Reconciler : FailoverServiceReconciler }.

(** A collector of [src/internal/metrics/metrics.go]: its name and labels. *)
Record Collector := { col_Name : string; col_Labels : list string }.
Inductive setup :=
  | MustRegister (cs : list Collector)
  | AddToScheme (group : string)
  | GetConfig
  | NewManager (o : ManagerOptions)
  | Complete (c : ControllerSetup)
  | AddHealthzCheck (name : string)
  | AddReadyzCheck (name : string)
  | StartManager
  | NewKubeClient
  | NewClientset.

(** The steps performed and how the process goes on: it has panicked, exited
    with a code, or goes on with a value. *)
Inductive ended := Panicked | Exited (code : Z).
Definition Boot (A : Type) : Type := (setup → error) → list setup * (ended + A).
#[export] Instance Boot_ret : MRet Boot := λ A a answer, ([], inr a).
#[export] Instance Boot_bind : MBind Boot := λ A B f m answer,
  let '(t, r) := m answer in
  match r with
  | inl e => (t, inl e)
  | inr a => let '(t', r') := f a answer in (t ++ t', r')
  end.
Definition step (s : setup) : Boot error := λ answer, ([s], inr (answer s)).
(** [os.Exit(1)] *)
Definition exit1 {A} : Boot A := λ _, ([], inl (Exited 1)).
(** [if err != nil { log; os.Exit(1) }] *)
Definition or_exit (s : setup) : Boot unit :=
  e ← step s; match e with Some _ => exit1 | None => mret tt end.
Definition panics {A} : Boot A := λ _, ([], inl Panicked).
(** [utilruntime.Must(err)] *)
Definition must (s : setup) : Boot unit :=
  e ← step s; match e with Some _ => panics | None => mret tt end.

(** ** Metrics *)

Definition metrics_collectors : list Collector := [
  {| col_Name := "failover_transitions_total"; col_Labels := ["name"; "namespace"; "direction"] |};
  {| col_Name := "failover_reconcile_errors_total"; col_Labels := ["name"; "namespace"; "phase"] |};
  {| col_Name := "failover_remote_sync_duration_seconds"; col_Labels := [] |};
  {| col_Name := "failover_connection_kill_phases_total"; col_Labels := [] |};
  {| col_Name := "failover_active"; col_Labels := ["name"; "namespace"] |};
  {| col_Name := "failover_action_execution_duration_seconds";
     col_Labels := ["name"; "namespace"; "action"; "type"] |};
  {| col_Name := "failover_action_executions_total";
     col_Labels := ["name"; "namespace"; "action"; "type"; "result"] |};
  {| col_Name := "failover_transition_duration_seconds";
     col_Labels := ["name"; "namespace"; "direction"] |}].
(** [init] of the package: [MustRegister] panics when a collector is refused. *)
Definition metrics_init : Boot unit := must (MustRegister metrics_collectors).

(** ** The manager *)

Definition init : Boot unit :=
  _ ← must (AddToScheme "clientgoscheme");
  _ ← must (AddToScheme "batchv1");
  must (AddToScheme "k8sfailoverv1alpha1").

Definition controller_setup (r : FailoverServiceReconciler) : ControllerSetup := {|
  cs_Named := "failoverservice"; cs_For := KFailoverService;
  cs_Owns := [KService; KEndpointSlice; KJob; KFailoverEvent];
  cs_RawSources := match fr_RemoteWatcher r with Some w => [w] | None => [] end;
  cs_Reconciler := r |}.
Definition SetupWithManager (r : FailoverServiceReconciler) : Boot error :=
  step (Complete (controller_setup r)).

Section main.
Context `{KubeLib} (f : Flags) (Getenv : string → string) (provider : ClientProvider).

Definition main : Boot unit :=
  _ ← or_exit GetConfig;
  _ ← or_exit (NewManager (manager_options f));
  match NewReconcilerFromEnv Getenv provider with
  | inl _ => exit1
  | inr reconciler =>
      e ← SetupWithManager reconciler;
      match e with
      | Some _ => exit1
      | None =>
          _ ← or_exit (AddHealthzCheck "healthz");
          _ ← or_exit (AddReadyzCheck "readyz");
          or_exit StartManager
      end
  end.

(** The process: the initialisation of the packages, then [main]. *)
Definition process : Boot unit := _ ← metrics_init; _ ← init; main.
End main.

(** ** The connection killer

    Set-up steps that fail or a missing variable end the process with code 1; the
    agent's [Watch] runs until its context, cancelled by a signal, is done. *)
Definition context_Canceled : goerr := Errorf "context canceled".

Section connection_killer.
Context `{KubeLib} (fuel : nat) (vars : gmap string string).

(** The agent, once everything is set up. *)
Definition killer_setup : Boot Agent :=
  match agentNodeName vars with
  | inl _ => exit1
  | inr nodeName =>
      let namespace := controllerNamespace vars in
      _ ← must (AddToScheme "clientgoscheme");
      _ ← or_exit GetConfig;
      _ ← or_exit NewKubeClient;
      _ ← or_exit NewClientset;
      mret {| a_NodeName := nodeName; a_Namespace := namespace; a_Clientset := true;
              a_lastSeq := None |}
  end.

(** How the process ends after [Watch] has returned [err]. *)
Definition killer_exit (err : error) : Z :=
  match err with
  | Some e => if decide (e = context_Canceled) then 0 else 1
  | None => 0
  end.
Definition killer_run (sessions rounds : nat) (agent : Agent) : IO (loop Z) :=
  '(_, r) ← Watch fuel sessions rounds agent (1 * Second);
  mret match r with Running => Running | Exit err => Exit (killer_exit err) end.
Definition killer_main (answer : setup → error) (sessions rounds : nat) : IO (loop ended) :=
  match (killer_setup answer).2 with
  | inl e => mret (Exit e)
  | inr agent =>
      r ← killer_run sessions rounds agent;
      mret match r with Running => Running | Exit code => Exit (Exited code) end
  end.
End connection_killer.

(** ** What the processes guarantee *)

Definition boot_sequence (f : Flags) (r : FailoverServiceReconciler) : list setup :=
  MustRegister metrics_collectors :: (AddToScheme <$> scheme_groups)
  ++ [GetConfig; NewManager (manager_options f); Complete (controller_setup r);
      AddHealthzCheck "healthz"; AddReadyzCheck "readyz"; StartManager].

(** A server applies its TLS options in order. *)
Definition apply_tls (opts : list (tlsConfig → tlsConfig)) (c : tlsConfig) : tlsConfig :=
  foldl (λ c opt, opt c) c opts.
(** HTTP/2 is offered by neither server unless asked for, and secure metrics are
    authenticated. *)
Definition hardened (f : Flags) (o : ManagerOptions) : Prop :=
  (∀ c, NextProtos (apply_tls (mo_TLSOpts (mgo_Metrics o)) c)
      = if enableHTTP2 f then NextProtos c else ["http/1.1"])
  ∧ (∀ c, NextProtos (apply_tls (wo_TLSOpts (mgo_WebhookServer o)) c)
      = if enableHTTP2 f then NextProtos c else ["http/1.1"])
  ∧ (mo_SecureServing (mgo_Metrics o) = true → is_Some (mo_FilterProvider (mgo_Metrics o))).

Lemma manager_options_hardened f : hardened f (manager_options f).
Proof.
  unfold hardened, manager_options, metrics_options, webhook_options, tls_options. simpl.
  destruct (enableHTTP2 f), (secureMetrics f); simpl; repeat case_decide; simpl; by eauto.
Qed.

Lemma collectors_distinct : NoDup (col_Name <$> metrics_collectors).
Proof. apply (bool_decide_unpack _). vm_compute. exact I. Qed.

(** Runs set-up steps, with a case for each answer. *)
Ltac boot_cases answer :=
  unfold must, or_exit, step, exit1, panics, mbind, Boot_bind, mret, Boot_ret;
  repeat (cbn -[NewReconcilerFromEnv agentNodeName controllerNamespace manager_options
                controller_setup metrics_collectors];
    match goal with
    | |- context [match answer ?s with _ => _ end] => destruct (answer s) eqn:?
    | |- context [match NewReconcilerFromEnv ?g ?p with _ => _ end] =>
        destruct (NewReconcilerFromEnv g p) eqn:?
    | |- context [match agentNodeName ?v with _ => _ end] => destruct (agentNodeName v) eqn:?
    end).

(** C37: the manager starts only completely configured: it runs its set-up steps in
    this order, stops at the first failure with exit code 1 (a panic when a
    scheme or a metric cannot be registered; the metrics have distinct names),
    and reaches [StartManager] only with the
    reconciler the environment describes registered for its own and its owned
    objects and for the remote watcher, and with both health checks; the servers
    it configures do not offer HTTP/2 unless asked to, and authenticate the
    readers of secure metrics. *)
Theorem main_starts_configured `{KubeLib} f Getenv provider answer t res :
  process f Getenv provider answer = (t, res) →
  (res = inr tt ↔ ∃ r, NewReconcilerFromEnv Getenv provider = inr r
     ∧ t = boot_sequence f r ∧ Forall (λ s, answer s = None) t)
  ∧ (StartManager ∈ t → ∃ r, NewReconcilerFromEnv Getenv provider = inr r ∧ t = boot_sequence f r)
  ∧ (res = inr tt ∨ res = inl (Exited 1) ∨ res = inl Panicked)
  ∧ (∀ o, NewManager o ∈ t → hardened f o)
  ∧ (∀ cs, MustRegister cs ∈ t → NoDup (col_Name <$> cs)).
Proof.
  unfold process, metrics_init, init, main, SetupWithManager. boot_cases answer. all: intros [= <- <-].
  all: split; [split | split; [| split; [by naive_solver |split]]].
  all: try by (intros o; rewrite ?elem_of_cons, elem_of_nil; intros Ho;
    destruct_or! Ho; simplify_eq; first [apply manager_options_hardened|apply collectors_distinct]).
  all: try by (rewrite ?elem_of_cons, elem_of_nil; intros Ho;
    destruct_or! Ho; simplify_eq; eauto).
  all: try by intros (r' & Hr & Ht & HF); simplify_eq; decompose_Forall_hyps.
  all: try discriminate.
  all: intros _; eexists; split; [reflexivity | split; [reflexivity |]].
  by repeat constructor.
Qed.

(** Every set-up step succeeds in the environment of the example. *)
Lemma main_starts_configured_witness : ∃ r,
  process default_flags demo_getenv demo_cp (λ _, None) = (boot_sequence default_flags r, inr tt)
  ∧ (∀ o, NewManager o ∈ boot_sequence default_flags r → hardened default_flags o).
Proof.
  eexists. split; [reflexivity |].
  refine (proj1 (proj2 (proj2 (proj2 (main_starts_configured default_flags demo_getenv demo_cp
    (λ _, None) _ _ _))))). reflexivity.
Defined.

(** ** The connection killer's end *)

Section killer_end.
Context `{KubeLib} (fuel : nat).

(** The agent's loop gives up with the error of its context, and with nothing else. *)
Definition stopped_by_context (o : outcome (Agent * loop error)) (t : hist) : Prop :=
  ∀ a e, o = Ret (a, Exit e) → Ev CtxErr e ∈ t.

Lemma watch_loop_stops sessions rounds interval a :
  wp (watch_loop fuel sessions rounds interval a) stopped_by_context.
Proof.
  revert a. induction sessions as [|sessions IH]; intros a; simpl; [by apply wp_ret; intros ? ?|].
  apply wp_bind, wp_any. intros [[a1 [|[err|]]]|] t0; [by apply wp_ret; intros ? ?| | |by intros ? ?].
  - wp_step. destruct r as [e|]; [|wp_step; destruct r; [do 2 wp_step|]].
    + apply wp_ret. intros a' e' [= _ <-]. apply elem_of_app. right. constructor.
    + intros a' e' [= _ <-]. apply elem_of_app. right. repeat constructor.
    + eapply wp_mono; [apply IH|]. intros o t Ho a' e' ->. apply elem_of_app. right.
      do 2 constructor. by eapply Ho.
  - eapply wp_mono; [apply IH|]. intros o t Ho a' e' ->. apply elem_of_app. right. by eapply Ho.
Qed.
Lemma killer_run_stops sessions rounds agent :
  a_Clientset agent = true →
  wp (killer_run fuel sessions rounds agent) (λ o t, ∀ code, o = Ret (Exit code) →
    ∃ err, Ev CtxErr err ∈ t ∧ code = killer_exit err).
Proof.
  intros Hc. unfold killer_run, Watch. do 2 apply wp_bind.
  eapply (wp_mono _ (λ o _, returns (λ a, a_Clientset a = true) o ∨ o = Panic)).
  { unfold initFromConfigMap. repeat wp_step; simpl; auto. }
  intros [a|] t0; [|by intros _ ?]. intros [Ha|[=]]. simpl in Ha. rewrite Ha. simpl.
  eapply wp_mono; [apply watch_loop_stops|]. intros [[a' [|err]]|] t Hs; [..|done].
  - by apply wp_ret.
  - apply wp_ret. intros code [= <-]. exists err. split; [|done].
    rewrite !elem_of_app. left. right. by eapply Hs.
Qed.
Lemma killer_loop_stops sessions rounds agent :
  a_Clientset agent = true →
  wp (r ← killer_run fuel sessions rounds agent;
      mret match r with Running => Running | Exit code => Exit (Exited code) end)
    (λ o t, ∀ e, o = Ret (Exit e) →
       ∃ err, Ev CtxErr err ∈ t ∧ e = Exited (killer_exit err)).
Proof.
  intros Ha. apply wp_bind. eapply wp_mono; [by apply killer_run_stops|].
  intros [[|code]|] t Ht; [by apply wp_ret| |done].
  apply wp_ret. intros e [= <-]. destruct (Ht code eq_refl) as (err & Hin & ->).
  exists err. by rewrite app_nil_r.
Qed.
End killer_end.

Lemma killer_setup_result vars answer :
  match (killer_setup vars answer).2 with
  | inl e => e = Exited 1 ∨ e = Panicked
  | inr agent => a_Clientset agent = true
  end.
Proof.
  unfold killer_setup. boot_cases answer; simpl; auto.
Qed.

(** C38: the connection killer ends by a signal or not at all once it has
    started: it starts exactly when it knows its node and every set-up step
    succeeds, as the agent of that node; when it does not start the process
    exits with code 1 (or panics, on the scheme) before it has touched anything;
    and a started process ends only with the error its context gave, so with
    code 0 when that is the cancellation by a signal: no failed watch, read or
    kill ends it. *)
Theorem killer_ends_on_signal `{KubeLib} fuel vars answer sessions rounds E h e t :
  killer_main fuel vars answer sessions rounds E h = (Ret (Exit e), t) →
  (∀ agent, (killer_setup vars answer).2 = inr agent ↔
     Getenv vars "NODE_NAME" ≠ "" ∧ agent = {|
       a_NodeName := Getenv vars "NODE_NAME"; a_Namespace := controllerNamespace vars;
       a_Clientset := true; a_lastSeq := None |}
     ∧ Forall (λ s, answer s = None)
         [AddToScheme "clientgoscheme"; GetConfig; NewKubeClient; NewClientset])
  ∧ match (killer_setup vars answer).2 with
    | inl _ => t = [] ∧ (e = Exited 1 ∨ e = Panicked)
    | inr _ => (∃ err, Ev CtxErr err ∈ t ∧ e = Exited (killer_exit err))
        ∧ ((∀ err, Ev CtxErr err ∈ t → err = None ∨ err = Some context_Canceled) → e = Exited 0)
    end.
Proof.
  intros Hrun. split.
  - intros agent. clear. unfold killer_setup. boot_cases answer.
    all: unfold agentNodeName in *; case_bool_decide; simplify_eq.
    all: split; [intros Ha|intros (? & ? & HF)]; simplify_eq; try by decompose_Forall_hyps.
    simpl in Ha. simplify_eq. by repeat constructor.
  - unfold killer_main in Hrun. pose proof (killer_setup_result vars answer) as Hset.
    destruct (killer_setup vars answer) as [t0 [e0|agent]].
    + simpl in *. injection Hrun as <- <-. by split.
    + simpl in *. pose proof (killer_loop_stops fuel sessions rounds agent Hset E h) as Hx.
      rewrite Hrun in Hx. specialize (Hx e eq_refl).
      split; [done|]. intros Hsig. destruct Hx as (err & Hin & ->).
      destruct (Hsig err Hin) as [->| ->]; [done|]. unfold killer_exit. by rewrite decide_True.
Qed.

(** The first watch breaks and the process has been told to stop. *)
Definition demo_cancelled : Env := λ h o,
  match o as o return resp o → resp o with
  | CtxErr => λ _, Some context_Canceled
  | _ => λ x, x
  end (quiet h o).
Definition demo_vars : gmap string string := {[ "NODE_NAME" := "node-1" ]}.
Lemma killer_ends_on_signal_witness : ∃ t,
  killer_main 3 demo_vars (λ _, None) 2 2 demo_cancelled [] = (Ret (Exit (Exited 0)), t)
  ∧ ∃ err, Ev CtxErr err ∈ t ∧ Exited 0 = Exited (killer_exit err).
Proof.
  eexists. split; [vm_compute; reflexivity|].
  eapply (λ H, proj1 (proj2 (killer_ends_on_signal (H := demo_lib) 3 demo_vars (λ _, None) 2 2
    demo_cancelled [] _ _ H))). vm_compute. reflexivity.
Defined.
