(* ===== verification/Ownership.v ===== *)
(** * Ownership of what a reconcile creates

    Every object the controller creates beside the kill ConfigMap is of a kind
    the manager watches for its owner ([SetupWithManager]'s [Owns]) and carries a
    controller reference to the FailoverService being reconciled, so a change of
    it wakes the controller and its deletion follows the owner's.

    [tends m Φ]: as long as the server's answers about the FailoverService keep
    its UID, every creation of [m] is of that kind and the value of [m] satisfies
    [Φ]. *)
From stdpp Require Import base gmap strings list numbers.
From S2P Require Import Prelude GoStd GoNetIP Types Kube Logic ApiServer Fixtures ServiceManager Actions WaitRemote RemoteCluster Watcher Signaler Controller ControllerSpec ControllerProofs ControllerProps Main.

(** ** The triple *)

Definition same_uid (u : string) (k : kind) : kobj k → Prop :=
  match k with
  | KFailoverService => λ o, om_UID (fs_meta o) = u
  | _ => λ _, True
  end.
(** The local server's answers about FailoverServices are of the UID [u]. *)
Definition keeps_uid (u : string) (e : event) : Prop :=
  match e with
  | Ev (Get t k _) (inr o) | Ev (Update t k _) (inr o) =>
      match t_site t with Local => same_uid u k o | Remote _ => True end
  | Ev (UpdateStatus k _) (inr o) => same_uid u k o
  | _ => True
  end.

(** [m] has one owner, the object of UID [u]. *)
Definition owned_by (u : string) (m : ObjectMeta) : Prop :=
  ∃ ref, om_OwnerReferences m = [ref] ∧ or_UID ref = u.
Definition watched_kinds : list kind := [KService; KEndpointSlice; KJob; KFailoverEvent].
(** A creation is of the kill ConfigMap, or of an owned object. *)
Definition owned_creation (u : string) (e : event) : Prop :=
  match e with
  | Ev (Create k o) _ => k = KConfigMap ∨ k ∈ watched_kinds ∧ owned_by u (kmeta k o)
  | _ => True
  end.
(** Nothing but, possibly, a ConfigMap is created. *)
Definition creates_none (e : event) : Prop :=
  match e with Ev (Create k _) _ => k = KConfigMap | _ => True end.
Lemma creates_none_owned u e : creates_none e → owned_creation u e.
Proof. destruct e as [[] x]; simpl; auto. Qed.

Definition tends {A} (u : string) (m : IO A) (Φ : A → Prop) : Prop :=
  wp m (λ o t, Forall (keeps_uid u) t → Forall (owned_creation u) t ∧ ∀ a, o = Ret a → Φ a).

Section tends_rules.
Context {A B : Type} (u : string).

Lemma tends_ret (a : A) (Φ : A → Prop) : Φ a → tends u (mret a) Φ.
Proof. intros Ha. apply wp_ret. intros _. split; [done|]. by intros ? [= <-]. Qed.
Lemma tends_perform (o : op) (Φ : resp o → Prop) :
  (∀ x, owned_creation u (Ev o x)) → (∀ x, keeps_uid u (Ev o x) → Φ x) → tends u (perform o) Φ.
Proof.
  intros HG HΦ. apply wp_perform. intros x [Hx _]%Forall_cons_1.
  split; [by repeat constructor|]. intros ? [= <-]. by apply HΦ.
Qed.
Lemma tends_bind (m : IO A) (f : A → IO B) (Φ : A → Prop) (Ψ : B → Prop) :
  tends u m Φ → (∀ a, Φ a → tends u (f a) Ψ) → tends u (m ≫= f) Ψ.
Proof.
  intros Hm Hf. apply wp_bind. eapply wp_mono; [exact Hm|]. intros [a|] t Ht.
  - intros E h HR. apply Forall_app in HR as [HR HR']. destruct (Ht HR) as [HG Ha].
    destruct (Hf a (Ha a eq_refl) E h HR') as [HG' Hb]. split; [by apply Forall_app|done].
  - intros HR. destruct (Ht HR) as [HG _]. split; [done|]. by intros ? [=].
Qed.
Lemma tends_emits (m : IO A) (Φ : A → Prop) :
  emits creates_none m → (∀ a, Φ a) → tends u m Φ.
Proof.
  intros Hm HΦ. eapply wp_mono; [exact Hm|]. intros o t Ht _. split; [|auto].
  eapply Forall_impl; [apply creates_none_owned|exact Ht].
Qed.
Lemma tends_deref (x : option A) (Φ : A → Prop) : (∀ a, x = Some a → Φ a) → tends u (deref x) Φ.
Proof.
  intros HΦ. destruct x as [a|]; [by apply tends_ret, HΦ|].
  apply wp_panic. intros _. split; [done|]. by intros ? [=].
Qed.
(** A component whose events are known to be no creations. *)
Lemma tends_rg (P : event → Prop) (m : IO A) (Φ Ψ : A → Prop) :
  rg any_event P m Ψ → (∀ e, P e → creates_none e) → (∀ a, Ψ a → Φ a) → tends u m Φ.
Proof.
  intros Hm HP HΦ. eapply wp_mono; [exact Hm|]. intros o t Ht _.
  destruct Ht as [HG Ho]; [by apply Forall_true|]. split.
  - eapply Forall_impl; [|exact HG]. intros e He. by apply creates_none_owned, HP.
  - intros a ->. by apply HΦ.
Qed.
End tends_rules.

(** One step of a proof of [tends]; calls are left to the lemmas in [own]. *)
Create HintDb own.
Ltac tends_step :=
  cbv beta zeta;
  lazymatch goal with
  | |- tends _ (mret _) _ => apply tends_ret
  | |- tends _ (mbind ?f (mret ?a)) _ =>
      apply (tends_bind _ _ f (λ x, x = a)); [by apply tends_ret|intros ? ->]
  | |- tends _ (deref _) _ => apply tends_deref; intros
  | |- tends ?u (mbind ?f (deref ?x)) _ =>
      apply (tends_bind u _ f (λ a, x = Some a)); [by apply tends_deref|intros ?a ?Ha]
  | |- tends ?u (mbind ?f ?m) _ =>
      first [ let o := as_op m in
              apply (tends_bind u m f (λ x, keeps_uid u (Ev o x)));
                [apply tends_perform; [intros ?; try (by simpl; auto with own)|auto]|intros ?x ?Hx; simpl in Hx]
            | eapply tends_bind; [solve [eauto with own]|intros ?a ?Ha; simpl in Ha] ]
  | |- tends _ (match ?x with _ => _ end) _ => destruct x eqn:?
  | |- tends ?u ?m _ =>
      first [ let o := as_op m in apply tends_perform; [intros ?; try (by simpl; auto with own)|auto]
            | solve [eauto with own] ]
  end.

(** ** The owner *)

Section owner.
Context `{KubeLibLaws} (u : string).

(** [fs] is a version of the object of UID [u]. *)
Definition own (fs : FailoverService) : Prop := om_UID (fs_meta fs) = u.

Lemma new_ref_owned fs m :
  own fs → om_OwnerReferences m = [NewControllerRef (fs_meta fs)] → owned_by u m.
Proof.
  intros Ho Hm. exists (NewControllerRef (fs_meta fs)). split; [done|].
  destruct (controller_ref_owner (fs_meta fs)) as [-> _]. exact Ho.
Qed.

Lemma new_creation fs (k : kind) (o : kobj k) x :
  own fs → k ∈ watched_kinds → om_OwnerReferences (kmeta k o) = [NewControllerRef (fs_meta fs)] →
  owned_creation u (Ev (Create k o) x).
Proof. intros Ho Hk Hm. right. split; [done|]. by eapply new_ref_owned. Qed.

End owner.

Ltac new_creations Ho :=
  eapply new_creation; [exact Ho|unfold watched_kinds; set_solver|reflexivity].

(** ** The components *)

Section components.
Context `{KubeLibLaws} (u : string).

Lemma reconcileEndpointSlice_tends fs ip :
  own u fs → tends u (reconcileEndpointSlice fs ip) (λ _, True).
Proof. intros Ho. unfold reconcileEndpointSlice. repeat tends_step; auto; new_creations Ho. Qed.
Lemma deleteEndpointSlice_tends fs : tends u (deleteEndpointSlice fs) (λ _, True).
Proof. unfold deleteEndpointSlice. repeat tends_step; auto. Qed.
#[local] Hint Resolve reconcileEndpointSlice_tends deleteEndpointSlice_tends : own.

Lemma ReconcileWithAddress_tends fs address :
  own u fs → tends u (ReconcileWithAddress fs address) (λ _, True).
Proof.
  intros Ho. unfold ReconcileWithAddress, reconcileClusterIPService, reconcileExternalNameService.
  repeat tends_step; auto; new_creations Ho.
Qed.

(** The executors, run for a context whose owner is the object. *)
Lemma provider_at_creates_none p timeout : emits creates_none (provider_at p timeout).
Proof. unfold provider_at, GetClient. repeat emits_step; done. Qed.

Lemma WaitRemoteExecutor_creates_none p ctx action ns prefix i :
  emits creates_none (WaitRemoteExecutor_Execute (Some (provider_at p)) ctx action ns prefix i).
Proof.
  unfold WaitRemoteExecutor_Execute, checkPhase, checkActionName, findRecentRemoteEvent.
  repeat emits_step; try apply provider_at_creates_none; done.
Qed.
Lemma ScaleExecutor_creates_none ctx action ns prefix i :
  emits creates_none (ScaleExecutor_Execute (Some WaitReadyExecutor_Execute) ctx action ns prefix i).
Proof.
  unfold ScaleExecutor_Execute, getScalableObject, scale_get, scale_update,
    WaitReadyExecutor_Execute, checkDeployment, checkStatefulSet.
  repeat emits_step; done.
Qed.
Lemma WaitReadyExecutor_creates_none ctx action ns prefix i :
  emits creates_none (WaitReadyExecutor_Execute ctx action ns prefix i).
Proof.
  unfold WaitReadyExecutor_Execute, checkDeployment, checkStatefulSet. repeat emits_step; done.
Qed.
Lemma HTTPExecutor_creates_none ctx action ns prefix i :
  emits creates_none (HTTPExecutor_Execute ctx action ns prefix i).
Proof. unfold HTTPExecutor_Execute. repeat emits_step; done. Qed.

Lemma JobExecutor_tends fs ctx action ns prefix i :
  own u fs → ctx_OwnerRef ctx = Some (NewControllerRef (fs_meta fs)) →
  tends u (JobExecutor_Execute ctx action ns prefix i) (λ _, True).
Proof.
  intros Ho Hc. unfold JobExecutor_Execute. rewrite Hc.
  repeat tends_step; auto; new_creations Ho.
Qed.

Lemma Execute_tends p fs ctx action ns prefix i :
  own u fs → ctx_OwnerRef ctx = Some (NewControllerRef (fs_meta fs)) →
  tends u (MultiExecutor_Execute (NewMultiExecutor (Some (provider_at p))) ctx action ns prefix i)
    (λ _, True).
Proof.
  intros Ho Hc. unfold MultiExecutor_Execute.
  cbn [NewMultiExecutor me_HTTP me_Job me_Scale me_WaitReady me_WaitRemote fmap option_fmap option_map fst].
  destruct (fa_HTTP action); [apply tends_emits; [apply HTTPExecutor_creates_none|done]|].
  destruct (fa_Job action); [by eapply JobExecutor_tends|].
  destruct (fa_Scale action); [apply tends_emits; [apply ScaleExecutor_creates_none|done]|].
  destruct (fa_WaitReady action); [apply tends_emits; [apply WaitReadyExecutor_creates_none|done]|].
  destruct (fa_WaitRemote action); [apply tends_emits; [apply WaitRemoteExecutor_creates_none|done]|].
  by apply tends_ret.
Qed.
End components.
#[export] Hint Resolve ReconcileWithAddress_tends : own.

(** ** The handlers *)

Section handlers.
Context `{KubeLibLaws} (u : string) (r : FailoverServiceReconciler).

(** The collaborators [NewReconcilerFromEnv] gives the controller. *)
Record WiredCollaborators : Prop := {
  wired_syncer S : fr_Syncer r = Some S → ∃ s p, S = Sync s (provider_at p);
  wired_executor e : fr_ActionExecutor r = Some e → ∃ p, e = NewMultiExecutor (Some (provider_at p)) }.
Context (Hw : WiredCollaborators).

Definition answers_own (x : goerr + FailoverService) : Prop :=
  match x with inl _ => True | inr fs => own u fs end.

Lemma decoded_tends fs x : answers_own x → tends u (mret (decoded fs x)) answers_own.
Proof. intros Hx. apply tends_ret. by destruct x. Qed.
Lemma update_fs_tends fs : tends u (update_fs fs) answers_own.
Proof.
  eapply tends_bind; [|intros x; apply decoded_tends].
  apply (tends_perform u (Update local KFailoverService fs)); [done|]. intros [|fs']; auto.
Qed.
Lemma update_fs_status_tends fs : tends u (update_fs_status fs) answers_own.
Proof.
  eapply tends_bind; [|intros x; apply decoded_tends].
  apply (tends_perform u (UpdateStatus KFailoverService fs)); [done|]. intros [|fs']; auto.
Qed.
#[local] Hint Resolve update_fs_tends update_fs_status_tends : own.

Lemma set_condition_tends ty st reason msg fs :
  own u fs → tends u (set_condition ty st reason msg fs) (own u).
Proof. intros Ho. unfold set_condition. by repeat tends_step. Qed.
Lemma updateClusterStatus_tends p fs : own u fs → tends u (updateClusterStatus r p fs) (own u).
Proof. intros Ho. unfold updateClusterStatus. by repeat tends_step. Qed.
#[local] Hint Resolve set_condition_tends updateClusterStatus_tends : own.
Lemma persist_tends fs res : tends u (persist fs res) (λ _, True).
Proof. unfold persist, failed. by repeat tends_step. Qed.
Lemma service_error_tends fs p : tends u (service_error fs p) (λ _, True).
Proof. unfold service_error. by repeat tends_step. Qed.
Lemma updateFailoverEvent_tends fs o : tends u (updateFailoverEvent fs o) (λ _, True).
Proof.
  apply tends_emits; [|done]. unfold updateFailoverEvent. repeat emits_step; done.
Qed.
#[local] Hint Resolve persist_tends service_error_tends updateFailoverEvent_tends : own.
Lemma sync_failed_tends err fs : own u fs → tends u (sync_failed err fs) (own u).
Proof. intros Ho. unfold sync_failed. by repeat tends_step. Qed.
Lemma sync_done_tends fs : own u fs → tends u (sync_done fs) (own u).
Proof. apply set_condition_tends. Qed.
Lemma service_ready_tends fs : own u fs → tends u (service_ready fs) (own u).
Proof. apply set_condition_tends. Qed.
Lemma killed_condition_tends st reason msg fs :
  own u fs → tends u (killed_condition st reason msg fs) (own u).
Proof. apply set_condition_tends. Qed.
#[local] Hint Resolve sync_failed_tends sync_done_tends service_ready_tends killed_condition_tends : own.

Lemma Sync_tends S fs : fr_Syncer r = Some S → tends u (S fs) (λ _, True).
Proof.
  intros (s & p & ->)%wired_syncer; [|done]. eapply tends_rg; [apply Sync_safe|..]; [|done].
  intros [[] x]; simpl; try done.
Qed.
Lemma CleanupSignals_tends ns fns name : tends u (CleanupSignals ns fns name) (λ _, True).
Proof.
  eapply tends_rg; [apply CleanupSignals_safe|..]; [|done]. intros [[] x]; simpl; try done.
Qed.
Lemma SignalKill_tends ns ip tok fns name : tends u (SignalKill ns ip tok fns name) (λ _, True).
Proof. eapply tends_rg; [apply SignalKill_safe|..]; [|done]. intros [[] x]; simpl; try done. Qed.
Lemma CheckAcks_tends ns tok nodes fns name :
  tends u (CheckAcks ns tok nodes fns name) (λ _, True).
Proof. eapply tends_rg; [apply CheckAcks_safe|..]; [|done]. intros [[] x]; simpl; try done. Qed.
#[local] Hint Resolve Sync_tends CleanupSignals_tends SignalKill_tends CheckAcks_tends : own.

(** *** Transitions *)

(** The metadata survives the changes of the status. *)
Lemma applyRemoteWinnerState_meta rs b fs : fs_meta (applyRemoteWinnerState rs b fs) = fs_meta fs.
Proof. unfold applyRemoteWinnerState. destruct rs; [case_decide|]; done. Qed.
Ltac own_solve :=
  unfold own in *; cbn -[applyRemoteWinnerState]; rewrite ?applyRemoteWinnerState_meta; assumption.
#[local] Hint Extern 2 (own _ _) => own_solve : own.

Lemma createFailoverEvent_tends fs d trigger n :
  own u fs → tends u (createFailoverEvent fs d trigger n) (λ _, True).
Proof. intros Ho. unfold createFailoverEvent. repeat tends_step; auto; new_creations Ho. Qed.
#[local] Hint Resolve createFailoverEvent_tends : own.

Lemma beginTransition_tends fs trigger :
  own u fs → tends u (beginTransition r fs trigger) (λ _, True).
Proof. intros Ho. unfold beginTransition, failed. repeat tends_step; auto. Qed.
#[local] Hint Resolve beginTransition_tends : own.

Lemma cleanup_jobs_tends p ns results :
  tends u (cleanup_jobs (NewMultiExecutor (Some (provider_at p))) ns results) (λ _, True).
Proof.
  induction results as [|x results IH]; simpl; [by apply tends_ret|].
  apply (tends_bind _ _ _ (λ _, True)); [|by intros].
  case_decide; [|by apply tends_ret]. unfold MultiExecutor_Cleanup. simpl.
  eapply tends_rg; [apply JobExecutor_Cleanup_safe|..]; [|done]. intros [[] y]; simpl; done.
Qed.
Lemma complete_cleanup_tends fs : tends u (complete_cleanup r fs) (λ _, True).
Proof.
  unfold complete_cleanup, cleanupTransitionJobs. destruct (fs_transition fs) as [t|]; [|by apply tends_ret].
  apply (tends_bind _ _ _ (λ _, True)); [by repeat tends_step|intros _ _].
  apply (tends_bind _ _ _ (λ _, True)); [|intros _ _; by repeat tends_step].
  destruct (fr_ActionExecutor r) as [e|] eqn:He; [|by apply tends_ret].
  destruct (wired_executor Hw _ He) as [p ->]. apply cleanup_jobs_tends.
Qed.
#[local] Hint Resolve complete_cleanup_tends : own.

Lemma finish_transition_tends fs t : tends u (finish_transition fs t) (λ _, True).
Proof. unfold finish_transition, failed. by repeat tends_step. Qed.
#[local] Hint Resolve finish_transition_tends : own.

Lemma adopt_remote_completed_tends fs remote t b :
  tends u (adopt_remote_completed r fs remote t b) (λ _, True).
Proof.
  unfold adopt_remote_completed, failed. repeat tends_step; auto.
Qed.
Lemma adopt_remote_steady_tends fs remote b :
  tends u (adopt_remote_steady r fs remote b) (λ _, True).
Proof. unfold adopt_remote_steady, failed. repeat tends_step; auto. Qed.
#[local] Hint Resolve adopt_remote_completed_tends adopt_remote_steady_tends : own.

Lemma completeTransition_tends fs : own u fs → tends u (completeTransition r fs) (λ _, True).
Proof.
  intros Ho. unfold completeTransition. repeat tends_step; auto.
Qed.
Lemma finish_steady_tends fs : own u fs → tends u (finish_steady r fs) (λ _, True).
Proof. intros Ho. unfold finish_steady. repeat tends_step; auto. Qed.
#[local] Hint Resolve completeTransition_tends finish_steady_tends : own.
Lemma reconcileSteadyState_tends fs : own u fs → tends u (reconcileSteadyState r fs) (λ _, True).
Proof. intros Ho. unfold reconcileSteadyState. repeat tends_step; auto. Qed.
#[local] Hint Resolve reconcileSteadyState_tends : own.
Lemma reconcileIdle_tends fs : own u fs → tends u (reconcileIdle r fs) (λ _, True).
Proof.
  intros Ho. unfold reconcileIdle, ServiceManager.Reconcile, ReconcileWithDirection.
  repeat tends_step; auto.
Qed.

(** *** Actions *)

Lemma CheckTimeout_creates_none at_ t : emits creates_none (CheckTimeout at_ t).
Proof. unfold CheckTimeout. repeat emits_step; done. Qed.
Lemma check_action_timeout_tends fs b i a x limit :
  tends u (check_action_timeout fs b i a x limit) (λ _, True).
Proof.
  apply tends_emits; [|done]. unfold check_action_timeout, count_action, persist, failed, update_fs_status.
  repeat emits_step; first [apply CheckTimeout_creates_none|done].
Qed.
#[local] Hint Resolve check_action_timeout_tends : own.
Lemma handleActionState_tends fs b i a x :
  own u fs → tends u (handleActionState fs b i a x) (λ _, True).
Proof. intros Ho. unfold handleActionState. repeat tends_step; auto. Qed.
#[local] Hint Resolve handleActionState_tends : own.
Lemma action_error_tends fs b i a x err :
  tends u (action_error fs b i a x err) (λ _, True).
Proof. unfold action_error, count_action. repeat tends_step; auto. Qed.
Lemma action_completed_tends fs b i a x ok :
  tends u (action_completed fs b i a x ok) (λ _, True).
Proof.
  unfold action_completed, count_action. tends_step.
  apply (tends_bind _ _ _ (λ _, True)); [by repeat tends_step|intros _ _]. by tends_step.
Qed.
#[local] Hint Resolve action_error_tends action_completed_tends : own.
Lemma runAction_tends fs b i a x t : own u fs → tends u (runAction r fs b i a x t) (λ _, True).
Proof.
  intros Ho. unfold runAction. tends_step. destruct (wired_executor Hw _ Ha) as [p ->].
  apply (tends_bind _ _ _ (λ _, True)); [by apply (Execute_tends u p fs)|intros y _].
  repeat tends_step; auto.
Qed.
#[local] Hint Resolve runAction_tends : own.
Lemma executeActionPhase_tends fs b : own u fs → tends u (executeActionPhase r fs b) (λ _, True).
Proof.
  intros Ho. unfold executeActionPhase, end_action_phase. tends_step.
  assert (Ho' : own u (if (ts_CurrentActionIndex a <? 0)%Z
    then set_Transition (Some (if (ts_CurrentActionIndex a <? 0)%Z then set_ActionIndex 0 a else a)) fs
    else fs)) by by case_match.
  revert Ho'. generalize (if (ts_CurrentActionIndex a <? 0)%Z
    then set_Transition (Some (if (ts_CurrentActionIndex a <? 0)%Z then set_ActionIndex 0 a else a)) fs
    else fs) as fs'. intros fs' Ho'. repeat tends_step; auto.
Qed.
#[local] Hint Resolve executeActionPhase_tends : own.

(** *** The other phases *)

Lemma reconcileUpdatingResources_tends fs :
  own u fs → tends u (reconcileUpdatingResources r fs) (λ _, True).
Proof. intros Ho. unfold reconcileUpdatingResources. repeat tends_step; auto. Qed.

(** A step of the flush goes on with a version of the object. *)
Definition step_own (s : flush_step) : Prop :=
  match s with inl _ => True | inr (fs, _) => own u fs end.
Lemma ack_timed_out_tends fs msg : own u fs → tends u (ack_timed_out fs msg) step_own.
Proof. intros Ho. unfold ack_timed_out. repeat tends_step; done. Qed.
Lemma ack_timeout_tends ck : tends u (ack_timeout ck) (λ _, True).
Proof. unfold ack_timeout. repeat tends_step; done. Qed.
#[local] Hint Resolve ack_timed_out_tends ack_timeout_tends : own.
Lemma flush_signal_tends fs ns a t : own u fs → tends u (flush_signal r fs ns a t) step_own.
Proof. intros Ho. unfold flush_signal. repeat tends_step; done. Qed.
Lemma flush_acks_tends fs ns a ck : own u fs → tends u (flush_acks fs ns a ck) step_own.
Proof. intros Ho. unfold flush_acks. repeat tends_step; done. Qed.
#[local] Hint Resolve flush_signal_tends flush_acks_tends : own.
Lemma flush_kill_tends fs t : own u fs → tends u (flush_kill r fs t) step_own.
Proof. intros Ho. unfold flush_kill. repeat tends_step; done. Qed.
#[local] Hint Resolve flush_kill_tends : own.
Lemma flush_advance_tends fs : own u fs → tends u (flush_advance r fs) (λ _, True).
Proof. intros Ho. unfold flush_advance. repeat tends_step; auto. Qed.
Lemma reconcileFlushingConnections_tends fs :
  own u fs → tends u (reconcileFlushingConnections r fs) (λ _, True).
Proof.
  intros Ho. unfold reconcileFlushingConnections. do 2 tends_step.
  destruct a0 as [ans|[fs' b]]; [by tends_step|].
  apply (tends_bind _ _ _ (own u)); [destruct b; by tends_step|apply flush_advance_tends].
Qed.

Lemma forceAdvance_tends b t : tends u (forceAdvanceActionPhase b t) (λ _, True).
Proof. unfold forceAdvanceActionPhase. repeat tends_step; done. Qed.
#[local] Hint Resolve forceAdvance_tends : own.
Lemma handleForceAdvance_tends fs :
  own u fs → tends u (handleForceAdvance fs) (λ x, own u x.2).
Proof.
  intros Ho. unfold handleForceAdvance. tends_step; [|by tends_step]. tends_step.
  apply (tends_bind _ _ _ (λ _, True)); [by repeat tends_step|intros t' _]. by tends_step.
Qed.
#[local] Hint Resolve handleForceAdvance_tends : own.
Lemma reconcile_force_advance_tends fs :
  own u fs → tends u (reconcile_force_advance fs) (λ _, True).
Proof.
  intros Ho. unfold reconcile_force_advance, failed. tends_step.
  destruct a as [b fs']. apply (tends_bind _ _ _ answers_own); [by repeat tends_step|].
  intros y Hy. repeat tends_step; auto.
Qed.

(** *** Reconcile *)

Lemma ensure_tends (b : bool) m fs :
  own u fs → tends u (if b then update_fs (set_meta m fs) else mret (inr fs)) answers_own.
Proof. intros Ho. by repeat tends_step. Qed.
Lemma reset_unknown_phase_tends fs p :
  own u fs → tends u (reset_unknown_phase r fs p) (λ _, True).
Proof. intros Ho. unfold reset_unknown_phase. repeat tends_step; auto. Qed.
Lemma reconcile_deletion_tends fs : tends u (reconcile_deletion r fs) (λ _, True).
Proof.
  unfold reconcile_deletion, failed. tends_step; [|by tends_step].
  apply (tends_bind _ _ _ (λ _, True)); [by repeat tends_step|intros y _]. repeat tends_step; auto.
Qed.
Lemma Reconcile_tends req : tends u (Reconcile r req) (λ _, True).
Proof.
  unfold Reconcile, failed. tends_step. destruct x as [err|fs]; [by repeat tends_step|].
  tends_step; [apply reconcile_deletion_tends|].
  apply (tends_bind _ _ _ answers_own); [by apply ensure_tends|intros [err|fs1] H1; [by tends_step|]].
  apply (tends_bind _ _ _ answers_own); [by apply ensure_tends|intros [err|fs2] H2; [by tends_step|]].
  tends_step; [by apply reconcile_force_advance_tends|]. unfold dispatch. repeat case_match;
    first [by apply reconcileIdle_tends | by apply executeActionPhase_tends
          | by apply reconcileUpdatingResources_tends | by apply reconcileFlushingConnections_tends
          | by apply reset_unknown_phase_tends].
Qed.
End handlers.

Lemma configured_collaborators `{KubeLib} Getenv provider r :
  NewReconcilerFromEnv Getenv provider = inr r → WiredCollaborators r.
Proof.
  unfold NewReconcilerFromEnv. cbv zeta. generalize (if decide (Getenv "CONTROLLER_NAMESPACE" = "")
    then "k8s-failover-manager-system" else Getenv "CONTROLLER_NAMESPACE") as ns.
  generalize (if decide (Getenv "CLUSTER_ROLE" = "") then rolePrimary else Getenv "CLUSTER_ROLE")
    as role.
  intros role ns. do 4 (case_decide; [done|]). intros [= <-].
  split; intros x [= <-]; by repeat eexists.
Qed.

(** C11: what a reconcile creates is owned and watched: every object it creates
    beside the shared kill ConfigMap is of a kind whose changes
    [SetupWithManager] directs to the owning FailoverService, and its one owner
    reference is to the FailoverService being reconciled. *)
Theorem created_objects_owned `{KubeLibLaws} Getenv provider r req u E h k o x :
  NewReconcilerFromEnv Getenv provider = inr r →
  Forall (keeps_uid u) (Reconcile r req E h).2 →
  Ev (Create k o) x ∈ (Reconcile r req E h).2 →
  k = KConfigMap ∨ k ∈ cs_Owns (controller_setup r) ∧ owned_by u (kmeta k o).
Proof.
  intros Hr%configured_collaborators HR Hin.
  destruct (Reconcile_tends u r Hr req E h HR) as [HG _].
  apply list_elem_of_In in Hin. rewrite Forall_forall in HG. exact (HG _ Hin).
Qed.

(** ** Witness *)

#[export] Instance keeps_uid_dec u e : Decision (keeps_uid u e).
Proof.
  destruct e as [[] x]; simpl; try (left; exact I).
  1, 2: destruct x as [|o']; [left; exact I|]; destruct (t_site t); [|left; exact I];
    destruct k; simpl; apply _.
  destruct x as [|o']; [left; exact I|]. destruct k; simpl; apply _.
Defined.

(** The FailoverEvent of a transition that begins. *)
Lemma created_objects_owned_witness :
  ∃ o : FailoverEvent, owned_by "7f1c" (fe_meta o)
    ∧ om_Name (fe_meta o) = "mysql-failover-failover-3000000000".
Proof.
  eexists. split.
  - edestruct (created_objects_owned (H := demo_lib) demo_getenv demo_cp demo_reconciler demo_req
      "7f1c" (demo_world (demo_fs true)) [] KFailoverEvent) as [Hk|[_ Ho]];
      [exact demo_reconciler_configured| | |discriminate Hk|exact Ho].
    + apply (bool_decide_unpack _). vm_compute. exact I.
    + apply (list_elem_of_lookup_2 _ 6). vm_compute. reflexivity.
  - reflexivity.
Defined.
